(* ===== verification/_CoqProject ===== *)
-Q . S2P
Prelude.v
GoStrings.v
Sha256.v
Json.v
GoFloat.v
JsonFacts.v
Fs.v
FsFacts.v
InstallReceipt.v
LogFile.v
ProbeTypes.v
ProbeBudget.v
ProbeScheduler.v
TargetManager.v
Presence.v
ProbeCodec.v
JsonDecode.v
StateSample.v
ProbeSpool.v
ProbeSpoolFacts.v
ProbeSpoolSafety.v
ProbeSpoolInit.v
WindowsSpool.v
ProbeUploader.v
ProbeBacklog.v
NetAddr.v
GoUrl.v
NetworkIdentity.v
Client.v
PresenceConn.v
UploadRequest.v
Pipeline.v
AgentHttp.v
FloatOps.v
HostText.v
Metrics.v
MetricsFacts.v
DiskUsage.v
DarwinMetrics.v
WindowsMetrics.v
ProbeSafety.v
ProbeRun.v
AgentSystem.v
AgentMain.v
CommandLine.v
Service.v
