(* ===== verification/Prelude.v ===== *)
(** * Zeno Agent: a verification development

    The Zeno agent (Go, [src/internal/agent] and [src/cmd/zeno-agent]) runs on a
    node, reports its state to a Controller, and runs the network probes the
    Controller configures.  This library models the parts of it that decide
    something, as functions and transition systems translated from the source,
    and proves what makes them correct.

    ** The program and the files

    A Controller response goes through the target manager, which sanitises and
    versions it; the scheduler says which targets are due; a run probes them and
    hands the rounds to the spool, which persists them; the uploader posts the
    spooled batches and settles each one; the presence loop keeps a connection
    on which the Controller announces new configurations.  Beside them the main
    loop sends heartbeats, host reports and state reports through the client;
    the metrics collector makes the state reports from what the platform reads,
    the identity discoverer adds the public addresses to the host reports, and
    the first accepted reports certify an installation.  One file per part:

    - [Prelude]: machine integers, the [result] type, sums over lists, tactics
      and hints shared by all files.
    - [GoStrings], [Sha256], [Json], [GoFloat], [JsonFacts], [FloatOps]: what the
      source uses of Go's [strings], [strconv], [crypto/sha256], [encoding/json]
      and of its floating-point arithmetic, with the facts the components share
      (decimal round trips, that the parser accepts what an encoder writes, that
      rounding keeps 53 bits and makes no NaN).
    - [Fs], [FsFacts]: the file operations as a state monad over a finite map of
      files and a schedule of faults (an operation may fail, partially or not,
      or the process may die there), the atomic write and the synced removal of
      [probe_spool.go], and a weakest-precondition calculus for programs under
      a set of faults: [any_fault], [no_fault], and [reads_work], any error of an
      operation that writes and any death of the process, but no failed read.
    - [GoUrl], [JsonDecode], [HostText]: what the source uses of [net/url] and
      [net], of [json.Unmarshal] into structures, of [bufio.Scanner] and of
      [strconv.ParseFloat].
    - [ProbeTypes]: the probe records of [types.go] and Go's time; [StateSample]:
      the report records of [types.go], their JSON, and [state_sample_id.go].
    - [ProbeBudget]: [SanitizeProbeTargets], [LimitProbeTargetsForRun],
      [ProbeRunTimeout] of [probe.go].
    - [ProbeScheduler]: [probe_scheduler.go].
    - [TargetManager]: [probeTargetManager], [refreshProbeTargets] and
      [runDueProbes] of [main.go]; the calls are program counters of one system
      and its runs are all interleavings.  The manager relies on the probes
      through the class [ProbeRunner], which [ProbeRun] instantiates.
    - [Presence]: [presence.go]; the configuration handler is the class
      [ConfigHandler], instantiated with the target manager.
    - [ProbeCodec]: [marshalProbeResults], the envelope of [probe_spool.go] and
      what its reader accepts.
    - [ProbeSpool] (operations), [ProbeSpoolFacts] (lemmas per operation),
      [ProbeSpoolSafety] (theorems): [probe_spool.go]; [ProbeSpoolInit]: the
      directories it is opened in, [probe_spool_fs_unix.go]; [WindowsSpool]:
      [probe_spool_fs_windows.go] with the access list it writes.
    - [ProbeUploader]: [probe_uploader.go], one upload and the loop around it;
      [UploadRequest]: the request it makes through the client.
    - [ProbeBacklog] and [Pipeline]: the spool under every interleaving of
      [Enqueue], the steps of one uploader, time, crashes and restarts, with the
      history of what was enqueued and sent.  [AgentSystem] adds the target
      manager: its [Enqueue] is the pipeline's, and a crash restarts both.
    - [InstallReceipt]: [install_receipt.go].  [LogFile]: [log_file.go].
    - [Client]: [client.go], accepted addresses, the requests, their answers.
      [AgentHttp]: [newAgentHTTPClient] and the redirect loop it configures.
    - [PresenceConn]: one connection of [presence.go] through the client, a
      trace of calls that refines the message loop of [Presence].
    - [NetworkIdentity]: [network_identity.go].
    - [Metrics] (definitions), [MetricsFacts] (theorems): [metrics.go] and
      [memory_unix.go]; the record [readings] is what one platform reads at one
      moment, and [linux_readings], [darwin_readings], [windows_readings] are
      its three values.
    - [DiskUsage]: [disk_usage_unix.go], [disk_usage_darwin.go],
      [disk_usage_windows.go].
    - [DarwinMetrics]: [darwin_command.go], [darwin_metrics_parse.go],
      [platform_darwin_metrics.go], [memory_darwin.go].
    - [WindowsMetrics]: [windows_metrics_common.go], [platform_windows.go],
      [memory_windows.go].
    - [NetAddr]: [netip.Addr] with [ParseAddr] and [String], the forbidden
      ranges and the resolution of a host in [probe.go].
    - [ProbeSafety]: the URL rules, the redirect policy, the pinned resolver with
      overlapping calls and the dialler of [probe.go].
    - [ProbeRun]: the TCP, ping and HTTP probes, their samples and labels, the
      ping command line, and the goroutines of [ProbeTargets].
    - [AgentMain]: the configuration, the reports and the workers of [main.go].
      [CommandLine]: its [main] with the flags, and the default directories of
      [data_dir_*.go].  [Service]: [service_windows.go], the service handler as a
      step relation.

    Definitions have the names of the source where they translate one function;
    a loop body or a guard that is a definition of its own has a lower-case name
    and says so.  A Go [(value, error)] is [Ok] or [Err]; a map is a [gmap]; a
    64-bit integer is a [Z] wrapped by [i64] or [u64] where the source computes.

    ** What the theorems show

    - The whole path of a result, over all interleavings and restarts:
      [completed_runs_are_delivered] (from the probe run to the Controller; each
      completed run has results of its own in the history of the spool),
      [pipeline_loses_no_batch], [accepted_at_most_once], [queue_drains],
      [backlog_bounded_always].  These rest on the invariants [backlog], [sound],
      [traced] and [agent_inv] of the system's states.  The two about loss hold
      under [reads_work], since a failed read quarantines a valid batch; the one
      about bounds under any fault; the other two when nothing fails.
    - Probe data is not lost or torn: [atomic_write_is_atomic],
      [enqueue_load_round_trip], [live_items_survive], [ack_removes_its_item],
      [schedule_retry_atomic], [quarantine_bounded_and_exact],
      [upload_accounts_for_every_batch], [batches_leave_only_when_delivered],
      [settlement_is_durable], [spool_opened_in_real_directories],
      [windows_directory_private],
      [cancellation_consumes_no_attempt], [run_survives_controller] (which errors
      stop the runner, and of which [OnRejected] is told: of retries with a status
      too, a deviation of the code from its documentation); the queue
      is bounded and ordered: [enqueue_within_limits], [next_selects_first_due],
      [earlier_items_sort_first]; retries back off: [retry_delay_bounded],
      [upload_backoff_doubles_to_cap], [default_jitter_spreads_retries].
    - A probe cannot be turned against the node or its network:
      [resolve_returns_only_safe_addresses] (up to two addresses with a zone that
      the code lets through, [zoned_exception]), [resolver_pins_names],
      [dial_reaches_only_checked_addresses], [accepted_urls],
      [redirects_stay_safe], [ping_command_well_formed],
      [rotation_is_a_permutation].
    - A Controller cannot exhaust the node: [sanitize_bounds], [limit_greedy],
      [limit_idempotent], [run_timeout_covers_budget],
      [probe_concurrency_bounded], [reconnect_waits_bounded],
      [reconnect_backoff_exponential], [production_reconnects].
    - Configurations move forward and results belong to the configuration they
      were measured under: [update_spec], [spooled_versions_ordered],
      [current_batch_targets], [gates_exclusive_and_live],
      [refresh_returns_applied], [acks_name_applied_versions],
      [presence_connection_sound], [due_after_mark].
    - Results are complete and well formed: [probe_samples_complete],
      [probe_targets_result].
    - The agent talks only to whom it should: [token_goes_to_accepted_controllers],
      [token_never_follows_redirects], [answers_are_bounded], [presence_address_follows_controller],
      [identity_requests_stay_safe]; what it takes from the answers is what was
      sent, or well formed: [fetched_configuration_round_trip],
      [identity_well_formed], [known_identity_never_cleared].
    - A report says what was read: [reports_follow_latest_readings] (a refinement:
      the collector's state is the memory of the latest successful readings),
      [state_reports_well_formed], [cpu_percent_bounded], [linux_totals_are_sums],
      [darwin_interfaces_counted_once], [windows_totals_are_sums],
      [mounted_devices_counted_once], [used_within_total],
      [counter_identity_ignores_order], [mountinfo_round_trip],
      [state_identifiers_stable].
    - The platform cannot make the agent grow or hang: [command_output_bounded],
      [streamed_totals_equal_parsed], [table_calls_bounded],
      [growing_table_counted], [worker_time_limits],
      [workers_stop_with_their_context].
    - The agent starts and stops as it should: [command_line_round_trip],
      [flags_are_assignments], [durations_exact], [flag_parse_terminates],
      [agent_starts_on_valid_configurations], [service_protocol]; the log only
      grows: [log_writes_append], [records_survive_rotation].
    - The install receipt: [receipt_only_after_both],
      [receipt_written_when_complete], and with the reports that mark it
      [receipt_certifies_accepted_reports].

    A theorem about files quantifies over every schedule of faults its predicate
    allows; a theorem about a transition system quantifies over every reachable
    state.  The numbered theorems with hypotheses are followed by a witness at a
    concrete input.

    ** Fuel

    Recursion is structural wherever the source recurses over data.  String
    scanners carry the length of their input as fuel, which they cannot exceed;
    decimal printing uses [log2] of the number plus one digits; the shortest
    decimal of a float stops at 17 digits, which always suffice for binary64, and
    its decimal point is found within 400 steps, beyond the exponents of binary64
    (308 and -324); [netip] parsing reads at most eight groups.  The redirects
    of an identity provider carry the fuel 5, the limit of the source; the
    resize loop of a Windows table carries its five attempts.  The retry
    backoff loop runs at most the attempt counter, of which only the first nine
    steps change the delay ([upload_backoff_doubles_to_cap]).  The flag parser
    carries the number of arguments plus one, which [flag_parse_terminates] shows
    to be enough; a duration's loop carries the length of its text, of which each
    round reads a unit; the redirect loop of the agent's client carries one round,
    and [do_never_follows] shows that more change nothing.

    ** What is an argument

    The network, the DNS, processes, clocks, contexts, random sources and HTTP
    exchanges are arguments or events, so theorems hold for all their
    behaviours.  So are the contents of the files under /proc, [statfs],
    [sysctl], the output of the commands run on macOS, the calls of the Windows
    API and what [golang.org/x/sys] defines.  [url.Parse], [url.ParseRequestURI]
    and [URL.String], [http.ParseTime] and the conversion of an out-of-range
    float to an integer are arguments as well, because they differ between Go
    releases or machines.

    ** What is not modelled

    The WebSocket library behind [presence.go]; what Windows does with an access
    list; the stubs of [platform_nonwindows.go] and
    [platform_notdarwin_metrics.go], which return zero values; the settings of
    the HTTP transports; the texts of errors and log lines. *)

From stdpp Require Export base tactics list strings gmap numbers option sorting.
From Stdlib Require Export ZArith Lia.
From Stdlib Require Ascii String.
Export Stdlib.Strings.Ascii(ascii(..), N_of_ascii, ascii_of_N).
Export (notations) Stdlib.Strings.Ascii.

#[global] Open Scope Z_scope.

(** ** Machine integers

    Go's [int], [int64] and [time.Duration] are 64-bit two's complement, so an
    arithmetic result [z] is stored as [i64 z]; [uint64] stores [u64 z] and
    [uint32] stores [u32 z]. *)
Definition two63 : Z := 2 ^ 63.
Definition two64 : Z := 2 ^ 64.
Definition two32 : Z := 2 ^ 32.
Definition maxInt64 : Z := two63 - 1.
Definition minInt64 : Z := - two63.

Definition i64 (z : Z) : Z := (z + two63) mod two64 - two63.
Definition u64 (z : Z) : Z := z mod two64.
Definition u32 (z : Z) : Z := z mod two32.

Definition in_i64 (z : Z) : Prop := minInt64 <= z <= maxInt64.

(** ** Results: Go's [(value, error)] pairs *)
Inductive result (E A : Type) : Type :=
| Ok (a : A)
| Err (e : E).
Arguments Ok {E A} a.
Arguments Err {E A} e.

#[export] Instance result_ret {E} : MRet (result E) := fun _ a => Ok a.
#[export] Instance result_bind {E} : MBind (result E) :=
  fun _ _ f r => match r with Ok a => f a | Err e => Err e end.

(** ** Go library functions on numbers *)
Definition nonNegativeInt64 (value : Z) : Z := if value <? 0 then 0 else value.

(** ** Sums of integer lists *)
Fixpoint Zsum (l : list Z) : Z :=
  match l with
  | [] => 0
  | x :: l => x + Zsum l
  end.

(** ** Tactics *)

(** Splits every boolean test of [Z] that the goal or a hypothesis branches on. *)
Ltac zcase :=
  repeat match goal with
  | |- context [ ?a <=? ?b ] => destruct (Z.leb_spec a b)
  | |- context [ ?a <? ?b ] => destruct (Z.ltb_spec a b)
  | |- context [ ?a =? ?b ] => destruct (Z.eqb_spec a b)
  | H : context [ ?a <=? ?b ] |- _ => destruct (Z.leb_spec a b)
  | H : context [ ?a <? ?b ] |- _ => destruct (Z.ltb_spec a b)
  | H : context [ ?a =? ?b ] |- _ => destruct (Z.eqb_spec a b)
  end.

(** Splits the innermost [match] or [if] of a hypothesis and keeps the equation. *)
Ltac split_match_in H :=
  match type of H with
  | context [ match ?x with _ => _ end ] =>
      lazymatch x with
      | context [ match _ with _ => _ end ] => fail
      | _ => destruct x eqn:?; simplify_eq
      end
  end.

(** ** Lemmas *)
Lemma i64_id (z : Z) : in_i64 z -> i64 z = z.
Proof.
  unfold in_i64, i64, minInt64, maxInt64, two63, two64. intros H.
  rewrite Z.mod_small; lia.
Qed.

Lemma i64_range (z : Z) : in_i64 (i64 z).
Proof.
  unfold in_i64, i64, minInt64, maxInt64, two63, two64.
  pose proof (Z.mod_pos_bound (z + 2 ^ 63) (2 ^ 64) ltac:(lia)). lia.
Qed.

Lemma u64_id (z : Z) : 0 <= z < two64 -> u64 z = z.
Proof. intros. by apply Z.mod_small. Qed.

Lemma u64_range (z : Z) : 0 <= u64 z < two64.
Proof. unfold u64, two64. apply Z.mod_pos_bound. lia. Qed.

Lemma u32_id (z : Z) : 0 <= z < two32 -> u32 z = z.
Proof. intros. by apply Z.mod_small. Qed.

Lemma nonNegativeInt64_nonneg (z : Z) : 0 <= nonNegativeInt64 z.
Proof. unfold nonNegativeInt64. zcase; lia. Qed.

Lemma Zsum_app (l k : list Z) : Zsum (l ++ k) = Zsum l + Zsum k.
Proof. induction l; simpl; lia. Qed.

Lemma Zsum_nonneg' {A} (f : A -> Z) (l : list A) : (forall a, 0 <= f a) -> 0 <= Zsum (map f l).
Proof. intros Hf. induction l as [|x l IH]; simpl; [lia|]. specialize (Hf x). lia. Qed.

Lemma Zsum_insert {A} (f : A -> Z) (l : list A) (i : nat) (x y : A) :
  l !! i = Some x -> Zsum (map f (<[i := y]> l)) = Zsum (map f l) - f x + f y.
Proof.
  revert i. induction l as [|z l IH]; intros [|i]; simpl; intros H; try done.
  - simplify_eq. lia.
  - rewrite (IH _ H). lia.
Qed.

Lemma Zsum_lookup_le {A} (f : A -> Z) (l : list A) (i : nat) (x : A) :
  (forall a, 0 <= f a) -> l !! i = Some x -> f x <= Zsum (map f l).
Proof.
  intros Hf. revert i. induction l as [|z l IH]; intros [|i]; simpl; intros H; try done.
  - simplify_eq. assert (0 <= Zsum (map f l)); [|lia].
    apply Zsum_nonneg', Hf.
  - specialize (IH _ H). specialize (Hf z). lia.
Qed.

Lemma Zsum_zero {A} (f : A -> Z) (l : list A) :
  Forall (fun a => f a = 0) l -> Zsum (map f l) = 0.
Proof. induction 1; simpl; lia. Qed.

Lemma Zsum_two {A} (f : A -> Z) (l : list A) (i j : nat) (x y : A) :
  (forall a, 0 <= f a) -> i <> j -> l !! i = Some x -> l !! j = Some y ->
  f x + f y <= Zsum (map f l).
Proof.
  intros Hf Hij Hi Hj.
  revert i j Hij Hi Hj.
  induction l as [|z l IH]; intros [|i] [|j] Hij Hi Hj; simpl in *; try done.
  - simplify_eq. pose proof (Zsum_lookup_le f l j y Hf Hj). lia.
  - simplify_eq. pose proof (Zsum_lookup_le f l i x Hf Hi). lia.
  - specialize (IH i j ltac:(lia) Hi Hj). specialize (Hf z). lia.
Qed.

(** A sum of zeros and ones is zero or has a one. *)
Lemma Zsum_one {A} (f : A -> Z) (l : list A) :
  (forall a, f a = 0 \/ f a = 1) ->
  Zsum (map f l) = 0 \/ exists j x, l !! j = Some x /\ f x = 1.
Proof.
  intros Hf. induction l as [|x l IH]; [by left|]. simpl.
  destruct (Hf x) as [H0|H1].
  - destruct IH as [H|(j & y & Hj & Hy)]; [left; lia|]. right. by exists (S j), y.
  - right. by exists O, x.
Qed.

Lemma Sorted_app_const (l k : list Z) (v : Z) :
  Sorted Z.le l -> Forall (fun w => w <= v) l -> Forall (fun w => w = v) k ->
  Sorted Z.le (l ++ k).
Proof.
  intros Hl Hle Hk. induction Hl as [|x l Hl IH Hx]; simpl.
  - induction Hk as [|y k -> Hk IH]; constructor; [done|].
    destruct Hk; constructor; lia.
  - inversion Hle; subst. constructor; [by apply IH|].
    destruct Hx; simpl; [|constructor; lia]. destruct Hk; constructor; lia.
Qed.

Lemma Zsum_nonneg (l : list Z) : Forall (fun x => 0 <= x) l -> 0 <= Zsum l.
Proof. induction 1; simpl; lia. Qed.

Lemma Zsum_pos_nonempty (l : list Z) :
  Forall (fun x => 0 < x) l -> l <> [] -> 0 < Zsum l.
Proof.
  intros H Hne. destruct H as [|x l Hx Hl]; [done|]. simpl.
  assert (0 <= Zsum l); [|lia].
  apply Zsum_nonneg. eapply Forall_impl; [exact Hl|]. simpl. lia.
Qed.

Lemma result_bind_Ok {E A B} (r : result E A) (f : A -> result E B) b :
  r ≫= f = Ok b -> exists a, r = Ok a /\ f a = Ok b.
Proof. destruct r; simpl; intros; [eauto|discriminate]. Qed.

Lemma quot_div_nonneg (a b : Z) : 0 <= a -> 0 < b -> a ÷ b = a / b.
Proof. intros. apply Z.quot_div_nonneg; lia. Qed.

Create HintDb zeno.
Create Rewrite HintDb zeno_rw.
#[export] Hint Resolve nonNegativeInt64_nonneg i64_range u64_range Zsum_nonneg : zeno.
#[export] Hint Rewrite @length_app @length_map @length_take Zsum_app : zeno_rw.

Lemma Zsum_perm (l k : list Z) : l ≡ₚ k -> Zsum l = Zsum k.
Proof. induction 1; simpl; lia. Qed.

(** A sum over fewer elements is smaller. *)
Lemma Zsum_submseteq {A} (f : A -> Z) (l k : list A) :
  (forall a, 0 <= f a) -> l ⊆+ k -> Zsum (map f l) <= Zsum (map f k).
Proof.
  intros Hf (l' & Hp)%submseteq_Permutation.
  rewrite (Zsum_perm _ _ (Permutation_map f Hp)), map_app, Zsum_app.
  pose proof (Zsum_nonneg' f l' Hf). lia.
Qed.
