(* ===== verification/GoStrings.v ===== *)
(** * The parts of Go's [strings] and [strconv] packages the agent uses

    A Go string is a sequence of bytes, here [string].  White space is the
    Unicode white space of [unicode.IsSpace] in its UTF-8 encoding.  Case
    mappings are exact on ASCII and on the non-ASCII runes whose image is ASCII
    (U+0130 and U+212A for [ToLower], U+0131 and U+017F for [ToUpper], U+017F
    and U+212A for [EqualFold]); other runes are left alone, which no decision
    of the agent can observe because it compares results with ASCII literals. *)

From S2P Require Export Prelude.

(** ** Bytes *)
Definition byte_val (c : ascii) : Z := Z.of_N (N_of_ascii c).
Definition chr (n : Z) : ascii := ascii_of_N (Z.to_N n).

Fixpoint bytes (l : list Z) : string :=
  match l with
  | [] => ""
  | n :: l => String (chr n) (bytes l)
  end.

Fixpoint str_rev_onto (s acc : string) : string :=
  match s with
  | EmptyString => acc
  | String c s => str_rev_onto s (String c acc)
  end.
Definition str_rev (s : string) : string := str_rev_onto s "".

(** [len(s)] as a Go [int]. *)
Definition str_len (s : string) : Z := Z.of_nat (String.length s).

(** ** Prefixes, suffixes and searching *)
Fixpoint strip_prefix (p s : string) : option string :=
  match p, s with
  | EmptyString, _ => Some s
  | String a p, String b s => if decide (a = b) then strip_prefix p s else None
  | _, _ => None
  end.

Definition HasPrefix (s p : string) : bool :=
  match strip_prefix p s with Some _ => true | None => false end.

Definition strip_suffix (suf s : string) : option string :=
  str_rev <$> strip_prefix (str_rev suf) (str_rev s).

Definition HasSuffix (s suf : string) : bool :=
  match strip_suffix suf s with Some _ => true | None => false end.

Definition TrimSuffix (s suf : string) : string :=
  match strip_suffix suf s with Some r => r | None => s end.

(** [strings.Cut(s, sep)]: the text before and after the first [sep]. *)
Fixpoint Cut (s sep : string) : option (string * string) :=
  match strip_prefix sep s with
  | Some r => Some ("", r)
  | None =>
      match s with
      | EmptyString => None
      | String c s =>
          match Cut s sep with
          | Some (b, a) => Some (String c b, a)
          | None => None
          end
      end
  end.

Definition Contains (s sub : string) : bool :=
  match Cut s sub with Some _ => true | None => false end.

Fixpoint str_exists (f : ascii -> bool) (s : string) : bool :=
  match s with
  | EmptyString => false
  | String c s => f c || str_exists f s
  end.
Fixpoint str_forall (f : ascii -> bool) (s : string) : bool :=
  match s with
  | EmptyString => true
  | String c s => f c && str_forall f s
  end.

Definition byte_in (set : string) (c : ascii) : bool := str_exists (Ascii.eqb c) set.

(** [strings.ContainsAny] for a set of ASCII bytes. *)
Definition ContainsAny (s set : string) : bool := str_exists (byte_in set) s.

(** [strings.Split(s, sep)] for a non-empty [sep]. *)
Fixpoint split_fuel (n : nat) (s sep : string) : list string :=
  match n with
  | O => [s]
  | S n =>
      match Cut s sep with
      | Some (b, a) => b :: split_fuel n a sep
      | None => [s]
      end
  end.
Definition Split (s sep : string) : list string := split_fuel (String.length s) s sep.

(** ** Trimming *)
Fixpoint trim_left_in (set s : string) : string :=
  match s with
  | EmptyString => ""
  | String c r => if byte_in set c then trim_left_in set r else s
  end.
Definition TrimRight (s set : string) : string := str_rev (trim_left_in set (str_rev s)).

(** [strings.Trim] with a cut set of ASCII bytes. *)
Definition Trim (s set : string) : string := TrimRight (trim_left_in set s) set.

(** The UTF-8 encodings of the runes of [unicode.IsSpace]. *)
Definition space_runes : list string :=
  map bytes [[9]; [10]; [11]; [12]; [13]; [32]; [194; 133]; [194; 160]; [225; 154; 128];
    [226; 128; 128]; [226; 128; 129]; [226; 128; 130]; [226; 128; 131]; [226; 128; 132];
    [226; 128; 133]; [226; 128; 134]; [226; 128; 135]; [226; 128; 136]; [226; 128; 137];
    [226; 128; 138]; [226; 128; 168]; [226; 128; 169]; [226; 128; 175]; [226; 129; 159];
    [227; 128; 128]].

Fixpoint strip_any (ps : list string) (s : string) : option string :=
  match ps with
  | [] => None
  | p :: ps =>
      match strip_prefix p s with
      | Some r => Some r
      | None => strip_any ps s
      end
  end.

Fixpoint trim_left_runes (ps : list string) (n : nat) (s : string) : string :=
  match n with
  | O => s
  | S n =>
      match strip_any ps s with
      | Some r => trim_left_runes ps n r
      | None => s
      end
  end.

Definition TrimLeftSpace (s : string) : string :=
  trim_left_runes space_runes (String.length s) s.
Definition TrimRightSpace (s : string) : string :=
  str_rev (trim_left_runes (map str_rev space_runes) (String.length s) (str_rev s)).
Definition TrimSpace (s : string) : string := TrimRightSpace (TrimLeftSpace s).

(** [strings.Fields]: the maximal runs of non-space text. *)
Definition flush_field (cur : string) (rest : list string) : list string :=
  match cur with
  | EmptyString => rest
  | _ => str_rev cur :: rest
  end.
Fixpoint fields_fuel (n : nat) (s cur : string) : list string :=
  match n with
  | O => flush_field cur []
  | S n =>
      match strip_any space_runes s with
      | Some r => flush_field cur (fields_fuel n r "")
      | None =>
          match s with
          | EmptyString => flush_field cur []
          | String c r => fields_fuel n r (String c cur)
          end
      end
  end.
Definition Fields (s : string) : list string := fields_fuel (S (String.length s)) s "".

(** ** Case *)
Definition lower_byte (c : ascii) : ascii :=
  let v := byte_val c in if (65 <=? v) && (v <=? 90) then chr (v + 32) else c.
Definition upper_byte (c : ascii) : ascii :=
  let v := byte_val c in if (97 <=? v) && (v <=? 122) then chr (v - 32) else c.

(** Maps a string byte by byte with [f], after replacing the two-byte rune
    [p2] by [r2] and the three-byte rune [p3] by [r3]. *)
Section CaseMap.
Variables (f : ascii -> ascii) (two : list (Z * Z * Z)) (three : list (Z * Z * Z * Z)).

Definition two_hit (a b : ascii) : option ascii :=
  (fun '(_, _, r) => chr r) <$>
    List.find (fun '(x, y, _) => (byte_val a =? x) && (byte_val b =? y)) two.
Definition three_hit (a b c : ascii) : option ascii :=
  (fun '(_, _, _, r) => chr r) <$>
    List.find (fun '(x, y, z, _) =>
      (byte_val a =? x) && (byte_val b =? y) && (byte_val c =? z)) three.

Fixpoint case_map (s : string) : string :=
  match s with
  | EmptyString => ""
  | String a s1 =>
      match s1 with
      | String b s2 =>
          match two_hit a b with
          | Some r => String r (case_map s2)
          | None =>
              match s2 with
              | String c s3 =>
                  match three_hit a b c with
                  | Some r => String r (case_map s3)
                  | None => String (f a) (case_map s1)
                  end
              | EmptyString => String (f a) (case_map s1)
              end
          end
      | EmptyString => String (f a) ""
      end
  end.
End CaseMap.

Definition ToLower (s : string) : string :=
  case_map lower_byte [(196, 176, 105)] [(226, 132, 170, 107)] s.
Definition ToUpper (s : string) : string :=
  case_map upper_byte [(196, 177, 73); (197, 191, 83)] [] s.
Definition fold_case (s : string) : string :=
  case_map lower_byte [(197, 191, 115)] [(226, 132, 170, 107)] s.
Definition EqualFold (s t : string) : bool := bool_decide (fold_case s = fold_case t).

(** ** Decimal numbers *)
Definition is_digit (c : ascii) : bool := (48 <=? byte_val c) && (byte_val c <=? 57).
Definition digit_val (c : ascii) : Z := byte_val c - 48.
Definition digit_chr (d : Z) : ascii := chr (48 + d).

Fixpoint digits_fuel (n : nat) (z : Z) (acc : string) : string :=
  match n with
  | O => acc
  | S n =>
      let acc := String (digit_chr (z mod 10)) acc in
      if z <? 10 then acc else digits_fuel n (z / 10) acc
  end.
Definition utoa (z : Z) : string := digits_fuel (S (Z.to_nat (Z.log2 z))) z "".

(** [strconv.Itoa], and [%d]. *)
Definition Itoa (z : Z) : string := if z <? 0 then "-" +:+ utoa (- z) else utoa z.

(** The [w] low decimal digits of [z], zero padded. *)
Fixpoint fixed_digits (w : nat) (z : Z) (acc : string) : string :=
  match w with
  | O => acc
  | S w => fixed_digits w (z / 10) (String (digit_chr (z mod 10)) acc)
  end.

(** [fmt.Sprintf("%020d", z)] for an [int64]. *)
Definition pad020 (z : Z) : string :=
  if z <? 0 then "-" +:+ fixed_digits 19 (- z) "" else fixed_digits 20 z "".

Inductive num_error := ErrSyntax | ErrRange.

Fixpoint digits_value (s : string) (acc : Z) : Z :=
  match s with
  | EmptyString => acc
  | String c s => digits_value s (acc * 10 + digit_val c)
  end.

Definition all_digits (s : string) : bool :=
  match s with EmptyString => false | _ => str_forall is_digit s end.

(** [strconv.ParseUint(s, 10, 64)]. *)
Definition ParseUint (s : string) : result num_error Z :=
  if all_digits s then
    let v := digits_value s 0 in if v <? two64 then Ok v else Err ErrRange
  else Err ErrSyntax.

(** The optional sign of a signed decimal. *)
Definition split_sign (s : string) : bool * string :=
  match s with
  | EmptyString => (false, s)
  | String c r =>
      if byte_val c =? 45 then (true, r) else if byte_val c =? 43 then (false, r) else (false, s)
  end.

(** [strconv.ParseInt(s, 10, 64)], and [strconv.Atoi] on a 64-bit platform. *)
Definition ParseInt (s : string) : result num_error Z :=
  let '(neg, body) := split_sign s in
  if all_digits body then
    let v := digits_value body 0 in
    if neg then if v <=? two63 then Ok (- v) else Err ErrRange
    else if v <? two63 then Ok v else Err ErrRange
  else Err ErrSyntax.

(** ** Hexadecimal, as [encoding/hex.EncodeToString] writes it *)
Definition hex_chr (d : Z) : ascii := if d <? 10 then chr (48 + d) else chr (87 + d).
Fixpoint hex_encode (s : string) : string :=
  match s with
  | EmptyString => ""
  | String c s =>
      String (hex_chr (byte_val c / 16)) (String (hex_chr (byte_val c mod 16)) (hex_encode s))
  end.

Fixpoint Join (l : list string) (sep : string) : string :=
  match l with
  | [] => ""
  | [s] => s
  | s :: l => s +:+ sep +:+ Join l sep
  end.

(** ** Lemmas on bytes and concatenation *)
Lemma app_nil_l_str (s : string) : "" +:+ s = s.
Proof. done. Qed.

Lemma app_cons_str c (s t : string) : String c s +:+ t = String c (s +:+ t).
Proof. done. Qed.

Lemma app_assoc_str (s t u : string) : (s +:+ t) +:+ u = s +:+ t +:+ u.
Proof. induction s as [|c s IH]; [done|]. rewrite !app_cons_str. by rewrite IH. Qed.

Lemma app_nil_r_str (s : string) : s +:+ "" = s.
Proof. induction s as [|c s IH]; [done|]. rewrite app_cons_str. by rewrite IH. Qed.

Lemma length_app_str (s t : string) :
  String.length (s +:+ t) = (String.length s + String.length t)%nat.
Proof. induction s as [|c s IH]; [done|]. rewrite app_cons_str. simpl. by rewrite IH. Qed.

Create Rewrite HintDb str.
#[export] Hint Rewrite app_nil_l_str app_cons_str app_assoc_str app_nil_r_str : str.
Ltac strsimpl := autorewrite with str in *.

Lemma byte_val_range c : 0 <= byte_val c < 256.
Proof.
  unfold byte_val. pose proof (Ascii.N_ascii_bounded c). lia.
Qed.

Lemma byte_val_chr n : 0 <= n < 256 -> byte_val (chr n) = n.
Proof. intros H. unfold byte_val, chr. rewrite Ascii.N_ascii_embedding; lia. Qed.

Lemma chr_byte_val c : chr (byte_val c) = c.
Proof. unfold byte_val, chr. by rewrite N2Z.id, Ascii.ascii_N_embedding. Qed.

Lemma byte_val_inj c d : byte_val c = byte_val d -> c = d.
Proof. intros H. by rewrite <- (chr_byte_val c), H, chr_byte_val. Qed.

Lemma strip_prefix_app p s : strip_prefix p (p +:+ s) = Some s.
Proof.
  induction p as [|c p IH]; [done|]. rewrite app_cons_str. simpl. by rewrite decide_True.
Qed.

Lemma strip_prefix_Some p s r : strip_prefix p s = Some r <-> s = p +:+ r.
Proof.
  split; [|intros ->; apply strip_prefix_app].
  revert s. induction p as [|c p IH]; intros s; simpl; [by intros [= ->]|].
  destruct s as [|d s]; [done|]. case_decide; [|done]. subst. intros ->%IH. done.
Qed.

Lemma str_rev_onto_app s acc : str_rev_onto s acc = str_rev s +:+ acc.
Proof.
  unfold str_rev. revert acc. induction s as [|c s IH]; intros acc; simpl; [done|].
  rewrite IH. rewrite (IH (String c "")). by rewrite app_assoc_str.
Qed.

Lemma str_rev_app s t : str_rev (s +:+ t) = str_rev t +:+ str_rev s.
Proof.
  induction s as [|c s IH]; [by rewrite app_nil_r_str|].
  rewrite app_cons_str. unfold str_rev at 1 3. simpl. rewrite !str_rev_onto_app, IH.
  by rewrite app_assoc_str.
Qed.

Lemma str_rev_involutive s : str_rev (str_rev s) = s.
Proof.
  induction s as [|c s IH]; [done|]. unfold str_rev at 2. simpl.
  rewrite str_rev_onto_app, str_rev_app, IH. done.
Qed.

Lemma strip_suffix_Some suf s r : strip_suffix suf s = Some r <-> s = r +:+ suf.
Proof.
  unfold strip_suffix. rewrite fmap_Some. split.
  - intros (x & Hx%strip_prefix_Some & ->).
    apply (f_equal str_rev) in Hx. rewrite str_rev_involutive, str_rev_app, str_rev_involutive in Hx.
    done.
  - intros ->. exists (str_rev r). split; [|by rewrite str_rev_involutive].
    apply strip_prefix_Some, str_rev_app.
Qed.

Lemma HasSuffix_app s suf : HasSuffix (s +:+ suf) suf = true.
Proof. unfold HasSuffix. by rewrite (proj2 (strip_suffix_Some suf (s +:+ suf) s) eq_refl). Qed.

Lemma TrimSuffix_app s suf : TrimSuffix (s +:+ suf) suf = s.
Proof. unfold TrimSuffix. by rewrite (proj2 (strip_suffix_Some suf (s +:+ suf) s) eq_refl). Qed.

Lemma HasSuffix_true s suf : HasSuffix s suf = true -> s = TrimSuffix s suf +:+ suf.
Proof.
  unfold HasSuffix, TrimSuffix. destruct (strip_suffix suf s) eqn:E; [|done].
  intros _. by apply strip_suffix_Some.
Qed.

Lemma str_forall_app f s t : str_forall f (s +:+ t) = str_forall f s && str_forall f t.
Proof.
  induction s as [|c s IH]; [done|]. rewrite app_cons_str. simpl. by rewrite IH, andb_assoc.
Qed.

Lemma str_app_inj_len (a b x y : string) :
  String.length a = String.length b -> a +:+ x = b +:+ y -> a = b /\ x = y.
Proof.
  revert b. induction a as [|c a IH]; intros [|d b]; simpl; try done.
  rewrite !app_cons_str. intros [= Hl] [= -> H]. destruct (IH b Hl H) as [-> ->]. done.
Qed.

(** ** Lemmas on decimal numbers *)
Lemma digits_value_app p q acc : digits_value (p +:+ q) acc = digits_value q (digits_value p acc).
Proof.
  revert acc. induction p as [|c p IH]; intros acc; [done|]. rewrite app_cons_str. simpl. by rewrite IH.
Qed.

Lemma digit_chr_spec d :
  0 <= d < 10 -> is_digit (digit_chr d) = true /\ digit_val (digit_chr d) = d /\
    byte_val (digit_chr d) = 48 + d.
Proof.
  intros H. unfold is_digit, digit_val, digit_chr. rewrite byte_val_chr by lia. zcase; simpl; lia || done.
Qed.

Lemma mod10_range z : 0 <= z mod 10 < 10.
Proof. apply Z.mod_pos_bound. lia. Qed.

Lemma digits_fuel_spec n : forall z acc, 0 <= z < 10 ^ Z.of_nat n -> (0 < n)%nat ->
  exists p, digits_fuel n z acc = p +:+ acc /\ all_digits p = true /\ digits_value p 0 = z /\
    (0 < z -> exists c r, p = String c r /\ byte_val c <> 48) /\ (z = 0 -> p = "0").
Proof.
  induction n as [|n IH]; intros z acc Hz Hn; [lia|]. cbn [digits_fuel].
  destruct (digit_chr_spec (z mod 10) (mod10_range z)) as (Hd & Hv & Hb).
  destruct (Z.ltb_spec z 10) as [Hlt|Hge].
  - exists (String (digit_chr (z mod 10)) "").
    rewrite (Z.mod_small z 10) in * by lia. split_and!; try done.
    + simpl. by rewrite Hd.
    + intros Hpos. exists (digit_chr z), "". split; [done|]. lia.
    + intros ->. done.
  - destruct n as [|n]; [simpl in Hz; lia|].
    assert (0 <= z / 10 < 10 ^ Z.of_nat (S n)) as Hq.
    { split; [apply Z.div_pos; lia|]. apply Z.div_lt_upper_bound; [lia|].
      rewrite (Nat2Z.inj_succ (S n)), Z.pow_succ_r in Hz by lia. lia. }
    destruct (IH (z / 10) (String (digit_chr (z mod 10)) acc) Hq ltac:(lia))
      as (p & Hp & Hall & Hval & Hpos & _).
    exists (p +:+ String (digit_chr (z mod 10)) "").
    split_and!.
    + rewrite Hp. by rewrite app_assoc_str.
    + destruct p as [|c p]; [done|]. rewrite app_cons_str. simpl in *.
      rewrite str_forall_app. simpl. rewrite Hd.
      apply andb_true_iff in Hall as [-> ->]. done.
    + rewrite digits_value_app, Hval. simpl. rewrite Hv.
      pose proof (Z.div_mod z 10 ltac:(lia)). lia.
    + intros _. destruct (Hpos ltac:(apply Z.div_str_pos; lia)) as (c & r & -> & Hc).
      exists c, (r +:+ String (digit_chr (z mod 10)) ""). done.
    + lia.
Qed.

Lemma utoa_spec z : 0 <= z ->
  all_digits (utoa z) = true /\ digits_value (utoa z) 0 = z /\
  (0 < z -> exists c r, utoa z = String c r /\ byte_val c <> 48) /\ (z = 0 -> utoa z = "0").
Proof.
  intros Hz. unfold utoa.
  assert (z < 10 ^ Z.of_nat (S (Z.to_nat (Z.log2 z)))) as Hlt.
  { rewrite Nat2Z.inj_succ, Z2Nat.id by apply Z.log2_nonneg.
    destruct (decide (z = 0)) as [->|Hne]; [done|].
    eapply Z.lt_le_trans; [apply Z.log2_spec; lia|].
    apply Z.pow_le_mono_l. lia. }
  destruct (digits_fuel_spec _ z "" (conj Hz Hlt) ltac:(lia)) as (p & Hp & ?). rewrite Hp.
  by rewrite app_nil_r_str.
Qed.

Lemma all_digits_head s : all_digits s = true ->
  exists c r, s = String c r /\ is_digit c = true /\ str_forall is_digit r = true.
Proof.
  destruct s as [|c r]; [done|]. simpl. rewrite andb_true_iff. intros [? ?]. by exists c, r.
Qed.

Lemma split_sign_digits s : all_digits s = true -> split_sign s = (false, s).
Proof.
  intros (c & r & -> & Hc & _)%all_digits_head. unfold is_digit in Hc. simpl.
  zcase; simpl in Hc; lia || done.
Qed.

(** [ParseInt] reads back what [Itoa] wrote. *)
Lemma ParseInt_Itoa z : in_i64 z -> ParseInt (Itoa z) = Ok z.
Proof.
  unfold in_i64, minInt64, maxInt64, Itoa, ParseInt. intros Hz. destruct (Z.ltb_spec z 0).
  - destruct (utoa_spec (- z) ltac:(lia)) as (Hall & Hval & _).
    change (split_sign ("-" +:+ utoa (- z))) with (true, utoa (- z)). cbv beta iota.
    rewrite Hall, Hval. destruct (Z.leb_spec (- z) two63); [f_equal; lia|lia].
  - destruct (utoa_spec z ltac:(lia)) as (Hall & Hval & _).
    rewrite split_sign_digits, Hall, Hval by done. destruct (Z.ltb_spec z two63); [done|lia].
Qed.

(** Fixed-width decimals. *)
Lemma fixed_digits_app w : forall z acc, fixed_digits w z acc = fixed_digits w z "" +:+ acc.
Proof.
  induction w as [|w IH]; intros z acc; simpl; [done|].
  rewrite IH, (IH _ (String _ "")), app_assoc_str. done.
Qed.

Lemma fixed_digits_length w : forall z, String.length (fixed_digits w z "") = w.
Proof.
  induction w as [|w IH]; intros z; simpl; [done|].
  rewrite fixed_digits_app, length_app_str, IH. simpl. lia.
Qed.

Lemma fixed_digits_digits w : forall z, str_forall is_digit (fixed_digits w z "") = true.
Proof.
  induction w as [|w IH]; intros z; simpl; [done|].
  rewrite fixed_digits_app, str_forall_app, IH. simpl.
  by destruct (digit_chr_spec (z mod 10) (mod10_range z)) as (-> & _).
Qed.

Lemma digits_value_onto w : forall z v, 0 <= z ->
  digits_value (fixed_digits w z "") v = v * 10 ^ Z.of_nat w + z mod 10 ^ Z.of_nat w.
Proof.
  induction w as [|w IH]; intros z v Hz.
  - change (10 ^ Z.of_nat 0) with 1. rewrite Z.mod_1_r. simpl. lia.
  - cbn [fixed_digits]. rewrite fixed_digits_app, digits_value_app, IH by (apply Z.div_pos; lia).
    cbn [digits_value].
    destruct (digit_chr_spec (z mod 10) (mod10_range z)) as (_ & -> & _).
    rewrite Nat2Z.inj_succ, Z.pow_succ_r by lia.
    rewrite (Z.rem_mul_r z 10) by lia. lia.
Qed.

(** ** Prefixes of a given length *)
Lemma substring_length n : forall s, String.length (Stdlib.Strings.String.substring 0 n s) = Nat.min n (String.length s).
Proof. induction n as [|n IH]; intros [|c s]; cbn; try done. by rewrite IH. Qed.
Lemma substring_short n : forall s, (String.length s <= n)%nat -> Stdlib.Strings.String.substring 0 n s = s.
Proof. induction n as [|n IH]; intros [|c s] Hn; cbn in *; try done; [lia|]. by rewrite IH by lia. Qed.
Lemma substring_app_long n : forall s t, (n <= String.length s)%nat ->
  Stdlib.Strings.String.substring 0 n (s +:+ t) = Stdlib.Strings.String.substring 0 n s.
Proof.
  induction n as [|n IH]; intros [|c s] t Hn; cbn in Hn; try lia.
  - by destruct t.
  - done.
  - rewrite app_cons_str. cbn. by rewrite IH by lia.
Qed.
Lemma substring_app_short s : forall n t, (String.length s <= n)%nat ->
  Stdlib.Strings.String.substring 0 n (s +:+ t) = s +:+ Stdlib.Strings.String.substring 0 (n - String.length s) t.
Proof.
  induction s as [|c s IH]; intros [|n] t Hn; cbn in Hn; try lia; [done|done|].
  rewrite !app_cons_str. cbn. by rewrite IH by lia.
Qed.

(** Cutting at a byte: the first place where it stands. *)
Lemma Cut_byte (c0 : ascii) t rest : str_exists (Ascii.eqb c0) t = false ->
  Cut (t +:+ String c0 rest) (String c0 "") = Some (t, rest).
Proof.
  induction t as [|c t IH].
  - intros _. change ("" +:+ String c0 rest) with (String c0 rest). cbn [Cut strip_prefix]. rewrite decide_True by done. by destruct rest.
  - rewrite app_cons_str. cbn [str_exists Cut strip_prefix].
    intros [Hc Ht]%orb_false_iff. apply Ascii.eqb_neq in Hc. rewrite decide_False by done. by rewrite IH.
Qed.

Lemma Cut_byte_none (c0 : ascii) t : str_exists (Ascii.eqb c0) t = false -> Cut t (String c0 "") = None.
Proof.
  induction t as [|c t IH]; [done|]. cbn [str_exists Cut strip_prefix].
  intros [Hc Ht]%orb_false_iff. apply Ascii.eqb_neq in Hc. rewrite decide_False by done. by rewrite IH.
Qed.
