(* ===== verification/Sha256.v ===== *)
(** * SHA-256 (Go's [crypto/sha256.Sum256])

    The hash behind spool checksums and deterministic identifiers, executable so
    that witnesses compute with it. *)

From S2P Require Export GoStrings.

Definition w32 (z : Z) : Z := z mod two32.
Definition rotr (x n : Z) : Z := Z.lor (Z.shiftr x n) (w32 (Z.shiftl x (32 - n))).

(** ** The constants

    They are the first 32 bits of the fractional parts of the cube and square
    roots of the first primes. *)
Definition is_prime (n : Z) : bool :=
  (2 <=? n) && forallb (fun d => negb (n mod d =? 0)) (map Z.of_nat (seq 2 (Z.to_nat n - 2))).
Definition primes : list Z :=
  Eval vm_compute in List.filter is_prime (map Z.of_nat (seq 2 310)).

(** The integer cube root below [2 ^ bits], from the highest bit down. *)
Fixpoint cube_root (bits : nat) (r n : Z) : Z :=
  match bits with
  | O => r
  | S bits =>
      let r' := r + 2 ^ Z.of_nat bits in
      cube_root bits (if r' ^ 3 <=? n then r' else r) n
  end.

Definition sha_k : list Z := Eval vm_compute in map (fun p => w32 (cube_root 40 0 (p * 2 ^ 96))) primes.
Definition sha_h : list Z := Eval vm_compute in map (fun p => w32 (Z.sqrt (p * 2 ^ 64))) (take 8 primes).

Example sha_constants : length sha_k = 64%nat /\ nth 0 sha_k 0 = 1116352408 /\ nth 63 sha_k 0 = 3329325298.
Proof. done. Qed.

Record sha_state : Type := mkSha { sa : Z; sb : Z; sc : Z; sd : Z; se : Z; sf : Z; sg : Z; sh : Z }.

Definition sha_init : sha_state :=
  Eval vm_compute in
    let h i := nth i sha_h 0 in mkSha (h 0%nat) (h 1%nat) (h 2%nat) (h 3%nat) (h 4%nat) (h 5%nat) (h 6%nat) (h 7%nat).

Definition sha_round (s : sha_state) (kw : Z * Z) : sha_state :=
  let '(k, w) := kw in
  let s1 := Z.lxor (Z.lxor (rotr (se s) 6) (rotr (se s) 11)) (rotr (se s) 25) in
  let ch := Z.lxor (Z.land (se s) (sf s)) (Z.land (two32 - 1 - se s) (sg s)) in
  let t1 := w32 (sh s + s1 + ch + k + w) in
  let s0 := Z.lxor (Z.lxor (rotr (sa s) 2) (rotr (sa s) 13)) (rotr (sa s) 22) in
  let maj := Z.lxor (Z.lxor (Z.land (sa s) (sb s)) (Z.land (sa s) (sc s))) (Z.land (sb s) (sc s)) in
  let t2 := w32 (s0 + maj) in
  mkSha (w32 (t1 + t2)) (sa s) (sb s) (sc s) (w32 (sd s + t1)) (se s) (sf s) (sg s).

(** The message schedule, newest word first in the accumulator. *)
Fixpoint sha_extend (n : nat) (acc : list Z) : list Z :=
  match n with
  | O => acc
  | S n =>
      let w2 := nth 1 acc 0 in
      let w15 := nth 14 acc 0 in
      let s0 := Z.lxor (Z.lxor (rotr w15 7) (rotr w15 18)) (Z.shiftr w15 3) in
      let s1 := Z.lxor (Z.lxor (rotr w2 17) (rotr w2 19)) (Z.shiftr w2 10) in
      sha_extend n (w32 (nth 15 acc 0 + s0 + nth 6 acc 0 + s1) :: acc)
  end.

Definition sha_block (s : sha_state) (block : list Z) : sha_state :=
  let r := fold_left sha_round (List.combine sha_k (rev (sha_extend 48 (rev block)))) s in
  mkSha (w32 (sa s + sa r)) (w32 (sb s + sb r)) (w32 (sc s + sc r)) (w32 (sd s + sd r))
    (w32 (se s + se r)) (w32 (sf s + sf r)) (w32 (sg s + sg r)) (w32 (sh s + sh r)).

Fixpoint be_words (l : list Z) : list Z :=
  match l with
  | a :: b :: c :: d :: l => (((a * 256 + b) * 256 + c) * 256 + d) :: be_words l
  | _ => []
  end.

Fixpoint be_bytes (n : nat) (z : Z) : list Z :=
  match n with
  | O => []
  | S n => Z.shiftr z (8 * Z.of_nat n) mod 256 :: be_bytes n z
  end.

Fixpoint byte_list (s : string) : list Z :=
  match s with
  | EmptyString => []
  | String c s => byte_val c :: byte_list s
  end.

Definition sha_pad (l : list Z) : list Z :=
  let n := length l in
  l ++ 128 :: repeat 0 ((119 - n mod 64) mod 64)%nat ++ be_bytes 8 (8 * Z.of_nat n).

Fixpoint sha_blocks (n : nat) (s : sha_state) (ws : list Z) : sha_state :=
  match n with
  | O => s
  | S n =>
      match ws with
      | [] => s
      | _ => sha_blocks n (sha_block s (take 16 ws)) (drop 16 ws)
      end
  end.

(** The 32 bytes of the digest. *)
Definition Sum256 (s : string) : string :=
  let ws := be_words (sha_pad (byte_list s)) in
  let r := sha_blocks (length ws) sha_init ws in
  bytes (concat (map (be_bytes 4) [sa r; sb r; sc r; sd r; se r; sf r; sg r; sh r])).

(** ** Test vectors and shape *)
Example sha256_empty :
  hex_encode (Sum256 "") = "e3b0c44298fc1c149afbf4c8996fb92427ae41e4649b934ca495991b7852b855".
Proof. vm_compute. reflexivity. Qed.

Example sha256_abc :
  hex_encode (Sum256 "abc") = "ba7816bf8f01cfea414140de5dae2223b00361a396177a9cb410ff61f20015ad".
Proof. vm_compute. reflexivity. Qed.

Example sha256_two_blocks :
  hex_encode (Sum256 "abcdbcdecdefdefgefghfghighijhijkijkljklmklmnlmnomnopnopq") =
    "248d6a61d20638b8e5c026930c3e6039a33ce45964ff2167f6ecedd419db06c1".
Proof. vm_compute. reflexivity. Qed.

Lemma bytes_length l : String.length (bytes l) = length l.
Proof. induction l; simpl; auto. Qed.

Lemma hex_encode_length s : String.length (hex_encode s) = (2 * String.length s)%nat.
Proof. induction s as [|c s IH]; simpl; [done|]. rewrite IH. lia. Qed.

Lemma Sum256_length s : String.length (Sum256 s) = 32%nat.
Proof. unfold Sum256. rewrite bytes_length. done. Qed.

(** [probeSpoolChecksum] (probe_spool.go, lines 451 to 454). *)
Definition probeSpoolChecksum (body : string) : string := hex_encode (Sum256 body).

Lemma probeSpoolChecksum_length body : String.length (probeSpoolChecksum body) = 64%nat.
Proof. unfold probeSpoolChecksum. by rewrite hex_encode_length, Sum256_length. Qed.
