(* ===== verification/Json.v ===== *)
(** * JSON as Go's [encoding/json] reads and writes it

    The scanner builds a tree that keeps the text of numbers, strings and member
    values (what [json.RawMessage] and the typed decoders look at); the encoder
    side is the string quoting of [json.Marshal] and the [compact] pass it
    applies to a [RawMessage]. *)

From S2P Require Export GoStrings.

(** ** Trees *)

(** A number keeps its literal, a string its text between the quotes, a member
    its key text, its value text and its value. *)
Inductive json : Type :=
| JNull
| JBool (b : bool)
| JNum (literal : string)
| JStr (raw : string)
| JArr (items : list json)
| JObj (members : list (string * (string * json))).

(** ** Scanning *)
Definition is_ws (c : ascii) : bool := byte_in (bytes [32; 9; 13; 10]) c.

Fixpoint skip_ws (s : string) : string :=
  match s with
  | String c r => if is_ws c then skip_ws r else s
  | EmptyString => ""
  end.

Definition is_hex (c : ascii) : bool :=
  let v := byte_val c in
  (48 <=? v) && (v <=? 57) || (97 <=? v) && (v <=? 102) || (65 <=? v) && (v <=? 70).

Definition cons_fst {A} (c : ascii) (p : option (string * A)) : option (string * A) :=
  (fun '(a, b) => (String c a, b)) <$> p.

(** The rest of the text after the byte [b], if it starts with it. *)
Definition expect (b : Z) (s : string) : option string :=
  match s with
  | String c r => if byte_val c =? b then Some r else None
  | EmptyString => None
  end.

(** The text of a string after its opening quote, and what follows it. *)
Fixpoint scan_string (s : string) : option (string * string) :=
  match s with
  | EmptyString => None
  | String c r =>
      if byte_val c =? 34 then Some ("", r)
      else if byte_val c =? 92 then
        match r with
        | String e r2 =>
            if byte_in "bfnrt\/" e || (byte_val e =? 34) then cons_fst c (cons_fst e (scan_string r2))
            else if byte_val e =? 117 then
              match r2 with
              | String h1 (String h2 (String h3 (String h4 r3))) =>
                  if is_hex h1 && is_hex h2 && is_hex h3 && is_hex h4 then
                    cons_fst c (cons_fst e (cons_fst h1 (cons_fst h2 (cons_fst h3
                      (cons_fst h4 (scan_string r3))))))
                  else None
              | _ => None
              end
            else None
        | EmptyString => None
        end
      else if byte_val c <? 32 then None
      else cons_fst c (scan_string r)
  end.

Fixpoint scan_digits (s : string) : string * string :=
  match s with
  | String c r =>
      if is_digit c then let '(d, r') := scan_digits r in (String c d, r') else ("", s)
  | EmptyString => ("", "")
  end.

(** [d+] *)
Definition scan_digits1 (s : string) : option (string * string) :=
  match scan_digits s with
  | (EmptyString, _) => None
  | p => Some p
  end.

Definition scan_int (s : string) : option (string * string) :=
  match s with
  | String c r =>
      if byte_val c =? 48 then Some ("0", r) else scan_digits1 s
  | EmptyString => None
  end.

Definition scan_frac (s : string) : option (string * string) :=
  match expect 46 s with
  | Some r => '(d, r) ← scan_digits1 r; Some (String "." d, r)
  | None => Some ("", s)
  end.

Definition scan_exp (s : string) : option (string * string) :=
  match s with
  | String c r =>
      if (byte_val c =? 101) || (byte_val c =? 69) then
        match r with
        | String sg r' =>
            if (byte_val sg =? 43) || (byte_val sg =? 45) then
              '(d, r) ← scan_digits1 r'; Some (String c (String sg d), r)
            else '(d, r) ← scan_digits1 r; Some (String c d, r)
        | EmptyString => None
        end
      else Some ("", s)
  | EmptyString => Some ("", s)
  end.

Definition scan_number (s : string) : option (string * string) :=
  let '(sign, s) := match expect 45 s with Some r => ("-", r) | None => ("", s) end in
  '(i, s) ← scan_int s;
  '(f, s) ← scan_frac s;
  '(e, s) ← scan_exp s;
  Some (sign +:+ i +:+ f +:+ e, s).

(** [taken s r]: the prefix of [s] before its suffix [r]. *)
Definition taken (s r : string) : string :=
  String.substring 0 (String.length s - String.length r) s.

(** A value at the head of the text.  [n] is fuel (twice the length is enough),
    [d] the nesting depth still allowed. *)
Fixpoint parse_value (n d : nat) (s : string) {struct n} : option (json * string) :=
  match n with
  | O => None
  | S n =>
      match skip_ws s with
      | EmptyString => None
      | String c r =>
          if byte_val c =? 123 then
            match d with
            | O => None
            | S d =>
                match expect 125 (skip_ws r) with
                | Some r' => Some (JObj [], r')
                | None => '(ms, r) ← parse_members n d r; Some (JObj ms, r)
                end
            end
          else if byte_val c =? 91 then
            match d with
            | O => None
            | S d =>
                match expect 93 (skip_ws r) with
                | Some r' => Some (JArr [], r')
                | None => '(vs, r) ← parse_items n d r; Some (JArr vs, r)
                end
            end
          else if byte_val c =? 34 then '(raw, r) ← scan_string r; Some (JStr raw, r)
          else if byte_val c =? 116 then r ← strip_prefix "true" (String c r); Some (JBool true, r)
          else if byte_val c =? 102 then r ← strip_prefix "false" (String c r); Some (JBool false, r)
          else if byte_val c =? 110 then r ← strip_prefix "null" (String c r); Some (JNull, r)
          else '(lit, r) ← scan_number (String c r); Some (JNum lit, r)
      end
  end
with parse_items (n d : nat) (s : string) {struct n} : option (list json * string) :=
  match n with
  | O => None
  | S n =>
      '(v, r) ← parse_value n d s;
      match expect 93 (skip_ws r) with
      | Some r => Some ([v], r)
      | None =>
          r ← expect 44 (skip_ws r);
          '(vs, r) ← parse_items n d r; Some (v :: vs, r)
      end
  end
with parse_members (n d : nat) (s : string) {struct n}
  : option (list (string * (string * json)) * string) :=
  match n with
  | O => None
  | S n =>
      s ← expect 34 (skip_ws s);
      '(key, r) ← scan_string s;
      r ← expect 58 (skip_ws r);
      let text := skip_ws r in
      '(v, r) ← parse_value n d text;
      let m := (key, (taken text r, v)) in
      match expect 125 (skip_ws r) with
      | Some r => Some ([m], r)
      | None =>
          r ← expect 44 (skip_ws r);
          '(ms, r) ← parse_members n d r; Some (m :: ms, r)
      end
  end.

Definition maxNestingDepth : nat := Z.to_nat 10000.

Definition json_fuel (s : string) : nat := 2 * String.length s + 2.

(** A whole text: one value and nothing but white space after it. *)
Definition parse_json (s : string) : option json :=
  '(v, r) ← parse_value (json_fuel s) maxNestingDepth s;
  match skip_ws r with EmptyString => Some v | _ => None end.

(** ** UTF-8 *)

(** The length of the UTF-8 encoding at the head of the text, if it is valid. *)
Definition utf8_size (s : string) : option nat :=
  let cont lo hi c := (lo <=? byte_val c) && (byte_val c <=? hi) in
  match s with
  | EmptyString => None
  | String a r =>
      let v := byte_val a in
      if v <? 128 then Some 1%nat
      else if (194 <=? v) && (v <=? 223) then
        match r with
        | String b _ => if cont 128 191 b then Some 2%nat else None
        | _ => None
        end
      else if (224 <=? v) && (v <=? 239) then
        match r with
        | String b (String c _) =>
            let lo := if v =? 224 then 160 else 128 in
            let hi := if v =? 237 then 159 else 191 in
            if cont lo hi b && cont 128 191 c then Some 3%nat else None
        | _ => None
        end
      else if (240 <=? v) && (v <=? 244) then
        match r with
        | String b (String c (String e _)) =>
            let lo := if v =? 240 then 144 else 128 in
            let hi := if v =? 244 then 143 else 191 in
            if cont lo hi b && cont 128 191 c && cont 128 191 e then Some 4%nat else None
        | _ => None
        end
      else None
  end.

Definition utf8_encode (r : Z) : string :=
  if r <? 128 then bytes [r]
  else if r <? 2048 then bytes [192 + r / 64; 128 + r mod 64]
  else if r <? 65536 then bytes [224 + r / 4096; 128 + r / 64 mod 64; 128 + r mod 64]
  else bytes [240 + r / 262144; 128 + r / 4096 mod 64; 128 + r / 64 mod 64; 128 + r mod 64].

Fixpoint str_take (n : nat) (s : string) : string :=
  match n, s with
  | S n, String c s => String c (str_take n s)
  | _, _ => ""
  end.
Fixpoint str_drop (n : nat) (s : string) : string :=
  match n, s with
  | S n, String _ s => str_drop n s
  | _, _ => s
  end.

(** ** Unquoting: the Go string a scanned string text stands for *)
Definition hex_val (c : ascii) : Z :=
  let v := byte_val c in
  if v <=? 57 then v - 48 else if v <=? 70 then v - 55 else v - 87.
Definition hex4 (s : string) : Z :=
  match s with
  | String a (String b (String c (String d _))) =>
      ((hex_val a * 16 + hex_val b) * 16 + hex_val c) * 16 + hex_val d
  | _ => 0
  end.

Definition unescape_chr (c : ascii) : Z :=
  let v := byte_val c in
  if v =? 98 then 8 else if v =? 102 then 12 else if v =? 110 then 10
  else if v =? 114 then 13 else if v =? 116 then 9 else v.

Fixpoint unquote_fuel (n : nat) (s : string) : string :=
  match n with
  | O => ""
  | S n =>
      match s with
      | EmptyString => ""
      | String c r =>
          if byte_val c =? 92 then
            match r with
            | EmptyString => ""
            | String e r2 =>
                if byte_val e =? 117 then
                  let u := hex4 r2 in
                  let r3 := str_drop 4 r2 in
                  if (55296 <=? u) && (u <? 57344) then
                    match strip_prefix (bytes [92; 117]) r3 with
                    | Some r4 =>
                        let u2 := hex4 r4 in
                        if (u <? 56320) && (56320 <=? u2) && (u2 <? 57344)
                        then utf8_encode ((u - 55296) * 1024 + (u2 - 56320) + 65536)
                               +:+ unquote_fuel n (str_drop 4 r4)
                        else utf8_encode 65533 +:+ unquote_fuel n r3
                    | None => utf8_encode 65533 +:+ unquote_fuel n r3
                    end
                  else utf8_encode u +:+ unquote_fuel n r3
                else String (chr (unescape_chr e)) (unquote_fuel n r2)
            end
          else
            match utf8_size s with
            | Some k => str_take k s +:+ unquote_fuel n (str_drop k s)
            | None => utf8_encode 65533 +:+ unquote_fuel n r
            end
      end
  end.
Definition unquote (raw : string) : string := unquote_fuel (String.length raw) raw.

(** ** Quoting, with HTML escaping as [json.Marshal] does it *)
Definition json_safe (c : ascii) : bool :=
  (32 <=? byte_val c) && (byte_val c <? 128) && negb (byte_in (bytes [34; 92; 60; 62; 38]) c).

Definition escape_byte (c : ascii) : string :=
  let v := byte_val c in
  if (v =? 34) || (v =? 92) then bytes [92; v]
  else if v =? 8 then "\b" else if v =? 12 then "\f" else if v =? 10 then "\n"
  else if v =? 13 then "\r" else if v =? 9 then "\t"
  else "\u00" +:+ String (hex_chr (v / 16)) (String (hex_chr (v mod 16)) "").

(** U+2028 and U+2029, which are escaped for JavaScript. *)
Definition line_sep (s : string) : option string :=
  match strip_prefix (bytes [226; 128; 168]) s, strip_prefix (bytes [226; 128; 169]) s with
  | Some _, _ => Some "\u2028"
  | _, Some _ => Some "\u2029"
  | _, _ => None
  end.

Fixpoint quote_fuel (n : nat) (s : string) : string :=
  match n with
  | O => ""
  | S n =>
      match s with
      | EmptyString => ""
      | String c r =>
          if byte_val c <? 128 then
            (if json_safe c then String c "" else escape_byte c) +:+ quote_fuel n r
          else
            match utf8_size s with
            | Some k =>
                (match line_sep s with Some e => e | None => str_take k s end)
                  +:+ quote_fuel n (str_drop k s)
            | None => "\ufffd" +:+ quote_fuel n r
            end
      end
  end.
Definition dquote : string := bytes [34].
Definition json_string (s : string) : string :=
  dquote +:+ quote_fuel (String.length s) s +:+ dquote.

(** ** [compact] with HTML escaping: the pass over a [RawMessage] *)
Inductive compact_state := Outside | Inside | Escaped.

Definition compact_next (st : compact_state) (c : ascii) : compact_state :=
  match st with
  | Outside => if byte_val c =? 34 then Inside else Outside
  | Inside => if byte_val c =? 34 then Outside else if byte_val c =? 92 then Escaped else Inside
  | Escaped => Inside
  end.

Definition drops (st : compact_state) (c : ascii) : bool :=
  match st with Outside => is_ws c | _ => false end.

Definition html_byte (c : ascii) : bool := byte_in (bytes [60; 62; 38]) c.

Fixpoint compact (st : compact_state) (s : string) : string :=
  match s with
  | EmptyString => ""
  | String c r =>
      if html_byte c then escape_byte c +:+ compact (compact_next st c) r
      else
        match line_sep s with
        | Some e =>
            match r with
            | String _ (String _ r3) => e +:+ compact st r3
            | _ => ""
            end
        | None =>
            if drops st c then compact (compact_next st c) r
            else String c (compact (compact_next st c) r)
        end
  end.

(** ** Composite texts *)
Definition json_array (items : list string) : string := "[" +:+ Join items "," +:+ "]".
Definition json_member (key value : string) : string :=
  dquote +:+ key +:+ dquote +:+ ":" +:+ value.
Definition json_object (members : list string) : string := "{" +:+ Join members "," +:+ "}".
Definition json_bool (b : bool) : string := if b then "true" else "false".
