(* ===== verification/GoFloat.v ===== *)
(** * 64-bit floating-point numbers and their decimal texts

    Go's [float64] is binary64, here [spec_float] with the rounding operations
    of the Standard Library's [SpecFloat].  The texts are those of
    [strconv.AppendFloat(f, fmt, -1, 64)] as [encoding/json] calls it: the
    shortest decimal that reads back as the same number, in fixed notation
    except for very small and very large magnitudes. *)

From Stdlib Require Export SpecFloat.
From S2P Require Export Json.

(** ** Binary64 *)
Definition prec64 : Z := 53.
Definition emax64 : Z := 1024.

(** [float64(z)] for an integer, the operations, and the comparisons. *)
Definition f64_of_Z (z : Z) : spec_float := binary_normalize prec64 emax64 z 0 false.
Definition f64_mul : spec_float -> spec_float -> spec_float := SFmul prec64 emax64.
Definition f64_div : spec_float -> spec_float -> spec_float := SFdiv prec64 emax64.
Definition f64_add : spec_float -> spec_float -> spec_float := SFadd prec64 emax64.
Definition f64_sub : spec_float -> spec_float -> spec_float := SFsub prec64 emax64.
Definition f64_lt : spec_float -> spec_float -> bool := SFltb.
Definition f64_le : spec_float -> spec_float -> bool := SFleb.
Definition f64_zero : spec_float := S754_zero false.

(** ** Decimal digits of [m * 2 ^ e] *)

(** [m * 2 ^ e * 10 ^ p] as a fraction. *)
Definition ratio (m e p : Z) : Z * Z :=
  (m * 2 ^ Z.max e 0 * 10 ^ Z.max p 0, 2 ^ Z.max (- e) 0 * 10 ^ Z.max (- p) 0).

Definition pow10_le (k m e : Z) : bool :=
  let '(a, b) := ratio m e (- k) in b <=? a.

Fixpoint point_up (n : nat) (k m e : Z) : Z :=
  match n with
  | O => k
  | S n => if pow10_le k m e then point_up n (k + 1) m e else k
  end.
Fixpoint point_down (n : nat) (k m e : Z) : Z :=
  match n with
  | O => k
  | S n => if pow10_le (k - 1) m e then k else point_down n (k - 1) m e
  end.

(** The position [k] of the decimal point: [10 ^ (k - 1) <= m * 2 ^ e < 10 ^ k]. *)
Definition decimal_point (m e : Z) : Z :=
  if pow10_le 0 m e then point_up 400 0 m e else point_down 400 0 m e.

(** Does [l * 2 ^ (e - 2)] bound [q * 10 ^ p] from below, or from above? *)
Definition above_low (incl : bool) (l e q p : Z) : bool :=
  let '(a, b) := ratio l (e - 2) (- p) in if incl then a <=? q * b else a <? q * b.
Definition below_high (incl : bool) (h e q p : Z) : bool :=
  let '(a, b) := ratio h (e - 2) (- p) in if incl then q * b <=? a else q * b <? a.

(** [roundShortest]: with [n] digits the truncation and the next decimal are
    tried; the nearer one is taken when both read back as the number. *)
Fixpoint shortest (fuel : nat) (n k m e : Z) : Z * Z :=
  let p := k - n in
  let '(a, b) := ratio m e (- p) in
  let q := a / b in
  let r := a mod b in
  let up := (b <? 2 * r) || (b =? 2 * r) && Z.odd q in
  let nearest := if up then q + 1 else q in
  match fuel with
  | O => (nearest, p)
  | S fuel =>
      let incl := Z.even m in
      let low := 4 * m - (if (2 ^ 52 <? m) || (e =? -1074) then 2 else 1) in
      let okdown := above_low incl low e q p in
      let okup := below_high incl (4 * m + 2) e (q + 1) p in
      if okdown && okup then (nearest, p)
      else if okdown then (q, p)
      else if okup then (q + 1, p)
      else shortest fuel (n + 1) k m e
  end.

Fixpoint strip_zeros (fuel : nat) (d p : Z) : Z * Z :=
  match fuel with
  | O => (d, p)
  | S fuel => if (d mod 10 =? 0) && (0 <? d) then strip_zeros fuel (d / 10) (p + 1) else (d, p)
  end.

(** The number is [d * 10 ^ p], at most 17 digits. *)
Definition shortest_decimal (m e : Z) : Z * Z :=
  let '(d, p) := shortest 16 1 (decimal_point m e) m e in strip_zeros 18 d p.

(** ** Texts *)
Definition digits_of (d : Z) : Z := Z.of_nat (String.length (utoa d)).

(** [%f]: integer part and fraction. *)
Definition fixed_text (d p : Z) : string :=
  if 0 <=? p then utoa (d * 10 ^ p)
  else utoa (d / 10 ^ (- p)) +:+ "." +:+ fixed_digits (Z.to_nat (- p)) (d mod 10 ^ (- p)) "".

(** [%e] without the padding of a one-digit exponent. *)
Definition exp_text (d p : Z) : string :=
  let n := digits_of d - 1 in
  let x := p + n in
  utoa (d / 10 ^ n) +:+
  (if n =? 0 then "" else "." +:+ fixed_digits (Z.to_nat n) (d mod 10 ^ n) "") +:+
  (if x <? 0 then "e-" +:+ utoa (- x) else "e+" +:+ utoa x).

Definition f64_1e_6 : spec_float := S754_finite false 4722366482869645 (-72).
Definition f64_1e21 : spec_float := S754_finite false 7629394531250000 17.

(** [floatEncoder.encode]: [None] for the numbers JSON does not have. *)
Definition float_text (f : spec_float) : option string :=
  match f with
  | S754_zero s => Some (if s then "-0" else "0")
  | S754_finite s m e =>
      let '(d, p) := shortest_decimal (Z.pos m) e in
      let a := S754_finite false m e in
      Some ((if s then "-" else "") +:+
        if f64_lt a f64_1e_6 || negb (f64_lt a f64_1e21) then exp_text d p else fixed_text d p)
  | S754_infinity _ | S754_nan => None
  end.

(** ** Reading: [strconv.ParseFloat(literal, 64)] fails on a JSON number exactly
    when its magnitude rounds beyond the largest finite number. *)
Definition f64_limit : Z := 2 ^ 1024 - 2 ^ 970.

(** [v * 10 ^ e] is below the limit; [len] is the length of the literal. *)
Definition below_limit (v e len : Z) : bool :=
  if v =? 0 then true
  else if 0 <=? e then if e <=? 309 then v * 10 ^ e <? f64_limit else false
  else if len <? - e then true else v <? f64_limit * 10 ^ (- e).

Definition exp_value (x : string) : Z :=
  match x with
  | String _ s =>
      let '(neg, d) := split_sign s in if neg then - digits_value d 0 else digits_value d 0
  | EmptyString => 0
  end.

Definition str_tail (s : string) : string :=
  match s with String _ r => r | EmptyString => "" end.

Definition float_literal_ok (lit : string) : bool :=
  let s := match expect 45 lit with Some r => r | None => lit end in
  match
    '(i, s) ← scan_int s;
    '(f, s) ← scan_frac s;
    '(x, s) ← scan_exp s;
    Some (below_limit (digits_value (i +:+ str_tail f) 0)
            (exp_value x - str_len (str_tail f)) (str_len lit))
  with
  | Some b => b
  | None => false
  end.

Example float_literal_1 : map float_literal_ok ["1e308"; "1.8e308"; "-2e308"; "0e999999"; "1e-999999"; "12.5"]
  = [true; false; false; true; true; true].
Proof. vm_compute. reflexivity. Qed.

(** ** Examples *)
Example float_text_1 : float_text (f64_div (f64_of_Z 12345) (f64_of_Z 1000)) = Some "12.345".
Proof. vm_compute. reflexivity. Qed.
Example float_text_2 : float_text (f64_of_Z 1000) = Some "1000".
Proof. vm_compute. reflexivity. Qed.
Example float_text_3 : float_text (f64_div (f64_of_Z 1) (f64_of_Z 10000000)) = Some "1e-7".
Proof. vm_compute. reflexivity. Qed.
Example float_text_4 : float_text (f64_div (f64_of_Z 1) (f64_of_Z 3)) = Some "0.3333333333333333".
Proof. vm_compute. reflexivity. Qed.
Example float_text_5 : float_text (S754_finite false 9007199254740991 60) = Some "1.0384593717069654e+34".
Proof. vm_compute. reflexivity. Qed.
Example float_text_6 : float_text (S754_finite false 4503599627370496 (-152)) = Some "7.888609052210118e-31".
Proof. vm_compute. reflexivity. Qed.
Example float_text_7 : float_text f64_1e_6 = Some "0.000001" /\ float_text f64_1e21 = Some "1e+21".
Proof. vm_compute. done. Qed.
Example float_text_8 : float_text (S754_finite false 4503599627370496 1) = Some "9007199254740992".
Proof. vm_compute. reflexivity. Qed.
