(* ===== verification/JsonFacts.v ===== *)
(** * Round trips of JSON texts

    [encodes p v k]: the text [p] scans to the tree [v], nests at most [k] deep,
    and is left alone by [compact].  One lemma per encoder: what [json.Marshal]
    prints, the scanner reads back, in any context. *)

From S2P Require Export Json GoFloat.

(** What may follow a number. *)
Definition num_stop (rest : string) : Prop :=
  match rest with
  | EmptyString => True
  | String c _ => is_digit c = false /\ byte_val c <> 46 /\ byte_val c <> 101 /\ byte_val c <> 69
  end.

Definition starts (p : string) : Prop :=
  match p with
  | EmptyString => False
  | String c _ => is_ws c = false /\ byte_val c <> 93 /\ byte_val c <> 125
  end.

Definition canon (st : compact_state) (p : string) (st' : compact_state) : Prop :=
  forall rest, compact st (p +:+ rest) = p +:+ compact st' rest.

Record encodes (p : string) (v : json) (k : nat) : Prop := {
  enc_parse n d rest :
    (2 * String.length p <= n)%nat -> (k <= d)%nat -> num_stop rest ->
    parse_value n d (p +:+ rest) = Some (v, rest);
  enc_starts : starts p;
  enc_canon : canon Outside p Outside
}.

(** ** Lists of texts *)
Lemma canon_nil st : canon st "" st.
Proof. done. Qed.

Lemma canon_app st p st' q st'' : canon st p st' -> canon st' q st'' -> canon st (p +:+ q) st''.
Proof. intros Hp Hq rest. rewrite !app_assoc_str, Hp, Hq. done. Qed.

Lemma starts_length p : starts p -> (1 <= String.length p)%nat.
Proof. destruct p; simpl; [done|lia]. Qed.

Lemma starts_skip_ws p rest : starts p -> skip_ws (p +:+ rest) = p +:+ rest.
Proof. destruct p as [|c p]; [done|]. rewrite app_cons_str. simpl. by intros [-> _]. Qed.

(** ** Single characters: what no pass touches *)
Lemma line_sep_ne c r : byte_val c <> 226 -> line_sep (String c r) = None.
Proof.
  intros Hc. unfold line_sep. simpl.
  destruct (decide (chr 226 = c)) as [<-|]; [|done]. by rewrite byte_val_chr in Hc.
Qed.

Lemma html_byte_ne c :
  byte_val c <> 60 -> byte_val c <> 62 -> byte_val c <> 38 -> html_byte c = false.
Proof.
  intros H1 H2 H3. unfold html_byte, byte_in. simpl.
  rewrite !orb_false_iff. repeat split; apply Ascii.eqb_neq; intros ->; rewrite byte_val_chr in *; lia.
Qed.

Lemma compact_step st c rest :
  html_byte c = false -> byte_val c <> 226 -> drops st c = false ->
  compact st (String c rest) = String c (compact (compact_next st c) rest).
Proof.
  intros Hh Hl Hd. cbn [compact]. by rewrite Hh, line_sep_ne, Hd.
Qed.

(** A string of such characters outside strings. *)
Definition plain_out (c : ascii) : bool :=
  (33 <=? byte_val c) && (byte_val c <? 127) &&
  negb (byte_in (bytes [34; 60; 62; 38]) c).

Lemma plain_out_facts c : plain_out c = true ->
  html_byte c = false /\ byte_val c <> 226 /\ drops Outside c = false /\
  compact_next Outside c = Outside /\ is_ws c = false.
Proof.
  destruct c as [[][][][][][][][]]; vm_compute; intros H; try discriminate H;
    repeat split; intros; discriminate.
Qed.

Lemma canon_plain p : str_forall plain_out p = true -> canon Outside p Outside.
Proof.
  induction p as [|c p IH]; [done|]. simpl. rewrite andb_true_iff. intros [Hc Hp] rest.
  apply plain_out_facts in Hc as (Hh & Hl & Hd & Hn & _).
  rewrite !app_cons_str, compact_step, Hn, (IH Hp) by done. done.
Qed.

(** ** Strings *)

(** A chunk of string text: no pass stops in it or changes it. *)
Definition chunk_ok (p : string) : Prop :=
  (forall rest, scan_string (p +:+ rest) = (fun '(a, b) => (p +:+ a, b)) <$> scan_string rest) /\
  canon Inside p Inside.

Lemma chunk_nil : chunk_ok "".
Proof.
  split; [|done]. intros rest. rewrite app_nil_l_str. by destruct (scan_string rest) as [[]|].
Qed.

Lemma chunk_app p q : chunk_ok p -> chunk_ok q -> chunk_ok (p +:+ q).
Proof.
  intros [Hp Cp] [Hq Cq]. split; [|by eapply canon_app]. intros rest.
  rewrite app_assoc_str, Hp, Hq. destruct (scan_string rest) as [[a b]|]; [|done].
  simpl. by rewrite app_assoc_str.
Qed.

Lemma chunk_escape c : byte_val c < 128 -> json_safe c = false -> chunk_ok (escape_byte c).
Proof.
  intros H1 H2. split.
  - intros rest. revert H1 H2.
    destruct c as [[][][][][][][][]]; vm_compute (byte_val _); intros H1 H2; try lia;
      vm_compute in H2; try discriminate H2; clear H1 H2;
      vm_compute (escape_byte _); rewrite ?app_cons_str, ?app_nil_l_str; simpl;
      by destruct (scan_string rest) as [[]|].
  - intros rest. revert H1 H2.
    destruct c as [[][][][][][][][]]; vm_compute (byte_val _); intros H1 H2; try lia;
      vm_compute in H2; try discriminate H2; reflexivity.
Qed.

(** One literal character of a string text. *)
Definition plain_in (c : ascii) : Prop :=
  html_byte c = false /\ byte_val c <> 34 /\ byte_val c <> 92 /\ 32 <= byte_val c.

Lemma scan_plain_in c rest : plain_in c -> scan_string (String c rest) = cons_fst c (scan_string rest).
Proof.
  intros (_ & H1 & H2 & H3). cbn [scan_string].
  destruct (Z.eqb_spec (byte_val c) 34); [lia|]. destruct (Z.eqb_spec (byte_val c) 92); [lia|].
  destruct (Z.ltb_spec (byte_val c) 32); [lia|]. done.
Qed.

Lemma plain_in_next c : plain_in c -> compact_next Inside c = Inside.
Proof.
  intros (_ & H1 & H2 & _). simpl.
  destruct (Z.eqb_spec (byte_val c) 34); [lia|]. destruct (Z.eqb_spec (byte_val c) 92); [lia|]. done.
Qed.

Lemma chunk_char c : plain_in c -> byte_val c <> 226 -> chunk_ok (String c "").
Proof.
  intros Hc Hl. split; intros rest; rewrite !app_cons_str, !app_nil_l_str.
  - rewrite scan_plain_in by done. by destruct (scan_string rest) as [[]|].
  - pose proof Hc as (Hh & _). rewrite compact_step, plain_in_next by done. done.
Qed.

Lemma json_safe_plain c : json_safe c = true -> plain_in c /\ byte_val c < 128.
Proof.
  intros H. unfold plain_in.
  assert (html_byte c = false /\ byte_val c <> 34 /\ byte_val c <> 92).
  { revert H. destruct c as [[][][][][][][][]]; vm_compute; intros H; try discriminate H;
      repeat split; intros; discriminate. }
  unfold json_safe in H. zcase; simpl in H; try done. intuition lia.
Qed.

Lemma high_plain c : 128 <= byte_val c -> plain_in c.
Proof. intros H. unfold plain_in. rewrite html_byte_ne by lia. lia. Qed.

(** The three bytes of a rune that is not a line separator. *)
Lemma chunk_three a b c :
  128 <= byte_val a -> 128 <= byte_val b -> 128 <= byte_val c ->
  byte_val b <> 226 -> byte_val c <> 226 -> line_sep (String a (String b (String c ""))) = None ->
  chunk_ok (String a (String b (String c ""))).
Proof.
  intros Ha Hb Hc Hbn Hcn Hls. split; intros rest; rewrite !app_cons_str, !app_nil_l_str.
  - rewrite !scan_plain_in by by apply high_plain. by destruct (scan_string rest) as [[]|].
  - assert (line_sep (String a (String b (String c rest))) = None) as Hls'.
    { revert Hls. unfold line_sep. simpl. repeat case_decide; done. }
    pose proof (high_plain a Ha) as Pa. pose proof Pa as (Hh & _).
    cbn [compact]. rewrite Hh, Hls'. cbn [drops]. rewrite plain_in_next by done.
    f_equal. change (compact Inside (String b (String c rest)) = String b (String c (compact Inside rest))).
    pose proof (high_plain b Hb) as Pb. pose proof Pb as (Hhb & _).
    pose proof (high_plain c Hc) as Pc. pose proof Pc as (Hhc & _).
    rewrite compact_step, plain_in_next by done. rewrite compact_step, plain_in_next by done. done.
Qed.

Lemma chunk_utf8 s k :
  utf8_size s = Some k -> line_sep s = None ->
  match s with String c _ => 128 <= byte_val c | _ => False end -> chunk_ok (str_take k s).
Proof.
  destruct s as [|a r]; [done|]. intros Hsize Hls Ha. unfold utf8_size in Hsize. cbv zeta in Hsize.
  destruct (Z.ltb_spec (byte_val a) 128); [lia|].
  destruct ((194 <=? byte_val a) && (byte_val a <=? 223)) eqn:E1.
  { destruct r as [|b r]; [done|]. destruct (_ && _) eqn:Eb in Hsize; [|done].
    injection Hsize as <-. apply andb_true_iff in Eb as [Eb1%Z.leb_le Eb2%Z.leb_le].
    apply andb_true_iff in E1 as [_ E1%Z.leb_le].
    apply (chunk_app (String a "") (String b "")); apply chunk_char; try apply high_plain; lia. }
  destruct ((224 <=? byte_val a) && (byte_val a <=? 239)) eqn:E2.
  { destruct r as [|b [|c r]]; try done. destruct (_ && _) eqn:Eb in Hsize; [|done].
    injection Hsize as <-. apply andb_true_iff in Eb as [[Eb1 Eb2]%andb_true_iff Ec].
    apply andb_true_iff in Ec as [Ec1%Z.leb_le Ec2%Z.leb_le].
    apply Z.leb_le in Eb1, Eb2.
    assert (128 <= byte_val b <= 191) by
      (destruct (byte_val a =? 224), (byte_val a =? 237); lia).
    apply chunk_three; try lia. revert Hls. unfold line_sep. simpl. repeat case_decide; done. }
  destruct ((240 <=? byte_val a) && (byte_val a <=? 244)) eqn:E3; [|done].
  destruct r as [|b [|c [|e r]]]; try done. destruct (_ && _) eqn:Eb in Hsize; [|done].
  injection Hsize as <-. apply andb_true_iff in Eb as [[[Eb1 Eb2]%andb_true_iff Ec]%andb_true_iff Ee].
  apply andb_true_iff in Ec as [Ec1%Z.leb_le Ec2%Z.leb_le].
  apply andb_true_iff in Ee as [Ee1%Z.leb_le Ee2%Z.leb_le].
  apply andb_true_iff in E3 as [E3%Z.leb_le _]. apply Z.leb_le in Eb1, Eb2.
  assert (128 <= byte_val b <= 191) by
    (destruct (byte_val a =? 240), (byte_val a =? 244); lia).
  apply (chunk_app (String a "") (String b (String c (String e ""))));
    [|apply (chunk_app (String b "") (String c (String e "")));
      [|apply (chunk_app (String c "") (String e ""))]];
    apply chunk_char; try apply high_plain; lia.
Qed.

Lemma chunk_const : chunk_ok "\u2028" /\ chunk_ok "\u2029" /\ chunk_ok "\ufffd".
Proof.
  split_and!; split; intros rest; try reflexivity;
    rewrite ?app_cons_str, ?app_nil_l_str; simpl; by destruct (scan_string rest) as [[]|].
Qed.

Lemma chunk_quote n s : chunk_ok (quote_fuel n s).
Proof.
  revert s. induction n as [|n IH]; intros s; [apply chunk_nil|].
  destruct s as [|c r]; [apply chunk_nil|]. cbn [quote_fuel].
  destruct chunk_const as (C1 & C2 & C3).
  destruct (Z.ltb_spec (byte_val c) 128) as [Hlt|Hge].
  - apply chunk_app; [|done]. destruct (json_safe c) eqn:Hs; [|by apply chunk_escape].
    apply json_safe_plain in Hs as [? ?]. apply chunk_char; [done|lia].
  - destruct (utf8_size (String c r)) as [k|] eqn:Hsize; [|by apply chunk_app].
    apply chunk_app; [|done]. destruct (line_sep (String c r)) eqn:Hls.
    + revert Hls. unfold line_sep. repeat case_match; intros; simplify_eq; done.
    + by apply chunk_utf8.
Qed.

(** ** Numbers *)
Lemma digit_facts c : is_digit c = true ->
  48 <= byte_val c <= 57 /\ plain_out c = true.
Proof. destruct c as [[][][][][][][][]]; vm_compute; intros H; try discriminate H; repeat split; discriminate. Qed.

Lemma digits_plain p : str_forall is_digit p = true -> str_forall plain_out p = true.
Proof.
  induction p as [|c p IH]; [done|]. simpl. rewrite !andb_true_iff.
  intros [Hc%digit_facts ?]. split; [apply Hc|auto].
Qed.

Lemma scan_digits_app p rest :
  str_forall is_digit p = true ->
  match rest with EmptyString => True | String c _ => is_digit c = false end ->
  scan_digits (p +:+ rest) = (p, rest).
Proof.
  intros Hp Hr. induction p as [|c p IH].
  - rewrite app_nil_l_str. destruct rest as [|c r]; [done|]. simpl. by rewrite Hr.
  - simpl in Hp. apply andb_true_iff in Hp as [Hc Hp]. rewrite app_cons_str. simpl.
    by rewrite Hc, (IH Hp).
Qed.

Lemma scan_digits1_app p rest :
  all_digits p = true ->
  match rest with EmptyString => True | String c _ => is_digit c = false end ->
  scan_digits1 (p +:+ rest) = Some (p, rest).
Proof.
  intros Hp Hr. unfold scan_digits1. destruct (all_digits_head p Hp) as (c & r & -> & _ & _).
  rewrite scan_digits_app by done. done.
Qed.

(** An integer part without leading zeros, and an optional fraction. *)
Definition int_text (p : string) : Prop :=
  all_digits p = true /\ (p = "0" \/ match p with String c _ => byte_val c <> 48 | _ => False end).
Definition frac_text (p : string) : Prop :=
  p = "" \/ exists d, p = String "." d /\ all_digits d = true.
Definition sign_text (p : string) : Prop := p = "" \/ p = "-".

Definition exp_part (p : string) : Prop :=
  p = "" \/ exists sg d, p = String "e" (String sg d) /\ (sg = "+"%char \/ sg = "-"%char) /\
    all_digits d = true.

(** What may follow the fraction of a number. *)
Definition frac_stop (rest : string) : Prop :=
  match rest with EmptyString => True | String c _ => is_digit c = false /\ byte_val c <> 46 end.

Definition no_digit (rest : string) : Prop :=
  match rest with EmptyString => True | String c _ => is_digit c = false end.

Lemma num_stop_frac rest : num_stop rest -> frac_stop rest.
Proof. destruct rest as [|c r]; [done|]. by intros (? & ? & _). Qed.

Lemma frac_stop_digit rest : frac_stop rest -> no_digit rest.
Proof. destruct rest as [|c r]; [done|]. by intros [? _]. Qed.

Lemma exp_stop x rest : exp_part x -> num_stop rest -> frac_stop (x +:+ rest).
Proof.
  intros [->|(sg & d & -> & _)] Hr; [by apply num_stop_frac|]. by rewrite app_cons_str.
Qed.

Lemma frac_app_stop f rest : frac_text f -> frac_stop rest -> no_digit (f +:+ rest).
Proof.
  intros [->|(d & -> & _)] Hr; [by apply frac_stop_digit|]. by rewrite app_cons_str.
Qed.

Lemma scan_exp_app x rest :
  exp_part x -> num_stop rest -> scan_exp (x +:+ rest) = Some (x, rest).
Proof.
  intros [->|(sg & d & -> & Hsg & Hd)] Hr.
  - rewrite app_nil_l_str. destruct rest as [|c r]; [done|]. destruct Hr as (_ & _ & H1 & H2). simpl.
    destruct (Z.eqb_spec (byte_val c) 101); [lia|]. destruct (Z.eqb_spec (byte_val c) 69); [lia|]. done.
  - rewrite !app_cons_str. unfold scan_exp. change (byte_val "e" =? 101) with true. cbn [orb].
    replace ((byte_val sg =? 43) || (byte_val sg =? 45)) with true by (by destruct Hsg as [-> | ->]).
    rewrite scan_digits1_app by (done || by apply frac_stop_digit, num_stop_frac). done.
Qed.

Lemma scan_frac_app f rest : frac_text f -> frac_stop rest -> scan_frac (f +:+ rest) = Some (f, rest).
Proof.
  intros [->|(d & -> & Hd)] Hr; unfold scan_frac.
  - rewrite app_nil_l_str. destruct rest as [|c r]; [done|]. destruct Hr as (_ & H). simpl.
    destruct (Z.eqb_spec (byte_val c) 46); [lia|done].
  - rewrite app_cons_str. simpl. rewrite scan_digits1_app by (done || by apply frac_stop_digit). done.
Qed.

Lemma scan_int_app i rest :
  int_text i -> no_digit rest -> scan_int (i +:+ rest) = Some (i, rest).
Proof.
  intros [Hall [->|Hne]] Hr; [done|]. destruct i as [|c i]; [done|].
  rewrite app_cons_str. unfold scan_int. destruct (Z.eqb_spec (byte_val c) 48); [done|].
  rewrite <- app_cons_str. by apply scan_digits1_app.
Qed.

Lemma int_head i rest : int_text i -> exists c r, i +:+ rest = String c r /\ is_digit c = true.
Proof.
  intros [Hall _]. apply all_digits_head in Hall as (c & r & -> & Hc & _).
  exists c, (r +:+ rest). by rewrite app_cons_str.
Qed.

Lemma scan_number_app sg i f x rest :
  sign_text sg -> int_text i -> frac_text f -> exp_part x -> num_stop rest ->
  scan_number (sg +:+ i +:+ f +:+ x +:+ rest) = Some (sg +:+ i +:+ f +:+ x, rest).
Proof.
  intros Hs Hi Hf Hx Hr. unfold scan_number.
  assert (match expect 45 (sg +:+ i +:+ f +:+ x +:+ rest) with
          | Some r => ("-", r) | None => ("", sg +:+ i +:+ f +:+ x +:+ rest) end
          = (sg, i +:+ f +:+ x +:+ rest)) as ->.
  { destruct Hs as [-> | ->]; [|done]. rewrite app_nil_l_str.
    destruct (int_head i (f +:+ x +:+ rest) Hi) as (c & r & -> & Hc%digit_facts). simpl.
    destruct (Z.eqb_spec (byte_val c) 45); [lia|done]. }
  rewrite scan_int_app by (done || (apply frac_app_stop; [done|by apply exp_stop])). simpl.
  rewrite scan_frac_app by (done || by apply exp_stop). simpl.
  by rewrite scan_exp_app.
Qed.

Lemma encodes_number sg i f x k :
  sign_text sg -> int_text i -> frac_text f -> exp_part x ->
  encodes (sg +:+ i +:+ f +:+ x) (JNum (sg +:+ i +:+ f +:+ x)) k.
Proof.
  intros Hs Hi Hf Hx.
  assert (exists c r, sg +:+ i +:+ f +:+ x = String c r /\ (is_digit c = true \/ byte_val c = 45))
    as (c & r & E & Hc).
  { destruct (int_head i (f +:+ x) Hi) as (c & r & E & Hc). rewrite E.
    destruct Hs as [-> | ->]; [exists c, r; auto|]. exists "-"%char, (String c r). auto. }
  assert (is_ws c = false /\ 45 <= byte_val c <= 57) as [Hws Hrange].
  { destruct Hc as [Hc|Hc].
    - pose proof (digit_facts c Hc) as [? Hp]. apply plain_out_facts in Hp. split; [tauto|lia].
    - rewrite <- (chr_byte_val c), Hc. split; [done|]. rewrite byte_val_chr; lia. }
  split.
  - intros n d rest Hn _ Hr. destruct n as [|n].
    { rewrite E in Hn. simpl in Hn. lia. }
    cbn [parse_value]. rewrite E, app_cons_str. cbn [skip_ws]. rewrite Hws.
    repeat match goal with
    | |- context [byte_val c =? ?z] => destruct (Z.eqb_spec (byte_val c) z); [lia|]
    end.
    rewrite <- app_cons_str, <- E, !app_assoc_str, scan_number_app by done. done.
  - rewrite E. simpl. split; [done|lia].
  - apply canon_plain. rewrite !str_forall_app, !andb_true_iff. split_and!.
    + by destruct Hs as [-> | ->].
    + apply digits_plain. destruct Hi as [Hall _]. destruct i; [done|exact Hall].
    + destruct Hf as [->|(d & -> & Hd)]; [done|]. simpl.
      destruct d; [done|]. by apply digits_plain.
    + destruct Hx as [->|(y & d & -> & Hy & Hd)]; [done|]. simpl.
      destruct d as [|a d]; [done|].
      destruct Hy as [-> | ->]; simpl; by apply (digits_plain (String a d)).
Qed.

Lemma utoa_int_text z : 0 <= z -> int_text (utoa z).
Proof.
  intros Hz. destruct (utoa_spec z Hz) as (Hall & _ & Hpos & H0). split; [done|].
  destruct (decide (z = 0)) as [->|]; [left; by apply H0|right].
  destruct (Hpos ltac:(lia)) as (c & r & -> & ?). done.
Qed.

Lemma encodes_int z k : encodes (Itoa z) (JNum (Itoa z)) k.
Proof.
  unfold Itoa. destruct (Z.ltb_spec z 0).
  - rewrite <- (app_nil_r_str (utoa (- z))).
    apply (encodes_number "-" (utoa (- z)) "" ""); [by right|apply utoa_int_text; lia|by left..].
  - rewrite <- (app_nil_r_str (utoa z)), <- (app_nil_l_str (utoa z +:+ "")).
    apply (encodes_number "" (utoa z) "" ""); [by left|apply utoa_int_text; lia|by left..].
Qed.

(** ** Constants *)
Lemma encodes_bool b k : encodes (json_bool b) (JBool b) k.
Proof.
  destruct b; split; try done; try (by apply canon_plain);
    intros [|n] d rest Hn _ _; simpl in Hn; try lia; reflexivity.
Qed.

Lemma encodes_null k : encodes "null" JNull k.
Proof.
  split; try done; try (by apply canon_plain).
  intros [|n] d rest Hn _ _; simpl in Hn; try lia; reflexivity.
Qed.

(** ** Strings, arrays, objects *)
Lemma canon_open : canon Outside dquote Inside.
Proof. intros rest. reflexivity. Qed.

Lemma canon_close : canon Inside dquote Outside.
Proof. intros rest. reflexivity. Qed.

Lemma scan_quoted p rest : chunk_ok p -> scan_string (p +:+ dquote +:+ rest) = Some (p, rest).
Proof.
  intros [Hp _]. rewrite Hp. unfold dquote. simpl. by rewrite app_nil_l_str, app_nil_r_str.
Qed.

Lemma encodes_string s k :
  encodes (json_string s) (JStr (quote_fuel (String.length s) s)) k.
Proof.
  pose proof (chunk_quote (String.length s) s) as Hc. unfold json_string. split.
  - intros n d rest Hn _ _. destruct n as [|n]; [simpl in Hn; lia|].
    rewrite !app_assoc_str. unfold dquote at 1. cbn [bytes]. rewrite app_cons_str, app_nil_l_str.
    cbn. by rewrite scan_quoted.
  - done.
  - eapply canon_app; [apply canon_open|]. eapply canon_app; [apply Hc|apply canon_close].
Qed.

Lemma starts_expect p rest b :
  starts p -> b = 93 \/ b = 125 -> expect b (skip_ws (p +:+ rest)) = None.
Proof.
  intros Hp Hb. rewrite starts_skip_ws by done. destruct p as [|c p]; [done|].
  rewrite app_cons_str. destruct Hp as (_ & H1 & H2). simpl.
  destruct (Z.eqb_spec (byte_val c) b); [lia|done].
Qed.

Lemma Join_cons p q l sep : Join (p :: q :: l) sep = p +:+ sep +:+ Join (q :: l) sep.
Proof. done. Qed.

Lemma canon_join items :
  Forall (fun p => canon Outside p Outside) items -> canon Outside (Join items ",") Outside.
Proof.
  induction 1 as [|p [|q l] Hp Hl IH]; [apply canon_nil|done|].
  rewrite Join_cons. eapply canon_app; [done|]. eapply canon_app; [by apply canon_plain|done].
Qed.

Lemma num_stop_punct c rest :
  byte_val c = 44 \/ byte_val c = 93 \/ byte_val c = 125 -> num_stop (String c rest).
Proof. intros H. simpl. unfold is_digit. zcase; simpl; split_and!; lia || done. Qed.

Lemma expect_comma r :
  expect 93 (skip_ws ("," +:+ r)) = None /\ expect 125 (skip_ws ("," +:+ r)) = None /\
  expect 44 (skip_ws ("," +:+ r)) = Some r.
Proof. done. Qed.

Ltac punct := rewrite ?app_cons_str; apply num_stop_punct; vm_compute; auto.

Lemma items_parse items vs k : Forall2 (fun p v => encodes p v k) items vs -> items <> [] ->
  forall n d rest, (k <= d)%nat -> (2 * String.length (Join items ",") + 1 <= n)%nat ->
  parse_items n d (Join items "," +:+ "]" +:+ rest) = Some (vs, rest).
Proof.
  induction 1 as [|p v items vs Hp Hl IH]; [done|]. intros _ n d rest Hd Hn.
  destruct n as [|n]; [lia|].
  destruct Hl as [|q w l vs Hq Hl].
  - simpl in Hn. cbn [parse_items Join]. rewrite (enc_parse _ _ _ Hp) by (punct || lia). done.
  - rewrite Join_cons in *. rewrite !length_app_str in Hn. change (String.length ",") with 1%nat in Hn.
    rewrite !app_assoc_str. cbn [parse_items].
    rewrite (enc_parse _ _ _ Hp) by (punct || lia). cbn [mbind option_bind].
    destruct (expect_comma (Join (q :: l) "," +:+ "]" +:+ rest)) as (E1 & _ & E3).
    rewrite E1, E3. cbn [mbind option_bind]. rewrite IH by (done || lia). done.
Qed.

Lemma Forall2_l {A B} (P : A -> B -> Prop) (Q : A -> Prop) l k :
  (forall a b, P a b -> Q a) -> Forall2 P l k -> Forall Q l.
Proof. intros H. induction 1; constructor; eauto. Qed.

Lemma join_starts items : items <> [] -> Forall starts items ->
  exists p r, Join items "," = p +:+ r /\ starts p.
Proof.
  destruct items as [|p [|q l]]; [done| |]; intros _ [Hp _]%Forall_cons.
  - exists p, "". by rewrite app_nil_r_str.
  - exists p, ("," +:+ Join (q :: l) ","). done.
Qed.

Lemma encodes_array items vs k :
  Forall2 (fun p v => encodes p v k) items vs -> encodes (json_array items) (JArr vs) (S k).
Proof.
  intros H. unfold json_array. split.
  - intros n d rest Hn Hd _. rewrite !length_app_str in Hn. simpl in Hn.
    destruct n as [|n]; [lia|]. destruct d as [|d]; [lia|].
    rewrite !app_assoc_str, app_cons_str, app_nil_l_str. cbn [parse_value].
    change (skip_ws (String "[" (Join items "," +:+ "]" +:+ rest)))
      with (String "[" (Join items "," +:+ "]" +:+ rest)). cbv beta iota.
    change (byte_val "[" =? 123) with false. change (byte_val "[" =? 91) with true. cbv iota.
    destruct (decide (items = [])) as [->|Hne].
    { inversion H; subst. done. }
    destruct (join_starts items Hne) as (p & r & E & Hp).
    { eapply Forall2_l; [|exact H]. intros ? ? He. apply (enc_starts _ _ _ He). }
    rewrite E at 1. rewrite app_assoc_str, starts_expect by auto.
    rewrite (items_parse _ _ _ H) by (done || lia). done.
  - done.
  - eapply canon_app; [by apply canon_plain|]. eapply canon_app; [|by apply canon_plain].
    apply canon_join. eapply Forall2_l; [|exact H]. intros ? ? He. apply (enc_canon _ _ _ He).
Qed.

Lemma taken_app p r : taken (p +:+ r) r = p.
Proof.
  unfold taken. rewrite length_app_str, Nat.add_sub.
  induction p as [|c p IH]; [by destruct r|]. rewrite app_cons_str. simpl. by rewrite IH.
Qed.

(** A member is given by its key and the text and tree of its value. *)
Definition member_text (m : string * (string * json)) : string := json_member m.1 m.2.1.
Definition member_ok (k : nat) (m : string * (string * json)) : Prop :=
  chunk_ok m.1 /\ encodes m.2.1 m.2.2 k.

Lemma canon_member key p : chunk_ok key -> canon Outside p Outside ->
  canon Outside (json_member key p) Outside.
Proof.
  intros [_ Hk] Hp. unfold json_member. eapply canon_app; [apply canon_open|].
  eapply canon_app; [apply Hk|]. eapply canon_app; [apply canon_close|].
  eapply canon_app; [by apply canon_plain|done].
Qed.

Lemma member_parse n d key p v k rest :
  chunk_ok key -> encodes p v k -> (k <= d)%nat -> (2 * String.length p <= n)%nat -> num_stop rest ->
  parse_members (S n) d (json_member key p +:+ rest) =
    match expect 125 (skip_ws rest) with
    | Some r => Some ([(key, (p, v))], r)
    | None =>
        r ← expect 44 (skip_ws rest);
        '(ms, r) ← parse_members n d r; Some ((key, (p, v)) :: ms, r)
    end.
Proof.
  intros Hk Hp Hd Hn Hr. unfold json_member. rewrite !app_assoc_str. unfold dquote at 1.
  cbn [bytes]. rewrite app_cons_str, app_nil_l_str. cbn [parse_members].
  change (expect 34 (skip_ws (String (chr 34) (key +:+ dquote +:+ ":" +:+ p +:+ rest))))
    with (Some (key +:+ dquote +:+ ":" +:+ p +:+ rest)).
  cbn [mbind option_bind]. rewrite scan_quoted by done. cbn [mbind option_bind].
  change (expect 58 (skip_ws (":" +:+ p +:+ rest))) with (Some (p +:+ rest)).
  cbn [mbind option_bind]. rewrite starts_skip_ws by apply (enc_starts _ _ _ Hp).
  rewrite (enc_parse _ _ _ Hp) by done. cbn [mbind option_bind]. by rewrite taken_app.
Qed.

Lemma members_parse ms k : Forall (member_ok k) ms -> ms <> [] ->
  forall n d rest, (k <= d)%nat -> (2 * String.length (Join (map member_text ms) ",") + 1 <= n)%nat ->
  parse_members n d (Join (map member_text ms) "," +:+ "}" +:+ rest) = Some (ms, rest).
Proof.
  induction 1 as [|[key [p v]] ms [Hk Hp] Hl IH]; [done|]. intros _ n d rest Hd Hn.
  destruct n as [|n]; [lia|]. simpl in Hk, Hp.
  assert (String.length (member_text (key, (p, v))) = String.length key + 3 + String.length p)%nat as Hlen.
  { unfold member_text, json_member. rewrite !length_app_str. simpl. lia. }
  destruct ms as [|m ms].
  - cbn [map Join] in *. rewrite Hlen in Hn. unfold member_text. cbn [fst snd].
    rewrite (member_parse _ _ _ _ v k) by (done || punct || lia). done.
  - cbn [map] in *. rewrite Join_cons in *. rewrite !length_app_str, Hlen in Hn.
    change (String.length ",") with 1%nat in Hn.
    rewrite !app_assoc_str. unfold member_text at 1. cbn [fst snd].
    rewrite (member_parse _ _ _ _ v k) by (done || punct || lia).
    destruct (expect_comma (Join (member_text m :: map member_text ms) "," +:+ "}" +:+ rest))
      as (_ & E2 & E3).
    rewrite E2, E3. cbn [mbind option_bind]. rewrite IH by (done || lia). done.
Qed.

Lemma encodes_object ms k :
  Forall (member_ok k) ms -> encodes (json_object (map member_text ms)) (JObj ms) (S k).
Proof.
  intros H. unfold json_object. split.
  - intros n d rest Hn Hd _. rewrite !length_app_str in Hn. simpl in Hn.
    destruct n as [|n]; [lia|]. destruct d as [|d]; [lia|].
    rewrite !app_assoc_str, app_cons_str, app_nil_l_str. cbn [parse_value].
    change (skip_ws (String "{" (Join (map member_text ms) "," +:+ "}" +:+ rest)))
      with (String "{" (Join (map member_text ms) "," +:+ "}" +:+ rest)). cbv beta iota.
    change (byte_val "{" =? 123) with true. cbv iota.
    destruct (decide (ms = [])) as [->|Hne]; [done|].
    destruct (join_starts (map member_text ms)) as (p & r & E & Hp).
    { by destruct ms. }
    { apply Forall_map, Forall_true. by intros [key [? ?]]. }
    rewrite E at 1. rewrite app_assoc_str, starts_expect by auto.
    rewrite (members_parse _ _ H) by (done || lia). done.
  - done.
  - eapply canon_app; [by apply canon_plain|]. eapply canon_app; [|by apply canon_plain].
    apply canon_join, Forall_map. eapply Forall_impl; [exact H|].
    intros [key [p v]] [Hk Hp]. apply canon_member; [done|apply (enc_canon _ _ _ Hp)].
Qed.

(** ** Whole texts *)
Lemma encodes_parse_json p v k : encodes p v k -> (k <= maxNestingDepth)%nat -> parse_json p = Some v.
Proof.
  intros H Hk. unfold parse_json, json_fuel. rewrite <- (app_nil_r_str p) at 2.
  by rewrite (enc_parse _ _ _ H) by (done || lia).
Qed.

Lemma encodes_compact p v k : encodes p v k -> compact Outside p = p.
Proof.
  intros H. rewrite <- (app_nil_r_str p) at 1. rewrite (enc_canon _ _ _ H). apply app_nil_r_str.
Qed.

(** ** Floating-point numbers *)
Lemma ratio_pos m e p : 0 <= m -> 0 <= (ratio m e p).1 /\ 0 < (ratio m e p).2.
Proof.
  intros Hm. unfold ratio. simpl.
  pose proof (Z.pow_nonneg 2 (Z.max e 0)). pose proof (Z.pow_nonneg 10 (Z.max p 0)).
  pose proof (Z.pow_pos_nonneg 2 (Z.max (- e) 0)). pose proof (Z.pow_pos_nonneg 10 (Z.max (- p) 0)).
  split; [|nia]. apply Z.mul_nonneg_nonneg; [apply Z.mul_nonneg_nonneg|]; lia.
Qed.

(** The digits [q] at [10 ^ p] are a truncation or the decimal after it. *)
Definition digits_at (m e q p : Z) : Prop :=
  let '(a, b) := ratio m e (- p) in q = a / b \/ q = a / b + 1.

Lemma shortest_at fuel : forall n k m e, let '(q, p) := shortest fuel n k m e in
  digits_at m e q p /\ p <= k - n.
Proof.
  unfold digits_at. induction fuel as [|fuel IH]; intros n k m e; cbn [shortest];
    destruct (ratio m e (- (k - n))) as [a b] eqn:E; cbv zeta.
  - rewrite E. split; [|lia]. destruct (_ || _); auto.
  - specialize (IH (n + 1) k m e).
    destruct (shortest fuel (n + 1) k m e) as [q' p'].
    destruct (_ && _); [rewrite E; split; [destruct (_ || _); auto|lia]|].
    destruct (above_low _ _ _ _ _); [rewrite E; auto with lia|].
    destruct (below_high _ _ _ _ _); [rewrite E; auto with lia|].
    destruct IH. split; [done|lia].
Qed.

Lemma point_down_le n : forall k m e, point_down n k m e <= k.
Proof.
  induction n as [|n IH]; intros k m e; simpl; [lia|].
  destruct (pow10_le _ _ _); [lia|]. specialize (IH (k - 1) m e). lia.
Qed.

Lemma point_up_le n m e c : (forall k, pow10_le k m e = true -> k <= c) ->
  forall k, k <= c + 1 -> point_up n k m e <= c + 1.
Proof.
  intros Hc. induction n as [|n IH]; intros k Hk; simpl; [done|].
  destruct (pow10_le k m e) eqn:E; [|done]. apply IH. specialize (Hc _ E). lia.
Qed.

(** [m * 2 ^ e] is at most [c]. *)
Definition real_le (m e c : Z) : Prop := m * 2 ^ Z.max e 0 <= c * 2 ^ Z.max (- e) 0.

Lemma pow10_le_bound m e k c : real_le m e (10 ^ c) -> 0 <= c -> pow10_le k m e = true -> k <= c.
Proof.
  unfold real_le, pow10_le, ratio. intros Hr Hc Hle%Z.leb_le.
  destruct (decide (k <= 0)); [lia|].
  rewrite (Z.max_r (- k) 0), (Z.max_l (- - k) 0), Z.opp_involutive, Z.pow_0_r in Hle by lia.
  pose proof (Z.pow_pos_nonneg 2 (Z.max (- e) 0) ltac:(lia) ltac:(lia)).
  apply (Z.pow_le_mono_r_iff 10); [lia..|]. nia.
Qed.

Lemma decimal_point_le m e c : real_le m e (10 ^ c) -> 0 <= c -> decimal_point m e <= c + 1.
Proof.
  intros Hr Hc. unfold decimal_point. destruct (pow10_le 0 m e) eqn:E.
  - apply point_up_le; [|lia]. intros k. by apply pow10_le_bound.
  - pose proof (point_down_le 400 0 m e). lia.
Qed.

Lemma digits_at_bound m e q p : 0 <= m -> real_le m e (10 ^ 21) -> p <= 21 -> digits_at m e q p ->
  0 <= q /\ q * 10 ^ Z.max p 0 <= 10 ^ 23 * 10 ^ Z.max (- p) 0.
Proof.
  intros Hm Hr Hp Hd. unfold digits_at in Hd. pose proof (ratio_pos m e (- p) Hm) as [Ha Hb].
  destruct (ratio m e (- p)) as [a b] eqn:E. unfold ratio in E. injection E as Ea Eb. simpl in Ha, Hb.
  pose proof (Z.div_pos a b Ha Hb) as Hq. pose proof (Z.mul_div_le a b Hb) as Hle.
  unfold real_le in Hr. split; [lia|].
  pose proof (Z.pow_pos_nonneg 2 (Z.max (- e) 0) ltac:(lia) ltac:(lia)) as H2.
  set (x := m * 2 ^ Z.max e 0) in *. set (y := 2 ^ Z.max (- e) 0) in *.
  destruct (Z.le_gt_cases 0 p).
  - rewrite (Z.max_r (- p) 0), (Z.max_l p 0) in * by lia. rewrite (Z.max_l (- - p) 0) in Eb by lia.
    rewrite Z.opp_involutive in Eb. rewrite Z.pow_0_r, Z.mul_1_r in *.
    pose proof (Z.pow_le_mono_r 10 p 21 ltac:(lia) Hp).
    assert (a / b * 10 ^ p <= 10 ^ 21) by nia. nia.
  - rewrite (Z.max_l (- p) 0), (Z.max_r p 0) in * by lia. rewrite (Z.max_r (- - p) 0) in Eb by lia.
    rewrite Z.pow_0_r, Z.mul_1_r in *.
    pose proof (Z.pow_pos_nonneg 10 (- p) ltac:(lia) ltac:(lia)).
    assert (a / b <= 10 ^ 21 * 10 ^ (- p)) by nia. lia.
Qed.

Lemma strip_zeros_bound fuel : forall d p c, 0 <= d ->
  d * 10 ^ Z.max p 0 <= c * 10 ^ Z.max (- p) 0 ->
  let '(d', p') := strip_zeros fuel d p in
  0 <= d' /\ d' * 10 ^ Z.max p' 0 <= c * 10 ^ Z.max (- p') 0.
Proof.
  induction fuel as [|fuel IH]; intros d p c Hd Hle; cbn [strip_zeros]; [done|].
  destruct (_ && _) eqn:E; [|done]. apply andb_true_iff in E as [E%Z.eqb_eq _].
  apply IH; [by apply Z.div_pos; lia|].
  pose proof (Z.div_mod d 10 ltac:(lia)) as Hdm. rewrite E, Z.add_0_r in Hdm.
  set (q := d / 10) in *. clearbody q. subst d.
  destruct (Z.le_gt_cases 0 p).
  - rewrite !(Z.max_l _ 0), !(Z.max_r (- _) 0) in * by lia.
    rewrite Z.pow_add_r by lia. lia.
  - rewrite (Z.max_r p 0), (Z.max_l (- p) 0) in Hle by lia.
    rewrite (Z.max_r (p + 1) 0), (Z.max_l (- (p + 1)) 0) by lia.
    replace (- p) with (- (p + 1) + 1) in Hle by lia. rewrite Z.pow_add_r in Hle by lia. lia.
Qed.

Lemma shortest_decimal_bound m e : 0 <= m -> real_le m e (10 ^ 21) ->
  let '(d, p) := shortest_decimal m e in
  0 <= d /\ d * 10 ^ Z.max p 0 <= 10 ^ 23 * 10 ^ Z.max (- p) 0.
Proof.
  intros Hm Hr. unfold shortest_decimal.
  pose proof (shortest_at 16 1 (decimal_point m e) m e) as Hs.
  pose proof (decimal_point_le m e 21 Hr ltac:(lia)).
  destruct (shortest _ _ _ _ _) as [d p]. destruct Hs as [Hat Hp].
  destruct (digits_at_bound m e d p Hm Hr ltac:(lia) Hat). by apply strip_zeros_bound.
Qed.

(** The numbers that print in a moderate range (every latency does). *)
Definition f64_moderate (f : spec_float) : bool :=
  match f with
  | S754_zero _ => true
  | S754_finite _ m e => Z.pos m * 2 ^ Z.max e 0 <=? 10 ^ 21 * 2 ^ Z.max (- e) 0
  | _ => false
  end.

Definition decimal_ok (d p : Z) : Prop :=
  0 <= d /\ d * 10 ^ Z.max p 0 <= 10 ^ 23 * 10 ^ Z.max (- p) 0.

Lemma decimal_limit d p len : decimal_ok d p -> below_limit d p len = true.
Proof.
  intros [Hd Hle]. unfold below_limit.
  assert (10 ^ 23 < f64_limit) as Hlim by (by vm_compute).
  destruct (Z.eqb_spec d 0); [done|]. destruct (Z.leb_spec 0 p).
  - rewrite (Z.max_l p 0), (Z.max_r (- p) 0), Z.pow_0_r, Z.mul_1_r in Hle by lia.
    destruct (Z.leb_spec p 309); [apply Z.ltb_lt; lia|].
    pose proof (Z.pow_le_mono_r 10 310 p ltac:(lia) ltac:(lia)).
    assert (10 ^ 23 < 10 ^ 310) by (by vm_compute). nia.
  - destruct (len <? - p); [done|]. apply Z.ltb_lt.
    rewrite (Z.max_r p 0), (Z.max_l (- p) 0), Z.pow_0_r in Hle by lia.
    pose proof (Z.pow_pos_nonneg 10 (- p) ltac:(lia) ltac:(lia)). nia.
Qed.

(** A literal cut into its parts. *)
Record literal_parts (sg i f x : string) : Prop := {
  part_sign : sign_text sg;
  part_int : int_text i;
  part_frac : frac_text f;
  part_exp : exp_part x
}.

Lemma literal_ok sg i f x : literal_parts sg i f x ->
  float_literal_ok (sg +:+ i +:+ f +:+ x) =
    below_limit (digits_value (i +:+ str_tail f) 0) (exp_value x - str_len (str_tail f))
      (str_len (sg +:+ i +:+ f +:+ x)).
Proof.
  intros [Hs Hi Hf Hx]. unfold float_literal_ok.
  assert (match expect 45 (sg +:+ i +:+ f +:+ x) with Some r => r | None => sg +:+ i +:+ f +:+ x end
    = i +:+ f +:+ x +:+ "") as ->.
  { rewrite app_nil_r_str. destruct Hs as [-> | ->]; [|done]. rewrite app_nil_l_str.
    destruct (int_head i (f +:+ x) Hi) as (c & r & -> & Hc%digit_facts). simpl.
    destruct (Z.eqb_spec (byte_val c) 45); [lia|done]. }
  rewrite scan_int_app by (done || (apply frac_app_stop; [done|by apply exp_stop])).
  cbn [mbind option_bind]. rewrite scan_frac_app by (done || by apply exp_stop).
  cbn [mbind option_bind]. rewrite scan_exp_app by done. done.
Qed.

(** What both notations have in common: the sign aside, parts with the value [d * 10 ^ p]. *)
Definition prints (text : string) (d p : Z) : Prop := forall sg, sign_text sg ->
  exists i f x, sg +:+ text = sg +:+ i +:+ f +:+ x /\ literal_parts sg i f x /\
    exists v e, digits_value (i +:+ str_tail f) 0 = v /\
      exp_value x - str_len (str_tail f) = e /\ decimal_ok v e.

Lemma str_tail_dot x : str_tail ("." +:+ x) = x.
Proof. done. Qed.

Lemma mantissa_parts d w : 0 <= d ->
  let i := utoa (d / 10 ^ Z.of_nat w) in
  let f := fixed_digits w (d mod 10 ^ Z.of_nat w) "" in
  int_text i /\ str_len f = Z.of_nat w /\ digits_value (i +:+ f) 0 = d /\
  (w <> 0%nat -> frac_text ("." +:+ f)).
Proof.
  intros Hd i f. set (t := 10 ^ Z.of_nat w).
  assert (0 < t) by (apply Z.pow_pos_nonneg; lia).
  assert (0 <= d / t) as Hq by (by apply Z.div_pos; lia).
  pose proof (Z.mod_pos_bound d t ltac:(lia)) as Hr.
  split_and!.
  - by apply utoa_int_text.
  - unfold str_len, f. by rewrite fixed_digits_length.
  - unfold i, f. destruct (utoa_spec (d / t) Hq) as (_ & Hv & _).
    rewrite digits_value_app. fold t. rewrite Hv.
    rewrite digits_value_onto by lia. fold t. rewrite Z.mod_mod by lia.
    pose proof (Z.div_mod d t ltac:(lia)). lia.
  - intros Hw. right. exists f. split; [done|].
    pose proof (fixed_digits_length w (d mod t)) as Hl. pose proof (fixed_digits_digits w (d mod t)).
    unfold f. fold t. destruct (fixed_digits w (d mod t) ""); [simpl in Hl; lia|done].
Qed.

Lemma fixed_text_prints d p : decimal_ok d p -> prints (fixed_text d p) d p.
Proof.
  intros Hok sg Hs. pose proof Hok as [Hd Hle]. unfold fixed_text. destruct (Z.leb_spec 0 p).
  - rewrite (Z.max_l p 0), (Z.max_r (- p) 0), Z.pow_0_r, Z.mul_1_r in Hle by lia.
    pose proof (Z.pow_pos_nonneg 10 p ltac:(lia) ltac:(lia)).
    exists (utoa (d * 10 ^ p)), "", "". rewrite !app_nil_r_str. split; [done|].
    split; [split; [done|apply utoa_int_text; nia|by left|by left]|].
    destruct (utoa_spec (d * 10 ^ p) ltac:(nia)) as (_ & Hv & _).
    rewrite Hv. exists (d * 10 ^ p), 0. split_and!; [done..|].
    split; [nia|]. change (Z.max 0 0) with 0. change (Z.max (- 0) 0) with 0. lia.
  - destruct (mantissa_parts d (Z.to_nat (- p)) Hd) as (Hi & Hl & Hv & Hf).
    rewrite !Z2Nat.id in * by lia.
    eexists _, ("." +:+ _), "". rewrite app_nil_r_str. split; [done|].
    split; [split; [done|exact Hi|apply Hf; lia|by left]|].
    eexists d, p. split; [exact Hv|]. split; [|done].
    rewrite str_tail_dot, Hl. change (exp_value "") with 0. lia.
Qed.

Lemma exp_part_text x : let t := if x <? 0 then "e-" +:+ utoa (- x) else "e+" +:+ utoa x in
  exp_part t /\ exp_value t = x.
Proof.
  cbv zeta. destruct (Z.ltb_spec x 0).
  - destruct (utoa_spec (- x) ltac:(lia)) as (Ha & Hv & _). split.
    + right. exists "-"%char, (utoa (- x)). auto.
    + rewrite !app_cons_str, app_nil_l_str. simpl. rewrite Hv. lia.
  - destruct (utoa_spec x ltac:(lia)) as (Ha & Hv & _). split.
    + right. exists "+"%char, (utoa x). auto.
    + rewrite !app_cons_str, app_nil_l_str. simpl. rewrite Hv. lia.
Qed.

Lemma exp_text_prints d p : decimal_ok d p -> prints (exp_text d p) d p.
Proof.
  intros Hok sg Hs. pose proof Hok as [Hd _]. unfold exp_text.
  set (n := digits_of d - 1). cbv zeta.
  assert (0 <= n) as Hn.
  { unfold n, digits_of. destruct (utoa_spec d Hd) as (Ha & _).
    apply all_digits_head in Ha as (c & r & -> & _). simpl. lia. }
  destruct (mantissa_parts d (Z.to_nat n) Hd) as (Hi & Hl & Hv & Hf).
  rewrite !Z2Nat.id in * by lia. destruct (exp_part_text (p + n)) as [Hx Hxv].
  cbv zeta in Hx, Hxv. destruct (Z.eqb_spec n 0) as [E|E].
  - eexists _, "", _. split; [done|]. split; [split; [done|exact Hi|by left|exact Hx]|].
    exists d, p. rewrite Hxv. change (str_len (str_tail "")) with 0. split_and!; [|lia|done].
    change (str_tail "") with "". rewrite E in Hv |- *. exact Hv.
  - eexists _, ("." +:+ _), _. split; [done|].
    split; [split; [done|exact Hi|apply Hf; lia|exact Hx]|].
    exists d, p. rewrite str_tail_dot, Hxv, Hl.
    split_and!; [done|lia|done].
Qed.

(** What the encoder prints for a moderate number, the decoder accepts. *)
Lemma encodes_float f text k : f64_moderate f = true -> float_text f = Some text ->
  encodes text (JNum text) k /\ float_literal_ok text = true.
Proof.
  assert (forall sg body d p, sign_text sg -> prints body d p ->
    encodes (sg +:+ body) (JNum (sg +:+ body)) k /\ float_literal_ok (sg +:+ body) = true) as Hgen.
  { intros sg body d p Hs Hp. destruct (Hp sg Hs) as (i & fr & x & -> & Hparts & v & e & Hv & He & Hok).
    split; [destruct Hparts; by apply encodes_number|].
    rewrite literal_ok, Hv, He by done. by apply decimal_limit. }
  destruct f as [sg| | |sg m e]; try done; intros Hm.
  - intros [= <-]. assert (int_text "0") as Hi by (split; [done|by left]).
    destruct sg; (split; [|done]).
    + apply (encodes_number "-" "0" "" ""); [by right|done|by left..].
    + apply (encodes_number "" "0" "" ""); [by left|done|by left..].
  - simpl in Hm. apply Z.leb_le in Hm. unfold float_text.
    pose proof (shortest_decimal_bound (Z.pos m) e ltac:(lia) Hm) as Hd.
    destruct (shortest_decimal (Z.pos m) e) as [d p]. intros [= <-].
    assert (sign_text (if sg then "-" else "")) as Hs by (destruct sg; [by right|by left]).
    destruct (f64_lt _ _ || _).
    + apply (Hgen _ _ d p Hs). by apply exp_text_prints.
    + apply (Hgen _ _ d p Hs). by apply fixed_text_prints.
Qed.
