(* ===== verification/Fs.v ===== *)
(** * Files, faults and crashes

    The file operations of package [os] the agent uses, as a state and error
    monad over a map from paths to nodes.  Every operation first consumes one
    entry of a fault schedule: it succeeds, it fails with an I/O error, or the
    process crashes at it.  A theorem that quantifies over the schedule
    therefore covers every combination of I/O errors and every crash point. *)

From S2P Require Export GoStrings.

(** Keys of the file map are countable as pairs of strings, never as a finite type. *)
#[export] Remove Hints finite.finite_countable : typeclass_instances.

(** ** Nodes, worlds, outcomes *)

(** A path is a directory and a base name, what [filepath.Join] builds and
    [filepath.Dir] and [filepath.Base] take apart. *)
Notation path := (string * string)%type.

Inductive node : Type :=
| NFile (content : string) (perm : Z)
| NDir (empty : bool)
| NSymlink (target : string)
| NOther.

#[export] Instance node_eq_dec : EqDecision node.
Proof. solve_decision. Defined.

Inductive os_error : Type := ErrNotExist | ErrIO.

(** [FErr n]: the operation fails; a write has stored its first [n] bytes.
    [FWriteErr n]: the same for an operation that changes or flushes something,
    while a reading operation works.
    [FCrash n]: the process dies at the operation, before its effect if [n] is
    zero and after it otherwise; a write has stored its first [n] bytes. *)
Inductive fault : Type := FOk | FErr (n : nat) | FWriteErr (n : nat) | FCrash (n : nat).

Record world : Type := mkWorld {
  files : gmap path node;
  faults : list fault;
  suffixes : list string;  (* the random parts [os.CreateTemp] will draw *)
  notified : bool  (* a token waits in the one-slot channel [ProbeSpool.notify] *)
}.

Inductive outcome (E A : Type) : Type :=
| Done (a : A)
| Fail (e : E)
| Crashed.
Arguments Done {E A} a.
Arguments Fail {E A} e.
Arguments Crashed {E A}.

Definition M (E A : Type) : Type := world -> world * outcome E A.

#[export] Instance M_ret {E} : MRet (M E) := fun _ a w => (w, Done a).
#[export] Instance M_bind {E} : MBind (M E) := fun _ _ f m w =>
  match m w with
  | (w', Done a) => f a w'
  | (w', Fail e) => (w', Fail e)
  | (w', Crashed) => (w', Crashed)
  end.

Definition throw {E A} (e : E) : M E A := fun w => (w, Fail e).

(** Go's [if err := m(); err != nil]: the error becomes a value. *)
Definition attempt {E E' A} (m : M E A) : M E' (result E A) := fun w =>
  match m w with
  | (w', Done a) => (w', Done (Ok a))
  | (w', Fail e) => (w', Done (Err e))
  | (w', Crashed) => (w', Crashed)
  end.

Definition from_result {E A} (r : result E A) : M E A :=
  match r with Ok a => mret a | Err e => throw e end.

Definition lift_error {E E' A} (f : E -> E') (m : M E A) : M E' A := fun w =>
  match m w with
  | (w', Done a) => (w', Done a)
  | (w', Fail e) => (w', Fail (f e))
  | (w', Crashed) => (w', Crashed)
  end.

(** ** Operations *)
Definition set_files (fs : gmap path node) (w : world) : world :=
  mkWorld fs (faults w) (suffixes w) (notified w).

(** The operation whose regular result is [eff]: the new files, or its error. *)
Definition os_call {A} (eff : gmap path node -> result os_error (gmap path node * A))
  : M os_error A := fun w =>
  let '(fault, rest) := match faults w with [] => (FOk, []) | f :: fs => (f, fs) end in
  let w := mkWorld (files w) rest (suffixes w) (notified w) in
  match fault with
  | FErr _ | FWriteErr _ => (w, Fail ErrIO)
  | FCrash O => (w, Crashed)
  | FCrash (S _) =>
      match eff (files w) with
      | Ok (fs, _) => (set_files fs w, Crashed)
      | Err _ => (w, Crashed)
      end
  | FOk =>
      match eff (files w) with
      | Ok (fs, a) => (set_files fs w, Done a)
      | Err e => (w, Fail e)
      end
  end.

(** An operation that only reads: the files stay as they are. *)
Definition os_read {A} (eff : gmap path node -> result os_error A) : M os_error A := fun w =>
  let '(fault, rest) := match faults w with [] => (FOk, []) | f :: fs => (f, fs) end in
  let w := mkWorld (files w) rest (suffixes w) (notified w) in
  match fault with
  | FErr _ => (w, Fail ErrIO)
  | FCrash _ => (w, Crashed)
  | FOk | FWriteErr _ => (w, match eff (files w) with Ok a => Done a | Err e => Fail e end)
  end.

Definition node_size (n : node) : Z :=
  match n with
  | NFile c _ => str_len c
  | NSymlink t => str_len t
  | NDir _ | NOther => 0
  end.

Definition Lstat (p : path) : M os_error node :=
  os_read (fun fs => match fs !! p with Some n => Ok n | None => Err ErrNotExist end).

(** [os.ReadDir]: the entries of a directory, sorted by name. *)
Definition dir_entries (fs : gmap path node) (dir : string) : list (string * node) :=
  merge_sort (fun a b => String.le a.1 b.1)
    (omap (fun '(p, n) => if decide (p.1 = dir) then Some (p.2, n) else None) (map_to_list fs)).

Definition ReadDir (dir : string) : M os_error (list (string * node)) :=
  os_read (fun fs => Ok (dir_entries fs dir)).

(** [os.Remove]: a directory must be empty. *)
Definition Remove (p : path) : M os_error () :=
  os_call (fun fs =>
    match fs !! p with
    | None => Err ErrNotExist
    | Some (NDir false) => Err ErrIO
    | Some _ => Ok (delete p fs, ())
    end).

Definition RemoveAll (p : path) : M os_error () := os_call (fun fs => Ok (delete p fs, ())).

(** [os.Rename] replaces a destination that is not a directory. *)
Definition Rename (src dst : path) : M os_error () :=
  os_call (fun fs =>
    match fs !! src, fs !! dst with
    | None, _ => Err ErrNotExist
    | Some (NDir _), Some _ | Some _, Some (NDir _) => Err ErrIO
    | Some n, _ => Ok (<[dst := n]> (delete src fs), ())
    end).

Definition Chmod (p : path) (perm : Z) : M os_error () :=
  os_call (fun fs =>
    match fs !! p with
    | None => Err ErrNotExist
    | Some (NFile c _) => Ok (<[p := NFile c perm]> fs, ())
    | Some _ => Ok (fs, ())
    end).

(** [fsync] and [close] of an open file or directory: no effect on the map. *)
Definition SyncFile : M os_error () := os_call (fun fs => Ok (fs, ())).
Definition CloseFile : M os_error () := os_call (fun fs => Ok (fs, ())).
Definition syncDirectory : M os_error () := os_call (fun fs => Ok (fs, ())).

(** Reading a file to its end, at most [limit] bytes. *)
Definition ReadFile (p : path) (limit : Z) : M os_error string :=
  os_read (fun fs =>
    match fs !! p with
    | Some (NFile c _) => Ok (String.substring 0 (Z.to_nat limit) c)
    | Some _ => Err ErrIO
    | None => Err ErrNotExist
    end).

(** Writing to a freshly created file: a fault leaves a prefix behind. *)
Definition WriteFile (p : path) (content : string) : M os_error () := fun w =>
  let '(fault, rest) := match faults w with [] => (FOk, []) | f :: fs => (f, fs) end in
  let put c :=
    match files w !! p with
    | Some (NFile _ perm) => <[p := NFile c perm]> (files w)
    | _ => files w
    end in
  let w' fs := mkWorld fs rest (suffixes w) (notified w) in
  match fault with
  | FOk => (w' (put content), Done ())
  | FErr n | FWriteErr n => (w' (put (String.substring 0 n content)), Fail ErrIO)
  | FCrash n => (w' (put (String.substring 0 n content)), Crashed)
  end.

(** [os.CreateTemp]: draws names until one is free, then creates it 0600. *)
Fixpoint pick_temp (fs : gmap path node) (dir pre suf : string) (draws : list string)
  : option (path * list string) :=
  match draws with
  | [] => None
  | d :: draws =>
      let p := (dir, pre +:+ d +:+ suf) in
      match fs !! p with
      | None => Some (p, draws)
      | Some _ => pick_temp fs dir pre suf draws
      end
  end.

Definition CreateTemp (dir pre suf : string) : M os_error path := fun w =>
  match pick_temp (files w) dir pre suf (suffixes w) with
  | None => (w, Fail ErrIO)
  | Some (p, draws) =>
      os_call (fun fs => Ok (<[p := NFile "" 384]> fs, p)) (mkWorld (files w) (faults w) draws (notified w))
  end.

(** A send on the notification channel that does not block. *)
Definition signal {E} : M E () := fun w =>
  (mkWorld (files w) (faults w) (suffixes w) true, Done ()).

(** probe_spool_fs_unix.go: the rename of the platforms other than Windows. *)
Definition replaceFileAtomically (source destination : path) : M os_error () := Rename source destination.

(** ** The two composite operations of probe_spool.go (lines 456 to 494) *)
Definition atomicWritePrivateFile (p : path) (content : string) : M os_error () :=
  tmp ← CreateTemp p.1 ".probe-spool-" ".tmp";
  r ← attempt (Chmod tmp 384;; WriteFile tmp content;; SyncFile;; CloseFile;; replaceFileAtomically tmp p);
  match r with
  | Err e =>
      _ ← attempt (E := os_error) CloseFile;
      _ ← attempt (E := os_error) (Remove tmp);
      throw e
  | Ok _ =>
      s ← attempt syncDirectory;
      _ ← attempt (E := os_error) CloseFile;
      from_result s
  end.

Definition removeFileAndSync (p : path) : M os_error () :=
  r ← attempt (Remove p);
  match r with
  | Err ErrIO => throw ErrIO
  | _ => syncDirectory
  end.
