(* ===== verification/FsFacts.v ===== *)
(** * Reasoning about file operations

    [wp F m Q fs]: started on the files [fs] with a schedule whose faults are
    all in [F], [m] ends with an outcome and files that satisfy [Q].  [F] is
    [any_fault] for a theorem about every I/O error and crash point,
    [reads_work] for crashes and the errors of operations that change or flush
    something, and [no_fault] for an undisturbed run. *)

From S2P Require Export Fs.

Notation store := (gmap path node).

Definition any_fault (f : fault) : Prop := True.
Definition reads_work (f : fault) : Prop := match f with FErr _ => False | _ => True end.
Definition no_fault (f : fault) : Prop := f = FOk.

Definition wp {E A : Type} (F : fault -> Prop) (m : M E A) (Q : outcome E A -> store -> Prop)
  (fs : store) : Prop :=
  forall w, files w = fs -> Forall F (faults w) ->
    Forall F (faults (m w).1) /\ Q (m w).2 (files (m w).1).

Section Rules.
Context {E : Type} (F : fault -> Prop).

Lemma wp_conseq {A : Type} (m : M E A) (Q Q' : outcome E A -> store -> Prop) (fs : store) :
  wp F m Q fs -> (forall o fs', Q o fs' -> Q' o fs') -> wp F m Q' fs.
Proof. intros Hm HQ w Hw Hf. destruct (Hm w Hw Hf). auto. Qed.

Lemma wp_ext {A : Type} (m m' : M E A) (Q : outcome E A -> store -> Prop) (fs : store) :
  (forall w, m w = m' w) -> wp F m' Q fs -> wp F m Q fs.
Proof. intros He Hm w Hw Hf. rewrite He. by apply Hm. Qed.

Lemma wp_conj {A : Type} (m : M E A) (Q Q' : outcome E A -> store -> Prop) (fs : store) :
  wp F m Q fs -> wp F m Q' fs -> wp F m (fun o fs' => Q o fs' /\ Q' o fs') fs.
Proof. intros H1 H2 w Hw Hf. destruct (H1 w Hw Hf), (H2 w Hw Hf). auto. Qed.

Lemma wp_ret {A : Type} (a : A) (Q : outcome E A -> store -> Prop) (fs : store) :
  Q (Done a) fs -> wp F (mret a) Q fs.
Proof. intros HQ w <- Hf. done. Qed.

Lemma wp_throw {A : Type} (e : E) (Q : outcome E A -> store -> Prop) (fs : store) :
  Q (Fail e) fs -> wp F (throw e) Q fs.
Proof. intros HQ w <- Hf. done. Qed.

Lemma wp_bind {A B : Type} (m : M E A) (f : A -> M E B) (Q : outcome E B -> store -> Prop) (fs : store) :
  wp F m (fun o fs' =>
    match o with
    | Done a => wp F (f a) Q fs'
    | Fail e => Q (Fail e) fs'
    | Crashed => Q Crashed fs'
    end) fs ->
  wp F (m ≫= f) Q fs.
Proof.
  intros Hm w Hw Hf. destruct (Hm w Hw Hf) as [Hf' HQ].
  unfold mbind, M_bind. destruct (m w) as [w' [a|e|]]; simpl in *; auto.
Qed.

Lemma wp_attempt {E' A : Type} (m : M E A) (Q : outcome E' (result E A) -> store -> Prop) (fs : store) :
  wp F m (fun o fs' =>
    match o with
    | Done a => Q (Done (Ok a)) fs'
    | Fail e => Q (Done (Err e)) fs'
    | Crashed => Q Crashed fs'
    end) fs ->
  wp F (attempt m) Q fs.
Proof.
  intros Hm w Hw Hf. destruct (Hm w Hw Hf) as [Hf' HQ].
  unfold attempt. destruct (m w) as [w' [a|e|]]; simpl in *; auto.
Qed.

Lemma wp_lift_error {E' A : Type} (g : E -> E') (m : M E A) (Q : outcome E' A -> store -> Prop) (fs : store) :
  wp F m (fun o fs' =>
    match o with
    | Done a => Q (Done a) fs'
    | Fail e => Q (Fail (g e)) fs'
    | Crashed => Q Crashed fs'
    end) fs ->
  wp F (lift_error g m) Q fs.
Proof.
  intros Hm w Hw Hf. destruct (Hm w Hw Hf) as [Hf' HQ].
  unfold lift_error. destruct (m w) as [w' [a|e|]]; simpl in *; auto.
Qed.

Lemma wp_signal (Q : outcome E () -> store -> Prop) (fs : store) : Q (Done ()) fs -> wp F signal Q fs.
Proof. intros HQ w <- Hf. done. Qed.

Lemma wp_from_result {A : Type} (r : result E A) (Q : outcome E A -> store -> Prop) (fs : store) :
  match r with Ok a => Q (Done a) fs | Err e => Q (Fail e) fs end -> wp F (from_result r) Q fs.
Proof. destruct r; [apply wp_ret|apply wp_throw]. Qed.
End Rules.

(** What a fault may leave behind: [fs] itself or the effect. *)
Lemma wp_os_call {A : Type} (F : fault -> Prop) (eff : store -> result os_error (store * A))
  (Q : outcome os_error A -> store -> Prop) fs :
  match eff fs with Ok (fs', a) => Q (Done a) fs' | Err e => Q (Fail e) fs end ->
  ((exists n, F (FErr n) \/ F (FWriteErr n)) -> Q (Fail ErrIO) fs) ->
  ((exists n, F (FCrash n)) ->
    Q Crashed fs /\ match eff fs with Ok (fs', _) => Q Crashed fs' | Err _ => True end) ->
  wp F (os_call eff) Q fs.
Proof.
  intros Hok Herr Hcrash w <- Hf. unfold os_call.
  destruct (eff (files w)) as [[fs' a]|e] eqn:Er;
    (destruct (faults w) as [|f rest] eqn:Ew; [by simpl; rewrite Er|]);
    inversion Hf as [|? ? Hf1 Hf2]; subst;
    destruct f as [|n|n|[|n]]; simpl; rewrite ?Er; (split; [done|]); simpl; eauto;
    apply Hcrash; eauto.
Qed.

(** A read: the files stay as they are. *)
Lemma wp_read {A : Type} (F : fault -> Prop) (r : store -> result os_error A) (Q : outcome os_error A -> store -> Prop) (fs : store) :
  (forall a, r fs = Ok a -> Q (Done a) fs) -> (forall e, r fs = Err e -> Q (Fail e) fs) ->
  ((exists n, F (FErr n)) -> Q (Fail ErrIO) fs) -> ((exists n, F (FCrash n)) -> Q Crashed fs) ->
  wp F (os_read r) Q fs.
Proof.
  intros H1 H2 H3 H4 w <- Hf. unfold os_read.
  destruct (r (files w)) as [a|e] eqn:Er; (destruct (faults w) as [|f rest] eqn:Ew; [by simpl; rewrite Er; eauto|]);
    inversion Hf as [|? ? Hf1 Hf2]; subst; destruct f; simpl; rewrite ?Er; (split; [done|]); eauto.
Qed.

Definition put (p : path) (c : string) (fs : store) : store :=
  match fs !! p with
  | Some (NFile _ perm) => <[p := NFile c perm]> fs
  | _ => fs
  end.

Lemma wp_WriteFile (F : fault -> Prop) (p : path) (c : string) (Q : outcome os_error () -> store -> Prop) (fs : store) :
  Q (Done ()) (put p c fs) ->
  (forall c', (exists n, F (FErr n) \/ F (FWriteErr n)) -> Q (Fail ErrIO) (put p c' fs)) ->
  (forall c', (exists n, F (FCrash n)) -> Q Crashed (put p c' fs)) ->
  wp F (WriteFile p c) Q fs.
Proof.
  intros Hok Herr Hcrash w <- Hf. unfold WriteFile.
  destruct (faults w) as [|f rest] eqn:Ew; [done|].
  inversion Hf as [|? ? Hf1 Hf2]; subst.
  destruct f as [|n|n|n]; simpl; (split; [done|]); [exact Hok| | |].
  - apply (Herr (String.substring 0 n c)). eauto.
  - apply (Herr (String.substring 0 n c)). eauto.
  - apply (Hcrash (String.substring 0 n c)). eauto.
Qed.

Lemma pick_temp_fresh (fs : store) (dir pre suf : string) draws p rest :
  pick_temp fs dir pre suf draws = Some (p, rest) ->
  fs !! p = None /\ exists d, p = (dir, pre +:+ d +:+ suf).
Proof.
  induction draws as [|d draws IH]; [done|]. simpl.
  destruct (fs !! (dir, pre +:+ d +:+ suf)) eqn:E; [by apply IH|]. intros [= <- <-]. eauto.
Qed.

Lemma wp_CreateTemp (F : fault -> Prop) (dir pre suf : string) (Q : outcome os_error path -> store -> Prop) (fs : store) :
  Q (Fail ErrIO) fs -> ((exists n, F (FCrash n)) -> Q Crashed fs) ->
  (forall d, let p := (dir, pre +:+ d +:+ suf) in fs !! p = None ->
    Q (Done p) (<[p := NFile "" 384]> fs) /\
    ((exists n, F (FCrash n)) -> Q Crashed (<[p := NFile "" 384]> fs))) ->
  wp F (CreateTemp dir pre suf) Q fs.
Proof.
  intros Herr Hcrash Hok w <- Hf. unfold CreateTemp.
  destruct (pick_temp _ _ _ _ _) as [[p rest]|] eqn:Ep; [|done].
  destruct (pick_temp_fresh _ _ _ _ _ _ _ Ep) as [Hfree [d ->]]. destruct (Hok d Hfree) as [H1 H2].
  apply (wp_os_call F (fun fs => Ok (<[(dir, pre +:+ d +:+ suf) := NFile "" 384]> fs,
    (dir, pre +:+ d +:+ suf))) Q (files w)); auto.
Qed.

(** An operation that keeps a property of the files, whatever its outcome. *)
Definition keeps {E A : Type} (F : fault -> Prop) (I : store -> Prop) (m : M E A) : Prop :=
  forall fs, I fs -> wp F m (fun _ => I) fs.

Section Keeps.
Context {E : Type} (F : fault -> Prop) (I : store -> Prop).

Lemma keeps_ret {A : Type} (a : A) : keeps (E := E) F I (mret a).
Proof. intros fs H. by apply wp_ret. Qed.
Lemma keeps_throw {A : Type} (e : E) : keeps (A := A) F I (throw e).
Proof. intros fs H. by apply wp_throw. Qed.
Lemma keeps_bind {A B : Type} (m : M E A) (f : A -> M E B) :
  keeps F I m -> (forall a, keeps F I (f a)) -> keeps F I (m ≫= f).
Proof.
  intros Hm Hf fs H. apply wp_bind. eapply wp_conseq; [by apply Hm|].
  intros [a|e|] fs'; simpl; [apply Hf|done|done].
Qed.
Lemma keeps_attempt {E' A : Type} (m : M E A) : keeps F I m -> keeps (E := E') F I (attempt m).
Proof.
  intros Hm fs H. apply wp_attempt. eapply wp_conseq; [by apply Hm|]. by intros [a|e|] fs'.
Qed.
Lemma keeps_lift_error {E' A : Type} (g : E -> E') (m : M E A) : keeps F I m -> keeps F I (lift_error g m).
Proof.
  intros Hm fs H. apply wp_lift_error. eapply wp_conseq; [by apply Hm|]. by intros [a|e|] fs'.
Qed.
Lemma keeps_from_result {A : Type} (r : result E A) : keeps F I (from_result r).
Proof. destruct r; [apply keeps_ret|apply keeps_throw]. Qed.
Lemma keeps_signal : keeps (E := E) F I signal.
Proof. intros fs H. by apply wp_signal. Qed.
End Keeps.

Lemma keeps_os_call {A : Type} (F : fault -> Prop) (I : store -> Prop) (eff : store -> result os_error (store * A)) :
  (forall fs fs' a, I fs -> eff fs = Ok (fs', a) -> I fs') -> keeps F I (os_call eff).
Proof.
  intros H fs HI. apply wp_os_call; [|auto|intros _; split; [done|]];
    destruct (eff fs) as [[fs' a]|e] eqn:E; eauto.
Qed.

Lemma keeps_read {A : Type} (F : fault -> Prop) (I : store -> Prop) (r : store -> result os_error A) :
  keeps F I (os_read r).
Proof. intros fs HI. by apply wp_read. Qed.
Lemma keeps_same {A : Type} (F : fault -> Prop) (I : store -> Prop) (eff : store -> result os_error (store * A)) :
  (forall fs fs' a, eff fs = Ok (fs', a) -> fs' = fs) -> keeps F I (os_call eff).
Proof. intros H. apply keeps_os_call. intros fs fs' a HI E. by rewrite (H _ _ _ E). Qed.

Lemma keeps_conj {E A : Type} (F : fault -> Prop) (I J : store -> Prop) (m : M E A) :
  keeps F I m -> keeps F J m -> keeps F (fun fs => I fs /\ J fs) m.
Proof.
  intros HI HJ fs [Hi Hj] w Hw Hf. destruct (HI fs Hi w Hw Hf). by destruct (HJ fs Hj w Hw Hf).
Qed.

Create HintDb fs.
#[export] Hint Resolve keeps_ret keeps_throw keeps_bind keeps_attempt keeps_lift_error
  keeps_from_result keeps_signal : fs.

(** ** Directory listings *)
Lemma dir_entries_perm (fs : store) (dir : string) :
  dir_entries fs dir ≡ₚ
    omap (fun '(p, n) => if decide (p.1 = dir) then Some (p.2, n) else None) (map_to_list fs).
Proof. apply merge_sort_Permutation. Qed.

Lemma elem_of_dir_entries (fs : store) (dir name : string) (n : node) :
  (name, n) ∈ dir_entries fs dir <-> fs !! (dir, name) = Some n.
Proof.
  rewrite dir_entries_perm, list_elem_of_omap. split.
  - intros ([[d x] y] & Hin%elem_of_map_to_list & Hd). simpl in Hd. case_decide; [|done].
    by simplify_eq.
  - intros H. exists ((dir, name), n). split; [by apply elem_of_map_to_list|]. simpl.
    by rewrite decide_True.
Qed.

(** ** The atomic write *)

(** The temporary names [atomicWritePrivateFile] draws. *)
Definition temp_of (p q : path) : Prop := exists d, q = (p.1, ".probe-spool-" +:+ d +:+ ".tmp").

(** [base] with at most one temporary file beside it. *)
Definition with_leftover (p : path) (base fs' : store) : Prop :=
  fs' = base \/
  exists q c perm, temp_of p q /\ base !! q = None /\ fs' = <[q := NFile c perm]> base.

Definition replaced (p : path) (c : string) (fs : store) : store := <[p := NFile c 384]> fs.

(** The states between the creation of the temporary [q] and the rename. *)
Definition staged (q : path) (fs fs' : store) : Prop :=
  exists c perm, fs' = <[q := NFile c perm]> fs.

Lemma staged_put (q : path) (c : string) (fs fs' : store) : staged q fs fs' -> staged q fs (put q c fs').
Proof.
  intros (c' & perm & ->). unfold put. rewrite lookup_insert_eq, insert_insert_eq. by eexists _, _.
Qed.

Lemma wp_Chmod_staged (F : fault -> Prop) (q : path) (fs : store) (c : string) (perm : Z) (Q : outcome os_error () -> store -> Prop) :
  (forall o fs', staged q fs fs' -> (o = Done () -> fs' = <[q := NFile c 384]> fs) -> Q o fs') ->
  wp F (Chmod q 384) Q (<[q := NFile c perm]> fs).
Proof.
  intros HQ. assert (staged q fs (<[q := NFile c perm]> fs)) by (by eexists _, _).
  apply wp_os_call; [|intros _; by apply HQ|intros _];
    cbv beta; rewrite lookup_insert_eq, insert_insert_eq.
  - apply HQ; [by eexists _, _|done].
  - split; [by apply HQ|]. apply HQ; [by eexists _, _|done].
Qed.

(** The body that fills the temporary and renames it. *)
Lemma fill_spec (F : fault -> Prop) (p q : path) (c : string) (fs : store) :
  p <> q -> fs !! q = None ->
  wp (E := os_error) F (Chmod q 384;; WriteFile q c;; SyncFile;; CloseFile;; replaceFileAtomically q p)
    (fun o fs' =>
      (o <> Done () /\ staged q fs fs') \/
      (o <> Fail ErrIO /\ o <> Fail ErrNotExist /\ fs' = replaced p c fs))
    (<[q := NFile "" 384]> fs).
Proof.
  intros Hpq Hq. set (QQ := fun o fs' => _ \/ _).
  assert (forall o fs', o <> Done () -> staged q fs fs' -> QQ o fs') as Hst by (intros; by left).
  apply wp_bind, wp_Chmod_staged. intros [[]|e|] fs1 Hs1 H1; simpl; [|by apply Hst..].
  rewrite (H1 eq_refl). clear fs1 Hs1 H1.
  assert (staged q fs (<[q := NFile "" 384]> fs)) as Hs by (by eexists _, _).
  apply wp_bind, wp_WriteFile; simpl; [|intros c' _; apply Hst; [done|by apply staged_put]..].
  unfold put. rewrite lookup_insert_eq, insert_insert_eq.
  assert (staged q fs (<[q := NFile c 384]> fs)) as Hs' by (by eexists _, _).
  do 2 (apply wp_bind, wp_os_call; simpl; [|intros _; by apply Hst|intros _; split; by apply Hst]).
  assert (delete q (<[q := NFile c 384]> fs) = fs) as Hdel by (by rewrite delete_insert_id).
  apply wp_os_call; [|intros _; by apply Hst|intros _; split; [by apply Hst|]];
    cbv beta; rewrite lookup_insert_eq, lookup_insert_ne, Hdel by done;
    (destruct (fs !! p) as [[| | |]|]; try (by apply Hst); try exact I; right; done).
Qed.

Local Ltac settle := split; [solve [auto]|try discriminate; solve [auto]].

(** Whatever fails and wherever the process dies, the target holds its old
    content or the complete new one; success means the new content and no
    temporary left behind. *)
Lemma atomicWrite_spec (F : fault -> Prop) (p : path) (c : string) (fs : store) :
  ~ temp_of p p ->
  wp F (atomicWritePrivateFile p c)
    (fun o fs' =>
      (with_leftover p fs fs' \/ with_leftover p (replaced p c fs) fs') /\
      (o = Done () -> fs' = replaced p c fs)) fs.
Proof.
  intros Hp. unfold atomicWritePrivateFile. apply wp_bind, wp_CreateTemp.
  { split; [left; by left|done]. }
  { intros _. split; [left; by left|done]. }
  intros d q Hq. assert (temp_of p q) as Ht by (by exists d). clearbody q.
  assert (p <> q) as Hpq by (intros <-; by apply Hp).
  assert (forall fs', staged q fs fs' -> with_leftover p fs fs') as Hleft.
  { intros fs' (c' & perm & ->). right. by exists q, c', perm. }
  split; [|intros _; split; [left; apply Hleft; by eexists _, _|done]].
  apply wp_bind, wp_attempt. eapply wp_conseq; [by apply fill_spec|].
  intros [[]|e|] fs1 [[Hne Hs]|(Hne1 & Hne2 & ->)]; simpl; try done.
  - (* renamed *)
    assert (with_leftover p (replaced p c fs) (replaced p c fs)) as Hr by by left.
    apply wp_bind, wp_attempt, wp_os_call; simpl; [|intros _|intros _; split; settle];
      (apply wp_bind, wp_attempt, wp_os_call; simpl; [|intros _|intros _; split; settle]);
      first [apply wp_ret; settle|apply wp_throw; settle].
  - (* failed before the rename *)
    pose proof (Hleft _ Hs) as Hl.
    assert (with_leftover p fs (delete q fs1)) as Hrm.
    { destruct Hs as (c' & perm & ->). rewrite delete_insert_id by done. by left. }
    apply wp_bind, wp_attempt, wp_os_call; simpl; [|intros _|intros _; split; settle];
      (apply wp_bind, wp_attempt, wp_os_call; simpl; [|intros _|intros _; split; [settle|]]);
      repeat case_match; simplify_eq; first [exact I|apply wp_throw; settle|settle].
  - by destruct e.
  - settle.
  - split; [right; by left|done].
Qed.

(** ** Reads keep everything *)
Lemma keeps_Lstat (F : fault -> Prop) (I : store -> Prop) (p : path) : keeps F I (Lstat p).
Proof. apply keeps_read. Qed.
Lemma keeps_ReadDir (F : fault -> Prop) (I : store -> Prop) (dir : string) : keeps F I (ReadDir dir).
Proof. apply keeps_read. Qed.
Lemma keeps_ReadFile (F : fault -> Prop) (I : store -> Prop) (p : path) (n : Z) :
  keeps F I (ReadFile p n).
Proof. apply keeps_read. Qed.
Lemma keeps_syncDirectory (F : fault -> Prop) (I : store -> Prop) : keeps F I syncDirectory.
Proof. apply keeps_same. by intros fs fs' a [= <- _]. Qed.

Lemma keeps_Remove (F : fault -> Prop) (I : store -> Prop) (p : path) :
  (forall fs, I fs -> I (delete p fs)) -> keeps F I (Remove p).
Proof.
  intros H. apply keeps_os_call. intros fs fs' a Hi. repeat case_match; intros [= <- _]; auto.
Qed.
Lemma keeps_RemoveAll (F : fault -> Prop) (I : store -> Prop) (p : path) :
  (forall fs, I fs -> I (delete p fs)) -> keeps F I (RemoveAll p).
Proof. intros H. apply keeps_os_call. intros fs fs' a Hi [= <- _]. auto. Qed.
Lemma keeps_Rename (F : fault -> Prop) (I : store -> Prop) (p q : path) :
  (forall fs n, I fs -> fs !! p = Some n -> I (<[q := n]> (delete p fs))) -> keeps F I (Rename p q).
Proof.
  intros H. apply keeps_os_call. intros fs fs' a Hi. repeat case_match; intros [= <- _]; auto.
Qed.
Lemma keeps_Chmod (F : fault -> Prop) (I : store -> Prop) (p : path) (perm : Z) :
  (forall fs c perm', I fs -> fs !! p = Some (NFile c perm') -> I (<[p := NFile c perm]> fs)) ->
  keeps F I (Chmod p perm).
Proof.
  intros H. apply keeps_os_call. intros fs fs' a Hi. repeat case_match; intros [= <- _]; eauto.
Qed.

#[export] Hint Resolve keeps_Lstat keeps_ReadDir keeps_ReadFile keeps_syncDirectory : fs.

Lemma keeps_removeFileAndSync (F : fault -> Prop) (I : store -> Prop) (p : path) :
  (forall fs, I fs -> I (delete p fs)) -> keeps F I (removeFileAndSync p).
Proof.
  intros H. unfold removeFileAndSync. apply keeps_bind.
  - apply keeps_attempt, keeps_Remove, H.
  - intros [a|[]]; auto with fs.
Qed.

Lemma dir_entries_NoDup (fs : store) (dir : string) : NoDup (dir_entries fs dir).*1.
Proof.
  rewrite dir_entries_perm. pose proof (NoDup_fst_map_to_list fs) as Hnd.
  induction (map_to_list fs) as [|[[d x] n] l IH]; simpl; [constructor|].
  simpl in Hnd. apply NoDup_cons in Hnd as [Hx Hl]. case_decide as Hd; simpl; [|auto].
  apply NoDup_cons. split; [|auto]. intros Hin. apply Hx.
  apply list_elem_of_fmap in Hin as ([y m] & -> & Hin).
  apply list_elem_of_omap in Hin as ([[d' x'] m'] & Hin & E). simpl in E. case_decide; [|done].
  simplify_eq/=. apply list_elem_of_fmap. by eexists (_, m).
Qed.

Lemma dir_entries_NoDup' (fs : store) (dir : string) : NoDup (dir_entries fs dir).
Proof. eapply NoDup_fmap_1, dir_entries_NoDup. Qed.

(** ** Reads: results *)
Section Reads.
Context (F : fault -> Prop).

Lemma wp_Lstat (p : path) (Q : outcome os_error node -> store -> Prop) (fs : store) :
  match fs !! p with Some n => Q (Done n) fs | None => Q (Fail ErrNotExist) fs end ->
  ((exists n, F (FErr n)) -> Q (Fail ErrIO) fs) -> ((exists n, F (FCrash n)) -> Q Crashed fs) ->
  wp F (Lstat p) Q fs.
Proof.
  intros H1 H2 H3. apply wp_read; [..|done|done]; intros a; destruct (fs !! p); by intros [= <-].
Qed.

Lemma wp_ReadDir (dir : string) (Q : outcome os_error (list (string * node)) -> store -> Prop)
  (fs : store) :
  Q (Done (dir_entries fs dir)) fs ->
  ((exists n, F (FErr n)) -> Q (Fail ErrIO) fs) -> ((exists n, F (FCrash n)) -> Q Crashed fs) ->
  wp F (ReadDir dir) Q fs.
Proof. intros H1 H2 H3. apply wp_read; [..|done|done]; [by intros a [= <-]|done]. Qed.

Lemma wp_ReadFile (p : path) (limit : Z) (Q : outcome os_error string -> store -> Prop) (fs : store) :
  match fs !! p with
  | Some (NFile c _) => Q (Done (String.substring 0 (Z.to_nat limit) c)) fs
  | Some _ => Q (Fail ErrIO) fs
  | None => Q (Fail ErrNotExist) fs
  end ->
  ((exists n, F (FErr n)) -> Q (Fail ErrIO) fs) -> ((exists n, F (FCrash n)) -> Q Crashed fs) ->
  wp F (ReadFile p limit) Q fs.
Proof.
  intros H1 H2 H3. apply wp_read; [..|done|done]; intros a; destruct (fs !! p) as [[]|]; by intros [= <-].
Qed.

Lemma wp_sync (Q : outcome os_error () -> store -> Prop) (fs : store) :
  Q (Done ()) fs ->
  ((exists n, F (FErr n) \/ F (FWriteErr n)) -> Q (Fail ErrIO) fs) -> ((exists n, F (FCrash n)) -> Q Crashed fs) ->
  wp F syncDirectory Q fs.
Proof. intros H1 H2 H3. apply wp_os_call; auto. Qed.
End Reads.

(** ** Listings are sorted *)
Lemma dir_entries_sorted (fs : store) (dir : string) (pre post : list (string * node)) x y :
  dir_entries fs dir = pre ++ x :: post -> y ∈ post -> String.le x.1 y.1.
Proof.
  intros E Hy. assert (StronglySorted (fun a b : string * node => String.le a.1 b.1) (pre ++ x :: post)) as Hs.
  { rewrite <- E. apply Sorted_StronglySorted; [intros a b c ? ?; by etrans|].
    apply Sorted_merge_sort. intros a b. apply (total String.le). }
  clear E. induction pre as [|z pre IH]; [|by apply IH; inversion Hs].
  simpl in Hs. inversion Hs as [|? ? _ Hall]; subst. rewrite Forall_forall in Hall. by apply Hall.
Qed.
