(* ===== verification/InstallReceipt.v ===== *)
(** * The install receipt (cmd/zeno-agent/install_receipt.go)

    The service writes a receipt once it has seen a successful heartbeat and a
    successful state report; the installer waits for that file. *)

From S2P Require Export FsFacts.

(** ** Tracker *)
Record installReceiptTracker : Type := mkTracker {
  r_path : option path;  (* [None] is the empty path *)
  r_nonce : string;
  heartbeatOK : bool;
  stateOK : bool;
  written : bool
}.

Definition installReceiptPrefix : string := "zeno-agent-install-receipt-v1 ".

Definition newInstallReceiptTracker (p : option path) (nonce : string) : installReceiptTracker :=
  mkTracker p nonce false false false.

(** What [fmt.Fprintln] writes. *)
Definition receipt_text (nonce : string) : string :=
  installReceiptPrefix +:+ nonce +:+ bytes [10].

(** [if err := m; err != nil { tmp.Close(); return err }] *)
Definition close_on_error {A : Type} (m : M os_error A) : M os_error A :=
  r ← attempt m;
  match r with
  | Ok a => mret a
  | Err e => _ ← attempt (E := os_error) CloseFile; throw e
  end.

Definition receipt_steps (tmp p : path) (nonce : string) : M os_error () :=
  close_on_error (Chmod tmp 384);;
  close_on_error (WriteFile tmp (receipt_text nonce));;
  close_on_error SyncFile;;
  CloseFile;;
  Rename tmp p.

Definition writeInstallReceipt (p : path) (nonce : string) : M os_error () :=
  tmp ← CreateTemp p.1 ".zeno-install-receipt-" "";
  r ← attempt (receipt_steps tmp p nonce);
  _ ← attempt (E := os_error) (Remove tmp);
  from_result r.

Definition set_flags (h s w : bool) (t : installReceiptTracker) : installReceiptTracker :=
  mkTracker (r_path t) (r_nonce t) h s w.

(** [mark]; the errors of the write are logged, so it fails only by crashing. *)
Definition mark (heartbeat : bool) (t : installReceiptTracker) : M os_error installReceiptTracker :=
  match r_path t with
  | None => mret t
  | Some p =>
      let t := if heartbeat then set_flags true (stateOK t) (written t) t
               else set_flags (heartbeatOK t) true (written t) t in
      if written t || negb (heartbeatOK t) || negb (stateOK t) then mret t
      else
        r ← attempt (writeInstallReceipt p (r_nonce t));
        match r with
        | Err _ => mret t
        | Ok _ => mret (set_flags (heartbeatOK t) (stateOK t) true t)
        end
  end.

Definition markHeartbeat : installReceiptTracker -> M os_error installReceiptTracker := mark true.
Definition markState : installReceiptTracker -> M os_error installReceiptTracker := mark false.

(** A run of the service: heartbeat successes ([true]) and state successes. *)
Fixpoint run_marks (marks : list bool) (t : installReceiptTracker) : M os_error installReceiptTracker :=
  match marks with
  | [] => mret t
  | b :: marks => t ← mark b t; run_marks marks t
  end.

(** ** Lemmas *)
Definition receipt_temp (p q : path) : Prop :=
  exists d, q = (p.1, ".zeno-install-receipt-" +:+ d +:+ "").

(** The receipt's path holds what it held, or the whole receipt. *)
Definition receipt_or_old (p : path) (nonce : string) (old : option node) (fs : store) : Prop :=
  fs !! p = old \/ fs !! p = Some (NFile (receipt_text nonce) 384).

Lemma keeps_close_on_error {A : Type} (F : fault -> Prop) (I : store -> Prop) (m : M os_error A) :
  keeps F I m -> keeps F I (close_on_error m).
Proof.
  intros Hm. unfold close_on_error. apply keeps_bind; [by apply keeps_attempt|].
  intros [a|e]; [auto with fs|]. apply keeps_bind; [|auto with fs].
  apply keeps_attempt, keeps_same. by intros fs fs' a [= <- _].
Qed.

Lemma keeps_WriteFile (F : fault -> Prop) (I : store -> Prop) (p : path) (c : string) :
  (forall fs c', I fs -> I (put p c' fs)) -> keeps F I (WriteFile p c).
Proof. intros H fs HI. apply wp_WriteFile; auto. Qed.

(** The steps before the rename touch the temporary only. *)
Definition fill_receipt (q : path) (nonce : string) : M os_error () :=
  close_on_error (Chmod q 384);; close_on_error (WriteFile q (receipt_text nonce));;
  close_on_error SyncFile;; CloseFile.

Lemma staged_self (q : path) (c : string) (fs : store) : staged q fs (<[q := NFile c 384]> fs).
Proof. by eexists _, _. Qed.

Lemma wp_close_on_error {A : Type} (F : fault -> Prop) (m : M os_error A)
  (Q : outcome os_error A -> store -> Prop) (fs : store) :
  wp F m Q fs -> (forall e fs', Q (Fail e) fs' -> Q Crashed fs') -> wp F (close_on_error m) Q fs.
Proof.
  intros Hm Hc. unfold close_on_error. apply wp_bind, wp_attempt. eapply wp_conseq; [exact Hm|].
  intros [a|e|] fs' HQ; [by apply wp_ret| |done].
  apply wp_bind, wp_attempt, wp_os_call; intros; [|..]; try (apply wp_throw; exact HQ).
  split; by eapply Hc.
Qed.

Lemma receipt_steps_spec (F : fault -> Prop) (p q : path) (nonce : string) (fs : store) :
  p <> q -> fs !! q = None ->
  wp F (receipt_steps q p nonce)
    (fun o fs' =>
      (o <> Done () /\ staged q fs fs') \/
      ((forall e, o <> Fail e) /\ fs' = <[p := NFile (receipt_text nonce) 384]> fs))
    (<[q := NFile "" 384]> fs).
Proof.
  intros Hpq Hq. set (c := receipt_text nonce). set (QQ := fun o fs' => _ \/ _).
  assert (forall o fs', o <> Done () -> staged q fs fs' -> QQ o fs') as Hst by (intros; by left).
  unfold receipt_steps. fold c.
  apply wp_bind, wp_close_on_error; [|intros e fs' [[_ H]|[H _]]; [by left|by destruct (H e)]].
  apply wp_Chmod_staged. intros [[]|e|] fs1 Hs1 H1; [|by apply Hst..].
  rewrite (H1 eq_refl). clear fs1 Hs1 H1.
  apply wp_bind, wp_close_on_error; [|intros e fs' [[_ H]|[H _]]; [by left|by destruct (H e)]].
  pose proof (staged_self q "" fs) as Hs. pose proof (staged_self q c fs) as Hs'.
  apply wp_WriteFile; [|intros c' _; apply Hst; [done|by apply staged_put]..].
  unfold put. rewrite lookup_insert_eq, insert_insert_eq.
  apply wp_bind, wp_close_on_error; [|intros e fs' [[_ H]|[H _]]; [by left|by destruct (H e)]].
  apply wp_os_call; [|intros _; by apply Hst|intros _; split; by apply Hst].
  apply wp_bind, wp_os_call; [|intros _; by apply Hst|intros _; split; by apply Hst].
  assert (delete q (<[q := NFile c 384]> fs) = fs) as Hdel by (by rewrite delete_insert_id).
  apply wp_os_call; [|intros _; by apply Hst|intros _; split; [by apply Hst|]];
    cbv beta; rewrite lookup_insert_eq, lookup_insert_ne, Hdel by done;
    (destruct (fs !! p) as [[| | |]|]; try (by apply Hst); try exact I; right; done).
Qed.

Lemma staged_lookup (p q : path) (fs fs' : store) : p <> q -> staged q fs fs' -> fs' !! p = fs !! p.
Proof. intros Hpq (c & perm & ->). by rewrite lookup_insert_ne. Qed.

(** One write of the receipt, under any faults. *)
Lemma write_receipt_spec (F : fault -> Prop) (p : path) (nonce : string) (fs : store) :
  ~ receipt_temp p p ->
  wp F (writeInstallReceipt p nonce)
    (fun o fs' => receipt_or_old p nonce (fs !! p) fs' /\
      (o = Done () -> fs' = <[p := NFile (receipt_text nonce) 384]> fs)) fs.
Proof.
  intros Hp. unfold writeInstallReceipt. apply wp_bind, wp_CreateTemp.
  { by split; [left|]. }
  { intros _. by split; [left|]. }
  intros d q Hq. assert (receipt_temp p q) as Ht by (by exists d). clearbody q.
  assert (p <> q) as Hpq by (intros <-; by apply Hp).
  split; [|intros _; split; [left; by rewrite lookup_insert_ne|done]].
  apply wp_bind, wp_attempt. eapply wp_conseq; [by apply receipt_steps_spec|].
  set (new := <[p := NFile (receipt_text nonce) 384]> fs).
  assert (new !! p = Some (NFile (receipt_text nonce) 384)) as Hnew by apply lookup_insert_eq.
  assert (new !! q = None) as Hnq by (unfold new; by rewrite lookup_insert_ne).
  intros o fs1 Ho.
  assert (forall fs2, fs2 = fs1 \/ fs2 = delete q fs1 -> receipt_or_old p nonce (fs !! p) fs2) as Hold.
  { intros fs2 Hfs2. assert (fs2 !! p = fs1 !! p) as E.
    { destruct Hfs2 as [-> | ->]; [done|]. by rewrite lookup_delete_ne. }
    unfold receipt_or_old. rewrite E. destruct Ho as [[_ Hs]|[_ ->]]; [left|by right].
    by eapply staged_lookup. }
  destruct o as [[]|e|]; [| |by split; [apply Hold; left|]].
  - destruct Ho as [[Hne _]|[_ ->]]; [done|].
    apply wp_bind, wp_attempt, wp_os_call.
    + cbv beta. rewrite Hnq. by apply wp_ret; split; [apply Hold; left|].
    + intros _. by apply wp_ret; split; [apply Hold; left|].
    + intros _. cbv beta. rewrite Hnq. by split; [split; [apply Hold; left|]|].
  - apply wp_bind, wp_attempt, wp_os_call; cbv beta.
    + repeat case_match; simplify_eq; apply wp_throw; (split; [apply Hold; auto|done]).
    + intros _. apply wp_throw. split; [apply Hold; auto|done].
    + intros _. split; [by split; [apply Hold; left|]|].
      repeat case_match; simplify_eq; first [exact I|split; [apply Hold; auto|done]].
Qed.

(** ** Properties *)

Definition receipt_inv (p : path) (nonce : string) (old : option node) (t : installReceiptTracker)
  (fs : store) : Prop :=
  r_path t = Some p /\ r_nonce t = nonce /\ receipt_or_old p nonce old fs /\
  (fs !! p <> old -> heartbeatOK t = true /\ stateOK t = true) /\
  (written t = true -> fs !! p = Some (NFile (receipt_text nonce) 384)).

Lemma mark_spec (F : fault -> Prop) (p : path) (nonce : string) (old : option node) b t (fs : store) :
  ~ receipt_temp p p -> receipt_inv p nonce old t fs ->
  wp F (mark b t)
    (fun o fs' => receipt_or_old p nonce old fs' /\
      (fs' !! p <> old -> (heartbeatOK t = true \/ b = true) /\ (stateOK t = true \/ b = false)) /\
      forall t', o = Done t' -> receipt_inv p nonce old t' fs' /\
        heartbeatOK t' = heartbeatOK t || b /\ stateOK t' = stateOK t || negb b) fs.
Proof.
  intros Hp (Hpath & Hnonce & Hold & Hboth & Hw). unfold mark. rewrite Hpath.
  set (t1 := if b then _ else _).
  assert (r_path t1 = Some p /\ r_nonce t1 = nonce /\ written t1 = written t /\
    heartbeatOK t1 = heartbeatOK t || b /\ stateOK t1 = stateOK t || negb b)
    as (Hp1 & Hn1 & Hw1 & Hh1 & Hs1).
  { unfold t1. destruct b; simpl; rewrite ?orb_true_r, ?orb_false_r; done. }
  clearbody t1.
  assert (forall fs', receipt_or_old p nonce old fs' ->
    (fs' !! p <> old -> heartbeatOK t1 = true /\ stateOK t1 = true) ->
    (fs' !! p <> old -> (heartbeatOK t = true \/ b = true) /\ (stateOK t = true \/ b = false))) as Hflags.
  { intros fs' _ H Hne. destruct (H Hne) as [H1 H2]. rewrite Hh1 in H1. rewrite Hs1 in H2.
    apply orb_true_iff in H1, H2. rewrite negb_true_iff in H2. done. }
  assert (fs !! p <> old -> heartbeatOK t1 = true /\ stateOK t1 = true) as Hboth1.
  { intros Hne. destruct (Hboth Hne) as [E1 E2]. by rewrite Hh1, Hs1, E1, E2. }
  destruct (written t1 || negb (heartbeatOK t1) || negb (stateOK t1)) eqn:E.
  { apply wp_ret. split; [done|]. split; [by apply Hflags|]. intros t' [= <-].
    split; [|done]. split_and!; try done. by rewrite Hw1. }
  apply orb_false_iff in E as [[_ E1%negb_false_iff]%orb_false_iff E2%negb_false_iff].
  apply wp_bind, wp_attempt. eapply wp_conseq; [by apply write_receipt_spec|]. rewrite Hn1.
  intros o fs' [Hro Hdone].
  assert (receipt_or_old p nonce old fs') as Hro'.
  { destruct Hro as [Hr|Hr]; [|by right]. unfold receipt_or_old in *. by rewrite Hr. }
  destruct o as [[]|e|]; [apply wp_ret|apply wp_ret|]; (split; [done|]; split; [by apply Hflags|]).
  - intros t' [= <-]. split; [|done]. split_and!; try done. intros _. rewrite (Hdone eq_refl).
    apply lookup_insert_eq.
  - intros t' [= <-]. split; [|done]. split_and!; try done. intros Hwr.
    rewrite Hw1 in Hwr. specialize (Hw Hwr). destruct Hro as [Hr|Hr]; [by rewrite Hr|done].
  - done.
Qed.

Lemma run_marks_spec (p : path) nonce marks (fs : store) :
  ~ receipt_temp p p ->
  wp any_fault (run_marks marks (newInstallReceiptTracker (Some p) nonce))
    (fun o fs' =>
      (fs' !! p = fs !! p \/ fs' !! p = Some (NFile (receipt_text nonce) 384)) /\
      (fs' !! p <> fs !! p -> In true marks /\ In false marks) /\
      (forall t, o = Done t -> written t = true -> fs' !! p = Some (NFile (receipt_text nonce) 384))) fs.
Proof.
  intros Hp. set (old := fs !! p).
  enough (forall marks t fs1, receipt_inv p nonce old t fs1 ->
    wp any_fault (run_marks marks t) (fun o fs' => receipt_or_old p nonce old fs' /\
      (fs' !! p <> old -> (heartbeatOK t = true \/ In true marks) /\ (stateOK t = true \/ In false marks)) /\
      (forall t', o = Done t' -> written t' = true -> fs' !! p = Some (NFile (receipt_text nonce) 384))) fs1)
    as Hgen.
  { eapply wp_conseq; [apply (Hgen marks (newInstallReceiptTracker (Some p) nonce) fs)|].
    - split_and!; try done; by left.
    - intros o fs' (Ho & Hb & Hw). split; [done|]. split; [|done].
      intros Hne. by destruct (Hb Hne) as [[?|?] [?|?]]. }
  clear marks. induction marks as [|b marks IH]; intros t fs1 Hinv; simpl.
  { pose proof Hinv as (_ & _ & Ho & Hb & Hw). apply wp_ret. split; [done|]. split.
    - intros Hne. destruct (Hb Hne). auto.
    - intros t' [= <-]. done. }
  apply wp_bind. eapply wp_conseq; [by apply mark_spec|].
  intros [t'|e|] fs2 (Ho & Hb & Hd);
    [|split; [done|]; split; [intros Hne; destruct (Hb Hne); tauto|done]..].
  destruct (Hd t' eq_refl) as (Hinv' & Hh & Hs).
  eapply wp_conseq; [by apply IH|]. intros o fs3 (Ho3 & Hb3 & Hw3).
  split; [done|]. split; [|done]. intros Hne. destruct (Hb3 Hne) as [H1 H2].
  rewrite Hh, orb_true_iff in H1. rewrite Hs, orb_true_iff, negb_true_iff in H2. tauto.
Qed.

(** The receipt proves what it says.  Whatever I/O errors occur and wherever
    the process dies, the receipt path holds its old content or the complete
    receipt; it changes only after at least one successful heartbeat and one
    successful state report; and a tracker that says written has written it. *)
Theorem receipt_only_after_both (p : path) nonce marks (fs : store) :
  ~ receipt_temp p p ->
  wp any_fault (run_marks marks (newInstallReceiptTracker (Some p) nonce))
    (fun o fs' =>
      (fs' !! p = fs !! p \/ fs' !! p = Some (NFile (receipt_text nonce) 384)) /\
      (fs' !! p <> fs !! p -> In true marks /\ In false marks) /\
      (forall t, o = Done t -> written t = true -> fs' !! p = Some (NFile (receipt_text nonce) 384))) fs.
Proof. exact (run_marks_spec p nonce marks fs). Qed.

Lemma os_call_ok {A : Type} (eff : store -> result os_error (store * A)) (w w' : world) fs' a :
  faults w = [] -> eff (files w) = Ok (fs', a) -> w' = set_files fs' w ->
  os_call eff w = (w', Done a).
Proof.
  intros Hf He ->. unfold os_call. rewrite Hf. simpl. rewrite He. unfold set_files. by rewrite Hf.
Qed.

Lemma bind_done {E A B : Type} (m : M E A) (f : A -> M E B) w w' a :
  m w = (w', Done a) -> (m ≫= f) w = f a w'.
Proof. intros H. unfold mbind, M_bind. by rewrite H. Qed.

Lemma attempt_done {E E' A : Type} (m : M E A) w w' a :
  m w = (w', Done a) -> attempt (E' := E') m w = (w', Done (Ok a)).
Proof. intros H. unfold attempt. by rewrite H. Qed.

Lemma close_done {A : Type} (m : M os_error A) w w' a :
  m w = (w', Done a) -> close_on_error m w = (w', Done a).
Proof. intros H. unfold close_on_error. by rewrite (bind_done _ _ _ _ _ (attempt_done _ _ _ _ H)). Qed.

(** Without faults the receipt is written: as soon as both successes have
    been seen, in either order, the call publishes the complete file with mode
    0600, leaves no temporary, and remembers that it did. *)
Theorem receipt_written_when_complete (p q : path) b t w rest :
  faults w = [] -> r_path t = Some p -> written t = false ->
  heartbeatOK t || b = true -> stateOK t || negb b = true ->
  pick_temp (files w) p.1 ".zeno-install-receipt-" "" (suffixes w) = Some (q, rest) ->
  p <> q -> (forall empty, files w !! p <> Some (NDir empty)) ->
  let '(w', o) := mark b t w in
  files w' = <[p := NFile (receipt_text (r_nonce t)) 384]> (files w) /\
  o = Done (set_flags true true true t).
Proof.
  intros Hf Hp Hw Hh Hs Hpick Hpq Hdir. unfold mark. rewrite Hp.
  set (t1 := if b then _ else _).
  assert (t1 = set_flags true true false t) as ->.
  { unfold t1, set_flags. destruct b; simpl in *; rewrite ?orb_true_r, ?orb_false_r in *; congruence. }
  cbn [written heartbeatOK stateOK set_flags orb negb r_nonce].
  destruct (pick_temp_fresh _ _ _ _ _ _ _ Hpick) as [Hq _].
  set (c := receipt_text (r_nonce t)). set (fs := files w) in *.
  set (w1 := mkWorld fs [] rest (notified w)).
  assert (forall fs', set_files fs' w1 = mkWorld fs' [] rest (notified w)) as Hset by done.
  assert (writeInstallReceipt p (r_nonce t) w = (set_files (<[p := NFile c 384]> fs) w1, Done ())) as Hwrite.
  { unfold writeInstallReceipt.
    assert (CreateTemp p.1 ".zeno-install-receipt-" "" w = (set_files (<[q := NFile "" 384]> fs) w1, Done q))
      as Hc by (unfold CreateTemp; fold fs; rewrite Hpick; by rewrite Hf).
    rewrite (bind_done _ _ _ _ _ Hc).
    assert (receipt_steps q p (r_nonce t) (set_files (<[q := NFile "" 384]> fs) w1) =
      (set_files (<[p := NFile c 384]> fs) w1, Done ())) as Hsteps.
    { unfold receipt_steps. fold c.
      rewrite (bind_done _ _ _ (set_files (<[q := NFile "" 384]> fs) w1) ()).
      2: { eapply close_done, os_call_ok; [done|simpl; by rewrite lookup_insert_eq|].
           by rewrite insert_insert_eq. }
      rewrite (bind_done _ _ _ (set_files (<[q := NFile c 384]> fs) w1) ()).
      2: { apply close_done. unfold WriteFile. simpl. rewrite lookup_insert_eq, insert_insert_eq. done. }
      rewrite (bind_done _ _ _ (set_files (<[q := NFile c 384]> fs) w1) ()) by done.
      rewrite (bind_done _ _ _ (set_files (<[q := NFile c 384]> fs) w1) ()) by done.
      apply os_call_ok with (fs' := <[p := NFile c 384]> fs); [done| |done]. simpl.
      rewrite lookup_insert_eq, lookup_insert_ne, delete_insert_id by done.
      destruct (fs !! p) as [[| | |]|] eqn:E; try done. by destruct (Hdir empty). }
    rewrite (bind_done _ _ _ (set_files (<[p := NFile c 384]> fs) w1) (Ok ()))
      by (by apply attempt_done).
    rewrite (bind_done _ _ _ (set_files (<[p := NFile c 384]> fs) w1) (Err ErrNotExist)); [done|].
    unfold attempt, Remove, os_call. simpl. by rewrite lookup_insert_ne, Hq. }
  rewrite (bind_done _ _ _ _ _ (attempt_done _ _ _ _ Hwrite)). done.
Qed.

Definition demo_receipt : path := ("/run/zeno", "receipt").

Lemma receipt_only_after_both_witness :
  wp any_fault (run_marks [true; true; false] (newInstallReceiptTracker (Some demo_receipt) "n1"))
    (fun o fs' =>
      (fs' !! demo_receipt = (∅ : store) !! demo_receipt \/
        fs' !! demo_receipt = Some (NFile (receipt_text "n1") 384)) /\
      (fs' !! demo_receipt <> (∅ : store) !! demo_receipt ->
        In true [true; true; false] /\ In false [true; true; false]) /\
      (forall t, o = Done t -> written t = true ->
        fs' !! demo_receipt = Some (NFile (receipt_text "n1") 384))) ∅.
Proof. apply receipt_only_after_both. intros [d E]. discriminate E. Defined.

Lemma receipt_written_when_complete_witness :
  let w := mkWorld ∅ [] ["42"] false in
  let t := mkTracker (Some demo_receipt) "n1" true false false in
  let '(w', o) := mark false t w in
  files w' = <[demo_receipt := NFile (receipt_text "n1") 384]> ∅ /\ o = Done (set_flags true true true t).
Proof.
  cbv zeta. apply (receipt_written_when_complete demo_receipt ("/run/zeno", ".zeno-install-receipt-42") false
    (mkTracker (Some demo_receipt) "n1" true false false) (mkWorld ∅ [] ["42"] false) []); try reflexivity.
  - discriminate.
  - intros empty. vm_compute. discriminate.
Defined.
