(* ===== verification/LogFile.v ===== *)
(** * The log file (cmd/zeno-agent/log_file.go)

    The writer opens the file anew for every record, so that a rotation from
    outside takes effect; it only ever appends to a regular file.  Each write
    runs under the writer's mutex and is one function of the world. *)

From S2P Require Export FsFacts.

Inductive log_error : Type := LogOS (e : os_error) | LogNotRegular | LogNotAbsolute.

(** [os.OpenFile] with [O_APPEND|O_CREATE|O_WRONLY], mode 0600. *)
Definition OpenAppend (p : path) : M os_error () :=
  os_call (fun fs =>
    match fs !! p with
    | None => Ok (<[p := NFile "" 384]> fs, ())
    | Some (NFile _ _) => Ok (fs, ())
    | Some _ => Err ErrIO
    end).

(** [file.Write] on a file opened to append: the bytes written, and an error
    if a fault stopped it. *)
Definition AppendFile {E} (p : path) (content : string) : M E (Z * option os_error) := fun w =>
  let '(fault, rest) := match faults w with [] => (FOk, []) | f :: fs => (f, fs) end in
  let put c :=
    match files w !! p with
    | Some (NFile old perm) => <[p := NFile (old +:+ c) perm]> (files w)
    | _ => files w
    end in
  let w' fs := mkWorld fs rest (suffixes w) (notified w) in
  let part n := Stdlib.Strings.String.substring 0 n content in
  match fault with
  | FOk => (w' (put content), Done (str_len content, None))
  | FErr n | FWriteErr n => (w' (put (part n)), Done (str_len (part n), Some ErrIO))
  | FCrash n => (w' (put (part n)), Crashed)
  end.

Definition openRegularLogFile (p : path) : M log_error () :=
  info ← attempt (Lstat p);
  match info with
  | Ok (NFile _ _) | Err ErrNotExist => lift_error LogOS (OpenAppend p)
  | Ok _ => throw LogNotRegular
  | Err e => throw (LogOS e)
  end.

(** [Write]: the count and the error are both results. *)
Definition reopenLogWriter_Write (p : path) (record : string) : M log_error (Z * option log_error) :=
  file ← attempt (openRegularLogFile p);
  match file with
  | Err e => mret (0, Some e)
  | Ok _ =>
      '(n, writeErr) ← AppendFile p record;
      closeErr ← attempt CloseFile;
      match writeErr, closeErr with
      | Some e, _ => mret (n, Some (LogOS e))
      | None, Err e => mret (n, Some (LogOS e))
      | None, Ok _ => mret (n, None)
      end
  end.

(** [filepath.Split] of an absolute path, without the separator. *)
Definition split_path (p : string) : path :=
  match rev (Split p "/") with
  | [] => ("", "")
  | base :: dir => (GoStrings.Join (rev dir) "/", base)
  end.

(** The writer the log goes to from then on; without a path it stays as it is. *)
Definition configureLogFile (p : string) : M log_error (option path) :=
  let p := TrimSpace p in
  if bool_decide (p = "") then mret None
  else if negb (HasPrefix p "/") then throw LogNotAbsolute
  else
    openRegularLogFile (split_path p);;
    lift_error LogOS CloseFile;;
    mret (Some (split_path p)).

Example configure_1 :
  let w := mkWorld ∅ [] [] false in
  let r := configureLogFile " /var/log/zeno.log " w in
  snd r = Done (Some ("/var/log", "zeno.log")) /\ files (fst r) !! ("/var/log", "zeno.log") = Some (NFile "" 384).
Proof. vm_compute. done. Qed.

(** ** What one write can do *)

(** The log as it is read back; a missing file is an empty log. *)
Definition log_content (fs : store) (p : path) : option string :=
  match fs !! p with None => Some "" | Some (NFile c _) => Some c | Some _ => None end.

(** The files after [c] was appended at [p], which a first append creates. *)
Definition appended (p : path) (c : string) (fs fs' : store) : Prop :=
  match fs !! p with
  | None => fs' = <[p := NFile c 384]> fs
  | Some (NFile old perm) => fs' = <[p := NFile (old +:+ c) perm]> fs
  | Some _ => False
  end.

Lemma wp_AppendFile {E} (p : path) (c : string) (Q : outcome E (Z * option os_error) -> store -> Prop) fs old perm :
  fs !! p = Some (NFile old perm) ->
  Q (Done (str_len c, None)) (<[p := NFile (old +:+ c) perm]> fs) ->
  (forall n, let part := Stdlib.Strings.String.substring 0 n c in
    Q (Done (str_len part, Some ErrIO)) (<[p := NFile (old +:+ part) perm]> fs) /\
    Q Crashed (<[p := NFile (old +:+ part) perm]> fs)) ->
  wp any_fault (AppendFile p c) Q fs.
Proof.
  intros Hp Hok Hbad w <- Hf. unfold AppendFile. rewrite Hp.
  destruct (faults w) as [|f rest] eqn:Ew; [done|].
  inversion Hf as [|? ? Hf1 Hf2]; subst.
  destruct f as [|n|n|n]; simpl; (split; [done|]); [exact Hok| | |]; apply Hbad.
Qed.

Lemma wp_OpenAppend p (Q : outcome os_error () -> store -> Prop) fs :
  (forall e, Q (Fail e) fs) -> Q Crashed fs ->
  (forall fs', appended p "" fs fs' -> Q (Done ()) fs' /\ Q Crashed fs') ->
  wp any_fault (OpenAppend p) Q fs.
Proof.
  intros He Hc Hok. assert (match fs !! p with
    | None => Q (Done ()) (<[p := NFile "" 384]> fs) /\ Q Crashed (<[p := NFile "" 384]> fs)
    | Some (NFile _ _) => Q (Done ()) fs /\ Q Crashed fs
    | _ => True end) as Ho.
  { destruct (fs !! p) as [[old perm| | |]|] eqn:Ep; try done; apply Hok; unfold appended; rewrite Ep; [|done].
    by rewrite app_nil_r_str, insert_id. }
  apply wp_os_call; destruct (fs !! p) as [[old perm| | |]|]; naive_solver.
Qed.

(** What a write may leave behind. *)
Definition write_outcome (p : path) (record : string) (fs : store) (o : outcome log_error (Z * option log_error))
  (fs' : store) : Prop :=
  (fs' = fs \/ exists n, appended p (Stdlib.Strings.String.substring 0 n record) fs fs') /\
  (log_content fs p = None -> fs' = fs /\ forall n, o <> Done (n, None)) /\
  (forall n, o = Done (n, None) -> n = str_len record /\ appended p record fs fs').

Lemma appended_trans p c d fs1 fs2 fs3 :
  appended p c fs1 fs2 -> appended p d fs2 fs3 -> appended p (c +:+ d) fs1 fs3.
Proof.
  unfold appended. destruct (fs1 !! p) as [[old perm| | |]|]; try done; intros ->;
    rewrite lookup_insert_eq; intros ->; rewrite insert_insert_eq, ?app_assoc_str; done.
Qed.

Lemma appended_file p c fs fs' : appended p c fs fs' -> exists old perm, fs' !! p = Some (NFile old perm).
Proof. unfold appended. destruct (fs !! p) as [[old perm| | |]|]; try done; intros ->; rewrite lookup_insert_eq; eauto. Qed.

Lemma appended_insert p c fs old perm :
  fs !! p = Some (NFile old perm) -> appended p c fs (<[p := NFile (old +:+ c) perm]> fs).
Proof. intros H. unfold appended. by rewrite H. Qed.

Lemma appended_some p c fs fs' : appended p c fs fs' -> log_content fs p <> None.
Proof. unfold appended, log_content. by destruct (fs !! p) as [[old perm| | |]|]. Qed.

Lemma write_outcome_partial p record fs fs' c n o : appended p "" fs fs' -> c = Stdlib.Strings.String.substring 0 n record ->
  (forall m, o <> Done (m, None)) -> forall fs'', appended p c fs' fs'' -> write_outcome p record fs o fs''.
Proof.
  intros Ho -> Hno fs'' Ha. pose proof (appended_trans _ _ _ _ _ _ Ho Ha) as Ht.
  split; [right; by exists n|]. split; [|intros m H; by apply Hno in H].
  intros Hn. by apply appended_some in Ht.
Qed.

Lemma write_record_spec p record fs fs' : appended p "" fs fs' ->
  wp any_fault ('(n, writeErr) ← AppendFile p record;
     closeErr ← attempt CloseFile;
     match writeErr, closeErr with
     | Some e, _ => mret (n, Some (LogOS e))
     | None, Err e => mret (n, Some (LogOS e))
     | None, Ok _ => mret (n, None)
     end) (write_outcome p record fs) fs'.
Proof.
  intros Ho. destruct (appended_file _ _ _ _ Ho) as (old & perm & Hp).
  assert (forall c n o, c = Stdlib.Strings.String.substring 0 n record -> (forall m, o <> Done (m, None)) ->
    write_outcome p record fs o (<[p := NFile (old +:+ c) perm]> fs')) as Hpart.
  { intros c n o Hc Hno. eapply write_outcome_partial; [exact Ho|exact Hc|exact Hno|by apply appended_insert]. }
  assert (record = Stdlib.Strings.String.substring 0 (String.length record) record) as Hall by (symmetry; by apply substring_short).
  apply wp_bind. apply (wp_AppendFile p record _ fs' old perm Hp).
  - apply wp_bind, wp_attempt, wp_sync.
    + apply wp_ret. pose proof (appended_trans _ _ _ _ _ _ Ho (appended_insert p record fs' old perm Hp)) as Ht.
      split; [right; exists (String.length record); by rewrite <- Hall|].
      split; [intros Hn; by apply appended_some in Ht|]. by intros n [= <-].
    + intros _. apply wp_ret. by eapply Hpart.
    + intros _. by eapply Hpart.
  - intros n part. split; [|by eapply Hpart].
    apply wp_bind, wp_attempt, wp_sync; [apply wp_ret|intros _; apply wp_ret|intros _]; by eapply Hpart.
Qed.

Lemma open_spec p fs : wp any_fault (openRegularLogFile p) (fun o fs' =>
  match o with
  | Done _ => appended p "" fs fs'
  | Fail _ => fs' = fs
  | Crashed => fs' = fs \/ appended p "" fs fs'
  end) fs.
Proof.
  assert (wp any_fault (lift_error LogOS (OpenAppend p)) (fun o fs' =>
    match o with
    | Done _ => appended p "" fs fs'
    | Fail _ => fs' = fs
    | Crashed => fs' = fs \/ appended p "" fs fs'
    end) fs) as Hopen by (apply wp_lift_error, wp_OpenAppend; naive_solver).
  unfold openRegularLogFile. apply wp_bind, wp_attempt, wp_Lstat.
  - destruct (fs !! p) as [[old perm| | |]|]; cbn beta iota; [exact Hopen|by apply wp_throw..|exact Hopen].
  - intros _. by apply wp_throw.
  - intros _. by left.
Qed.

(** A write to the log only ever appends: whatever fails and wherever the process dies, no other file changes, what
    the log held stays in front of a prefix of the record, a log path that is a link, a directory or a device is left
    alone and reported, and a write without error has stored the whole record. *)
Theorem log_writes_append p record fs :
  wp any_fault (reopenLogWriter_Write p record) (write_outcome p record fs) fs.
Proof.
  unfold reopenLogWriter_Write.
  assert (forall o : outcome log_error (Z * option log_error), (forall n, o <> Done (n, None)) -> write_outcome p record fs o fs) as Hsame.
  { intros o Ho. split; [by left|]. split; [done|]. intros n H. by apply Ho in H. }
  apply wp_bind, wp_attempt. eapply wp_conseq; [apply open_spec|].
  intros [[]|e|] fs' Ho; cbn beta iota in Ho |- *.
  - by apply write_record_spec.
  - subst fs'. apply wp_ret. by apply Hsame.
  - destruct Ho as [->|Ho]; [by apply Hsame|]. split; [right; exists 0%nat; by destruct record|].
    split; [|done]. intros Hn. by apply appended_some in Ho.
Qed.

(** ** Rotation from outside *)
Inductive log_event : Type := Record_ (record : string) | Rotated (archive : path).

(** The rotation renames the log; a log not there stays as it is. *)
Definition rotate (p archive : path) (fs : store) : store :=
  match fs !! p with Some n => <[archive := n]> (delete p fs) | None => fs end.

Fixpoint run_log (p : path) (events : list log_event) (w : world) : world :=
  match events with
  | [] => w
  | Record_ record :: events => run_log p events (fst (reopenLogWriter_Write p record w))
  | Rotated archive :: events => run_log p events (set_files (rotate p archive (files w)) w)
  end.

Definition archives (events : list log_event) : list path :=
  omap (fun e => match e with Rotated a => Some a | Record_ _ => None end) events.
Definition records (events : list log_event) : list string :=
  omap (fun e => match e with Record_ r => Some r | Rotated _ => None end) events.
Definition texts (l : list string) : string := foldr String.append "" l.
Definition read_logs (fs : store) (ps : list path) : string :=
  texts (map (fun q => default "" (log_content fs q)) ps).

Lemma write_no_fault p record w c : faults w = [] -> log_content (files w) p = Some c ->
  let '(w', o) := reopenLogWriter_Write p record w in
  o = Done (str_len record, None) /\ faults w' = [] /\ appended p record (files w) (files w').
Proof.
  destruct w as [fs faults_ suf notif]. cbn [faults files]. intros -> Hc.
  unfold reopenLogWriter_Write, openRegularLogFile, attempt, Lstat, os_call, OpenAppend, AppendFile, lift_error,
    CloseFile, os_call, mbind, M_bind, mret, M_ret, set_files. cbn.
  unfold log_content in Hc. unfold appended. destruct (fs !! p) as [[old perm| | |]|] eqn:Ep; try done; cbn; rewrite ?Ep; cbn.
  - rewrite Ep. done.
  - rewrite lookup_insert_eq. cbn. rewrite insert_insert_eq. done.
Qed.

Lemma appended_other p c fs fs' q : appended p c fs fs' -> q <> p -> fs' !! q = fs !! q.
Proof.
  unfold appended. intros Ha Hq. destruct (fs !! p) as [[old perm| | |]|]; try done; subst fs';
    by rewrite lookup_insert_ne.
Qed.

Lemma appended_content p c fs fs' old : appended p c fs fs' -> log_content fs p = Some old ->
  log_content fs' p = Some (old +:+ c).
Proof.
  unfold appended, log_content. destruct (fs !! p) as [[old' perm| | |]|]; try done; intros ->;
    rewrite lookup_insert_eq; by intros [= <-].
Qed.

(** The writes of a run: the record and how [Write] ended. *)
Fixpoint write_results (p : path) (events : list log_event) (w : world)
  : list (string * outcome log_error (Z * option log_error)) :=
  match events with
  | [] => []
  | Record_ record :: events =>
      let '(w', o) := reopenLogWriter_Write p record w in (record, o) :: write_results p events w'
  | Rotated archive :: events => write_results p events (set_files (rotate p archive (files w)) w)
  end.

(** What a write left of its record: a prefix, and all of it without an error. *)
Definition left_behind (result : string * outcome log_error (Z * option log_error)) (part : string) : Prop :=
  (exists n, part = Stdlib.Strings.String.substring 0 n result.1) /\
  (forall n, result.2 = Done (n, None) -> part = result.1).

Definition grown (p : path) (part : string) (fs fs' : store) : Prop :=
  fs' = fs /\ part = "" \/ appended p part fs fs'.

Lemma write_grows p record w : log_content (files w) p <> None ->
  let '(w', o) := reopenLogWriter_Write p record w in
  exists part, left_behind (record, o) part /\ grown p part (files w) (files w').
Proof.
  intros Hc. destruct (log_writes_append p record (files w) w eq_refl) as (_ & Hsome & _ & Hdone).
  { by apply Forall_true. }
  destruct (reopenLogWriter_Write p record w) as [w' o]. cbn [fst snd] in *.
  assert ((exists n, o = Done (n, None)) \/ forall n, o <> Done (n, None)) as [[n Ho]|Ho].
  { destruct o as [[n [e|]]|e|]; [by right|left; by exists n|by right..]. }
  - destruct (Hdone n Ho) as [_ Ha]. exists record. split; [|by right]. split; [|done].
    exists (String.length record). symmetry. by apply substring_short.
  - destruct Hsome as [->|[n Ha]].
    + exists "". split; [|by left]. split; [exists O; by destruct record|]. intros m Hm. by apply Ho in Hm.
    + eexists. split; [|by right]. split; [by exists n|]. intros m Hm. by apply Ho in Hm.
Qed.

Lemma grown_other p c fs fs' q : grown p c fs fs' -> q <> p -> fs' !! q = fs !! q.
Proof. intros [[-> _]|Ha] Hq; [done|by eapply appended_other]. Qed.

Lemma grown_content p c fs fs' old : grown p c fs fs' -> log_content fs p = Some old ->
  log_content fs' p = Some (old +:+ c).
Proof. intros [[-> ->]|Ha] Hold; [by rewrite app_nil_r_str|by eapply appended_content]. Qed.

(** The log after a rotation is a log again. *)
Lemma rotate_content p a fs c : log_content fs p = Some c -> exists c', log_content (rotate p a fs) p = Some c'.
Proof.
  intros Hc. unfold rotate. destruct (fs !! p) as [n|] eqn:Ep; [|by exists c].
  unfold log_content in *. rewrite Ep in Hc. destruct (decide (p = a)) as [<-|Hpa].
  - rewrite lookup_insert_eq. eauto.
  - rewrite lookup_insert_ne, lookup_delete_eq by done. eauto.
Qed.

(** Only the log and its next archives change. *)
Lemma run_log_other p events : forall w c q, log_content (files w) p = Some c -> q <> p ->
  q ∉ archives events -> files (run_log p events w) !! q = files w !! q.
Proof.
  induction events as [|[record|a] events IH]; intros w c q Hc Hq Hn; [done| |]; cbn [run_log archives omap list_omap] in *.
  - pose proof (write_grows p record w ltac:(by rewrite Hc)) as Hw. destruct (reopenLogWriter_Write p record w) as [w' o].
    destruct Hw as (part & _ & Hg). cbn [fst]. erewrite IH; [by eapply grown_other|by eapply grown_content|done|done].
  - apply not_elem_of_cons in Hn as [Hqa Hn]. destruct (rotate_content p a _ _ Hc) as [c' Hc'].
    rewrite (IH _ c') by done. cbn. unfold rotate. destruct (files w !! p); [|done].
    by rewrite lookup_insert_ne, lookup_delete_ne by done.
Qed.

(** A rotation to a new archive moves the log there and leaves an empty one. *)
Lemma rotate_moves p a (fs : store) c : log_content fs p = Some c -> p <> a -> fs !! a = None ->
  log_content (rotate p a fs) p = Some "" /\ default "" (log_content (rotate p a fs) a) = c /\
  forall q, q <> a -> fs !! q = None -> rotate p a fs !! q = None.
Proof.
  intros Hc Hpa Ha. unfold rotate, log_content in *. destruct (fs !! p) as [n|] eqn:Ep.
  - rewrite lookup_insert_eq, lookup_insert_ne, lookup_delete_eq by done. split; [done|].
    split; [by destruct n; simplify_eq|]. intros q Hq Hn. rewrite lookup_insert_ne by done.
    destruct (decide (p = q)) as [<-|]; [by rewrite lookup_delete_eq|]. by rewrite lookup_delete_ne.
  - rewrite Ep, Ha. injection Hc as <-. done.
Qed.

(** C25. Rotation loses nothing and repeats nothing, whatever fails.  The log is a regular file or missing, and files are
    renamed away from under the writer to archives not yet there.  Under any I/O errors and deaths of the process,
    reading the archives in the order of the rotations and then the log gives what the log held and, in order and
    once each, the records: whole where [Write] reported no error, a prefix, possibly empty, where it did.  When no
    operation fails, all of them are whole. *)
Theorem records_survive_rotation p events w c : log_content (files w) p = Some c ->
  NoDup (p :: archives events) -> Forall (fun a => files w !! a = None) (archives events) ->
  exists parts, Forall2 left_behind (write_results p events w) parts /\
    read_logs (files (run_log p events w)) (archives events ++ [p]) = c +:+ texts parts /\
    (faults w = [] -> parts = records events).
Proof.
  revert w c. induction events as [|[record|a] events IH]; intros w c Hc Hn Ha.
  - exists []. cbn. by rewrite Hc.
  - pose proof (write_grows p record w ltac:(by rewrite Hc)) as Hw. pose proof (write_no_fault p record w c) as Hok.
    change (archives (Record_ record :: events)) with (archives events) in *. cbn [run_log write_results].
    destruct (reopenLogWriter_Write p record w) as [w' o]. destruct Hw as (part & Hleft & Hg). cbn [fst].
    destruct (IH w' (c +:+ part)) as (parts & Hparts & Hread & Hall); [by eapply grown_content|done| |].
    { apply Forall_forall. intros q Hq. rewrite Forall_forall in Ha. rewrite <- (Ha q Hq). eapply grown_other; [exact Hg|].
      intros ->. apply NoDup_cons in Hn as [Hn _]. done. }
    exists (part :: parts). split; [by constructor|]. rewrite Hread. split; [cbn [texts foldr]; by rewrite app_assoc_str|].
    intros Hf. destruct (Hok Hf Hc) as (-> & Hf' & _). rewrite (Hall Hf'). by rewrite (proj2 Hleft _ eq_refl).
  - change (archives (Rotated a :: events)) with (a :: archives events) in *.
    change (records (Rotated a :: events)) with (records events). cbn [run_log write_results].
    apply NoDup_cons in Hn as [Hpn Hn]. apply not_elem_of_cons in Hpn as [Hpa Hpn].
    apply NoDup_cons in Hn as [Han Hn]. apply Forall_cons in Ha as [Haw Ha].
    destruct (rotate_moves p a _ _ Hc Hpa Haw) as (Hp' & Ha' & Hother). set (w' := set_files (rotate p a (files w)) w).
    destruct (IH w' "") as (parts & Hparts & Hread & Hall); [done|by constructor| |].
    { apply Forall_forall. intros q Hq. rewrite Forall_forall in Ha. apply Hother; [by intros ->|auto]. }
    exists parts. split; [done|]. split; [|done]. change (read_logs (files (run_log p events w')) ((a :: archives events) ++ [p]))
      with (default "" (log_content (files (run_log p events w')) a) +:+ read_logs (files (run_log p events w')) (archives events ++ [p])).
    rewrite Hread. f_equal. rewrite <- Ha'. unfold log_content. by erewrite run_log_other.
Qed.
Lemma records_survive_rotation_witness :
  let p := ("/var/log", "zeno.log") in let a := ("/var/log", "zeno.log.0") in
  let w := mkWorld ∅ [FOk; FOk; FOk; FOk; FOk; FOk; FErr 3] [] false in
  let events := [Record_ "before"; Rotated a; Record_ "after"; Record_ "!"] in
  exists parts, Forall2 left_behind (write_results p events w) parts /\
    read_logs (files (run_log p events w)) [a; p] = texts parts /\ read_logs (files (run_log p events w)) [a; p] = "beforeaft!".
Proof.
  cbv zeta.
  destruct (records_survive_rotation ("/var/log", "zeno.log")
    [Record_ "before"; Rotated ("/var/log", "zeno.log.0"); Record_ "after"; Record_ "!"]
    (mkWorld ∅ [FOk; FOk; FOk; FOk; FOk; FOk; FErr 3] [] false) "") as (parts & Hparts & Hread & _).
  - done.
  - apply (bool_decide_unpack _). by vm_compute.
  - constructor; [done|constructor].
  - exists parts. split; [done|]. split; [exact Hread|by vm_compute].
Defined.
