(* ===== verification/ProbeTypes.v ===== *)
(** * Probe data types (internal/agent/types.go) and Go time

    The records exchanged with the Controller for probes, with the field names
    of the source, and Go's [time.Time] and [time.Duration]. *)

From Stdlib Require Export SpecFloat.
From S2P Require Export Prelude.

(** ** Time

    A [time.Duration] is a 64-bit count of nanoseconds.  A [time.Time] is the
    number of nanoseconds since the Unix epoch, an unbounded integer (Go's wall
    clock has 64 bits of seconds on top of the nanoseconds). *)
Definition Nanosecond : Z := 1.
Definition Microsecond : Z := 1000.
Definition Millisecond : Z := 1000000.
Definition Second : Z := 1000000000.
Definition Minute : Z := 60 * Second.
Definition Hour : Z := 60 * Minute.

(** [t.Sub(u)] saturates at the bounds of [Duration]. *)
Definition time_sub (t u : Z) : Z :=
  let d := t - u in
  if d <? minInt64 then minInt64 else if maxInt64 <? d then maxInt64 else d.

(** [t.Add(d)], [t.Before(u)], [t.UnixNano()] and [t.Unix()]. *)
Definition time_add (t d : Z) : Z := t + d.
Definition time_before (t u : Z) : bool := t <? u.
Definition UnixNano (t : Z) : Z := i64 t.
Definition Unix (t : Z) : Z := i64 (t / Second).

(** The zero [time.Time] is January 1, year 1, 00:00:00 UTC. *)
Definition time_zero : Z := -62135596800 * Second.

(** ** Records of types.go *)
Record ProbeTarget : Type := mkProbeTarget {
  ID : string;
  Name : string;
  Type_ : string;
  Address : string;
  Port : option Z;
  Count : Z;
  TimeoutMS : Z;
  IntervalSec : Z
}.

Record ProbeSample : Type := mkProbeSample {
  Seq : Z;
  Success : bool;
  LatencyMS : option spec_float;
  Error : string
}.

Record ProbeRound : Type := mkProbeRound {
  RoundID : string;
  ConfigVersion : Z;
  TargetID : string;
  TS : Z;
  RoundType : string;
  Samples : list ProbeSample
}.

Definition with_Count (c : Z) (t : ProbeTarget) : ProbeTarget :=
  mkProbeTarget (ID t) (Name t) (Type_ t) (Address t) (Port t) c (TimeoutMS t) (IntervalSec t).
Definition with_TimeoutMS (ms : Z) (t : ProbeTarget) : ProbeTarget :=
  mkProbeTarget (ID t) (Name t) (Type_ t) (Address t) (Port t) (Count t) ms (IntervalSec t).
Definition with_IntervalSec (s : Z) (t : ProbeTarget) : ProbeTarget :=
  mkProbeTarget (ID t) (Name t) (Type_ t) (Address t) (Port t) (Count t) (TimeoutMS t) s.
Definition with_ConfigVersion (v : Z) (r : ProbeRound) : ProbeRound :=
  mkProbeRound (RoundID r) v (TargetID r) (TS r) (RoundType r) (Samples r).

#[export] Instance ProbeTarget_eq_dec : EqDecision ProbeTarget.
Proof. solve_decision. Defined.
#[export] Instance spec_float_eq_dec : EqDecision spec_float.
Proof. solve_decision. Defined.
#[export] Instance ProbeSample_eq_dec : EqDecision ProbeSample.
Proof. solve_decision. Defined.
#[export] Instance ProbeRound_eq_dec : EqDecision ProbeRound.
Proof. solve_decision. Defined.

Lemma time_sub_exact (t u : Z) : in_i64 (t - u) -> time_sub t u = t - u.
Proof. unfold in_i64, time_sub. intros. zcase; lia. Qed.

Lemma time_sub_ge (t u d : Z) : in_i64 d -> d <= time_sub t u <-> d <= t - u \/ d = minInt64.
Proof.
  unfold in_i64, time_sub. intros.
  destruct (Z.ltb_spec (t - u) minInt64); [lia|].
  destruct (Z.ltb_spec maxInt64 (t - u)); lia.
Qed.
