(* ===== verification/ProbeBudget.v ===== *)
(** * Probe budgets (internal/agent/probe.go, lines 28 to 129 and 303 to 369)

    The Agent-side guard that bounds what a Controller response can make the
    Agent do: the normalisation of one target, [SanitizeProbeTargets],
    [LimitProbeTargetsForRun] and [ProbeRunTimeout]. *)

From S2P Require Export GoStrings ProbeTypes.

(** ** Constants *)
Definition drawableLatencyCap : Z := 5 * Second.
Definition pingCommandGrace : Z := 250 * Millisecond.
Definition maxProbeTargets : nat := 32.
Definition maxProbeCount : Z := 32.
Definition defaultProbeTimeoutMS : Z := 1000.
Definition minProbeTimeoutMS : Z := 100.
Definition maxProbeTimeoutMS : Z := 5000.
Definition defaultProbeIntervalSec : Z := 60.
Definition minProbeIntervalSec : Z := 5.
Definition maxProbeIntervalSec : Z := 60 * 60.
Definition maxConcurrentProbeTargets : nat := 16.
Definition maxProbeSamplesPerRun : Z := 1024.
Definition maxProbeTargetBudgetMS : Z := 60000.
Definition maxProbeNodeBudgetMS : Z := 120000.
Definition probeUploadTimeout : Z := 30 * Second.

(** ** Normalisation of one target *)
Definition normalizedProbeCount (count : Z) : Z :=
  if count <=? 0 then 1
  else if maxProbeCount <? count then maxProbeCount
  else count.

Definition normalizedProbeTimeoutMS (timeoutMS : Z) : Z :=
  if timeoutMS <=? 0 then defaultProbeTimeoutMS
  else if timeoutMS <? minProbeTimeoutMS then minProbeTimeoutMS
  else if maxProbeTimeoutMS <? timeoutMS then maxProbeTimeoutMS
  else timeoutMS.

Definition normalizedProbeTimeout (timeoutMS : Z) : Z :=
  i64 (normalizedProbeTimeoutMS timeoutMS * Millisecond).

Definition normalizedProbeIntervalSec (intervalSec : Z) : Z :=
  if intervalSec <=? 0 then defaultProbeIntervalSec
  else if intervalSec <? minProbeIntervalSec then minProbeIntervalSec
  else if maxProbeIntervalSec <? intervalSec then maxProbeIntervalSec
  else intervalSec.

Definition latencyObservationTimeout (timeout : Z) : Z :=
  if timeout <=? 0 then defaultProbeTimeoutMS * Millisecond
  else if drawableLatencyCap <? timeout then drawableLatencyCap
  else timeout.

Definition probeAttemptBudget (target : ProbeTarget) : Z :=
  let budget := latencyObservationTimeout (normalizedProbeTimeout (TimeoutMS target)) in
  let kind := ToLower (TrimSpace (Type_ target)) in
  if bool_decide (kind = "ping") || bool_decide (kind = "icmp")
  then i64 (budget + pingCommandGrace)
  else budget.

Definition probeSampleBudgetMS (target : ProbeTarget) : Z :=
  probeAttemptBudget target ÷ Millisecond.

(** ** Sanitising a Controller response *)
Definition sanitizeProbeTarget (target : ProbeTarget) : ProbeTarget :=
  let target := with_Count (normalizedProbeCount (Count target)) target in
  let target := with_TimeoutMS (normalizedProbeTimeoutMS (TimeoutMS target)) target in
  let target := with_IntervalSec (normalizedProbeIntervalSec (IntervalSec target)) target in
  let maxCount := maxProbeTargetBudgetMS ÷ probeSampleBudgetMS target in
  if maxCount <? Count target then with_Count maxCount target else target.

Definition SanitizeProbeTargets (targets : list ProbeTarget) : list ProbeTarget :=
  match targets with
  | [] => []
  | _ => map sanitizeProbeTarget (take maxProbeTargets targets)
  end.

(** ** Limiting one run *)
Fixpoint limit_loop (remainingSamples remainingBudgetMS : Z) (targets : list ProbeTarget)
  : list ProbeTarget :=
  match targets with
  | [] => []
  | target :: rest =>
      let sampleBudgetMS := probeSampleBudgetMS target in
      if (remainingSamples <=? 0) || (remainingBudgetMS <? sampleBudgetMS) then []
      else
        let target :=
          if remainingSamples <? Count target then with_Count remainingSamples target else target in
        let maxCount := remainingBudgetMS ÷ sampleBudgetMS in
        let target :=
          if maxCount <? Count target then with_Count maxCount target else target in
        if Count target <=? 0 then limit_loop remainingSamples remainingBudgetMS rest
        else
          target :: limit_loop (i64 (remainingSamples - Count target))
                      (i64 (remainingBudgetMS - i64 (Count target * sampleBudgetMS))) rest
  end.

Definition LimitProbeTargetsForRun (targets : list ProbeTarget) : list ProbeTarget :=
  limit_loop maxProbeSamplesPerRun maxProbeNodeBudgetMS (SanitizeProbeTargets targets).

(** ** The timeout of one run *)
Fixpoint run_total_ms (totalMS : Z) (targets : list ProbeTarget) : Z :=
  match targets with
  | [] => totalMS
  | target :: rest =>
      run_total_ms
        (i64 (totalMS + i64 (normalizedProbeCount (Count target) * probeSampleBudgetMS target)))
        rest
  end.

Definition ProbeRunTimeout (targets : list ProbeTarget) : Z :=
  match LimitProbeTargetsForRun targets with
  | [] => 0
  | limited =>
      let totalMS := run_total_ms 0 limited in
      if totalMS <=? 0 then drawableLatencyCap
      else i64 (i64 (totalMS * Millisecond) + Second)
  end.

(** ** Well-formed targets *)
Definition is_ping (target : ProbeTarget) : bool :=
  let kind := ToLower (TrimSpace (Type_ target)) in
  bool_decide (kind = "ping") || bool_decide (kind = "icmp").

(** What every target the Agent acts on satisfies. *)
Record target_wf (t : ProbeTarget) : Prop := {
  wf_count : 1 <= Count t <= maxProbeCount;
  wf_timeout : minProbeTimeoutMS <= TimeoutMS t <= maxProbeTimeoutMS;
  wf_interval : minProbeIntervalSec <= IntervalSec t <= maxProbeIntervalSec;
  wf_budget : Count t * probeSampleBudgetMS t <= maxProbeTargetBudgetMS
}.

(** The fields a target is identified by, which no normalisation may touch. *)
Definition target_identity (t : ProbeTarget) : string * string * string * string * option Z :=
  (ID t, Name t, Type_ t, Address t, Port t).

Definition target_cost (t : ProbeTarget) : Z := Count t * probeSampleBudgetMS t.

(** [t'] is [t] with at most its count lowered. *)
Definition count_lowered (t' t : ProbeTarget) : Prop :=
  1 <= Count t' <= Count t /\ t' = with_Count (Count t') t.

(** ** Lemmas *)
Ltac unfold_probe_consts :=
  unfold maxProbeCount, defaultProbeTimeoutMS, minProbeTimeoutMS, maxProbeTimeoutMS,
    defaultProbeIntervalSec, minProbeIntervalSec, maxProbeIntervalSec, maxProbeSamplesPerRun,
    maxProbeTargetBudgetMS, maxProbeNodeBudgetMS, drawableLatencyCap, pingCommandGrace,
    Millisecond, Second in *.

(** Discharges the side condition that a machine integer did not wrap. *)
Ltac i64_exact := rewrite i64_id by (unfold in_i64, minInt64, maxInt64, two63; lia).

Lemma normalizedProbeCount_range c : 1 <= normalizedProbeCount c <= maxProbeCount.
Proof. unfold normalizedProbeCount. unfold_probe_consts. zcase; lia. Qed.

Lemma normalizedProbeCount_id c : 1 <= c <= maxProbeCount -> normalizedProbeCount c = c.
Proof. unfold normalizedProbeCount. unfold_probe_consts. zcase; lia. Qed.

Lemma normalizedProbeTimeoutMS_range ms :
  minProbeTimeoutMS <= normalizedProbeTimeoutMS ms <= maxProbeTimeoutMS.
Proof. unfold normalizedProbeTimeoutMS. unfold_probe_consts. zcase; lia. Qed.

Lemma normalizedProbeTimeoutMS_id ms :
  minProbeTimeoutMS <= ms <= maxProbeTimeoutMS -> normalizedProbeTimeoutMS ms = ms.
Proof. unfold normalizedProbeTimeoutMS. unfold_probe_consts. zcase; lia. Qed.

Lemma normalizedProbeIntervalSec_range s :
  minProbeIntervalSec <= normalizedProbeIntervalSec s <= maxProbeIntervalSec.
Proof. unfold normalizedProbeIntervalSec. unfold_probe_consts. zcase; lia. Qed.

Lemma normalizedProbeIntervalSec_id s :
  minProbeIntervalSec <= s <= maxProbeIntervalSec -> normalizedProbeIntervalSec s = s.
Proof. unfold normalizedProbeIntervalSec. unfold_probe_consts. zcase; lia. Qed.

#[export] Hint Resolve normalizedProbeCount_range normalizedProbeTimeoutMS_range
  normalizedProbeIntervalSec_range : zeno.

Lemma normalizedProbeTimeout_eq ms :
  normalizedProbeTimeout ms = normalizedProbeTimeoutMS ms * Millisecond.
Proof.
  unfold normalizedProbeTimeout. pose proof (normalizedProbeTimeoutMS_range ms).
  unfold_probe_consts. by i64_exact.
Qed.

Lemma probeAttemptBudget_eq t :
  probeAttemptBudget t =
    (normalizedProbeTimeoutMS (TimeoutMS t) + if is_ping t then 250 else 0) * Millisecond.
Proof.
  unfold probeAttemptBudget. fold (is_ping t). rewrite normalizedProbeTimeout_eq.
  pose proof (normalizedProbeTimeoutMS_range (TimeoutMS t)).
  unfold latencyObservationTimeout. unfold_probe_consts.
  destruct (Z.leb_spec (normalizedProbeTimeoutMS (TimeoutMS t) * 1000000) 0); [lia|].
  destruct (Z.ltb_spec (5 * 1000000000) (normalizedProbeTimeoutMS (TimeoutMS t) * 1000000)); [lia|].
  destruct (is_ping t); [i64_exact|]; lia.
Qed.

Lemma probeSampleBudgetMS_eq t :
  probeSampleBudgetMS t =
    normalizedProbeTimeoutMS (TimeoutMS t) + if is_ping t then 250 else 0.
Proof.
  unfold probeSampleBudgetMS. rewrite probeAttemptBudget_eq.
  apply Z.quot_mul. by unfold Millisecond.
Qed.

Lemma probeSampleBudgetMS_range t : 100 <= probeSampleBudgetMS t <= 5250.
Proof.
  rewrite probeSampleBudgetMS_eq. pose proof (normalizedProbeTimeoutMS_range (TimeoutMS t)).
  unfold_probe_consts. destruct (is_ping t); lia.
Qed.

Lemma probeSampleBudgetMS_with_Count c t :
  probeSampleBudgetMS (with_Count c t) = probeSampleBudgetMS t.
Proof. by rewrite !probeSampleBudgetMS_eq. Qed.

Lemma with_Count_id t : with_Count (Count t) t = t.
Proof. by destruct t. Qed.

Lemma with_Count_twice c d t : with_Count c (with_Count d t) = with_Count c t.
Proof. by destruct t. Qed.

(** Lowering the count to fit [b / cost] keeps the target within budget [b]. *)
Lemma cap_count_fits b k c : 0 < k -> c <= b / k -> c * k <= b.
Proof. intros Hk Hc. pose proof (Z.mul_div_le b k Hk). nia. Qed.

Lemma sanitizeProbeTarget_wf t : target_wf (sanitizeProbeTarget t).
Proof.
  unfold sanitizeProbeTarget.
  set (t1 := with_IntervalSec _ _). cbn zeta.
  pose proof (probeSampleBudgetMS_range t1) as Hb.
  rewrite quot_div_nonneg by (unfold_probe_consts; lia).
  assert (11 <= maxProbeTargetBudgetMS / probeSampleBudgetMS t1) as Hdiv.
  { unfold maxProbeTargetBudgetMS. apply Z.div_le_lower_bound; lia. }
  assert (Count t1 = normalizedProbeCount (Count t)) as Hc by done.
  pose proof (normalizedProbeCount_range (Count t)) as Hr.
  destruct (Z.ltb_spec (maxProbeTargetBudgetMS / probeSampleBudgetMS t1) (Count t1));
    split; simpl; auto with zeno; try rewrite probeSampleBudgetMS_with_Count;
    try (apply cap_count_fits; lia); unfold_probe_consts; lia.
Qed.

Lemma sanitizeProbeTarget_id t : target_wf t -> sanitizeProbeTarget t = t.
Proof.
  intros [Hc Ht Hi Hb]. unfold sanitizeProbeTarget. cbn zeta.
  rewrite (normalizedProbeCount_id _ Hc). rewrite with_Count_id.
  rewrite (normalizedProbeTimeoutMS_id _ Ht).
  replace (with_TimeoutMS _ t) with t by by destruct t.
  rewrite (normalizedProbeIntervalSec_id _ Hi).
  replace (with_IntervalSec _ t) with t by by destruct t.
  pose proof (probeSampleBudgetMS_range t).
  rewrite quot_div_nonneg by (unfold_probe_consts; lia).
  assert (Count t <= maxProbeTargetBudgetMS / probeSampleBudgetMS t)
    by (apply Z.div_le_lower_bound; lia).
  zcase; [lia|done].
Qed.

Lemma sanitizeProbeTarget_identity t : target_identity (sanitizeProbeTarget t) = target_identity t.
Proof. unfold sanitizeProbeTarget. cbn zeta. by destruct (_ <? _). Qed.

Lemma SanitizeProbeTargets_map ts :
  SanitizeProbeTargets ts = map sanitizeProbeTarget (take maxProbeTargets ts).
Proof. by destruct ts. Qed.

Lemma SanitizeProbeTargets_wf ts : Forall target_wf (SanitizeProbeTargets ts).
Proof.
  rewrite SanitizeProbeTargets_map. apply Forall_fmap, Forall_true. intros t.
  apply sanitizeProbeTarget_wf.
Qed.

Lemma SanitizeProbeTargets_length ts : (length (SanitizeProbeTargets ts) <= maxProbeTargets)%nat.
Proof. rewrite SanitizeProbeTargets_map. autorewrite with zeno_rw. lia. Qed.

Lemma map_sanitize_id ts : Forall target_wf ts -> map sanitizeProbeTarget ts = ts.
Proof. induction 1 as [|t ts Ht _ IH]; simpl; [done|]. by rewrite IH, sanitizeProbeTarget_id. Qed.

Lemma SanitizeProbeTargets_id ts :
  Forall target_wf ts -> (length ts <= maxProbeTargets)%nat -> SanitizeProbeTargets ts = ts.
Proof.
  intros Hwf Hlen. rewrite SanitizeProbeTargets_map, take_ge by done. by apply map_sanitize_id.
Qed.

(** Lowering a count keeps a target well formed. *)
Lemma count_lowered_wf t' t : count_lowered t' t -> target_wf t -> target_wf t'.
Proof.
  intros [Hc ->] [? ? ? Hb]. simpl in Hc.
  split; simpl; try lia. rewrite probeSampleBudgetMS_with_Count.
  pose proof (probeSampleBudgetMS_range t). nia.
Qed.

(** One round of [limit_loop] on a well-formed target, with the machine
    arithmetic discharged: the guard [Count <= 0] never fires. *)
Lemma limit_loop_cons rs rb t rest :
  target_wf t -> rs <= maxProbeSamplesPerRun -> 0 <= rb <= maxProbeNodeBudgetMS ->
  limit_loop rs rb (t :: rest) =
    if (rs <=? 0) || (rb <? probeSampleBudgetMS t) then []
    else
      let c := Z.min (Count t) (Z.min rs (rb / probeSampleBudgetMS t)) in
      with_Count c t :: limit_loop (rs - c) (rb - c * probeSampleBudgetMS t) rest.
Proof.
  intros [Hc _ _ _] Hrs Hrb. cbn [limit_loop].
  set (k := probeSampleBudgetMS t). pose proof (probeSampleBudgetMS_range t) as Hk. fold k in Hk.
  destruct (Z.leb_spec rs 0) as [|Hrs0]; [done|]. destruct (Z.ltb_spec rb k); [done|]. simpl orb.
  rewrite quot_div_nonneg by lia.
  assert (1 <= rb / k) as Hd by (apply Z.div_le_lower_bound; lia).
  set (t1 := if rs <? Count t then _ else t).
  assert (t1 = with_Count (Z.min (Count t) rs) t) as ->.
  { unfold t1. destruct (Z.ltb_spec rs (Count t)).
    - by rewrite Z.min_r by lia.
    - by rewrite Z.min_l, with_Count_id by lia. }
  set (c := Z.min (Count t) (Z.min rs (rb / k))). cbn zeta.
  set (t2 := if _ <? Count _ then _ else _).
  assert (t2 = with_Count c t) as ->.
  { unfold t2, c. simpl. destruct (Z.ltb_spec (rb / k) (Z.min (Count t) rs)).
    - rewrite with_Count_twice. f_equal. lia.
    - f_equal. lia. }
  cbn [with_Count Count].
  unfold_probe_consts.
  destruct (Z.leb_spec c 0); [lia|].
  assert (0 <= c * k) by (apply Z.mul_nonneg_nonneg; lia).
  pose proof (cap_count_fits rb k c ltac:(lia) ltac:(lia)).
  assert (c <= rs) by lia.
  rewrite (i64_id (c * k)) by (unfold in_i64, minInt64, maxInt64, two63; lia).
  do 2 i64_exact. done.
Qed.

(** The invariant of the loop: what it returns fits in what is left. *)
Lemma limit_loop_budget ts : Forall target_wf ts -> forall rs rb,
  0 <= rs <= maxProbeSamplesPerRun -> 0 <= rb <= maxProbeNodeBudgetMS ->
  let l := limit_loop rs rb ts in
  Zsum (map Count l) <= rs /\ Zsum (map target_cost l) <= rb.
Proof.
  induction 1 as [|t ts Ht _ IH]; intros rs rb Hrs Hrb; [simpl; lia|].
  rewrite limit_loop_cons by (done || lia).
  destruct (Z.leb_spec rs 0); [simpl; lia|]. destruct (Z.ltb_spec rb (probeSampleBudgetMS t)); [simpl; lia|].
  simpl orb. cbn zeta. set (c := Z.min _ _).
  pose proof (probeSampleBudgetMS_range t). pose proof (wf_count _ Ht).
  assert (1 <= rb / probeSampleBudgetMS t) by (apply Z.div_le_lower_bound; lia).
  pose proof (cap_count_fits rb (probeSampleBudgetMS t) c ltac:(lia) ltac:(lia)).
  destruct (IH (rs - c) (rb - c * probeSampleBudgetMS t)) as [Hs' Hb']; [nia..|].
  cbn [map Zsum]. unfold target_cost at 1. rewrite probeSampleBudgetMS_with_Count. simpl Count. lia.
Qed.

(** The result is a prefix of the input with lowered counts, and it stops only
    when the next target does not fit. *)
Lemma limit_loop_prefix ts : Forall target_wf ts -> forall rs rb,
  0 <= rs <= maxProbeSamplesPerRun -> 0 <= rb <= maxProbeNodeBudgetMS ->
  let l := limit_loop rs rb ts in
  Forall2 count_lowered l (take (length l) ts) /\
  forall t, ts !! length l = Some t ->
    Zsum (map Count l) = rs \/ rb - Zsum (map target_cost l) < probeSampleBudgetMS t.
Proof.
  induction 1 as [|t ts Ht _ IH]; intros rs rb Hrs Hrb; [simpl; split; [constructor|done]|].
  rewrite limit_loop_cons by (done || lia).
  destruct (Z.leb_spec rs 0).
  { split; [constructor|]. intros ? _. left. simpl. lia. }
  destruct (Z.ltb_spec rb (probeSampleBudgetMS t)).
  { split; [constructor|]. intros t' [= <-]. right. simpl. lia. }
  simpl orb. cbn zeta. set (c := Z.min _ _).
  pose proof (probeSampleBudgetMS_range t). pose proof (wf_count _ Ht).
  assert (1 <= rb / probeSampleBudgetMS t) by (apply Z.div_le_lower_bound; lia).
  pose proof (cap_count_fits rb (probeSampleBudgetMS t) c ltac:(lia) ltac:(lia)).
  destruct (IH (rs - c) (rb - c * probeSampleBudgetMS t)) as [Hpre Hnext]; [nia..|].
  set (l := limit_loop _ _ ts) in *.
  split.
  - simpl. constructor; [|done]. split; simpl; [lia|done].
  - intros t' Ht'. destruct (Hnext t' Ht') as [Hs|Hb];
      cbn [map Zsum]; unfold target_cost at 1; rewrite probeSampleBudgetMS_with_Count;
      simpl Count; [left|right]; lia.
Qed.

(** A list that already fits is returned unchanged. *)
Lemma limit_loop_id ts : Forall target_wf ts -> forall rs rb,
  rs <= maxProbeSamplesPerRun -> rb <= maxProbeNodeBudgetMS ->
  Zsum (map Count ts) <= rs -> Zsum (map target_cost ts) <= rb -> limit_loop rs rb ts = ts.
Proof.
  induction 1 as [|t ts Ht Hts IH]; intros rs rb Hrs Hrb Hs Hb; [done|].
  cbn [map Zsum] in Hs, Hb. unfold target_cost at 1 in Hb.
  pose proof (wf_count _ Ht). pose proof (probeSampleBudgetMS_range t).
  assert (0 <= Zsum (map Count ts)).
  { apply Zsum_nonneg, Forall_fmap. eapply Forall_impl; [exact Hts|]. intros x [? _ _ _]. simpl. lia. }
  assert (0 <= Zsum (map target_cost ts)).
  { apply Zsum_nonneg, Forall_fmap. eapply Forall_impl; [exact Hts|]. intros x [? _ _ _].
    unfold target_cost. simpl. pose proof (probeSampleBudgetMS_range x). nia. }
  assert (Count t <= rb / probeSampleBudgetMS t) by (apply Z.div_le_lower_bound; nia).
  rewrite limit_loop_cons by (done || nia).
  destruct (Z.leb_spec rs 0); [lia|]. destruct (Z.ltb_spec rb (probeSampleBudgetMS t)); [nia|].
  simpl orb. cbn zeta. rewrite Z.min_l by lia. rewrite with_Count_id. f_equal. apply IH; lia.
Qed.

Lemma limit_wf ts : Forall target_wf (LimitProbeTargetsForRun ts).
Proof.
  unfold LimitProbeTargetsForRun. pose proof (SanitizeProbeTargets_wf ts) as Hwf.
  destruct (limit_loop_prefix _ Hwf maxProbeSamplesPerRun maxProbeNodeBudgetMS) as [H _];
    [unfold_probe_consts; lia..|].
  assert (Forall target_wf (take (length (limit_loop maxProbeSamplesPerRun maxProbeNodeBudgetMS
    (SanitizeProbeTargets ts))) (SanitizeProbeTargets ts))) as Hwf' by by apply Forall_take.
  clear Hwf. induction H as [|x y l k Hxy _ IH]; [constructor|].
  inversion Hwf'; subst. constructor; [by eapply count_lowered_wf|by apply IH].
Qed.

Lemma limit_budget ts :
  Zsum (map Count (LimitProbeTargetsForRun ts)) <= maxProbeSamplesPerRun /\
  Zsum (map target_cost (LimitProbeTargetsForRun ts)) <= maxProbeNodeBudgetMS.
Proof. apply limit_loop_budget; [apply SanitizeProbeTargets_wf|unfold_probe_consts; lia..]. Qed.

Lemma limit_length ts : (length (LimitProbeTargetsForRun ts) <= maxProbeTargets)%nat.
Proof.
  unfold LimitProbeTargetsForRun.
  destruct (limit_loop_prefix _ (SanitizeProbeTargets_wf ts) maxProbeSamplesPerRun
    maxProbeNodeBudgetMS) as [H _]; [unfold_probe_consts; lia..|].
  apply Forall2_length in H. rewrite length_take in H. pose proof (SanitizeProbeTargets_length ts). lia.
Qed.

(** The run total never leaves the range of a Go [int]. *)
Lemma run_total_ms_sum ts : Forall target_wf ts -> forall acc,
  0 <= acc <= maxProbeNodeBudgetMS -> Zsum (map target_cost ts) <= maxProbeNodeBudgetMS - acc ->
  run_total_ms acc ts = acc + Zsum (map target_cost ts).
Proof.
  induction 1 as [|t ts Ht Hts IH]; intros acc Hacc Hsum; simpl in *; [lia|].
  rewrite normalizedProbeCount_id by apply Ht. fold (target_cost t).
  assert (0 <= target_cost t).
  { unfold target_cost. pose proof (probeSampleBudgetMS_range t). pose proof (wf_count _ Ht). nia. }
  assert (0 <= Zsum (map target_cost ts)).
  { apply Zsum_nonneg, Forall_fmap. eapply Forall_impl; [exact Hts|]. intros x [? _ _ _].
    unfold target_cost. simpl. pose proof (probeSampleBudgetMS_range x). nia. }
  unfold_probe_consts.
  rewrite (i64_id (target_cost t)) by (unfold in_i64, minInt64, maxInt64, two63; lia).
  i64_exact. rewrite IH; lia.
Qed.

(** ** Properties *)

(** [SanitizeProbeTargets] bounds every target a Controller response can
    install: at most 32 targets survive, each with a count in 1..32, a timeout
    in 100..5000 ms, an interval in 5..3600 s and a worst-case cost of at most
    60 s; the identity of each surviving target (id, name, type, address, port)
    is untouched and the order is kept. *)
Theorem sanitize_bounds (ts : list ProbeTarget) :
  (length (SanitizeProbeTargets ts) <= maxProbeTargets)%nat /\
  Forall target_wf (SanitizeProbeTargets ts) /\
  map target_identity (SanitizeProbeTargets ts) = map target_identity (take maxProbeTargets ts).
Proof.
  split; [apply SanitizeProbeTargets_length|]. split; [apply SanitizeProbeTargets_wf|].
  rewrite SanitizeProbeTargets_map, map_map. apply map_ext, sanitizeProbeTarget_identity.
Qed.

(** [LimitProbeTargetsForRun] keeps one run within its budgets, and is as
    generous as they allow: at most 1024 samples and 120 s of worst-case cost in
    total; the result is a prefix of the sanitized targets with counts at most
    lowered (never to zero); and it is cut short only when the sample budget is
    used up or the next target's cheapest sample no longer fits. *)
Theorem limit_greedy (ts : list ProbeTarget) :
  let l := LimitProbeTargetsForRun ts in
  let s := SanitizeProbeTargets ts in
  Zsum (map Count l) <= maxProbeSamplesPerRun /\
  Zsum (map target_cost l) <= maxProbeNodeBudgetMS /\
  Forall2 count_lowered l (take (length l) s) /\
  forall t, s !! length l = Some t ->
    Zsum (map Count l) = maxProbeSamplesPerRun \/
    maxProbeNodeBudgetMS - Zsum (map target_cost l) < probeSampleBudgetMS t.
Proof.
  cbn zeta. destruct (limit_budget ts). do 2 (split; [done|]).
  apply limit_loop_prefix; [apply SanitizeProbeTargets_wf|unfold_probe_consts; lia..].
Qed.

(** Limiting is idempotent.  The manager limits the due targets before it
    hands them out and [ProbeTargets] limits them again, so this is what makes
    the targets probed, and later marked completed, the ones handed out. *)
Theorem limit_idempotent (ts : list ProbeTarget) :
  LimitProbeTargetsForRun (LimitProbeTargetsForRun ts) = LimitProbeTargetsForRun ts.
Proof.
  destruct (limit_budget ts) as [Hs Hb]. unfold LimitProbeTargetsForRun at 1.
  rewrite SanitizeProbeTargets_id by (apply limit_wf || apply limit_length).
  apply limit_loop_id; [apply limit_wf|lia..].
Qed.

(** The time limit of a run covers its targets, with a second to spare. *)
Lemma ProbeRunTimeout_range (ts : list ProbeTarget) :
  ProbeRunTimeout ts =
    match LimitProbeTargetsForRun ts with
    | [] => 0
    | l => Zsum (map target_cost l) * Millisecond + Second
    end /\
  0 <= ProbeRunTimeout ts <= 121 * Second.
Proof.
  unfold ProbeRunTimeout. pose proof (limit_wf ts) as Hwf. destruct (limit_budget ts) as [_ Hb].
  destruct (LimitProbeTargetsForRun ts) as [|t l] eqn:E; [unfold_probe_consts; lia|].
  rewrite run_total_ms_sum by (done || unfold_probe_consts; lia).
  assert (0 < Zsum (map target_cost (t :: l))).
  { apply Zsum_pos_nonempty; [|done]. apply Forall_fmap. eapply Forall_impl; [exact Hwf|].
    intros x [? _ _ _]. unfold target_cost. simpl. pose proof (probeSampleBudgetMS_range x). nia. }
  revert Hb H. generalize (Zsum (map target_cost (t :: l))) as z. unfold_probe_consts. intros.
  rewrite Z.add_0_l. destruct (Z.leb_spec z 0); [lia|].
  rewrite (i64_id (z * 1000000)) by (unfold in_i64, minInt64, maxInt64, two63; lia).
  i64_exact. lia.
Qed.

(** The timeout of a run is one second more than the worst-case cost of the
    targets it will probe, so it lies in (1 s, 121 s] and the deadline never
    undercuts the budget; an empty run has timeout 0. *)
Theorem run_timeout_covers_budget (ts : list ProbeTarget) :
  ProbeRunTimeout ts =
    match LimitProbeTargetsForRun ts with
    | [] => 0
    | l => Zsum (map target_cost l) * Millisecond + Second
    end /\
  0 <= ProbeRunTimeout ts <= 121 * Second.
Proof. exact (ProbeRunTimeout_range ts). Qed.
