(* ===== verification/ProbeScheduler.v ===== *)
(** * The probe scheduler (internal/agent/probe_scheduler.go)

    Tracks the last completed report of each target; a target is due when it was
    never completed or its interval has elapsed. *)

From S2P Require Export ProbeBudget.

(** [lastCompleted], keyed by target id. *)
Record ProbeScheduler : Type := mkProbeScheduler { lastCompleted : gmap string Z }.

Definition NewProbeScheduler : ProbeScheduler := mkProbeScheduler ∅.

Definition targetIntervalElapsed (target : ProbeTarget) (last now : Z) : bool :=
  let interval := i64 (normalizedProbeIntervalSec (IntervalSec target) * Second) in
  negb (time_before now (time_add last interval)).

Definition target_due (s : ProbeScheduler) (now : Z) (target : ProbeTarget) : bool :=
  match lastCompleted s !! ID target with
  | None => true
  | Some last => targetIntervalElapsed target last now
  end.

(** A nil scheduler ([None]) lets every target through. *)
Definition Due (s : option ProbeScheduler) (targets : list ProbeTarget) (now : Z)
  : list ProbeTarget :=
  match s with
  | None => targets
  | Some s => List.filter (target_due s now) targets
  end.

Definition mark_one (now : Z) (m : gmap string Z) (target : ProbeTarget) : gmap string Z :=
  if bool_decide (ID target = "") then m else <[ID target := now]> m.

Definition MarkCompleted (s : ProbeScheduler) (targets : list ProbeTarget) (now : Z)
  : ProbeScheduler :=
  mkProbeScheduler (fold_left (mark_one now) targets (lastCompleted s)).

(** ** Lemmas *)
Lemma targetIntervalElapsed_spec t last now :
  targetIntervalElapsed t last now = true <->
  last + normalizedProbeIntervalSec (IntervalSec t) * Second <= now.
Proof.
  unfold targetIntervalElapsed, time_before, time_add.
  pose proof (normalizedProbeIntervalSec_range (IntervalSec t)). unfold_probe_consts.
  i64_exact. rewrite negb_true_iff, Z.ltb_ge. done.
Qed.

Lemma fold_mark_lookup now ts id : forall m,
  fold_left (mark_one now) ts m !! id =
    if decide (id <> "" /\ id ∈ map ID ts) then Some now else m !! id.
Proof.
  induction ts as [|t ts IH]; intros m; cbn [fold_left map].
  - case_decide as H; [|done]. destruct H as [_ H]. by apply not_elem_of_nil in H.
  - rewrite IH. pose proof (elem_of_cons (map ID ts) id (ID t)) as Hc.
    destruct (decide (id = "")) as [->|Hne].
    { rewrite !decide_False by tauto. unfold mark_one. case_bool_decide; [done|].
      by rewrite lookup_insert_ne. }
    destruct (decide (id ∈ map ID ts)).
    { rewrite !decide_True by tauto. done. }
    rewrite decide_False by tauto. unfold mark_one.
    destruct (decide (ID t = id)) as [<-|].
    + rewrite bool_decide_false, lookup_insert_eq, decide_True by tauto. done.
    + rewrite decide_False by intuition congruence. case_bool_decide; [done|]. by rewrite lookup_insert_ne.
Qed.

Lemma MarkCompleted_lookup s ts now id :
  lastCompleted (MarkCompleted s ts now) !! id =
    if decide (id <> "" /\ id ∈ map ID ts) then Some now else lastCompleted s !! id.
Proof. apply fold_mark_lookup. Qed.

Lemma Due_sublist s ts now : sublist (Due s ts now) ts.
Proof.
  destruct s as [s|]; simpl; [|done]. induction ts as [|t ts IH]; simpl; [done|].
  destruct (target_due s now t); by constructor.
Qed.

Lemma Due_elem s ts now t :
  t ∈ Due (Some s) ts now <-> t ∈ ts /\ target_due s now t = true.
Proof. simpl. rewrite !list_elem_of_In, filter_In. done. Qed.

#[export] Hint Resolve Due_sublist : zeno.

(** ** Properties *)

(** After a batch is marked completed at time [t0], a target of the batch
    with a non-empty id is due again exactly when its interval has elapsed, and
    a target outside the batch is due exactly when it was before. *)
Theorem due_after_mark (s : ProbeScheduler) (batch targets : list ProbeTarget) (t0 now : Z)
    (t : ProbeTarget) (Hin : t ∈ targets) (Hid : ID t <> "") :
  t ∈ Due (Some (MarkCompleted s batch t0)) targets now <->
  if decide (ID t ∈ map ID batch)
  then t0 + normalizedProbeIntervalSec (IntervalSec t) * Second <= now
  else t ∈ Due (Some s) targets now.
Proof.
  rewrite !Due_elem. unfold target_due. rewrite MarkCompleted_lookup.
  destruct (decide (ID t ∈ map ID batch)) as [Hb|Hb]; case_decide as Hd; try tauto.
  - rewrite targetIntervalElapsed_spec. tauto.
  - by rewrite Due_elem.
Qed.

Definition example_target (id : string) : ProbeTarget :=
  mkProbeTarget id "t" "tcp" "192.0.2.1" (Some 443) 4 1000 60.

Lemma due_after_mark_witness :
  example_target "a" ∈ Due (Some (MarkCompleted NewProbeScheduler [example_target "a"] 0))
    [example_target "a"; example_target "b"] (60 * Second).
Proof.
  apply (due_after_mark NewProbeScheduler [example_target "a"]
           [example_target "a"; example_target "b"] 0 (60 * Second) (example_target "a")).
  - left.
  - discriminate.
  - vm_compute. discriminate.
Defined.
