(* ===== verification/TargetManager.v ===== *)
(** * The probe target manager (cmd/zeno-agent/main.go, lines 172 to 179 and 385 to 614)

    The shared probe configuration: [update] installs a Controller response,
    [due] hands out a batch, [isCurrent] and [markCompleted] guard against a
    configuration that changed while the batch was probed.  The second half is
    the concurrent system of the workers that call it: any number of refresh
    calls (presence, poller, upload rejection) and of probe runs interleave at
    the granularity of the mutex-protected methods and of the two gates. *)

From S2P Require Export ProbeScheduler.

(** ** State *)

(** A one-token channel used as a gate: [None] is the nil channel of the zero
    value, [Some b] a channel that holds its token iff [b]. *)
Definition gate : Type := option bool.

Record probeTargetManager : Type := mkManager {
  refreshGate : gate;
  runGate : gate;
  targets : list ProbeTarget;
  version : Z;
  initialized : bool;
  generation : Z;
  scheduler : ProbeScheduler
}.

Record probeTargetBatch : Type := mkBatch {
  b_targets : list ProbeTarget;
  b_version : Z;
  b_generation : Z
}.

Record ProbeTargetsResponse : Type := mkResponse { Targets : list ProbeTarget; Version : Z }.

Definition newProbeTargetManager : probeTargetManager :=
  mkManager (Some true) (Some true) [] 0 false 0 NewProbeScheduler.

Inductive manager_error : Type :=
| ErrInvalidVersion (v : Z)
| ErrZeroOverwrites (current : Z)
| ErrOlderThanCurrent (v current : Z)
| ErrDifferentContent (v : Z)
| ErrInvalidRequested (v : Z)
| ErrOlderThanRequested (v requested : Z)
| ErrFetch (message : string)
| ErrContext
| ErrEnqueue (message : string).

Definition with_refreshGate (g : gate) (m : probeTargetManager) : probeTargetManager :=
  mkManager g (runGate m) (targets m) (version m) (initialized m) (generation m) (scheduler m).
Definition with_runGate (g : gate) (m : probeTargetManager) : probeTargetManager :=
  mkManager (refreshGate m) g (targets m) (version m) (initialized m) (generation m) (scheduler m).

(** ** Comparison of configurations *)
Definition sameProbeTarget (lt rt : ProbeTarget) : bool :=
  if negb (bool_decide (ID lt = ID rt)) || negb (bool_decide (Name lt = Name rt)) ||
     negb (bool_decide (Type_ lt = Type_ rt)) ||
     negb (bool_decide (Address lt = Address rt)) ||
     negb (Count lt =? Count rt) || negb (TimeoutMS lt =? TimeoutMS rt) ||
     negb (IntervalSec lt =? IntervalSec rt)
  then false
  else
    match Port lt, Port rt with
    | Some p, Some q => p =? q
    | None, None => true
    | _, _ => false
    end.

Fixpoint sameProbeTargets (lt rt : list ProbeTarget) : bool :=
  match lt, rt with
  | [], [] => true
  | l :: lt, r :: rt => sameProbeTarget l r && sameProbeTargets lt rt
  | _, _ => false
  end.

(** ** The mutex-protected methods *)
Definition currentVersion (m : probeTargetManager) : Z * bool := (version m, initialized m).

Definition install (m : probeTargetManager) (sanitized : list ProbeTarget) (v : Z)
  : probeTargetManager :=
  let changed := negb (v =? version m) || negb (sameProbeTargets (targets m) sanitized) in
  if changed
  then mkManager (refreshGate m) (runGate m) sanitized v true (u64 (generation m + 1))
         NewProbeScheduler
  else mkManager (refreshGate m) (runGate m) sanitized (version m) true (generation m)
         (scheduler m).

Definition update (m : probeTargetManager) (ts : list ProbeTarget) (v : Z)
  : result manager_error probeTargetManager :=
  if v <? 0 then Err (ErrInvalidVersion v)
  else
    let sanitized := SanitizeProbeTargets ts in
    if initialized m && ((0 <? version m) && (v =? 0)) then Err (ErrZeroOverwrites (version m))
    else if initialized m && (v <? version m) then Err (ErrOlderThanCurrent v (version m))
    else if initialized m &&
            ((0 <? version m) && (v =? version m) && negb (sameProbeTargets (targets m) sanitized))
    then Err (ErrDifferentContent v)
    else Ok (install m sanitized v).

Definition due (m : probeTargetManager) (now : Z) : probeTargetBatch :=
  match targets m with
  | [] => mkBatch [] (version m) (generation m)
  | _ =>
      mkBatch (LimitProbeTargetsForRun (Due (Some (scheduler m)) (targets m) now))
        (version m) (generation m)
  end.

Definition isCurrent (m : probeTargetManager) (batch : probeTargetBatch) : bool :=
  (b_generation batch =? generation m) && (b_version batch =? version m).

Definition markCompleted (m : probeTargetManager) (batch : probeTargetBatch) (now : Z)
  : probeTargetManager * bool :=
  if negb (b_generation batch =? generation m) || negb (b_version batch =? version m)
  then (m, false)
  else
    (mkManager (refreshGate m) (runGate m) (targets m) (version m) (initialized m) (generation m)
       (MarkCompleted (scheduler m) (b_targets batch) now), true).

(** ** Gates

    [acquire] is the lazy initialisation followed by the channel receive, which
    blocks ([None]) when the token is taken; [release] puts the token back. *)
Definition acquire (g : gate) : option gate :=
  match g with
  | None | Some true => Some (Some false)
  | Some false => None
  end.
Definition release (g : gate) : gate := Some true.

Definition beginRefresh (m : probeTargetManager) : option probeTargetManager :=
  g ← acquire (refreshGate m); Some (with_refreshGate g m).
Definition endRefresh (m : probeTargetManager) : probeTargetManager := with_refreshGate (release (refreshGate m)) m.
Definition beginRun (m : probeTargetManager) : option probeTargetManager :=
  g ← acquire (runGate m); Some (with_runGate g m).
Definition endRun (m : probeTargetManager) : probeTargetManager := with_runGate (release (runGate m)) m.

(** ** One refresh call: [refreshProbeConfig] and [refreshProbeTargets] *)
Inductive refresh_pc : Type :=
| RCall (requested : Z)
| RWait (requested : Z)
| RHold (requested : Z)
| RFetch (requested : Z)
| RApply (requested : Z) (response : ProbeTargetsResponse)
| RRelease (requested : Z) (r : result manager_error Z)
| RDone (requested : Z) (r : result manager_error Z).

(** What the environment decides: the context is cancelled while the call waits
    at the gate, or the Controller answers a fetch. *)
Inductive refresh_event : Type :=
| RStep
| RCancel
| RAnswer (answer : result string ProbeTargetsResponse).

Definition already_applied (m : probeTargetManager) (requested : Z) : bool :=
  (0 <? requested) && (let '(v, i) := currentVersion m in i && (requested <=? v)).

Definition refresh_next (m : probeTargetManager) (pc : refresh_pc) (e : refresh_event)
  : option (probeTargetManager * refresh_pc) :=
  match pc, e with
  | RCall q, RStep =>
      if already_applied m q then Some (m, RDone q (Ok (version m)))
      else if q <? 0 then Some (m, RDone q (Err (ErrInvalidRequested q)))
      else Some (m, RWait q)
  | RWait q, RCancel => Some (m, RDone q (Err ErrContext))
  | RWait q, RStep => m ← beginRefresh m; Some (m, RHold q)
  | RHold q, RStep =>
      if already_applied m q then Some (m, RRelease q (Ok (version m))) else Some (m, RFetch q)
  | RFetch q, RAnswer (Err msg) => Some (m, RRelease q (Err (ErrFetch msg)))
  | RFetch q, RAnswer (Ok response) =>
      if (0 <? q) && (Version response <? q)
      then Some (m, RRelease q (Err (ErrOlderThanRequested (Version response) q)))
      else Some (m, RApply q response)
  | RApply q response, RStep =>
      match update m (Targets response) (Version response) with
      | Err err => Some (m, RRelease q (Err err))
      | Ok m' => Some (m', RRelease q (Ok (Version response)))
      end
  | RRelease q r, RStep => Some (endRefresh m, RDone q r)
  | _, _ => None
  end.

(** ** One probe run: [runDueProbes] *)

(** What the manager relies on from [ProbeTargets]: one round per target it
    actually probes, in order.  ProbeRun.v provides the instance. *)
Class ProbeRunner : Type := {
  probe_outcome : list ProbeTarget -> Z -> list ProbeRound -> Prop;
  probe_outcome_targets ts now rounds :
    probe_outcome ts now rounds -> map TargetID rounds = map ID (LimitProbeTargetsForRun ts)
}.

Inductive run_pc : Type :=
| PCall
| PHold
| PProbing (batch : probeTargetBatch) (now : Z)
| PProbed (batch : probeTargetBatch) (rounds : list ProbeRound)
| PCurrent (batch : probeTargetBatch) (rounds : list ProbeRound)
| PStored (batch : probeTargetBatch)
| PRelease (r : result manager_error unit)
| PDone (r : result manager_error unit).

Inductive run_event : Type :=
| PStep
| PCancel
| PClock (now : Z)
| PRounds (rounds : list ProbeRound)
| PEnqueue (r : result string string).

(** The spool as the manager sees it: the batches of rounds persisted so far. *)
Definition run_next (m : probeTargetManager) (spooled : list (list ProbeRound)) (pc : run_pc)
    (e : run_event) : option (probeTargetManager * list (list ProbeRound) * run_pc) :=
  match pc, e with
  | PCall, PCancel => Some (m, spooled, PDone (Err ErrContext))
  | PCall, PStep => m ← beginRun m; Some (m, spooled, PHold)
  | PHold, PClock now =>
      let batch := due m now in
      match b_targets batch with
      | [] => Some (m, spooled, PRelease (Ok ()))
      | _ => Some (m, spooled, PProbing batch now)
      end
  | PProbing batch _, PRounds rounds =>
      Some (m, spooled, PProbed batch (map (with_ConfigVersion (b_version batch)) rounds))
  | PProbed batch rounds, PStep =>
      if isCurrent m batch then Some (m, spooled, PCurrent batch rounds)
      else Some (m, spooled, PRelease (Ok ()))
  | PCurrent batch rounds, PEnqueue (Ok _) => Some (m, spooled ++ [rounds], PStored batch)
  | PCurrent batch rounds, PEnqueue (Err msg) =>
      Some (m, spooled, PRelease (Err (ErrEnqueue msg)))
  | PStored batch, PClock now =>
      let '(m', _) := markCompleted m batch now in Some (m', spooled, PRelease (Ok ()))
  | PRelease r, PStep => Some (endRun m, spooled, PDone r)
  | _, _ => None
  end.

(** ** The concurrent system *)
Record system : Type := mkSystem {
  mgr : probeTargetManager;
  refreshers : list refresh_pc;
  runners : list run_pc;
  spooled : list (list ProbeRound)
}.

Definition initial_system (requests : list Z) (nrunners : nat) : system :=
  mkSystem newProbeTargetManager (map RCall requests) (replicate nrunners PCall) [].

(** One step: some refresh call or some probe run advances. *)
Inductive sys_step : system -> system -> Prop :=
| step_refresh s i pc e m' pc' :
    refreshers s !! i = Some pc -> refresh_next (mgr s) pc e = Some (m', pc') ->
    sys_step s (mkSystem m' (<[i := pc']> (refreshers s)) (runners s) (spooled s))
| step_run s i pc e m' sp' pc' :
    runners s !! i = Some pc -> run_next (mgr s) (spooled s) pc e = Some (m', sp', pc') ->
    sys_step s (mkSystem m' (refreshers s) (<[i := pc']> (runners s)) sp').

Definition reachable (s : system) : Prop :=
  exists requests nrunners, rtc sys_step (initial_system requests nrunners) s.

(** ** Invariant *)
Definition token (g : gate) : Z := match g with Some false => 0 | _ => 1 end.

Definition refresh_holds (pc : refresh_pc) : Z :=
  match pc with RHold _ | RFetch _ | RApply _ _ | RRelease _ _ => 1 | _ => 0 end.
Definition run_holds (pc : run_pc) : Z :=
  match pc with PCall | PDone _ => 0 | _ => 1 end.

(** The configuration only moves forward. *)
Definition mgr_le (m m' : probeTargetManager) : Prop :=
  (initialized m = true -> initialized m' = true) /\ version m <= version m'.

Definition refresh_ok (m : probeTargetManager) (pc : refresh_pc) : Prop :=
  match pc with
  | RApply q response => 0 < q -> q <= Version response
  | RRelease q (Ok v) | RDone q (Ok v) =>
      initialized m = true /\ v <= version m /\ (0 < q -> q <= v)
  | _ => True
  end.

(** The versions of the rounds persisted so far, oldest first. *)
Definition spooled_versions (sp : list (list ProbeRound)) : list Z :=
  concat (map (map ConfigVersion) sp).

Definition rounds_of_version (v : Z) (rounds : list ProbeRound) : Prop :=
  Forall (fun r => ConfigVersion r = v) rounds.

Definition batch_ok (m : probeTargetManager) (sp : list (list ProbeRound)) (b : probeTargetBatch)
  : Prop :=
  b_version b <= version m /\ Forall (fun v => v <= b_version b) (spooled_versions sp).

Definition run_ok (m : probeTargetManager) (sp : list (list ProbeRound)) (pc : run_pc) : Prop :=
  match pc with
  | PProbing b _ => batch_ok m sp b
  | PProbed b rounds | PCurrent b rounds => batch_ok m sp b /\ rounds_of_version (b_version b) rounds
  | _ => True
  end.

(** Before the first response the version is the zero value. *)
Definition mgr_ok (m : probeTargetManager) : Prop :=
  0 <= version m /\ (initialized m = false -> version m = 0).

Record sys_inv (s : system) : Prop := {
  inv_mgr : mgr_ok (mgr s);
  inv_refresh_gate :
    token (refreshGate (mgr s)) + Zsum (map refresh_holds (refreshers s)) = 1;
  inv_run_gate : token (runGate (mgr s)) + Zsum (map run_holds (runners s)) = 1;
  inv_refresh : Forall (refresh_ok (mgr s)) (refreshers s);
  inv_run : Forall (run_ok (mgr s) (spooled s)) (runners s);
  inv_spool_le : Forall (fun v => v <= version (mgr s)) (spooled_versions (spooled s));
  inv_spool_sorted : Sorted Z.le (spooled_versions (spooled s));
  inv_spool_uniform : Forall (fun rounds => exists v, rounds_of_version v rounds) (spooled s)
}.

(** ** Lemmas on the methods *)
Lemma sameProbeTarget_spec l r : sameProbeTarget l r = true <-> l = r.
Proof.
  unfold sameProbeTarget. destruct l as [i n t a p c ms s], r as [i' n' t' a' p' c' ms' s']; simpl.
  repeat case_bool_decide; simpl; zcase; subst; simpl;
    try (split; [done|congruence]).
  destruct p, p'; zcase; split; congruence.
Qed.

Lemma sameProbeTargets_spec l r : sameProbeTargets l r = true <-> l = r.
Proof.
  revert r. induction l as [|x l IH]; intros [|y r]; simpl; try done.
  rewrite andb_true_iff, sameProbeTarget_spec, IH. split; [intros [-> ->]|intros [= -> ->]]; done.
Qed.

Lemma install_version m s v : version (install m s v) = v.
Proof.
  unfold install. zcase; simpl; [|done]. by destruct (sameProbeTargets _ _).
Qed.

Lemma install_targets m s v : targets (install m s v) = s.
Proof. unfold install. cbn zeta. by destruct (_ || _). Qed.

Lemma install_initialized m s v : initialized (install m s v) = true.
Proof. unfold install. cbn zeta. by destruct (_ || _). Qed.

Lemma install_gates m s v :
  refreshGate (install m s v) = refreshGate m /\ runGate (install m s v) = runGate m.
Proof. unfold install. cbn zeta. by destruct (_ || _). Qed.

Lemma update_Ok m ts v m' :
  update m ts v = Ok m' <->
  0 <= v /\ m' = install m (SanitizeProbeTargets ts) v /\
  (initialized m = true ->
     (0 < version m -> v <> 0) /\ version m <= v /\
     (0 < version m -> v = version m -> targets m = SanitizeProbeTargets ts)).
Proof.
  unfold update. pose proof (sameProbeTargets_spec (targets m) (SanitizeProbeTargets ts)) as Hs.
  destruct (Z.ltb_spec v 0); [split; [done|lia]|].
  destruct (initialized m); simpl; [|naive_solver].
  zcase; simpl; try (split; [done|lia]);
    destruct (sameProbeTargets _ _); simpl; split; intros; simplify_eq; naive_solver lia.
Qed.

Lemma mgr_le_refl m : mgr_le m m.
Proof. split; [done|lia]. Qed.

Lemma update_mgr_le m ts v m' :
  mgr_ok m -> update m ts v = Ok m' -> mgr_le m m' /\ mgr_ok m'.
Proof.
  intros [_ H0] (Hv & -> & H)%update_Ok. unfold mgr_le, mgr_ok.
  rewrite install_initialized, install_version. split_and!; try done.
  destruct (initialized m); [apply H; done|]. rewrite H0; done.
Qed.

Lemma refresh_ok_mono m m' pc : mgr_le m m' -> refresh_ok m pc -> refresh_ok m' pc.
Proof.
  intros [Hi Hv]. destruct pc; simpl; try done; destruct r; try done; intros (?&?&?); split_and!;
    auto; lia.
Qed.

Lemma run_ok_mono m m' sp pc : mgr_le m m' -> run_ok m sp pc -> run_ok m' sp pc.
Proof.
  intros [Hi Hv]. destruct pc; simpl; unfold batch_ok; try done; naive_solver lia.
Qed.

Lemma acquire_Some g g' : acquire g = Some g' -> token g = 1 /\ token g' = 0.
Proof. by destruct g as [[]|]; intros [= <-]. Qed.

Lemma beginRefresh_Some m m' : beginRefresh m = Some m' ->
  exists g, m' = with_refreshGate g m /\ token (refreshGate m) = 1 /\ token g = 0.
Proof. intros (g & Hg%acquire_Some & [= <-])%bind_Some. by exists g. Qed.
Lemma beginRun_Some m m' : beginRun m = Some m' ->
  exists g, m' = with_runGate g m /\ token (runGate m) = 1 /\ token g = 0.
Proof. intros (g & Hg%acquire_Some & [= <-])%bind_Some. by exists g. Qed.

Lemma already_applied_spec m q :
  already_applied m q = true <-> 0 < q /\ initialized m = true /\ q <= version m.
Proof.
  unfold already_applied. simpl. rewrite !andb_true_iff, Z.ltb_lt, Z.leb_le. done.
Qed.

(** ** Preservation of the invariant *)
Lemma token_nonneg g : 0 <= token g.
Proof. by destruct g as [[]|]. Qed.

Lemma refresh_next_sound m pc e m' pc' :
  mgr_ok m -> token (refreshGate m) + refresh_holds pc <= 1 -> refresh_ok m pc ->
  refresh_next m pc e = Some (m', pc') ->
  mgr_le m m' /\ mgr_ok m' /\ refresh_ok m' pc' /\ runGate m' = runGate m /\
  token (refreshGate m') + refresh_holds pc' = token (refreshGate m) + refresh_holds pc.
Proof.
  intros Hm Htok Hok. pose proof (token_nonneg (refreshGate m)).
  pose proof (mgr_le_refl m) as Hrefl.
  destruct pc, e; simpl; try done; intros Hnext.
  - destruct (already_applied m requested) eqn:Ha; simplify_eq.
    + apply already_applied_spec in Ha. simpl. naive_solver lia.
    + destruct (requested <? 0); simplify_eq; simpl; naive_solver.
  - apply bind_Some in Hnext as (? & (g & -> & Hg)%beginRefresh_Some & [= <- <-]). simpl.
    split_and!; try apply Hm; try done. lia.
  - simplify_eq. simpl. naive_solver.
  - destruct (already_applied m requested) eqn:Ha; simplify_eq; simpl; [|naive_solver].
    apply already_applied_spec in Ha. naive_solver lia.
  - destruct answer as [resp|msg]; [|simplify_eq; simpl; naive_solver].
    destruct ((0 <? requested) && (Version resp <? requested)) eqn:Hq; simplify_eq; simpl.
    + naive_solver.
    + split_and!; try apply Hm; try done. intros. zcase; simpl in Hq; lia || done.
  - destruct (update m (Targets response) (Version response)) as [m1|err] eqn:Hu; simplify_eq.
    + destruct (update_mgr_le _ _ _ _ Hm Hu) as [Hle Hm1].
      apply update_Ok in Hu as (_ & -> & _).
      pose proof (install_gates m (SanitizeProbeTargets (Targets response)) (Version response))
        as [Hg1 Hg2].
      simpl. rewrite install_initialized, install_version, Hg1, Hg2. naive_solver lia.
    + simpl. naive_solver.
  - simplify_eq. simpl in *. split_and!; try apply Hm; try done. lia.
Qed.

Lemma spooled_versions_app sp rounds :
  spooled_versions (sp ++ [rounds]) = spooled_versions sp ++ map ConfigVersion rounds.
Proof. unfold spooled_versions. rewrite map_app, concat_app. simpl. by rewrite app_nil_r. Qed.

Lemma run_next_sound m sp pc e m' sp' pc' :
  mgr_ok m -> token (runGate m) + run_holds pc <= 1 -> run_ok m sp pc ->
  Forall (fun v => v <= version m) (spooled_versions sp) ->
  run_next m sp pc e = Some (m', sp', pc') ->
  mgr_le m m' /\ mgr_ok m' /\ run_ok m' sp' pc' /\ refreshGate m' = refreshGate m /\
  token (runGate m') + run_holds pc' = token (runGate m) + run_holds pc /\
  (sp' = sp \/
   exists rounds v, sp' = sp ++ [rounds] /\ rounds_of_version v rounds /\ run_holds pc = 1 /\
     Forall (fun w => w <= v) (spooled_versions sp) /\ v <= version m').
Proof.
  intros Hm Htok Hok Hsp. pose proof (token_nonneg (runGate m)).
  pose proof (mgr_le_refl m) as Hrefl.
  destruct pc, e; simpl; try done; intros Hnext.
  - apply bind_Some in Hnext as (? & (g & -> & Hg)%beginRun_Some & [= <- <- <-]). simpl.
    split_and!; try apply Hm; try done; [lia|by left].
  - simplify_eq. simpl. naive_solver.
  - assert (batch_ok m sp (due m now)) as Hb.
    { unfold batch_ok, due. destruct (targets m); simpl; split; done || lia. }
    destruct (b_targets (due m now)); simplify_eq; simpl; naive_solver.
  - simplify_eq. simpl in *. split_and!; try done; [apply Hok..| |by left].
    apply Forall_fmap, Forall_true. done.
  - destruct (isCurrent m batch); simplify_eq; simpl in *; naive_solver.
  - destruct r as [id|msg]; simplify_eq; simpl in *; [|naive_solver].
    destruct Hok as [[Hle Hall] Hu]. split_and!; try done. right.
    exists rounds, (b_version batch). done.
  - destruct (markCompleted m batch now) as [m1 ok] eqn:Hmark.
    unfold markCompleted in Hmark. destruct (_ || _); simplify_eq; simpl; naive_solver.
  - simplify_eq. simpl in *. split_and!; try apply Hm; try done; [lia|by left].
Qed.

Lemma refresh_holds_nonneg pc : 0 <= refresh_holds pc.
Proof. by destruct pc. Qed.

Lemma run_holds_nonneg pc : 0 <= run_holds pc.
Proof. by destruct pc. Qed.

#[export] Hint Resolve token_nonneg refresh_holds_nonneg run_holds_nonneg : zeno.

Lemma run_ok_idle m sp pc : run_holds pc = 0 -> run_ok m sp pc.
Proof. by destruct pc. Qed.

Lemma initial_inv requests nrunners : sys_inv (initial_system requests nrunners).
Proof.
  split; simpl.
  - done.
  - rewrite Zsum_zero; [done|]. by apply Forall_fmap, Forall_true.
  - rewrite Zsum_zero; [done|]. by apply Forall_replicate.
  - apply Forall_fmap, Forall_true. done.
  - apply Forall_replicate. done.
  - constructor.
  - constructor.
  - constructor.
Qed.

Lemma refresh_step_inv s i pc e m' pc' :
  sys_inv s -> refreshers s !! i = Some pc -> refresh_next (mgr s) pc e = Some (m', pc') ->
  sys_inv (mkSystem m' (<[i := pc']> (refreshers s)) (runners s) (spooled s)).
Proof.
  intros [Hm Hrg Hpg Hr Hp Hle Hsort Hu] Hi Hnext.
  pose proof (Zsum_lookup_le refresh_holds _ _ _ refresh_holds_nonneg Hi).
  pose proof (Forall_lookup_1 _ _ _ _ Hr Hi) as Hpc.
  destruct (refresh_next_sound _ pc _ _ _ Hm ltac:(lia) Hpc Hnext) as (Hmono & Hm' & Hpc' & Hg & Htok).
  split; cbn [mgr refreshers runners spooled].
  - done.
  - rewrite (Zsum_insert _ _ _ _ _ Hi). lia.
  - by rewrite Hg.
  - apply Forall_insert; [|done]. eapply Forall_impl; [exact Hr|]. eauto using refresh_ok_mono.
  - eapply Forall_impl; [exact Hp|]. eauto using run_ok_mono.
  - destruct Hmono. eapply Forall_impl; [exact Hle|]. simpl. lia.
  - done.
  - done.
Qed.

Lemma run_step_inv s i pc e m' sp' pc' :
  sys_inv s -> runners s !! i = Some pc ->
  run_next (mgr s) (spooled s) pc e = Some (m', sp', pc') ->
  sys_inv (mkSystem m' (refreshers s) (<[i := pc']> (runners s)) sp').
Proof.
  intros [Hm Hrg Hpg Hr Hp Hle Hsort Hu] Hi Hnext.
  pose proof (Zsum_lookup_le run_holds _ _ _ run_holds_nonneg Hi).
  pose proof (Forall_lookup_1 _ _ _ _ Hp Hi) as Hpc. pose proof (token_nonneg (runGate (mgr s))).
  destruct (run_next_sound _ _ pc _ _ _ _ Hm ltac:(lia) Hpc Hle Hnext)
    as (Hmono & Hm' & Hpc' & Hg & Htok & Hsp).
  assert (Forall (fun v => v <= version m') (spooled_versions (spooled s))) as Hle'.
  { destruct Hmono. eapply Forall_impl; [exact Hle|]. simpl. lia. }
  split; cbn [mgr refreshers runners spooled].
  - done.
  - by rewrite Hg.
  - rewrite (Zsum_insert _ _ _ _ _ Hi). lia.
  - eapply Forall_impl; [exact Hr|]. eauto using refresh_ok_mono.
  - apply Forall_lookup. intros j pcj [(<- & -> & _)|[Hij Hj]]%list_lookup_insert_Some; [done|].
    destruct Hsp as [->|(rounds & v & -> & _ & Hone & _)].
    + eapply run_ok_mono; [exact Hmono|]. exact (Forall_lookup_1 _ _ _ _ Hp Hj).
    + apply run_ok_idle. pose proof (Zsum_two run_holds _ _ _ _ _ run_holds_nonneg Hij Hi Hj).
      pose proof (run_holds_nonneg pcj). lia.
  - destruct Hsp as [->|(rounds & v & -> & Hv & _ & _ & Hvm)]; [done|].
    rewrite spooled_versions_app. apply Forall_app. split; [done|]. apply Forall_fmap.
    eapply Forall_impl; [exact Hv|]. simpl. lia.
  - destruct Hsp as [->|(rounds & v & -> & Hv & _ & Hall & _)]; [done|].
    rewrite spooled_versions_app. apply (Sorted_app_const _ _ v); [done..|].
    apply Forall_fmap. exact Hv.
  - destruct Hsp as [->|(rounds & v & -> & Hv & _)]; [done|].
    apply Forall_app. split; [done|]. constructor; [|constructor]. eauto.
Qed.

Lemma reachable_inv s : reachable s -> sys_inv s.
Proof.
  intros (requests & nrunners & Hsteps). pose proof (initial_inv requests nrunners) as Hinv.
  induction Hsteps as [s|s s1 s2 Hstep _ IH]; [done|]. apply IH.
  destruct Hstep; eauto using refresh_step_inv, run_step_inv.
Qed.

(** A run is never stuck on its own: with the gate free, some event moves it. *)
Lemma refresh_progress m pc :
  (forall q r, pc <> RDone q r) -> (forall q, pc = RWait q -> token (refreshGate m) = 1) ->
  exists e m' pc', refresh_next m pc e = Some (m', pc').
Proof.
  intros Hdone Hwait. destruct pc as [q|q|q|q|q resp|q r|q r].
  - exists RStep. simpl. destruct (already_applied m q); [eauto|]. destruct (q <? 0); eauto.
  - exists RStep. specialize (Hwait q eq_refl). simpl. unfold beginRefresh, acquire.
    destruct (refreshGate m) as [[]|]; simpl in *; [eauto|lia|eauto].
  - exists RStep. simpl. destruct (already_applied m q); eauto.
  - exists (RAnswer (Err "")). simpl. eauto.
  - exists RStep. simpl. destruct (update _ _ _); eauto.
  - exists RStep. simpl. eauto.
  - by destruct (Hdone q r).
Qed.

Lemma run_progress m sp pc :
  (forall r, pc <> PDone r) -> (pc = PCall -> token (runGate m) = 1) ->
  exists e m' sp' pc', run_next m sp pc e = Some (m', sp', pc').
Proof.
  intros Hdone Hwait. destruct pc as [| |b now|b rounds|b rounds|b|r|r].
  - exists PStep. specialize (Hwait eq_refl). simpl. unfold beginRun, acquire.
    destruct (runGate m) as [[]|]; simpl in *; [eauto|lia|eauto].
  - exists (PClock 0). simpl. destruct (b_targets _); eauto.
  - exists (PRounds []). simpl. eauto.
  - exists PStep. simpl. destruct (isCurrent m b); eauto.
  - exists (PEnqueue (Err "")). simpl. eauto.
  - exists (PClock 0). cbn [run_next]. destruct (markCompleted m b 0). eauto.
  - exists PStep. simpl. eauto.
  - by destruct (Hdone r).
Qed.

(** What [update] does, as one statement the history lemmas share. *)
Lemma update_cases (m : probeTargetManager) (ts : list ProbeTarget) (v : Z) :
  let s := SanitizeProbeTargets ts in
  let accepted :=
    0 <= v /\
    (initialized m = true ->
       (0 < version m -> v <> 0) /\ version m <= v /\
       (0 < version m -> v = version m -> targets m = s)) in
  (forall m', update m ts v = Ok m' <-> accepted /\ m' = install m s v) /\
  version (install m s v) = v /\ targets (install m s v) = s /\
  initialized (install m s v) = true /\
  (v = version m /\ targets m = s ->
     scheduler (install m s v) = scheduler m /\ generation (install m s v) = generation m) /\
  (~ (v = version m /\ targets m = s) ->
     scheduler (install m s v) = NewProbeScheduler /\
     generation (install m s v) = u64 (generation m + 1)).
Proof.
  cbn zeta. split; [intros m'; rewrite update_Ok; tauto|].
  rewrite install_version, install_targets, install_initialized. do 3 (split; [done|]).
  unfold install. pose proof (sameProbeTargets_spec (targets m) (SanitizeProbeTargets ts)) as Hs.
  destruct (Z.eqb_spec v (version m)), (sameProbeTargets _ _); simpl; split; intros; try done;
    intuition congruence.
Qed.

(** ** Executing a schedule *)
Inductive move : Type :=
| MoveRefresh (i : nat) (e : refresh_event)
| MoveRun (i : nat) (e : run_event).

Definition exec_move (s : system) (mv : move) : option system :=
  match mv with
  | MoveRefresh i e =>
      pc ← refreshers s !! i;
      r ← refresh_next (mgr s) pc e;
      Some (mkSystem r.1 (<[i := r.2]> (refreshers s)) (runners s) (spooled s))
  | MoveRun i e =>
      pc ← runners s !! i;
      r ← run_next (mgr s) (spooled s) pc e;
      Some (mkSystem r.1.1 (refreshers s) (<[i := r.2]> (runners s)) r.1.2)
  end.

Fixpoint exec (s : system) (ms : list move) : option system :=
  match ms with
  | [] => Some s
  | mv :: ms => s' ← exec_move s mv; exec s' ms
  end.

Lemma exec_move_step s mv s' : exec_move s mv = Some s' -> sys_step s s'.
Proof.
  destruct mv as [i e|i e]; simpl; intros (pc & Hpc & H)%bind_Some;
    apply bind_Some in H as (r & Hr & [= <-]).
  - destruct r. by eapply step_refresh.
  - destruct r as [[? ?] ?]. by eapply step_run.
Qed.

Lemma exec_reachable requests nrunners ms s :
  exec (initial_system requests nrunners) ms = Some s -> reachable s.
Proof.
  intros H. exists requests, nrunners. revert H. generalize (initial_system requests nrunners).
  induction ms as [|mv ms IH]; simpl; intros s0 H; [simplify_eq; constructor|].
  apply bind_Some in H as (s1 & H1 & H). eapply rtc_l; [by eapply exec_move_step|auto].
Qed.

(** ** Histories of one manager *)

(** [evolves n m m'] : [m] became [m'] through methods and gate operations, [n]
    of the updates having changed version or content. *)
Inductive evolves : Z -> probeTargetManager -> probeTargetManager -> Prop :=
| ev_refl m : evolves 0 m m
| ev_update n m m1 ts v m2 :
    evolves n m m1 -> update m1 ts v = Ok m2 ->
    evolves (n + if bool_decide (generation m1 = generation m2) then 0 else 1) m m2
| ev_mark n m m1 b now : evolves n m m1 -> evolves n m (markCompleted m1 b now).1
| ev_refresh_gate n m m1 g : evolves n m m1 -> evolves n m (with_refreshGate g m1)
| ev_run_gate n m m1 g : evolves n m m1 -> evolves n m (with_runGate g m1).

Lemma u64_succ_ne z : u64 (z + 1) <> u64 z.
Proof.
  unfold u64, two64. pose proof (Z.mod_pos_bound z (2 ^ 64) ltac:(lia)).
  rewrite <- Zplus_mod_idemp_l. intros H1.
  destruct (decide (z mod 2 ^ 64 + 1 < 2 ^ 64)).
  - rewrite Z.mod_small in H1; lia.
  - replace (z mod 2 ^ 64 + 1) with (2 ^ 64) in H1 by lia. rewrite Z.mod_same in H1 by lia. lia.
Qed.

Lemma markCompleted_keeps m b now :
  let m' := (markCompleted m b now).1 in
  targets m' = targets m /\ version m' = version m /\ generation m' = generation m /\
  initialized m' = initialized m.
Proof. unfold markCompleted. by destruct (_ || _). Qed.

Lemma evolves_spec n m m' :
  evolves n m m' -> initialized m = true ->
  0 <= n /\ initialized m' = true /\ u64 (generation m') = u64 (generation m + n) /\
  version m <= version m' /\
  (version m' = version m -> 0 < version m \/ n = 0 -> targets m' = targets m).
Proof.
  intros Hev Hi. induction Hev as [m|n m m1 ts v m2 _ IH Hu|n m m1 b now _ IH|n m m1 g _ IH|n m m1 g _ IH].
  - rewrite Z.add_0_r. split_and!; done || lia.
  - destruct (IH Hi) as (Hn & Hi1 & Hg & Hv & Ht).
    apply update_cases in Hu as [(Hv0 & Hacc) ->]. destruct (Hacc Hi1) as (Hz & Hle & Hsame).
    destruct (update_cases m1 ts v) as (_ & Hver & Htar & Hini & Hsm & Hch).
    rewrite Hver, Htar, Hini.
    destruct (decide (v = version m1 /\ targets m1 = SanitizeProbeTargets ts)) as [Hd|Hd].
    + destruct (Hsm Hd) as [_ Hgen]. rewrite Hgen, bool_decide_true by done.
      rewrite Z.add_0_r. destruct Hd as [-> <-]. done.
    + destruct (Hch Hd) as [_ Hgen]. rewrite Hgen.
      assert (u64 (generation m1 + 1) <> generation m1) as Hne.
      { intros He. apply (u64_succ_ne (generation m1)). rewrite <- He at 2.
        unfold u64. by rewrite Zmod_mod. }
      rewrite bool_decide_false by congruence. split_and!; try done; try lia.
      * unfold u64 in *. rewrite Zmod_mod. rewrite <- Zplus_mod_idemp_l, Hg, Zplus_mod_idemp_l.
        f_equal. lia.
      * intros -> Hor. destruct Hor as [Hpos|]; [|lia].
        assert (version m1 = version m) as He by lia.
        rewrite <- Hsame by lia. apply Ht; [done|by left].
  - destruct (IH Hi) as (Hn & Hi1 & Hg & Hv & Ht).
    destruct (markCompleted_keeps m1 b now) as (-> & -> & -> & ->). done.
  - exact (IH Hi).
  - exact (IH Hi).
Qed.

(** ** Properties *)

(** C33. [update] installs a response exactly when it moves the configuration
    forward: the version is not negative and, once initialised, does not go
    back (in particular a versioned configuration is never overwritten by
    version 0) and does not change the content of a positive version in place.  An
    accepted response is stored sanitized under its version; the scheduler and
    the generation are reset exactly when version or content changed. *)
Theorem update_spec (m : probeTargetManager) (ts : list ProbeTarget) (v : Z) :
  let s := SanitizeProbeTargets ts in
  let accepted :=
    0 <= v /\
    (initialized m = true ->
       (0 < version m -> v <> 0) /\ version m <= v /\
       (0 < version m -> v = version m -> targets m = s)) in
  (forall m', update m ts v = Ok m' <-> accepted /\ m' = install m s v) /\
  version (install m s v) = v /\ targets (install m s v) = s /\
  initialized (install m s v) = true /\
  (v = version m /\ targets m = s ->
     scheduler (install m s v) = scheduler m /\ generation (install m s v) = generation m) /\
  (~ (v = version m /\ targets m = s) ->
     scheduler (install m s v) = NewProbeScheduler /\
     generation (install m s v) = u64 (generation m + 1)).
Proof. exact (update_cases m ts v). Qed.

(** C18. In every interleaving of refresh calls and probe runs, the persisted
    rounds carry non-decreasing configuration versions, never newer than the
    installed one, and all rounds of one persisted batch share one version (so
    encoding a batch never fails on mixed versions). *)
Theorem spooled_versions_ordered (s : system) (Hr : reachable s) :
  Sorted Z.le (spooled_versions (spooled s)) /\
  Forall (fun v => v <= version (mgr s)) (spooled_versions (spooled s)) /\
  Forall (fun rounds => exists v, Forall (fun r => ConfigVersion r = v) rounds) (spooled s).
Proof. destruct (reachable_inv s Hr). done. Qed.

(** A refresh call that returns successfully, in any interleaving, returns a
    version that is installed or already superseded, and that is at least the
    version it was asked for; this is what allows the presence loop to
    acknowledge it. *)
Theorem refresh_returns_applied (s : system) (i : nat) (q v : Z) (Hr : reachable s)
    (Hdone : refreshers s !! i = Some (RDone q (Ok v))) :
  initialized (mgr s) = true /\ v <= version (mgr s) /\ (0 < q -> q <= v).
Proof. exact (Forall_lookup_1 _ _ _ _ (inv_refresh _ (reachable_inv s Hr)) Hdone). Qed.

(** C20. The gates are mutual exclusion without deadlock: at most one refresh is
    between fetch and release and at most one run is in flight; and in every
    reachable state each unfinished call can take a step, or it waits for a gate
    whose current holder can. *)
Theorem gates_exclusive_and_live (s : system) (Hr : reachable s) :
  (forall i j p q, i <> j -> refreshers s !! i = Some p -> refreshers s !! j = Some q ->
     refresh_holds p + refresh_holds q <= 1) /\
  (forall i j p q, i <> j -> runners s !! i = Some p -> runners s !! j = Some q ->
     run_holds p + run_holds q <= 1) /\
  (forall i p, refreshers s !! i = Some p -> (forall q r, p <> RDone q r) ->
     exists j pj e m' p', refreshers s !! j = Some pj /\
       refresh_next (mgr s) pj e = Some (m', p') /\ (j = i \/ refresh_holds pj = 1)) /\
  (forall i p, runners s !! i = Some p -> (forall r, p <> PDone r) ->
     exists j pj e m' sp' p', runners s !! j = Some pj /\
       run_next (mgr s) (spooled s) pj e = Some (m', sp', p') /\ (j = i \/ run_holds pj = 1)).
Proof.
  destruct (reachable_inv s Hr) as [_ Hrg Hpg _ _ _ _ _].
  pose proof (token_nonneg (refreshGate (mgr s))). pose proof (token_nonneg (runGate (mgr s))).
  split_and!.
  - intros i j p q Hij Hi Hj.
    pose proof (Zsum_two refresh_holds _ _ _ _ _ refresh_holds_nonneg Hij Hi Hj). lia.
  - intros i j p q Hij Hi Hj.
    pose proof (Zsum_two run_holds _ _ _ _ _ run_holds_nonneg Hij Hi Hj). lia.
  - intros i p Hi Hd.
    destruct (Zsum_one refresh_holds (refreshers s) ltac:(intros []; simpl; lia)) as [Hzero|(j & pj & Hj & Hone)].
    + destruct (refresh_progress (mgr s) p Hd) as (e & m' & p' & Hn); [lia|].
      exists i, p, e, m', p'. auto.
    + destruct (refresh_progress (mgr s) pj) as (e & m' & p' & Hn);
        [by destruct pj|by destruct pj|]. exists j, pj, e, m', p'. auto.
  - intros i p Hi Hd.
    destruct (Zsum_one run_holds (runners s) ltac:(intros []; simpl; lia)) as [Hzero|(j & pj & Hj & Hone)].
    + destruct (run_progress (mgr s) (spooled s) p Hd) as (e & m' & sp' & p' & Hn); [lia|].
      exists i, p, e, m', sp', p'. auto.
    + destruct (run_progress (mgr s) (spooled s) pj) as (e & m' & sp' & p' & Hn);
        [by destruct pj|by destruct pj|]. exists j, pj, e, m', sp', p'. auto.
Qed.

(** C19. A batch that is still current when its probes finish was taken from the
    very targets that are installed now, whatever happened in between (updates,
    completions, gate traffic): the generation check cannot be fooled unless an
    unversioned configuration was replaced 2^64 times. *)
Theorem current_batch_targets (n : Z) (m m' : probeTargetManager) (now : Z)
    (Hev : evolves n m m') (Hi : initialized m = true) (Hgen : 0 <= generation m < two64)
    (Hwrap : 0 < version m \/ n < two64)
    (Hcur : isCurrent m' (due m now) = true) :
  targets m' = targets m /\ version m' = version m.
Proof.
  destruct (evolves_spec n m m' Hev Hi) as (Hn & _ & Hg & _ & Ht).
  unfold isCurrent in Hcur. apply andb_true_iff in Hcur as [Hg'%Z.eqb_eq Hv'%Z.eqb_eq].
  assert (b_generation (due m now) = generation m /\ b_version (due m now) = version m)
    as [E1 E2] by (unfold due; by destruct (targets m)).
  split; [|lia]. apply Ht; [lia|].
  destruct Hwrap as [|Hn']; [by left|right].
  rewrite <- Hg', E1 in Hg. unfold u64, two64 in *.
  rewrite (Z.mod_small (generation m)) in Hg by lia.
  pose proof (Z.div_mod (generation m + n) (2 ^ 64) ltac:(lia)). nia.
Qed.

(** ** Witnesses *)

(** A schedule: a refresh asked for version 3 fetches version 4, a probe run is
    persisted under it, and a second run is in flight behind the gate. *)
Definition example_moves : list move :=
  [MoveRefresh 0 RStep; MoveRefresh 0 RStep; MoveRefresh 0 RStep;
   MoveRefresh 0 (RAnswer (Ok (mkResponse [example_target "a"] 4)));
   MoveRefresh 0 RStep; MoveRefresh 0 RStep;
   MoveRun 0 PStep; MoveRun 0 (PClock 7);
   MoveRun 0 (PRounds [mkProbeRound "r" 0 "a" 7 "tcp" []]);
   MoveRun 0 PStep; MoveRun 0 (PEnqueue (Ok "id"))].

Definition example_system : system :=
  default (initial_system [] 0) (exec (initial_system [3; 0] 2) example_moves).

Lemma spooled_versions_ordered_witness :
  spooled_versions (spooled example_system) = [4] /\
  Sorted Z.le (spooled_versions (spooled example_system)).
Proof.
  split; [vm_compute; reflexivity|].
  apply (spooled_versions_ordered example_system).
  apply (exec_reachable [3; 0] 2 example_moves). vm_compute. reflexivity.
Defined.

Lemma refresh_returns_applied_witness :
  initialized (mgr example_system) = true /\ 4 <= version (mgr example_system) /\
  (0 < 3 -> 3 <= 4).
Proof.
  apply (refresh_returns_applied example_system 0 3 4).
  - apply (exec_reachable [3; 0] 2 example_moves). vm_compute. reflexivity.
  - vm_compute. reflexivity.
Defined.

Lemma gates_exclusive_and_live_witness :
  exists j pj e m' sp' p', runners example_system !! j = Some pj /\
    run_next (mgr example_system) (spooled example_system) pj e = Some (m', sp', p') /\
    (j = 1%nat \/ run_holds pj = 1).
Proof.
  apply (gates_exclusive_and_live example_system) with (i := 1%nat) (p := PCall).
  - apply (exec_reachable [3; 0] 2 example_moves). vm_compute. reflexivity.
  - vm_compute. reflexivity.
  - discriminate.
Defined.

Definition example_manager : probeTargetManager :=
  install newProbeTargetManager [sanitizeProbeTarget (example_target "a")] 4.

Lemma current_batch_targets_witness :
  targets (with_runGate (Some false) example_manager) = targets example_manager /\
  version (with_runGate (Some false) example_manager) = version example_manager.
Proof.
  apply (current_batch_targets 0 example_manager (with_runGate (Some false) example_manager) 5).
  - apply ev_run_gate, ev_refl.
  - vm_compute. reflexivity.
  - vm_compute. split; [discriminate|reflexivity].
  - left. vm_compute. reflexivity.
  - vm_compute. reflexivity.
Defined.
