(* ===== verification/Presence.v ===== *)
(** * Presence websocket (internal/agent/presence.go)

    The reconnect loop with its backoff, and the message loop of one connection
    with its acknowledgement rule.  The websocket library is outside the
    repository: what a connection delivers (messages, read and write errors) is
    an input.  The configuration handler is reached through the interface
    [ConfigHandler], which TargetManager.v implements for [refreshProbeConfig]. *)

From S2P Require Export TargetManager.

(** ** Timing constants *)
Definition presenceReadTimeout : Z := 75 * Second.
Definition presenceWriteTimeout : Z := 5 * Second.
Definition presenceInitialReconnectBackoff : Z := Second.
Definition presenceMaxReconnectBackoff : Z := 30 * Second.
Definition presenceStableConnectionDuration : Z := presenceReadTimeout.

(** ** The reconnect loop *)
Record presenceLoopOptions : Type := mkLoopOptions {
  initialBackoff : Z;
  maxBackoff : Z;
  stableConnectionDuration : Z
}.

(** The defaults [runPresenceLoop] fills in for zero or negative options. *)
Definition normalize_options (o : presenceLoopOptions) : presenceLoopOptions :=
  let initial :=
    if initialBackoff o <=? 0 then presenceInitialReconnectBackoff else initialBackoff o in
  let max := if maxBackoff o <=? 0 then presenceMaxReconnectBackoff else maxBackoff o in
  let max := if max <? initial then initial else max in
  let stable :=
    if stableConnectionDuration o <=? 0 then presenceStableConnectionDuration
    else stableConnectionDuration o in
  mkLoopOptions initial max stable.

(** [randomPresenceJitter]: [rand.Int63n] panics ([None]) on a bound that is not
    positive; [r] is the raw random value. *)
Definition randomPresenceJitter (backoff r : Z) : option Z :=
  if backoff <=? 0 then Some 0
  else
    let bound := backoff ÷ 2 in
    if bound <=? 0 then None else Some (r mod bound).

(** What one turn of the loop meets: the context state before the connection
    and after it, the connection's duration, the jitter drawn for a backoff and
    whether the sleep ran to its end. *)
Record loop_turn : Type := mkTurn {
  t_done_before : bool;
  t_connectedFor : Z;
  t_done_after : bool;
  t_jitter : Z -> Z;
  t_slept : bool
}.

Inductive turn_result : Type :=
| Returned (waited : option Z)
| Next (waited : Z) (backoff : Z).

Definition loop_turn_step (o : presenceLoopOptions) (backoff : Z) (t : loop_turn) : turn_result :=
  if t_done_before t then Returned None
  else if t_done_after t then Returned None
  else
    let backoff :=
      if stableConnectionDuration o <=? t_connectedFor t then initialBackoff o else backoff in
    let wait := i64 (backoff + t_jitter t backoff) in
    let wait := if maxBackoff o <? wait then maxBackoff o else wait in
    if negb (t_slept t) then Returned (Some wait)
    else
      let backoff :=
        if backoff <? maxBackoff o then
          let doubled := i64 (backoff * 2) in
          if maxBackoff o <? doubled then maxBackoff o else doubled
        else backoff in
      Next wait backoff.

(** The waits of a whole run over the turns [ts], and the backoff it ends with
    ([None] when the loop has returned). *)
Fixpoint run_turns (o : presenceLoopOptions) (backoff : Z) (ts : list loop_turn)
  : list Z * option Z :=
  match ts with
  | [] => ([], Some backoff)
  | t :: ts =>
      match loop_turn_step o backoff t with
      | Returned None => ([], None)
      | Returned (Some w) => ([w], None)
      | Next w backoff => let '(ws, b) := run_turns o backoff ts in (w :: ws, b)
      end
  end.

Definition runPresenceLoop (o : presenceLoopOptions) (ts : list loop_turn) : list Z * option Z :=
  let o := normalize_options o in run_turns o (initialBackoff o) ts.

(** [RunPresence] leaves every duration to its default. *)
Definition RunPresence (ts : list loop_turn) : list Z * option Z := runPresenceLoop (mkLoopOptions 0 0 0) ts.

(** [sleepContext]: which of the two channels its [select] receives from; [None]
    while neither is ready. *)
Definition sleepContext (ctxDone elapsed prefersTimer : bool) : option bool :=
  match ctxDone, elapsed with
  | false, false => None
  | true, false => Some false
  | false, true => Some true
  | true, true => Some prefersTimer
  end.

(** ** The message loop of one connection *)
Record PresenceServerMessage : Type := mkServerMessage { smType : string; smVersion : Z }.
Record PresenceClientMessage : Type := mkClientMessage { cmType : string; cmVersion : Z }.

(** What the connection delivers: a read error, or a message together with what
    the handler answers if it is called and what the write of the
    acknowledgement returns if it is sent. *)
Inductive presence_event : Type :=
| EvReadError (message : string)
| EvMessage (m : PresenceServerMessage) (answer : result string Z) (write : result string ()).

(** [Some e]: [runPresenceOnce] returned [e]; [None]: it waits for a message. *)
Fixpoint message_loop (has_handler : bool) (evs : list presence_event)
  : list PresenceClientMessage * option string :=
  match evs with
  | [] => ([], None)
  | EvReadError e :: _ => ([], Some e)
  | EvMessage m answer write :: evs =>
      if bool_decide (smType m = "config_changed") then
        if negb has_handler then message_loop has_handler evs
        else if smVersion m <? 0 then message_loop has_handler evs
        else
          match answer with
          | Err _ => message_loop has_handler evs
          | Ok appliedVersion =>
              if appliedVersion <? smVersion m then message_loop has_handler evs
              else
                let ack := mkClientMessage "config_applied" appliedVersion in
                match write with
                | Err e => ([], Some e)
                | Ok _ =>
                    let '(acks, r) := message_loop has_handler evs in (ack :: acks, r)
                end
          end
      else message_loop has_handler evs
  end.

(** The interface to the configuration handler: which answers it can give to a
    requested version, and what a successful answer promises. *)
Class ConfigHandler : Type := {
  handler_answer : Z -> result string Z -> Prop;
  version_applied : Z -> Prop;
  handler_sound q v : handler_answer q (Ok v) -> version_applied v /\ (0 < q -> q <= v)
}.

Definition manager_error_text (e : manager_error) : string :=
  match e with
  | ErrInvalidVersion v => "invalid probe config version " +:+ Itoa v
  | ErrZeroOverwrites c => "probe config version 0 cannot overwrite current version " +:+ Itoa c
  | ErrOlderThanCurrent v c =>
      "probe config version " +:+ Itoa v +:+ " is older than current version " +:+ Itoa c
  | ErrDifferentContent v => "probe config version " +:+ Itoa v +:+ " has different content"
  | ErrInvalidRequested v => "invalid requested probe config version " +:+ Itoa v
  | ErrOlderThanRequested v q =>
      "probe config version " +:+ Itoa v +:+ " is older than requested version " +:+ Itoa q
  | ErrFetch m => m
  | ErrContext => "context canceled"
  | ErrEnqueue m => "persist probe results before scheduler completion: " +:+ m
  end.

Definition refresh_result_text (r : result manager_error Z) : result string Z :=
  match r with Ok v => Ok v | Err e => Err (manager_error_text e) end.

(** The manager as handler: its answers are the results of the finished refresh
    calls of a reachable system. *)
#[export] Instance manager_handler (s : system) (Hr : reachable s) : ConfigHandler.
Proof.
  refine {|
    handler_answer q r := exists i r', refreshers s !! i = Some (RDone q r') /\ r = refresh_result_text r';
    version_applied v := initialized (mgr s) = true /\ v <= version (mgr s)
  |}.
  intros q v (i & [v'|e] & Hi & Hv); simplify_eq/=.
  pose proof (Forall_lookup_1 _ _ _ _ (inv_refresh _ (reachable_inv s Hr)) Hi) as (? & ? & ?).
  done.
Defined.

(** ** Lemmas *)

(** Durations that can be doubled: up to 146 years. *)
Definition half_range : Z := 2 ^ 62 - 1.

Definition options_ok (o : presenceLoopOptions) : Prop :=
  0 < initialBackoff o <= maxBackoff o /\ 0 < stableConnectionDuration o /\
  maxBackoff o <= half_range.

Lemma normalize_options_ok o :
  initialBackoff o <= half_range -> maxBackoff o <= half_range ->
  options_ok (normalize_options o).
Proof.
  intros Hi Hm. unfold options_ok, normalize_options. simpl.
  unfold presenceInitialReconnectBackoff, presenceMaxReconnectBackoff,
    presenceStableConnectionDuration, presenceReadTimeout, Second, half_range in *.
  zcase; lia.
Qed.

(** A jitter hook that respects its contract: a value in [0, backoff]. *)
Definition jitter_ok (t : loop_turn) : Prop := forall b, 0 < b -> 0 <= t_jitter t b <= b.

Lemma loop_turn_step_bounds o b t :
  options_ok o -> initialBackoff o <= b <= maxBackoff o -> jitter_ok t ->
  match loop_turn_step o b t with
  | Returned None => True
  | Returned (Some w) => initialBackoff o <= w <= maxBackoff o
  | Next w b' =>
      initialBackoff o <= w <= maxBackoff o /\ initialBackoff o <= b' <= maxBackoff o
  end.
Proof.
  intros ([Hi Him] & _ & Hmax) Hb Hj. unfold loop_turn_step.
  destruct (t_done_before t); [done|]. destruct (t_done_after t); [done|].
  set (b1 := if _ <=? _ then _ else _).
  assert (initialBackoff o <= b1 <= maxBackoff o) as Hb1 by (unfold b1; zcase; lia).
  clearbody b1. cbn zeta. specialize (Hj b1 ltac:(lia)).
  rewrite (i64_id (b1 + _)) by (unfold in_i64, minInt64, maxInt64, two63, half_range in *; lia).
  rewrite (i64_id (b1 * 2)) by (unfold in_i64, minInt64, maxInt64, two63, half_range in *; lia).
  destruct (t_slept t); simpl; zcase; lia.
Qed.

Lemma run_turns_bounds o ts : options_ok o -> forall b,
  initialBackoff o <= b <= maxBackoff o -> Forall jitter_ok ts ->
  let '(ws, b') := run_turns o b ts in
  Forall (fun w => initialBackoff o <= w <= maxBackoff o) ws /\
  (forall b'', b' = Some b'' -> initialBackoff o <= b'' <= maxBackoff o).
Proof.
  intros Ho. induction ts as [|t ts IH]; intros b Hb Hj; simpl; [naive_solver|].
  inversion Hj as [|? ? Ht Hts]; subst.
  pose proof (loop_turn_step_bounds o b t Ho Hb Ht) as Hstep.
  destruct (loop_turn_step o b t) as [[w|]|w b1].
  - split; [constructor; [done|constructor]|done].
  - split; [constructor|done].
  - destruct Hstep as [Hw Hb1]. specialize (IH b1 Hb1 Hts).
    destruct (run_turns o b1 ts) as [ws b']. destruct IH. split; [by constructor|done].
Qed.

(** A turn that ends early neither shortens nor resets the backoff. *)
Definition failing_turn (o : presenceLoopOptions) (t : loop_turn) : Prop :=
  t_done_before t = false /\ t_done_after t = false /\ t_slept t = true /\
  t_connectedFor t < stableConnectionDuration o.

Lemma run_turns_failing o ts : options_ok o -> Forall (failing_turn o) ts -> forall b,
  initialBackoff o <= b <= maxBackoff o ->
  (run_turns o b ts).2 = Some (Z.min (maxBackoff o) (b * 2 ^ Z.of_nat (length ts))).
Proof.
  intros ([Hi Him] & Hst & Hmax). induction 1 as [|t ts (Hd & Hd' & Hs & Hc) _ IH]; intros b Hb.
  - simpl. rewrite Z.mul_1_r. f_equal. lia.
  - cbn [run_turns]. unfold loop_turn_step. rewrite Hd, Hd', Hs. cbn [negb].
    destruct (Z.leb_spec (stableConnectionDuration o) (t_connectedFor t)); [lia|].
    set (b1 := if b <? maxBackoff o then _ else b).
    assert (b1 = Z.min (maxBackoff o) (b * 2)) as Hb1.
    { unfold b1. rewrite i64_id by (unfold in_i64, minInt64, maxInt64, two63, half_range in *; lia).
      zcase; lia. }
    specialize (IH b1 ltac:(lia)). cbn zeta. fold b1.
    destruct (run_turns o b1 ts) as [ws b']. simpl in *. rewrite IH, Hb1. f_equal.
    cbn [length]. rewrite Nat2Z.inj_succ, Z.pow_succ_r by lia.
    pose proof (Z.pow_pos_nonneg 2 (Z.of_nat (length ts)) ltac:(lia) ltac:(lia)). nia.
Qed.

Section Acks.
Context `{ConfigHandler}.

(** Every answer in the events is one the handler can give. *)
Definition event_ok (ev : presence_event) : Prop :=
  match ev with
  | EvMessage m answer _ => handler_answer (smVersion m) answer
  | EvReadError _ => True
  end.

Definition ack_justified (evs : list presence_event) (ack : PresenceClientMessage) : Prop :=
  cmType ack = "config_applied" /\ version_applied (cmVersion ack) /\
  exists m answer write, EvMessage m answer write ∈ evs /\ smType m = "config_changed" /\
    0 <= smVersion m <= cmVersion ack.

Lemma ack_justified_cons ev evs ack : ack_justified evs ack -> ack_justified (ev :: evs) ack.
Proof.
  intros (Ht & Ha & m & an & wr & Hin & Hm). split_and!; [done..|].
  exists m, an, wr. split; [by right|done].
Qed.

Lemma message_loop_justified evs :
  Forall event_ok evs -> Forall (ack_justified evs) (message_loop true evs).1.
Proof.
  induction 1 as [|ev evs Hev _ IH]; [constructor|].
  assert (Forall (ack_justified (ev :: evs)) (message_loop true evs).1) as IH'.
  { eapply Forall_impl; [exact IH|]. eauto using ack_justified_cons. }
  destruct ev as [e|m answer write]; cbn [message_loop]; [constructor|].
  case_bool_decide as Ht; [|done]. cbn [negb].
  destruct (Z.ltb_spec (smVersion m) 0); [done|].
  destruct answer as [v|e]; [|done]. destruct (Z.ltb_spec v (smVersion m)); [done|].
  destruct write as [u|e]; [|constructor].
  destruct (message_loop true evs) as [acks r]. simpl in *. constructor; [|done].
  split_and!; [done| |].
  - simpl. by eapply handler_sound.
  - exists m, (Ok v), (Ok u). split; [left|]. simpl. auto with lia.
Qed.
End Acks.

Lemma message_loop_count h evs :
  (length (message_loop h evs).1 <=
   length (List.filter (fun ev => match ev with
     | EvMessage m _ _ => bool_decide (smType m = "config_changed")
     | _ => false end) evs))%nat.
Proof.
  induction evs as [|[e|m answer write] evs IH]; simpl; [lia|lia|].
  case_bool_decide; [|done]. simpl.
  destruct h; simpl; [|lia]. destruct (smVersion m <? 0); [lia|].
  destruct answer as [v|]; [|lia]. destruct (v <? smVersion m); [lia|].
  destruct write; simpl; [|lia]. destruct (message_loop true evs). simpl in *. lia.
Qed.

(** ** Properties *)

(** Reconnecting neither spins nor stalls: with any jitter hook that stays
    in [0, backoff], every wait of the loop lies between the initial and the
    maximal backoff of the normalised options, however connections behave. *)
Theorem reconnect_waits_bounded (o : presenceLoopOptions) (ts : list loop_turn)
    (Hi : initialBackoff o <= half_range) (Hm : maxBackoff o <= half_range)
    (Hj : Forall jitter_ok ts) :
  Forall (fun w => initialBackoff (normalize_options o) <= w <= maxBackoff (normalize_options o))
    (runPresenceLoop o ts).1.
Proof.
  pose proof (normalize_options_ok o Hi Hm) as Ho. unfold runPresenceLoop.
  pose proof (run_turns_bounds _ ts Ho (initialBackoff (normalize_options o)) ltac:(destruct Ho; lia) Hj).
  destruct (run_turns _ _ ts). naive_solver.
Qed.

(** Backoff is exponential: after [k] consecutive connections that fail
    before the stable duration the backoff is [min max (initial * 2^k)], and one
    stable connection brings the next wait back to the initial backoff plus its
    jitter. *)
Theorem reconnect_backoff_exponential (o : presenceLoopOptions) (ts : list loop_turn)
    (Ho : options_ok o) (Hts : Forall (failing_turn o) ts) :
  (run_turns o (initialBackoff o) ts).2 =
    Some (Z.min (maxBackoff o) (initialBackoff o * 2 ^ Z.of_nat (length ts))) /\
  forall b t, jitter_ok t -> t_done_before t = false -> t_done_after t = false ->
    t_slept t = true -> stableConnectionDuration o <= t_connectedFor t ->
    exists b', loop_turn_step o b t =
      Next (Z.min (maxBackoff o) (initialBackoff o + t_jitter t (initialBackoff o))) b'.
Proof.
  split; [apply run_turns_failing; [done..|]; destruct Ho; lia|].
  intros b t Hj Hd Hd' Hs Hst. destruct Ho as ([Hi Him] & _ & Hmax).
  unfold loop_turn_step. rewrite Hd, Hd', Hs.
  destruct (Z.leb_spec (stableConnectionDuration o) (t_connectedFor t)); [|lia]. cbn zeta. cbn [negb].
  specialize (Hj (initialBackoff o) Hi).
  rewrite (i64_id (_ + _)) by (unfold in_i64, minInt64, maxInt64, two63, half_range in *; lia).
  eexists. f_equal. zcase; lia.
Qed.

Lemma random_jitter_below_half b r : 2 <= b -> exists j,
  randomPresenceJitter b r = Some j /\ 0 <= j < b ÷ 2 /\ b ÷ 2 <= b.
Proof.
  intros Hb. unfold randomPresenceJitter. rewrite (proj2 (Z.leb_gt _ _)) by lia.
  assert (1 <= b ÷ 2 <= b) as Hh by (rewrite Z.quot_div_nonneg by lia; split; [apply Z.div_le_lower_bound; lia|
    apply Z.div_le_upper_bound; lia]).
  rewrite (proj2 (Z.leb_gt _ _)) by lia. eexists. split; [done|]. split; [|lia]. apply Z.mod_pos_bound. lia.
Qed.

(** The turns of [RunPresence], whose jitter is [randomPresenceJitter] of a raw number. *)
Definition production_turn (t : loop_turn) : Prop := exists r, forall b, t_jitter t b = default 0 (randomPresenceJitter b r).

(** In production the loop waits between one and thirty seconds before every reconnection, whatever the raw numbers
    are, and the jitter it asks for never panics: every backoff it reaches is at least two nanoseconds. *)
Theorem production_reconnects (ts : list loop_turn) : Forall production_turn ts ->
  Forall (fun w => Second <= w <= 30 * Second) (RunPresence ts).1 /\
  (forall b, (RunPresence ts).2 = Some b -> Second <= b <= 30 * Second /\ forall r, is_Some (randomPresenceJitter b r)).
Proof.
  intros Hts. set (o := normalize_options (mkLoopOptions 0 0 0)).
  assert (options_ok o) as Ho by (by apply normalize_options_ok; vm_compute).
  assert (2 <= Second) by (by vm_compute).
  pose proof (run_turns_bounds o ts Ho (initialBackoff o) ltac:(by vm_compute)) as Hw.
  unfold RunPresence, runPresenceLoop. fold o. destruct (run_turns o (initialBackoff o) ts) as [ws b'].
  destruct Hw as [Hws Hb].
  - eapply Forall_impl; [exact Hts|]. intros t [r Hr] b Hpos. rewrite Hr.
    destruct (decide (b = 1)) as [->|]; [by vm_compute|].
    destruct (random_jitter_below_half b r ltac:(lia)) as (j & -> & Hj). simpl. lia.
  - split; [exact Hws|]. intros b Hb'. simpl in Hb'. specialize (Hb b Hb'). split; [exact Hb|]. intros r.
    assert (Second <= b) by apply Hb. destruct (random_jitter_below_half b r ltac:(lia)) as (j & -> & _). by eexists.
Qed.

(** Acknowledgements are sound end to end: when the handler is the target
    manager, every [config_applied] the Agent sends answers a [config_changed]
    message it received, names a version at least as new as the requested one,
    and names a version that is installed in the manager or already superseded;
    there are never more acknowledgements than requests. *)
Theorem acks_name_applied_versions (s : system) (Hr : reachable s) (evs : list presence_event)
    (Hev : Forall (event_ok (H := manager_handler s Hr)) evs) :
  Forall (fun ack =>
      cmType ack = "config_applied" /\
      (initialized (mgr s) = true /\ cmVersion ack <= version (mgr s)) /\
      exists m answer write, EvMessage m answer write ∈ evs /\ smType m = "config_changed" /\
        0 <= smVersion m <= cmVersion ack) (message_loop true evs).1 /\
  (length (message_loop true evs).1 <=
   length (List.filter (fun ev => match ev with
     | EvMessage m _ _ => bool_decide (smType m = "config_changed")
     | _ => false end) evs))%nat.
Proof.
  split; [|apply message_loop_count].
  exact (message_loop_justified (H := manager_handler s Hr) evs Hev).
Qed.

(** ** Witnesses *)
Definition example_options : presenceLoopOptions := normalize_options (mkLoopOptions 0 0 0).
Definition example_turn : loop_turn := mkTurn false 0 false (fun b => b / 2) true.

Lemma reconnect_waits_bounded_witness :
  (runPresenceLoop (mkLoopOptions 0 0 0) (repeat example_turn 7)).1 =
    [1500000000; 3000000000; 6000000000; 12000000000; 24000000000; 30000000000; 30000000000] /\
  Forall (fun w => Second <= w <= 30 * Second)
    (runPresenceLoop (mkLoopOptions 0 0 0) (repeat example_turn 7)).1.
Proof.
  split; [vm_compute; reflexivity|].
  apply (reconnect_waits_bounded (mkLoopOptions 0 0 0) (repeat example_turn 7)).
  - vm_compute. discriminate.
  - vm_compute. discriminate.
  - rewrite Forall_forall. intros t Ht%list_elem_of_In%repeat_spec. subst t. intros b Hb. simpl.
    Z.to_euclidean_division_equations. lia.
Defined.

Lemma reconnect_backoff_exponential_witness :
  (run_turns example_options (initialBackoff example_options) (repeat example_turn 3)).2 =
    Some (8 * Second).
Proof.
  apply (reconnect_backoff_exponential example_options (repeat example_turn 3)).
  - vm_compute. repeat split; discriminate.
  - rewrite Forall_forall. intros t Ht%list_elem_of_In%repeat_spec. subst t. vm_compute. done.
Defined.

Definition example_reachable : reachable example_system.
Proof. apply (exec_reachable [3; 0] 2 example_moves). vm_compute. reflexivity. Defined.

Definition example_events : list presence_event :=
  [EvMessage (mkServerMessage "config_changed" 3) (Ok 4) (Ok tt)].

Lemma acks_name_applied_versions_witness :
  (message_loop true example_events).1 = [mkClientMessage "config_applied" 4] /\
  (length (message_loop true example_events).1 <= 1)%nat.
Proof.
  split; [vm_compute; reflexivity|].
  apply (acks_name_applied_versions example_system example_reachable example_events).
  constructor; [|constructor]. exists O, (Ok 4). split; vm_compute; reflexivity.
Defined.

(** The jitter of the smallest backoff: [rand.Int63n] is called with bound 0. *)
Example smallest_backoff_panics r :
  randomPresenceJitter 1 r = None /\ initialBackoff (normalize_options (mkLoopOptions 1 2 1)) = 1.
Proof. split; reflexivity. Qed.
