(* ===== verification/ProbeCodec.v ===== *)
(** * Probe batches and spool envelopes as JSON
    (types.go, client.go, probe_spool.go)

    The bytes [json.Marshal] produces for a batch and for an envelope, and what
    [json.Decoder] accepts: member names are matched under case folding, the
    envelope refuses unknown members, numbers are checked against the width of
    their field. *)

From S2P Require Export JsonFacts ProbeTypes Sha256.

Inductive codec_error : Type :=
| EmptyBatch
| InvalidConfigVersion (version : Z)
| MixedConfigVersions (a b : Z)
| UnsupportedValue.

(** ** Encoding *)

(** [omitempty] strings. *)
Definition string_member_omitempty (key value : string) : list string :=
  match value with
  | EmptyString => []
  | _ => [json_member key (json_string value)]
  end.

Definition latency_text (l : option spec_float) : option string :=
  match l with
  | None => Some "null"
  | Some f => float_text f
  end.

Definition sample_text (s : ProbeSample) : option string :=
  lat ← latency_text (LatencyMS s);
  Some (json_object (
    [json_member "seq" (Itoa (Seq s)); json_member "success" (json_bool (Success s));
     json_member "latency_ms" lat] ++ string_member_omitempty "error" (Error s))).

Definition round_text (r : ProbeRound) : option string :=
  samples ← mapM sample_text (Samples r);
  Some (json_object (
    string_member_omitempty "round_id" (RoundID r) ++
    [json_member "target_id" (json_string (TargetID r)); json_member "ts" (Itoa (Unix (TS r)));
     json_member "type" (json_string (RoundType r)); json_member "samples" (json_array samples)])).

Definition request_text (configVersion : Z) (rounds : list ProbeRound) : option string :=
  rs ← mapM round_text rounds;
  Some (json_object (
    (if configVersion =? 0 then [] else [json_member "config_version" (Itoa configVersion)]) ++
    [json_member "rounds" (json_array rs)])).

Definition commonProbeConfigVersion (rounds : list ProbeRound) : result codec_error Z :=
  match rounds with
  | [] => Ok 0
  | r :: rest =>
      let version := ConfigVersion r in
      if version <? 0 then Err (InvalidConfigVersion version)
      else
        (fix go l :=
           match l with
           | [] => Ok version
           | r :: l =>
               if ConfigVersion r <? 0 then Err (InvalidConfigVersion (ConfigVersion r))
               else if version =? ConfigVersion r then go l
               else Err (MixedConfigVersions version (ConfigVersion r))
           end) rest
  end.

Definition marshalProbeResults (rounds : list ProbeRound) : result codec_error string :=
  match rounds with
  | [] => Err EmptyBatch
  | _ =>
      configVersion ← commonProbeConfigVersion rounds;
      match request_text configVersion rounds with
      | Some body => Ok body
      | None => Err UnsupportedValue
      end
  end.

Definition probeSpoolSchemaVersion : Z := 1.

Record probeSpoolEnvelope : Type := mkEnvelope {
  SchemaVersion : Z;
  Created : Z;
  Attempt : Z;
  NextAt : Z;
  Checksum : string;
  Batch : string
}.

(** [json.Marshal(envelope)]: the raw batch goes through [compact]. *)
Definition envelope_text (e : probeSpoolEnvelope) : string :=
  json_object
    [json_member "schema_version" (Itoa (SchemaVersion e)); json_member "created" (Itoa (Created e));
     json_member "attempt" (Itoa (Attempt e)); json_member "next_at" (Itoa (NextAt e));
     json_member "checksum" (json_string (Checksum e));
     json_member "batch" (compact Outside (Batch e))].

(** ** Decoding *)
Definition field_is (name key : string) : bool := EqualFold (unquote key) name.

Definition is_ok {E A} (r : result E A) : bool := match r with Ok _ => true | Err _ => false end.

(** What a typed field accepts; [null] leaves the field alone. *)
Definition int64_ok (v : json) : bool :=
  match v with JNull => true | JNum lit => is_ok (ParseInt lit) | _ => false end.
Definition string_ok (v : json) : bool :=
  match v with JNull | JStr _ => true | _ => false end.
Definition bool_ok (v : json) : bool :=
  match v with JNull | JBool _ => true | _ => false end.
Definition float64_ok (v : json) : bool :=
  match v with JNull => true | JNum lit => float_literal_ok lit | _ => false end.
Definition slice_ok (elem : json -> bool) (v : json) : bool :=
  match v with JNull => true | JArr l => forallb elem l | _ => false end.

(** A struct: the listed fields are checked, other members are ignored. *)
Definition struct_ok (fields : list (string * (json -> bool))) (v : json) : bool :=
  match v with
  | JNull => true
  | JObj ms =>
      forallb (fun '(key, (_, w)) =>
        match List.find (fun '(name, _) => field_is name key) fields with
        | Some (_, ok) => ok w
        | None => true
        end) ms
  | _ => false
  end.

Definition sample_ok : json -> bool :=
  struct_ok [("seq", int64_ok); ("success", bool_ok); ("latency_ms", float64_ok); ("error", string_ok)].
Definition round_ok : json -> bool :=
  struct_ok [("round_id", string_ok); ("target_id", string_ok); ("ts", int64_ok);
    ("type", string_ok); ("samples", slice_ok sample_ok)].
Definition request_ok : json -> bool :=
  struct_ok [("config_version", int64_ok); ("rounds", slice_ok round_ok)].

(** [len(payload.Rounds)]: the last such member counts. *)
Definition rounds_len (v : json) : nat :=
  match v with
  | JObj ms =>
      foldl (fun n '(key, (_, w)) =>
        if field_is "rounds" key then match w with JArr l => length l | _ => O end else n) O ms
  | _ => O
  end.

(** [json.Unmarshal(batch, &payload)] succeeds with at least one round. *)
Definition batch_valid (body : string) : bool :=
  match parse_json body with
  | Some v => request_ok v && negb (Nat.eqb (rounds_len v) 0)
  | None => false
  end.

Definition decode_int64 (old : Z) (v : json) : option Z :=
  match v with
  | JNull => Some old
  | JNum lit => match ParseInt lit with Ok z => Some z | Err _ => None end
  | _ => None
  end.
Definition decode_uint32 (old : Z) (v : json) : option Z :=
  match v with
  | JNull => Some old
  | JNum lit =>
      match ParseUint lit with
      | Ok z => if z <? two32 then Some z else None
      | Err _ => None
      end
  | _ => None
  end.
Definition decode_string (old : string) (v : json) : option string :=
  match v with
  | JNull => Some old
  | JStr raw => Some (unquote raw)
  | _ => None
  end.

(** One member of the envelope, with [DisallowUnknownFields]. *)
Definition decode_member (e : probeSpoolEnvelope) (m : string * (string * json))
  : option probeSpoolEnvelope :=
  let '(key, (text, v)) := m in
  let '(mkEnvelope ver cr at_ na ck ba) := e in
  if field_is "schema_version" key then z ← decode_int64 ver v; Some (mkEnvelope z cr at_ na ck ba)
  else if field_is "created" key then z ← decode_int64 cr v; Some (mkEnvelope ver z at_ na ck ba)
  else if field_is "attempt" key then z ← decode_uint32 at_ v; Some (mkEnvelope ver cr z na ck ba)
  else if field_is "next_at" key then z ← decode_int64 na v; Some (mkEnvelope ver cr at_ z ck ba)
  else if field_is "checksum" key then s ← decode_string ck v; Some (mkEnvelope ver cr at_ na s ba)
  else if field_is "batch" key then Some (mkEnvelope ver cr at_ na ck text)
  else None.

Fixpoint decode_members (e : probeSpoolEnvelope) (ms : list (string * (string * json)))
  : option probeSpoolEnvelope :=
  match ms with
  | [] => Some e
  | m :: ms => e ← decode_member e m; decode_members e ms
  end.

Definition empty_envelope : probeSpoolEnvelope := mkEnvelope 0 0 0 0 "" "".

(** [decoder.Decode(&envelope)] and nothing after it. *)
Definition decode_envelope (content : string) : option probeSpoolEnvelope :=
  match parse_json content with
  | Some JNull => Some empty_envelope
  | Some (JObj ms) => decode_members empty_envelope ms
  | _ => None
  end.

(** The checks of [readEnvelopeLocked] on a decoded envelope. *)
Definition envelope_valid (e : probeSpoolEnvelope) : bool :=
  (SchemaVersion e =? probeSpoolSchemaVersion) && (0 <? Created e) && (0 <? NextAt e) &&
  negb (bool_decide (Batch e = "")) &&
  EqualFold (Checksum e) (probeSpoolChecksum (Batch e)) && batch_valid (Batch e).

(** The part of [readEnvelopeLocked] after the file has been read. *)
Definition parse_envelope (content : string) : option probeSpoolEnvelope :=
  e ← decode_envelope content; if envelope_valid e then Some e else None.

#[export] Instance probeSpoolEnvelope_eq_dec : EqDecision probeSpoolEnvelope.
Proof. solve_decision. Defined.

(** ** Lemmas: structs *)
Definition member_check (fields : list (string * (json -> bool)))
  (m : string * (string * json)) : bool :=
  match List.find (fun '(name, _) => field_is name m.1) fields with
  | Some (_, ok) => ok m.2.2
  | None => true
  end.

Lemma struct_ok_obj fields ms : struct_ok fields (JObj ms) = forallb (member_check fields) ms.
Proof. induction ms as [|[k [t v]] ms IH]; [done|]. simpl in *. by rewrite IH. Qed.

(** Member texts that a struct with these fields accepts. *)
Definition members_enc (fields : list (string * (json -> bool))) (k : nat) (texts : list string)
  : Prop :=
  exists ms, texts = map member_text ms /\ Forall (member_ok k) ms /\
    forallb (member_check fields) ms = true.

Lemma chunk_safe s : str_forall json_safe s = true -> chunk_ok s.
Proof.
  induction s as [|c s IH]; intros H; [apply chunk_nil|]. simpl in H.
  apply andb_true_iff in H as [[Hp Hb]%json_safe_plain Hs].
  apply (chunk_app (String c "")); [apply chunk_char; [done|lia]|auto].
Qed.

Lemma members_nil fields k : members_enc fields k [].
Proof. by exists []. Qed.

Lemma members_cons fields k key text v texts :
  str_forall json_safe key = true -> encodes text v k ->
  member_check fields (key, (text, v)) = true -> members_enc fields k texts ->
  members_enc fields k (json_member key text :: texts).
Proof.
  intros Hk Hv Hc (ms & -> & Hms & Hcs). exists ((key, (text, v)) :: ms).
  split; [done|]. split; [|simpl; by rewrite Hc].
  constructor; [|done]. split; [by apply chunk_safe|done].
Qed.

Lemma members_app fields k texts texts' :
  members_enc fields k texts -> members_enc fields k texts' -> members_enc fields k (texts ++ texts').
Proof.
  intros (ms & -> & Hms & Hcs) (ms' & -> & Hms' & Hcs'). exists (ms ++ ms').
  rewrite map_app, forallb_app, Hcs, Hcs'. split; [done|]. split; [by apply Forall_app|done].
Qed.

Lemma members_string fields k key s texts :
  str_forall json_safe key = true ->
  (forall t raw, member_check fields (key, (t, JStr raw)) = true) -> members_enc fields k texts ->
  members_enc fields k (json_member key (json_string s) :: texts).
Proof. intros Hk Hc. eapply members_cons; [done|apply encodes_string|apply Hc]. Qed.

Lemma members_omitempty fields k key s :
  str_forall json_safe key = true ->
  (forall t raw, member_check fields (key, (t, JStr raw)) = true) ->
  members_enc fields k (string_member_omitempty key s).
Proof.
  intros Hk Hc. destruct s as [|c s]; [apply members_nil|].
  apply members_string; [done|done|apply members_nil].
Qed.

Lemma members_struct fields k texts : members_enc fields k texts ->
  exists ms, encodes (json_object texts) (JObj ms) (S k) /\ struct_ok fields (JObj ms) = true.
Proof.
  intros (ms & -> & Hms & Hcs). exists ms. rewrite struct_ok_obj.
  split; [by apply encodes_object|done].
Qed.

Lemma int64_ok_Itoa z : in_i64 z -> int64_ok (JNum (Itoa z)) = true.
Proof. intros H. simpl. by rewrite ParseInt_Itoa. Qed.

Lemma members_int fields k key z texts :
  str_forall json_safe key = true -> in_i64 z ->
  (forall t v, member_check fields (key, (t, v)) = int64_ok v) -> members_enc fields k texts ->
  members_enc fields k (json_member key (Itoa z) :: texts).
Proof.
  intros Hk Hz Hc. eapply members_cons; [done|apply encodes_int|].
  rewrite Hc. by apply int64_ok_Itoa.
Qed.

(** Lists of elements that encode one by one. *)
Lemma array_enc {A} (f : A -> option string) (ok : json -> bool) (P : A -> Prop) k l texts :
  (forall a t, P a -> f a = Some t -> exists v, encodes t v k /\ ok v = true) ->
  Forall P l -> mapM f l = Some texts ->
  exists vs, encodes (json_array texts) (JArr vs) (S k) /\ forallb ok vs = true /\ length vs = length l.
Proof.
  intros Hf Hl Hm%mapM_Some.
  assert (exists vs, Forall2 (fun t v => encodes t v k) texts vs /\ forallb ok vs = true /\
    length vs = length l) as (vs & Hvs & Hok & Hlen).
  { induction Hm as [|a t l texts Ha Hm IH]; [by exists []|].
    inversion Hl as [|? ? Ha' Hl']; subst.
    destruct (Hf a t Ha' Ha) as (v & Hv & Hok). destruct (IH Hl') as (vs & Hvs & Hoks & Hlen).
    exists (v :: vs). split; [by constructor|]. simpl. rewrite Hok, Hoks, Hlen. done. }
  exists vs. split; [by apply encodes_array|done].
Qed.

(** ** Lemmas: batches *)

(** What the agent's own rounds satisfy: fields of their width, printable latencies. *)
Definition sample_wf (s : ProbeSample) : Prop :=
  in_i64 (Seq s) /\ match LatencyMS s with Some f => f64_moderate f = true | None => True end.
Definition round_wf (r : ProbeRound) : Prop :=
  in_i64 (ConfigVersion r) /\ Forall sample_wf (Samples r).

Lemma sample_enc k s text : sample_wf s -> sample_text s = Some text ->
  exists v, encodes text v (S k) /\ sample_ok v = true.
Proof.
  intros [Hseq Hlat]. unfold sample_text. intros (lat & Hl & [= <-])%bind_Some.
  assert (exists v, encodes lat v k /\ float64_ok v = true) as (vl & Hvl & Hok).
  { destruct (LatencyMS s) as [f|]; simpl in Hl.
    - exists (JNum lat). by apply (encodes_float f).
    - simplify_eq. exists JNull. split; [apply encodes_null|done]. }
  destruct (members_struct [("seq", int64_ok); ("success", bool_ok); ("latency_ms", float64_ok);
    ("error", string_ok)] k ([json_member "seq" (Itoa (Seq s));
    json_member "success" (json_bool (Success s)); json_member "latency_ms" lat] ++
    string_member_omitempty "error" (Error s))) as (ms & Henc & Hms).
  { apply members_app; [|by apply members_omitempty].
    apply members_int; [done..|]. eapply members_cons; [done|apply encodes_bool|done|].
    eapply members_cons; [done|exact Hvl|done|apply members_nil]. }
  by exists (JObj ms).
Qed.

Lemma round_enc k r text : round_wf r -> round_text r = Some text ->
  exists v, encodes text v (S (S (S k))) /\ round_ok v = true.
Proof.
  intros [_ Hs]. unfold round_text. intros (samples & Hl & [= <-])%bind_Some.
  destruct (array_enc sample_text sample_ok sample_wf (S k) (Samples r) samples) as (vs & Hvs & Hok & _);
    [intros; by eapply sample_enc|done..|].
  destruct (members_struct [("round_id", string_ok); ("target_id", string_ok); ("ts", int64_ok);
    ("type", string_ok); ("samples", slice_ok sample_ok)] (S (S k))
    (string_member_omitempty "round_id" (RoundID r) ++
    [json_member "target_id" (json_string (TargetID r)); json_member "ts" (Itoa (Unix (TS r)));
     json_member "type" (json_string (RoundType r)); json_member "samples" (json_array samples)]))
    as (ms & Henc & Hms).
  { apply members_app; [by apply members_omitempty|].
    apply members_string; [done..|]. apply members_int; [done|apply i64_range|done|].
    apply members_string; [done..|]. eapply members_cons; [done|exact Hvs|exact Hok|apply members_nil]. }
  by exists (JObj ms).
Qed.

Lemma request_enc version rounds text :
  in_i64 version -> Forall round_wf rounds -> request_text version rounds = Some text ->
  exists v, encodes text v 5 /\ request_ok v = true /\ rounds_len v = length rounds.
Proof.
  intros Hver Hr. unfold request_text. intros (rs & Hl & [= <-])%bind_Some.
  destruct (array_enc round_text round_ok round_wf 3 rounds rs) as (vs & Hvs & Hok & Hlen);
    [intros; by eapply round_enc|done..|].
  set (fields := [("config_version", int64_ok); ("rounds", slice_ok round_ok)]).
  set (pre := if version =? 0 then [] else [("config_version", (Itoa version, JNum (Itoa version)))]).
  set (ms := pre ++ [("rounds", (json_array rs, JArr vs))]).
  assert (map member_text ms = (if version =? 0 then [] else [json_member "config_version" (Itoa version)])
    ++ [json_member "rounds" (json_array rs)]) as <-.
  { unfold ms, pre. by destruct (version =? 0). }
  assert (Forall (member_ok 4) ms) as Hms.
  { unfold ms, pre. apply Forall_app. split.
    - destruct (version =? 0); constructor; [|done]. split; [by apply chunk_safe|apply encodes_int].
    - constructor; [|done]. split; [by apply chunk_safe|done]. }
  exists (JObj ms). split; [by apply encodes_object|].
  unfold request_ok. fold fields. rewrite struct_ok_obj. unfold ms, pre. rewrite forallb_app.
  assert (forallb (member_check fields) [("rounds", (json_array rs, JArr vs))] = true) as ->.
  { change (forallb round_ok vs && true = true). by rewrite Hok. }
  destruct (version =? 0); (split; [|done]); [done|].
  change (int64_ok (JNum (Itoa version)) && true && true = true). by rewrite int64_ok_Itoa.
Qed.

Lemma common_version rounds version :
  commonProbeConfigVersion rounds = Ok version ->
  (rounds = [] /\ version = 0) \/ 0 <= version /\ Forall (fun r => ConfigVersion r = version) rounds.
Proof.
  destruct rounds as [|r l]; [left; by simplify_eq/=|]. simpl.
  destruct (Z.ltb_spec (ConfigVersion r) 0); [done|]. intros Hgo. right.
  assert (version = ConfigVersion r /\ Forall (fun r' => ConfigVersion r' = ConfigVersion r) l) as [-> Hl].
  { revert Hgo. induction l as [|r' l IH]; [by intros [= ->]|].
    destruct (ConfigVersion r' <? 0); [done|]. destruct (Z.eqb_spec (ConfigVersion r) (ConfigVersion r')); [|done].
    intros [-> Hl]%IH. split; [done|]. by constructor. }
  split; [lia|]. by constructor.
Qed.

(** A batch that marshals is a non-empty list of rounds of one version, and its
    bytes are what the decoder accepts and [compact] leaves alone. *)
Lemma marshal_facts rounds body : Forall round_wf rounds -> marshalProbeResults rounds = Ok body ->
  rounds <> [] /\ batch_valid body = true /\ exists v, encodes body v 5.
Proof.
  intros Hwf Hm. assert (rounds <> []) as Hne by (by destruct rounds).
  assert (exists version, commonProbeConfigVersion rounds = Ok version /\
    request_text version rounds = Some body) as (version & Hv & Hbody).
  { destruct rounds; [done|]. unfold marshalProbeResults in Hm.
    apply result_bind_Ok in Hm as (version & Hv & Hm). exists version. split; [done|].
    destruct (request_text _ _); [by simplify_eq|done]. }
  assert (in_i64 version) as Hr.
  { destruct (common_version _ _ Hv) as [[_ ->]|[_ Hall]]; [done|].
    destruct rounds as [|r l]; [done|]. inversion Hall; subst. by inversion Hwf as [|? ? []]. }
  destruct (request_enc version rounds body Hr Hwf Hbody) as (v & Henc & Hok & Hlen).
  split; [done|]. split; [|by exists v].
  unfold batch_valid. rewrite (encodes_parse_json _ _ _ Henc), Hok, Hlen by (unfold maxNestingDepth; lia).
  by destruct rounds.
Qed.

(** ** Lemmas: envelopes *)
Lemma safe_quote s : str_forall json_safe s = true -> quote_fuel (String.length s) s = s.
Proof.
  induction s as [|c s IH]; [done|]. simpl. intros [Hc Hs]%andb_true_iff.
  rewrite Hc. apply json_safe_plain in Hc as [_ Hlt]. destruct (Z.ltb_spec (byte_val c) 128); [|lia].
  rewrite app_cons_str, app_nil_l_str. by rewrite IH.
Qed.

Lemma safe_unquote s : str_forall json_safe s = true -> unquote s = s.
Proof.
  unfold unquote. induction s as [|c s IH]; [done|]. simpl. intros [Hc Hs]%andb_true_iff.
  apply json_safe_plain in Hc as [(_ & _ & Hb & _) Hlt].
  destruct (Z.eqb_spec (byte_val c) 92); [done|]. unfold utf8_size. cbv zeta.
  destruct (Z.ltb_spec (byte_val c) 128); [|lia]. simpl. rewrite app_cons_str, app_nil_l_str.
  by rewrite IH.
Qed.

Lemma hex_safe s : str_forall json_safe (hex_encode s) = true.
Proof.
  assert (forall d, 0 <= d < 16 -> json_safe (hex_chr d) = true) as Hd.
  { intros d Hd. assert (In d (map Z.of_nat (seq 0 16))) as Hin.
    { apply in_map_iff. exists (Z.to_nat d). rewrite in_seq. lia. }
    simpl in Hin. repeat destruct Hin as [<-|Hin]; [reflexivity..|done]. }
  induction s as [|c s IH]; [done|]. simpl. pose proof (byte_val_range c). rewrite IH.
  rewrite !Hd; [done| |].
  - apply Z.mod_pos_bound. lia.
  - split; [apply Z.div_pos; lia|apply Z.div_lt_upper_bound; lia].
Qed.

Lemma decode_int64_Itoa old z : in_i64 z -> decode_int64 old (JNum (Itoa z)) = Some z.
Proof. intros H. simpl. by rewrite ParseInt_Itoa. Qed.

Lemma decode_uint32_Itoa old z : 0 <= z < two32 -> decode_uint32 old (JNum (Itoa z)) = Some z.
Proof.
  intros Hz. unfold decode_uint32, Itoa, ParseUint. destruct (Z.ltb_spec z 0); [lia|].
  destruct (utoa_spec z ltac:(lia)) as (-> & -> & _).
  assert (two32 < two64) by (by vm_compute).
  destruct (Z.ltb_spec z two64); [|lia]. by destruct (Z.ltb_spec z two32); [|lia].
Qed.

(** The fields of an envelope the agent writes. *)
Record envelope_wf (e : probeSpoolEnvelope) : Prop := {
  wf_version : SchemaVersion e = probeSpoolSchemaVersion;
  wf_created : 0 < Created e <= maxInt64;
  wf_attempt : 0 <= Attempt e < two32;
  wf_next : 0 < NextAt e <= maxInt64;
  wf_checksum : Checksum e = probeSpoolChecksum (Batch e);
  wf_batch : batch_valid (Batch e) = true;
  wf_text : exists v, encodes (Batch e) v 5
}.

Lemma envelope_decodes e : envelope_wf e -> decode_envelope (envelope_text e) = Some e.
Proof.
  intros [Hver Hcr Hat Hnx Hck _ [v Hv]]. destruct e as [ver cr at_ na ck ba]. simpl in *.
  assert (minInt64 < 0 /\ 1 <= maxInt64) as [? ?] by (by vm_compute).
  assert (in_i64 ver) by (rewrite Hver; unfold in_i64, probeSpoolSchemaVersion; lia).
  assert (in_i64 cr /\ in_i64 na) as [? ?] by (unfold in_i64; lia).
  set (ms := [("schema_version", (Itoa ver, JNum (Itoa ver))); ("created", (Itoa cr, JNum (Itoa cr)));
     ("attempt", (Itoa at_, JNum (Itoa at_))); ("next_at", (Itoa na, JNum (Itoa na)));
     ("checksum", (json_string ck, JStr ck)); ("batch", (ba, v))]).
  assert (encodes (envelope_text (mkEnvelope ver cr at_ na ck ba)) (JObj ms) 6) as Henc.
  { unfold envelope_text. simpl. rewrite (encodes_compact _ _ _ Hv). apply (encodes_object ms 5).
    assert (member_ok 5 ("checksum", (json_string ck, JStr ck))) as Hm.
    { split; [by apply chunk_safe|]. cbn [fst snd].
      rewrite <- (safe_quote ck) at 2 by (rewrite Hck; apply hex_safe). apply encodes_string. }
    unfold ms. rewrite !Forall_cons, Forall_nil.
    repeat match goal with |- _ /\ _ => split end; try exact Hm; try exact I;
      (split; [by apply chunk_safe|]); first [apply encodes_int|exact Hv]. }
  unfold decode_envelope. rewrite (encodes_parse_json _ _ _ Henc) by (unfold maxNestingDepth; lia).
  unfold ms, empty_envelope.
  repeat (cbn [decode_members decode_member];
    repeat match goal with
    | |- context [field_is ?n ?k] =>
        let b := eval vm_compute in (field_is n k) in change (field_is n k) with b; cbv iota
    end;
    rewrite ?decode_int64_Itoa, ?decode_uint32_Itoa by done; cbn [mbind option_bind]).
  cbn [decode_string]. rewrite safe_unquote by (rewrite Hck; apply hex_safe). done.
Qed.

(** Reading back an envelope the agent wrote. *)
Lemma envelope_roundtrip e : envelope_wf e -> parse_envelope (envelope_text e) = Some e.
Proof.
  intros H. unfold parse_envelope. rewrite envelope_decodes by done. cbn [mbind option_bind].
  destruct H as [Hver Hcr Hat Hnx Hck Hb _].
  assert (bool_decide (Batch e = "") = false) as Hne.
  { apply bool_decide_eq_false. intros E. by rewrite E in Hb. }
  assert (envelope_valid e = true) as ->; [|done].
  unfold envelope_valid, EqualFold. rewrite Hver, Hck, Hb, Hne, (bool_decide_true (_ = _)) by done.
  rewrite (proj2 (Z.ltb_lt 0 (Created e))), (proj2 (Z.ltb_lt 0 (NextAt e))) by lia. done.
Qed.
