(* ===== verification/JsonDecode.v ===== *)
(** * Decoding JSON into structs

    What [json.Unmarshal] does with a target struct: members are matched under
    case folding, unknown ones ignored, [null] leaves a field as it is, a value
    of another type makes the call fail.  A slice is filled from its first
    element on; the elements already in its backing array are decoded into. *)

From S2P Require Export ProbeCodec.

Definition decode_bool (old : bool) (v : json) : option bool :=
  match v with JNull => Some old | JBool b => Some b | _ => None end.

(** A pointer to an integer. *)
Definition decode_int_ptr (old : option Z) (v : json) : option (option Z) :=
  match v with
  | JNull => Some None
  | JNum lit => match ParseInt lit with Ok z => Some (Some z) | Err _ => None end
  | _ => None
  end.

Section Struct.
Context {A : Type} (member : A -> string -> json -> option A).

Fixpoint decode_fields (a : A) (ms : list (string * (string * json))) : option A :=
  match ms with
  | [] => Some a
  | (key, (_, v)) :: ms => a ← member a key v; decode_fields a ms
  end.

Definition decode_struct (a : A) (v : json) : option A :=
  match v with JNull => Some a | JObj ms => decode_fields a ms | _ => None end.

(** [json.Unmarshal(body, &a)] *)
Definition Unmarshal (a : A) (body : string) : option A := v ← parse_json body; decode_struct a v.
End Struct.

(** A slice: the elements of its backing array and its length. *)
Record slice (A : Type) : Type := mkSlice { backing : list A; used : nat }.
Arguments mkSlice {A} backing used.
Arguments backing {A} _.
Arguments used {A} _.
Definition nil_slice {A} : slice A := mkSlice [] 0.
Definition slice_elems {A} (s : slice A) : list A := take (used s) (backing s).

Section Slice.
Context {A : Type} (elem : A -> json -> option A) (zero : A).

Fixpoint decode_elems (old : list A) (vs : list json) : option (list A) :=
  match vs with
  | [] => Some []
  | v :: vs =>
      a ← elem (hd zero old) v;
      rest ← decode_elems (tl old) vs;
      Some (a :: rest)
  end.

Definition decode_slice (s : slice A) (v : json) : option (slice A) :=
  match v with
  | JNull => Some nil_slice
  | JArr [] => Some nil_slice
  | JArr vs =>
      l ← decode_elems (backing s) vs;
      Some (mkSlice (l ++ drop (length l) (backing s)) (length l))
  | _ => None
  end.
End Slice.

(** ** Lemmas *)
Lemma decode_elems_length {A} (elem : A -> json -> option A) zero vs : forall old l,
  decode_elems elem zero old vs = Some l -> length l = length vs.
Proof.
  induction vs as [|v vs IH]; intros old l; cbn [decode_elems]; [by intros [= <-]|].
  intros (a & _ & (rest & Hr & [= <-])%bind_Some)%bind_Some. cbn. by rewrite (IH _ _ Hr).
Qed.

Lemma decode_slice_fresh {A} (elem : A -> json -> option A) zero vs l :
  decode_elems elem zero [] vs = Some l ->
  slice_elems <$> decode_slice elem zero nil_slice (JArr vs) = Some l.
Proof.
  intros H. destruct vs as [|v vs]; [cbn in H |- *; by injection H as <-|].
  unfold decode_slice. cbn [backing nil_slice]. rewrite H. cbn [mbind option_bind fmap option_fmap option_map].
  unfold slice_elems. cbn [backing used]. by rewrite take_app_length.
Qed.

(** Decoding into a fresh slice decodes every element on its own. *)
Lemma decode_elems_fresh {A} (elem : A -> json -> option A) zero vs :
  decode_elems elem zero [] vs = mapM (elem zero) vs.
Proof.
  induction vs as [|v vs IH]; [done|]. cbn [decode_elems hd tl mapM]. destruct (elem zero v) as [a|]; [|done].
  cbn [mbind option_bind]. rewrite IH. by destruct (mapM (elem zero) vs).
Qed.

(** ** Strings survive quoting and unquoting *)
Definition ascii_byte (c : ascii) : bool := byte_val c <? 128.

(** The text one byte is quoted as is unquoted in one step. *)
Definition quoted_byte (c : ascii) : string := if json_safe c then String c "" else escape_byte c.

Lemma unquote_step c n rest : ascii_byte c = true ->
  unquote_fuel (S n) (quoted_byte c +:+ rest) = String c (unquote_fuel n rest).
Proof.
  destruct c as [[] [] [] [] [] [] [] []]; intros H; try (by vm_compute in H); reflexivity.
Qed.

(** [utf8.ValidString]: a sequence of UTF-8 encodings. *)
Fixpoint valid_utf8_fuel (n : nat) (s : string) : bool :=
  match s with
  | EmptyString => true
  | _ =>
      match n, utf8_size s with
      | S n, Some k => valid_utf8_fuel n (str_drop k s)
      | _, _ => false
      end
  end.
Definition valid_utf8 (s : string) : bool := valid_utf8_fuel (String.length s) s.

(** An encoding is recognised wherever it stands, and has the length it names. *)
Lemma utf8_size_take s k t : utf8_size s = Some k ->
  str_take k s +:+ str_drop k s = s /\ utf8_size (str_take k s +:+ t) = Some k /\
  str_take k (str_take k s +:+ t) = str_take k s /\ str_drop k (str_take k s +:+ t) = t /\
  (1 <= k <= 4)%nat /\ String.length (str_take k s) = k.
Proof.
  intros H. pose proof H as H0. unfold utf8_size in H. cbv zeta in H. destruct s as [|a r]; [done|].
  assert (forall k', k = k' -> (1 <= k' <= 4)%nat -> str_take k' (String a r) +:+ str_drop k' (String a r) = String a r ->
    (forall t, utf8_size (str_take k' (String a r) +:+ t) = Some k') ->
    str_take k' (str_take k' (String a r) +:+ t) = str_take k' (String a r) ->
    str_drop k' (str_take k' (String a r) +:+ t) = t -> String.length (str_take k' (String a r)) = k' ->
    str_take k (String a r) +:+ str_drop k (String a r) = String a r /\ utf8_size (str_take k (String a r) +:+ t) = Some k /\
    str_take k (str_take k (String a r) +:+ t) = str_take k (String a r) /\
    str_drop k (str_take k (String a r) +:+ t) = t /\
    (1 <= k <= 4)%nat /\ String.length (str_take k (String a r)) = k) as Hdone by (intros k' ->; intros; repeat (split; [done || auto|]); done).
  destruct (byte_val a <? 128) eqn:E1.
  { injection H as <-. apply (Hdone 1%nat); try done; try lia. intros t'.
    change (utf8_size (String a t') = Some 1%nat). unfold utf8_size.
    cbv beta iota zeta. by rewrite E1. }
  destruct ((194 <=? byte_val a) && (byte_val a <=? 223)) eqn:E2.
  { destruct r as [|b r]; [done|]. destruct ((128 <=? byte_val b) && (byte_val b <=? 191)) eqn:E5; [|done].
    injection H as <-. apply (Hdone 2%nat); try done; try lia. intros t'.
    change (utf8_size (String a (String b t')) = Some 2%nat). unfold utf8_size.
    cbv beta iota zeta. by rewrite E1, E2, E5. }
  destruct ((224 <=? byte_val a) && (byte_val a <=? 239)) eqn:E3.
  { destruct r as [|b [|c r]]; try done. destruct (_ && (_ && _)) eqn:E5 in H; [|done].
    injection H as <-. apply (Hdone 3%nat); try done; try lia. intros t'.
    change (utf8_size (String a (String b (String c t'))) = Some 3%nat). unfold utf8_size.
    cbv beta iota zeta. by rewrite E1, E2, E3, E5. }
  destruct ((240 <=? byte_val a) && (byte_val a <=? 244)) eqn:E4; [|done].
  destruct r as [|b [|c [|e r]]]; try done. destruct (_ && (_ && _) && (_ && _)) eqn:E5 in H; [|done].
  injection H as <-. by apply (Hdone 4%nat); try lia.
Qed.

Lemma line_sep_size s e k : line_sep s = Some e -> utf8_size s = Some k ->
  k = 3%nat /\ String.length e = 6%nat /\ forall n t, unquote_fuel (S n) (e +:+ t) = str_take 3 s +:+ unquote_fuel n t.
Proof.
  unfold line_sep. intros H Hk.
  destruct (strip_prefix (bytes [226; 128; 168]) s) as [r|] eqn:E1.
  - apply strip_prefix_Some in E1 as ->. injection H as <-. cbn in Hk. injection Hk as <-. split; [done|]. split; [done|]. by intros n t.
  - destruct (strip_prefix (bytes [226; 128; 169]) s) as [r|] eqn:E2; [|done].
    apply strip_prefix_Some in E2 as ->. injection H as <-. cbn in Hk. injection Hk as <-. split; [done|]. split; [done|]. by intros n t.
Qed.

Lemma quoted_byte_length c : (1 <= String.length (quoted_byte c))%nat.
Proof. destruct c as [[] [] [] [] [] [] [] []]; vm_compute; lia. Qed.

(** One rune: quoted to at least as many bytes, and unquoted in one step. *)
Lemma unquote_quote_fuel m : forall s q, valid_utf8_fuel m s = true -> (String.length s <= q)%nat ->
  (String.length s <= String.length (quote_fuel q s))%nat /\
  forall n, (String.length s <= n)%nat -> unquote_fuel n (quote_fuel q s) = s.
Proof.
  induction m as [|m IH]; intros [|c r] q Hv Hq; try done.
  1-2: split; [simpl; lia|]; intros n _; by destruct q, n.
  destruct q as [|q]; [simpl in Hq; lia|]. cbn [valid_utf8_fuel] in Hv.
  destruct (utf8_size (String c r)) as [k|] eqn:Hk; [|done].
  pose proof (fun t => utf8_size_take _ k t Hk) as Ht. destruct (Ht "") as (Hcat & _ & _ & _ & Hk4 & Hlen).
  assert (String.length (String c r) = k + String.length (str_drop k (String c r)))%nat as Hl
    by (rewrite <- Hcat at 1; by rewrite length_app_str, Hlen).
  destruct (IH (str_drop k (String c r)) q Hv ltac:(lia)) as [IHl IHn]. cbn [quote_fuel]. rewrite Hk.
  destruct (byte_val c <? 128) eqn:Ec.
  - assert (k = 1%nat) as -> by (cbn in Hk; rewrite Ec in Hk; by injection Hk). cbn [str_drop] in *.
    fold (quoted_byte c). rewrite length_app_str. pose proof (quoted_byte_length c). split; [lia|].
    intros [|n] Hn; [simpl in Hn; lia|]. rewrite unquote_step by done. rewrite IHn by (simpl in Hn; lia). done.
  - destruct (line_sep (String c r)) as [e|] eqn:El; rewrite length_app_str.
    + destruct (line_sep_size _ _ _ El Hk) as (-> & Hel & Hun). split; [lia|].
      intros [|n] Hn; [simpl in Hn; lia|]. rewrite Hun, IHn by lia. exact Hcat.
    + split; [lia|]. intros [|n] Hn; [simpl in Hn; lia|].
      destruct (Ht (quote_fuel q (str_drop k (String c r)))) as (_ & Hs & Htk & Hd & _).
      assert (exists x, str_take k (String c r) = String c x) as [x Ex] by (destruct k; [lia|by eexists]).
      assert (forall text, utf8_size text = Some k -> (exists y, text = String c y) ->
        unquote_fuel (S n) text = str_take k text +:+ unquote_fuel n (str_drop k text)) as Hstep.
      { intros text Hsz [y ->]. cbn [unquote_fuel]. destruct (Z.eqb_spec (byte_val c) 92) as [E92|]; [|by rewrite Hsz].
        rewrite E92 in Ec. done. }
      rewrite Hstep; [|done|rewrite Ex; by eexists]. rewrite Htk, Hd, IHn by lia. exact Hcat.
Qed.

(** Every valid text survives quoting and unquoting. *)
Lemma unquote_quote s : valid_utf8 s = true -> unquote (quote_fuel (String.length s) s) = s.
Proof. intros Hs. destruct (unquote_quote_fuel _ s (String.length s) Hs (le_n _)) as [Hl H]. by apply H. Qed.

Lemma decode_quoted old s : valid_utf8 s = true ->
  decode_string old (JStr (quote_fuel (String.length s) s)) = Some s.
Proof. intros Hs. cbn [decode_string]. by rewrite unquote_quote. Qed.

Lemma decode_Itoa old z : in_i64 z -> decode_int64 old (JNum (Itoa z)) = Some z.
Proof. intros Hz. cbn [decode_int64]. by rewrite ParseInt_Itoa. Qed.

(** Members with plain keys. *)
Lemma member_string key s k : str_forall json_safe key = true ->
  member_ok k (key, (json_string s, JStr (quote_fuel (String.length s) s))).
Proof. intros Hk. split; [by apply chunk_safe|apply encodes_string]. Qed.
Lemma member_int key z k : str_forall json_safe key = true -> member_ok k (key, (Itoa z, JNum (Itoa z))).
Proof. intros Hk. split; [by apply chunk_safe|apply encodes_int]. Qed.
