(* ===== verification/StateSample.v ===== *)
(** * Reports and their identifiers (types.go lines 5 to 60, state_sample_id.go)

    The heartbeat, host and state records with their JSON, and the identifiers
    that make a state report idempotent. *)

From S2P Require Export ProbeCodec.

(** ** Records *)
Record HeartbeatRequest : Type := mkHeartbeat { hb_TS : Z; hb_Status : string; hb_AgentVersion : string }.

Record HostInfo : Type := mkHost {
  Hostname : string; OSName : string; OSVersion : string; Kernel : string; Arch : string;
  Virtualization : string; CPUModel : string; CPUCores : Z; HostMemoryTotalBytes : Z;
  HostDiskTotalBytes : Z; BootTime : Z; AgentVersion : string;
  PublicIPv4 : string; PublicIPv6 : string; CountryCode : string
}.

(** What the host measures; the two identifiers are kept apart from it. *)
Record Measurement : Type := mkMeasurement {
  TS_ : Z; CPUPercent : spec_float; Load1 : spec_float; Load5 : spec_float; Load15 : spec_float;
  MemoryUsedBytes : Z; MemoryTotalBytes : Z; SwapUsedBytes : Z; SwapTotalBytes : Z;
  DiskUsedBytes : Z; DiskTotalBytes : Z; NetInTotalBytes : Z; NetOutTotalBytes : Z;
  NetInSpeedBps : spec_float; NetOutSpeedBps : spec_float;
  NetTotalsValid : option bool; NetCounterSource : string; ProcessCount : Z;
  TCPConnectionCount : Z; UDPConnectionCount : Z; ConnectionCountsValid : option bool;
  UptimeSeconds : Z
}.

Record StateSample : Type := mkState { SampleID : string; IdempotencyKey : string; Measured : Measurement }.

(** ** JSON *)
Definition heartbeat_text (h : HeartbeatRequest) : string :=
  json_object [json_member "ts" (Itoa (hb_TS h)); json_member "status" (json_string (hb_Status h));
    json_member "agent_version" (json_string (hb_AgentVersion h))].

Definition host_text (h : HostInfo) : string :=
  json_object (
    [json_member "hostname" (json_string (Hostname h)); json_member "os_name" (json_string (OSName h));
     json_member "os_version" (json_string (OSVersion h)); json_member "kernel" (json_string (Kernel h));
     json_member "arch" (json_string (Arch h)); json_member "virtualization" (json_string (Virtualization h));
     json_member "cpu_model" (json_string (CPUModel h)); json_member "cpu_cores" (Itoa (CPUCores h));
     json_member "memory_total_bytes" (Itoa (HostMemoryTotalBytes h));
     json_member "disk_total_bytes" (Itoa (HostDiskTotalBytes h)); json_member "boot_time" (Itoa (BootTime h));
     json_member "agent_version" (json_string (AgentVersion h))] ++
    string_member_omitempty "public_ipv4" (PublicIPv4 h) ++
    string_member_omitempty "public_ipv6" (PublicIPv6 h) ++
    string_member_omitempty "country_code" (CountryCode h)).

Definition bool_member_omitempty (key : string) (value : option bool) : list string :=
  match value with None => [] | Some b => [json_member key (json_bool b)] end.

(** [None]: a number JSON does not have. *)
Definition state_text (s : StateSample) : option string :=
  let m := Measured s in
  cpu ← float_text (CPUPercent m);
  l1 ← float_text (Load1 m); l5 ← float_text (Load5 m); l15 ← float_text (Load15 m);
  inbps ← float_text (NetInSpeedBps m); outbps ← float_text (NetOutSpeedBps m);
  Some (json_object (
    string_member_omitempty "sample_id" (SampleID s) ++
    string_member_omitempty "idempotency_key" (IdempotencyKey s) ++
    [json_member "ts" (Itoa (TS_ m)); json_member "cpu_percent" cpu;
     json_member "load1" l1; json_member "load5" l5; json_member "load15" l15;
     json_member "memory_used_bytes" (Itoa (MemoryUsedBytes m));
     json_member "memory_total_bytes" (Itoa (MemoryTotalBytes m));
     json_member "swap_used_bytes" (Itoa (SwapUsedBytes m)); json_member "swap_total_bytes" (Itoa (SwapTotalBytes m));
     json_member "disk_used_bytes" (Itoa (DiskUsedBytes m)); json_member "disk_total_bytes" (Itoa (DiskTotalBytes m));
     json_member "net_in_total_bytes" (Itoa (NetInTotalBytes m));
     json_member "net_out_total_bytes" (Itoa (NetOutTotalBytes m));
     json_member "net_in_speed_bps" inbps; json_member "net_out_speed_bps" outbps] ++
    bool_member_omitempty "net_totals_valid" (NetTotalsValid m) ++
    string_member_omitempty "net_counter_source" (NetCounterSource m) ++
    [json_member "process_count" (Itoa (ProcessCount m));
     json_member "tcp_connection_count" (Itoa (TCPConnectionCount m));
     json_member "udp_connection_count" (Itoa (UDPConnectionCount m))] ++
    bool_member_omitempty "connection_counts_valid" (ConnectionCountsValid m) ++
    [json_member "uptime_seconds" (Itoa (UptimeSeconds m))])).

(** ** Identifiers *)
Definition state_id_of (digest : string) : string :=
  "state-" +:+ hex_encode (Stdlib.Strings.String.substring 0 16 digest).

(** [newStateSampleID]; the counter is the package's [stateSampleIDSequence]. *)
Definition newStateSampleID (ts : Z) (random : option string) (sequence : Z) : string * Z :=
  match random with
  | Some randomBytes => ("state-" +:+ hex_encode randomBytes, sequence)
  | None =>
      let sequence := u64 (sequence + 1) in
      (state_id_of (Sum256 (Itoa (UnixNano ts) +:+ ":" +:+ utoa sequence)), sequence)
  end.

Definition with_identifiers (id : string) (s : StateSample) : StateSample := mkState id id (Measured s).

Definition withNewStateSampleIdentifiers (s : StateSample) (ts : Z) (random : option string) (sequence : Z)
  : StateSample * Z :=
  let '(id, sequence) := newStateSampleID ts random sequence in (with_identifiers id s, sequence).

Section Identifiers.
(** [fmt.Sprintf("%+v", sample)], used when the sample has no JSON. *)
Context (plus_v : StateSample -> string).

Definition deterministicStateSampleID (s : StateSample) : string :=
  let copy := mkState "" "" (Measured s) in
  state_id_of (Sum256 (match state_text copy with Some payload => payload | None => plus_v copy end)).

Definition ensureStateSampleIdentifiers (s : StateSample) : StateSample :=
  let id := TrimSpace (SampleID s) in
  let id := if bool_decide (id = "") then TrimSpace (IdempotencyKey s) else id in
  let id := if bool_decide (id = "") then deterministicStateSampleID s else id in
  with_identifiers id s.
End Identifiers.

(** ** Trimming twice is trimming once *)
Lemma strip_any_app ps s r : strip_any ps s = Some r -> exists p, p ∈ ps /\ s = p +:+ r.
Proof.
  induction ps as [|p ps IH]; cbn [strip_any]; [done|].
  destruct (strip_prefix p s) as [r'|] eqn:E.
  - intros [= <-]. exists p. split; [by constructor|]. by apply strip_prefix_Some.
  - intros (q & Hq & ->)%IH. exists q. split; [by constructor|done].
Qed.

Lemma strip_any_None ps s : strip_any ps s = None <-> forall p r, p ∈ ps -> s <> p +:+ r.
Proof.
  induction ps as [|p ps IH]; cbn [strip_any].
  - split; [|done]. intros _ p r Hp. by apply elem_of_nil in Hp.
  - destruct (strip_prefix p s) as [r|] eqn:E.
    + apply strip_prefix_Some in E. split; [done|]. intros H. exfalso. eapply (H p r); [by constructor|done].
    + rewrite IH. split.
      * intros H q r Hq. apply elem_of_cons in Hq as [->|Hq]; [|by apply H].
        intros He. assert (strip_prefix p s = Some r) by by apply strip_prefix_Some. congruence.
      * intros H q r Hq. apply H. by constructor.
Qed.

Lemma trim_runes_suffix ps n : forall s, exists p, s = p +:+ trim_left_runes ps n s.
Proof.
  induction n as [|n IH]; intros s; cbn [trim_left_runes]; [by exists ""|].
  destruct (strip_any ps s) as [r|] eqn:E; [|by exists ""].
  apply strip_any_app in E as (p & _ & ->). destruct (IH r) as [q Hq]. exists (p +:+ q).
  rewrite app_assoc_str. by f_equal.
Qed.

(** With the length as fuel nothing trimmable is left, since no rune is empty. *)
Lemma trim_runes_done ps : "" ∉ ps -> forall n s, (String.length s <= n)%nat ->
  strip_any ps (trim_left_runes ps n s) = None.
Proof.
  intros Hne. assert (strip_any ps "" = None) as Hnil.
  { apply strip_any_None. intros p r Hp He. destruct p; [done|discriminate]. }
  induction n as [|n IH]; intros s Hn; cbn [trim_left_runes]; [by destruct s; [|cbn in Hn; lia]|].
  destruct (strip_any ps s) as [r|] eqn:E; [|done].
  apply strip_any_app in E as (p & Hp & ->). apply IH. rewrite length_app_str in Hn.
  destruct p; [done|]. cbn in Hn. lia.
Qed.

Lemma trim_runes_stop ps n s : strip_any ps s = None -> trim_left_runes ps n s = s.
Proof. intros H. destruct n; cbn [trim_left_runes]; [done|]. by rewrite H. Qed.

Lemma space_runes_nonempty : "" ∉ space_runes /\ "" ∉ map str_rev space_runes.
Proof. split; refine (bool_decide_unpack _ _); by vm_compute. Qed.

Lemma TrimLeftSpace_stop s : strip_any space_runes (TrimLeftSpace s) = None.
Proof. by apply trim_runes_done; [apply space_runes_nonempty|]. Qed.

Lemma length_str_rev s : String.length (str_rev s) = String.length s.
Proof.
  induction s as [|c s IH]; [done|]. change (String c s) with (String c "" +:+ s).
  rewrite str_rev_app, !length_app_str, IH. cbn. lia.
Qed.

Lemma TrimSpace_idem s : TrimSpace (TrimSpace s) = TrimSpace s.
Proof.
  unfold TrimSpace at 1 3. set (l := TrimLeftSpace s). pose proof (TrimLeftSpace_stop s) as Hl. fold l in Hl.
  unfold TrimSpace. fold l. set (t := TrimRightSpace l).
  assert (exists q, l = t +:+ q) as [q Hq].
  { unfold t, TrimRightSpace.
    destruct (trim_runes_suffix (map str_rev space_runes) (String.length l) (str_rev l)) as [p Hp].
    exists (str_rev p). rewrite <- str_rev_app, <- Hp. by rewrite str_rev_involutive. }
  assert (strip_any space_runes t = None) as Ht.
  { apply strip_any_None. intros p r Hp He. rewrite strip_any_None in Hl. apply (Hl p (r +:+ q) Hp).
    rewrite Hq, He. by rewrite app_assoc_str. }
  unfold TrimLeftSpace. rewrite (trim_runes_stop _ _ _ Ht).
  unfold t at 1. unfold TrimRightSpace at 1. f_equal.
  assert (strip_any (map str_rev space_runes) (str_rev t) = None) as Hr.
  { unfold t, TrimRightSpace. rewrite str_rev_involutive. apply trim_runes_done; [apply space_runes_nonempty|].
    by rewrite length_str_rev. }
  fold t. rewrite (trim_runes_stop _ _ _ Hr). unfold t, TrimRightSpace. by rewrite str_rev_involutive.
Qed.

(** Visible ASCII text has nothing to trim. *)
Definition visible (c : ascii) : bool := (33 <=? byte_val c) && (byte_val c <=? 126).

Lemma strip_visible ps s : forallb (fun p => match p with String c _ => negb (visible c) | EmptyString => false end) ps = true ->
  str_forall visible s = true -> strip_any ps s = None.
Proof.
  intros Hps Hs. apply strip_any_None. intros p r Hp ->. rewrite forallb_forall in Hps.
  specialize (Hps p (proj1 (list_elem_of_In ps p) Hp)). destruct p as [|c p]; [done|].
  rewrite app_cons_str in Hs. cbn [str_forall] in Hs. by destruct (visible c).
Qed.

Lemma visible_rev s : str_forall visible s = true -> str_forall visible (str_rev s) = true.
Proof.
  induction s as [|c s IH]; [done|]. cbn [str_forall]. rewrite andb_true_iff. intros [Hc Hs].
  change (String c s) with (String c "" +:+ s). rewrite str_rev_app, str_forall_app, IH by done.
  change (str_rev (String c "")) with (String c ""). cbn [str_forall]. by rewrite Hc.
Qed.

Lemma TrimSpace_visible s : str_forall visible s = true -> TrimSpace s = s.
Proof.
  intros Hs. unfold TrimSpace, TrimLeftSpace.
  rewrite trim_runes_stop by by apply strip_visible; [vm_compute|]. unfold TrimRightSpace.
  rewrite trim_runes_stop by (apply strip_visible; [by vm_compute|by apply visible_rev]).
  apply str_rev_involutive.
Qed.

Lemma hex_chr_visible d : 0 <= d < 16 -> visible (hex_chr d) = true.
Proof.
  intros Hd. unfold visible, hex_chr. destruct (Z.ltb_spec d 10); rewrite byte_val_chr by lia; zcase; lia || done.
Qed.

Lemma hex_encode_visible s : str_forall visible (hex_encode s) = true.
Proof.
  induction s as [|c s IH]; [done|]. cbn [hex_encode str_forall]. pose proof (byte_val_range c) as Hc.
  rewrite IH, !hex_chr_visible; [done| |].
  - apply Z.mod_pos_bound. lia.
  - split; [apply Z.div_pos; lia|apply Z.div_lt_upper_bound; lia].
Qed.

Lemma state_id_visible t : str_forall visible ("state-" +:+ hex_encode t) = true.
Proof. rewrite str_forall_app, hex_encode_visible. by vm_compute. Qed.

Lemma state_id_trim t : TrimSpace ("state-" +:+ hex_encode t) = "state-" +:+ hex_encode t.
Proof. apply TrimSpace_visible, state_id_visible. Qed.

Lemma ensure_fixed plus_v id m : TrimSpace id = id -> id <> "" ->
  ensureStateSampleIdentifiers plus_v (mkState id id m) = mkState id id m.
Proof.
  intros Ht Hne. unfold ensureStateSampleIdentifiers, with_identifiers. cbn [SampleID Measured].
  rewrite Ht, !(bool_decide_eq_false_2 (id = "")) by done. done.
Qed.

Lemma ensured_id plus_v s : exists id,
  ensureStateSampleIdentifiers plus_v s = mkState id id (Measured s) /\ TrimSpace id = id /\ id <> "".
Proof.
  unfold ensureStateSampleIdentifiers, with_identifiers. eexists. split; [done|].
  destruct (decide (TrimSpace (SampleID s) = "")) as [H1|H1].
  - rewrite (bool_decide_eq_true_2 (TrimSpace (SampleID s) = "")) by done.
    destruct (decide (TrimSpace (IdempotencyKey s) = "")) as [H2|H2].
    + rewrite (bool_decide_eq_true_2 (TrimSpace (IdempotencyKey s) = "")) by done.
      unfold deterministicStateSampleID, state_id_of. split; [apply state_id_trim|done].
    + rewrite (bool_decide_eq_false_2 (TrimSpace (IdempotencyKey s) = "")) by done. split; [apply TrimSpace_idem|done].
  - rewrite (bool_decide_eq_false_2 (TrimSpace (SampleID s) = "")) by done.
    rewrite (bool_decide_eq_false_2 (TrimSpace (SampleID s) = "")) by done. split; [apply TrimSpace_idem|done].
Qed.

(** A state report keeps its identity when it is sent again: the identifiers
    PostState adds are not empty, equal each other, leave the measurements alone
    and are fixed from then on; a fresh sample keeps the identifiers its
    collector gave it; and samples without identifiers get the same one exactly
    as a function of their measurements. *)
Theorem state_identifiers_stable plus_v s ts random sequence :
  let e := ensureStateSampleIdentifiers plus_v s in
  let fresh := fst (withNewStateSampleIdentifiers s ts random sequence) in
  ensureStateSampleIdentifiers plus_v e = e /\
  SampleID e = IdempotencyKey e /\ SampleID e <> "" /\ Measured e = Measured s /\
  ensureStateSampleIdentifiers plus_v fresh = fresh /\ Measured fresh = Measured s /\
  (forall s', Measured s' = Measured s ->
    ensureStateSampleIdentifiers plus_v (mkState "" "" (Measured s')) =
    ensureStateSampleIdentifiers plus_v (mkState "" "" (Measured s))).
Proof.
  intros e fresh. destruct (ensured_id plus_v s) as (id & He & Ht & Hne). subst e. rewrite He.
  split; [by apply ensure_fixed|]. split; [done|]. split; [done|]. split; [done|].
  assert (exists t, fresh = mkState ("state-" +:+ hex_encode t) ("state-" +:+ hex_encode t) (Measured s)) as [t ->].
  { unfold fresh, withNewStateSampleIdentifiers, newStateSampleID. destruct random as [r|]; by eexists. }
  split; [by apply ensure_fixed; [apply state_id_trim|]|]. split; [done|]. by intros s' ->.
Qed.

Definition demo_measurement : Measurement :=
  mkMeasurement 1700000000 (f64_of_Z 12) f64_zero f64_zero f64_zero 1 2 0 0 3 4 5 6 f64_zero f64_zero
    (Some true) "" 10 2 1 (Some false) 99.

Example state_text_1 : state_text (mkState "x" "" demo_measurement) =
  Some ("{" +:+ json_string "sample_id" +:+ ":" +:+ json_string "x" +:+
    GoStrings.Join (map (fun '(k, v) => "," +:+ json_string k +:+ ":" +:+ v)
      [("ts", "1700000000"); ("cpu_percent", "12"); ("load1", "0"); ("load5", "0"); ("load15", "0");
       ("memory_used_bytes", "1"); ("memory_total_bytes", "2"); ("swap_used_bytes", "0"); ("swap_total_bytes", "0");
       ("disk_used_bytes", "3"); ("disk_total_bytes", "4"); ("net_in_total_bytes", "5"); ("net_out_total_bytes", "6");
       ("net_in_speed_bps", "0"); ("net_out_speed_bps", "0"); ("net_totals_valid", "true"); ("process_count", "10");
       ("tcp_connection_count", "2"); ("udp_connection_count", "1"); ("connection_counts_valid", "false");
       ("uptime_seconds", "99")]) "" +:+ "}").
Proof. vm_compute. reflexivity. Qed.
