(* ===== verification/ProbeSpool.v ===== *)
(** * The probe spool (internal/agent/probe_spool.go)

    A directory of pending batches, one file each, and a bounded directory of
    quarantined ones.  Every exported operation runs under the spool's mutex, so
    it is one function of the world; the clock, the free space and the random
    bytes it reads are arguments. *)

From S2P Require Export FsFacts ProbeCodec.

(** ** Limits and construction *)
Record ProbeSpoolLimits : Type := mkLimits {
  TTL : Z;
  MaxPendingItems : Z;
  MaxPendingBytes : Z;
  MaxItemBytes : Z;
  MinFreeBytes : Z;
  MaxQuarantineItems : Z;
  MaxQuarantineBytes : Z
}.

#[export] Instance ProbeSpoolLimits_eq_dec : EqDecision ProbeSpoolLimits.
Proof. solve_decision. Defined.

Definition DefaultProbeSpoolLimits : ProbeSpoolLimits :=
  mkLimits (72 * Hour) 16384 (Z.shiftl 256 20) (Z.shiftl 1 20) (Z.shiftl 512 20) 128
    (Z.shiftl 16 20).

Record ProbeSpool : Type := mkSpool {
  root : string;
  pendingDir : string;
  quarantineDir : string;
  limits : ProbeSpoolLimits
}.

Record ProbeSpoolItem : Type := mkItem {
  item_ID : string;
  item_Body : string;
  item_Created : Z;
  item_Attempt : Z;
  item_NextAt : Z
}.

Inductive spool_error : Type :=
| DataDirRequired
| DataDirNotAbsolute
| InvalidLimits
| ItemLimitAbovePending
| SpoolOS (e : os_error)
| SpoolCodec (e : codec_error)
| NotRegularFile
| InvalidEnvelope
| ItemTooLarge
| CapacityExceeded (items bytes : Z)
| FreeSpaceUnknown
| FreeSpaceLow
| RandomFailed
| InvalidItemID
| RetryTimeRequired.

Definition validateProbeSpoolLimits (l : ProbeSpoolLimits) : result spool_error () :=
  if (TTL l <=? 0) || (MaxPendingItems l <=? 0) || (MaxPendingBytes l <=? 0) ||
     (MaxItemBytes l <=? 0) || (MaxQuarantineItems l <=? 0) || (MaxQuarantineBytes l <=? 0)
  then Err InvalidLimits
  else if MaxPendingBytes l <? MaxItemBytes l then Err ItemLimitAbovePending
  else Ok ().

(** [filepath.Clean] of an absolute path. *)
Definition clean_abs (p : string) : string :=
  "/" +:+ Join (rev (foldl (fun acc e =>
    if bool_decide (e = "") || bool_decide (e = ".") then acc
    else if bool_decide (e = "..") then tail acc else e :: acc) [] (Split p "/"))) "/".

Definition path_join (dir name : string) : string :=
  if bool_decide (dir = "/") then dir +:+ name else dir +:+ "/" +:+ name.

(** [NewProbeSpool] up to the creation of its directories. *)
Definition NewProbeSpool (dataDir : string) (l : ProbeSpoolLimits) : result spool_error ProbeSpool :=
  if bool_decide (TrimSpace dataDir = "") then Err DataDirRequired
  else if negb (HasPrefix dataDir "/") then Err DataDirNotAbsolute
  else
    let l := if bool_decide (l = mkLimits 0 0 0 0 0 0 0) then DefaultProbeSpoolLimits else l in
    _ ← validateProbeSpoolLimits l;
    let root := path_join (clean_abs dataDir) "probe-spool" in
    Ok (mkSpool root (path_join root "pending") (path_join root "quarantine") l).

Example new_probe_spool :
  NewProbeSpool "/var//lib/./zeno/../zeno-agent/" (mkLimits 0 0 0 0 0 0 0) =
    Ok (mkSpool "/var/lib/zeno-agent/probe-spool" "/var/lib/zeno-agent/probe-spool/pending"
          "/var/lib/zeno-agent/probe-spool/quarantine" DefaultProbeSpoolLimits).
Proof. vm_compute. reflexivity. Qed.

Section Spool.
Context (s : ProbeSpool).

Notation "'os' m" := (lift_error SpoolOS m) (at level 20, m at level 9).

(** ** Identifiers and paths *)

(** [filepath.Base] on Unix. *)
Definition filepath_Base (p : string) : string :=
  if bool_decide (p = "") then "."
  else
    let t := TrimRight p "/" in
    if bool_decide (t = "") then "/" else default "" (last (Split t "/")).

Definition pendingPathLocked (id : string) : result spool_error path :=
  if bool_decide (id = "") || bool_decide (id = ".") || bool_decide (id = "..") ||
     negb (bool_decide (filepath_Base id = id)) || ContainsAny id "/\\" ||
     HasSuffix (ToLower id) ".json"
  then Err InvalidItemID
  else Ok (pendingDir s, id +:+ ".json").

Definition newID (now : Z) (random : string) : string :=
  pad020 (UnixNano now) +:+ "-" +:+ hex_encode random.

Definition newIDLocked (now : Z) (random : option string) : result spool_error string :=
  match random with
  | None => Err RandomFailed
  | Some bytes => Ok (newID now bytes)
  end.

Definition probeSpoolItemFromEnvelope (id : string) (e : probeSpoolEnvelope) : ProbeSpoolItem :=
  mkItem id (Batch e) (Created e) (Attempt e) (NextAt e).

(** ** Reading *)
Definition readEnvelopeLocked (p : path) : M spool_error probeSpoolEnvelope :=
  info ← os (Lstat p);
  match info with
  | NFile _ _ =>
      if MaxItemBytes (limits s) <? node_size info then throw ItemTooLarge
      else
        content ← os (ReadFile p (MaxItemBytes (limits s) + 1));
        if MaxItemBytes (limits s) <? str_len content then throw ItemTooLarge
        else
          match parse_envelope content with
          | Some e => mret e
          | None => throw InvalidEnvelope
          end
  | _ => throw NotRegularFile
  end.

Definition is_dir (n : node) : bool := match n with NDir _ => true | _ => false end.
Definition is_item (entry : string * node) : bool :=
  negb (is_dir entry.2) && HasSuffix entry.1 ".json".

Fixpoint usage_loop (entries : list (string * node)) (count total : Z) : M spool_error (Z * Z) :=
  match entries with
  | [] => mret (count, total)
  | entry :: entries =>
      if is_item entry then
        info ← os (Lstat (pendingDir s, entry.1));
        usage_loop entries (i64 (count + 1)) (i64 (total + node_size info))
      else usage_loop entries count total
  end.

Definition pendingUsageLocked : M spool_error (Z * Z) :=
  entries ← os (ReadDir (pendingDir s));
  usage_loop entries 0 0.

(** ** Quarantine *)
Fixpoint quarantine_sizes (entries : list (string * node)) : M spool_error (list (string * Z)) :=
  match entries with
  | [] => mret []
  | (name, n) :: entries =>
      if is_dir n then quarantine_sizes entries
      else
        info ← os (Lstat (quarantineDir s, name));
        items ← quarantine_sizes entries;
        mret ((name, node_size info) :: items)
  end.

(** Removing the oldest entries until the incoming one fits. *)
Fixpoint prune_loop (incoming : Z) (items : list (string * Z)) (total : Z) : M spool_error () :=
  if (MaxQuarantineItems (limits s) <? Z.of_nat (length items) + 1) ||
     (MaxQuarantineBytes (limits s) <? i64 (total + incoming))
  then
    match items with
    | [] => mret ()
    | (name, size) :: items =>
        r ← attempt (Remove (quarantineDir s, name));
        match r with
        | Err ErrIO => throw (SpoolOS ErrIO)
        | _ => prune_loop incoming items (i64 (total - size))
        end
    end
  else mret ().

Definition pruneQuarantineLocked (incoming : Z) : M spool_error () :=
  entries ← os (ReadDir (quarantineDir s));
  items ← quarantine_sizes entries;
  prune_loop incoming items (foldl (fun t '(_, size) => i64 (t + size)) 0 items);;
  os syncDirectory.

(** [strings.Map] keeping [a-z0-9-]: any other rune becomes a dash. *)
Definition reason_char (c : ascii) : bool :=
  let v := byte_val c in
  (97 <=? v) && (v <=? 122) || (48 <=? v) && (v <=? 57) || (v =? 45).
Fixpoint reason_fuel (n : nat) (r : string) : string :=
  match n, r with
  | S n, String c t =>
      String (if reason_char c then c else "-"%char)
        (reason_fuel n (match utf8_size r with Some k => str_drop k r | None => t end))
  | _, _ => ""
  end.
Definition clean_reason (reason : string) : string :=
  reason_fuel (String.length (ToLower reason)) (ToLower reason).

Definition quarantinePathLocked (p : path) (reason : string) : M spool_error () :=
  info ← attempt (Lstat p);
  match info with
  | Err ErrNotExist => mret ()
  | Err e => throw (SpoolOS e)
  | Ok (NFile _ _ as n) =>
      if MaxQuarantineBytes (limits s) <? node_size n then os (removeFileAndSync p)
      else
        pruneQuarantineLocked (node_size n);;
        let destination := (quarantineDir s, p.2 +:+ "." +:+ clean_reason reason) in
        os (Rename p destination);;
        os (Chmod destination 384);;
        os syncDirectory;;
        os syncDirectory
  | Ok _ => os (RemoveAll p);; os syncDirectory
  end.

(** ** Clean-up and iteration *)
Definition expired (now : Z) (e : probeSpoolEnvelope) : bool :=
  TTL (limits s) <=? time_sub now (Created e).

Definition cleanup_entry (now : Z) (entry : string * node) : M spool_error () :=
  let p := (pendingDir s, entry.1) in
  if is_item entry then
    r ← attempt (readEnvelopeLocked p);
    match r with
    | Err _ => quarantinePathLocked p "invalid"
    | Ok e => if expired now e then os (removeFileAndSync p) else mret ()
    end
  else quarantinePathLocked p "unexpected".

Fixpoint cleanup_loop (now : Z) (entries : list (string * node)) : M spool_error () :=
  match entries with
  | [] => mret ()
  | entry :: entries => cleanup_entry now entry;; cleanup_loop now entries
  end.

Definition cleanupPendingLocked (now : Z) : M spool_error () :=
  entries ← os (ReadDir (pendingDir s));
  cleanup_loop now entries.

(** ** Exported operations *)
Definition enqueue_envelope (now : Z) (body : string) : probeSpoolEnvelope :=
  mkEnvelope probeSpoolSchemaVersion (UnixNano now) 0 (UnixNano now) (probeSpoolChecksum body) body.

Definition Enqueue (rounds : list ProbeRound) (now : Z) (freeBytes : result os_error Z)
  (random : option string) : M spool_error string :=
  match marshalProbeResults rounds with
  | Err e => throw (SpoolCodec e)
  | Ok body =>
      cleanupPendingLocked now;;
      let encoded := envelope_text (enqueue_envelope now body) in
      if MaxItemBytes (limits s) <? str_len encoded then throw ItemTooLarge
      else
        '(count, totalBytes) ← pendingUsageLocked;
        if (MaxPendingItems (limits s) <=? count) ||
           (MaxPendingBytes (limits s) <? i64 (totalBytes + str_len encoded))
        then throw (CapacityExceeded count totalBytes)
        else
          match freeBytes with
          | Err _ => throw FreeSpaceUnknown
          | Ok free =>
              if free <? u64 (MinFreeBytes (limits s) + str_len encoded) then throw FreeSpaceLow
              else
                id ← from_result (newIDLocked now random);
                os (atomicWritePrivateFile (pendingDir s, id +:+ ".json") encoded);;
                signal;;
                mret id
          end
  end.

(** [Next] after the clean-up: the first readable, unexpired, due item. *)
Fixpoint next_loop (now : Z) (entries : list (string * node)) : M spool_error (option ProbeSpoolItem) :=
  match entries with
  | [] => mret None
  | entry :: entries =>
      if is_item entry then
        let p := (pendingDir s, entry.1) in
        r ← attempt (readEnvelopeLocked p);
        match r with
        | Err _ => quarantinePathLocked p "invalid";; next_loop now entries
        | Ok e =>
            if expired now e then os (removeFileAndSync p);; next_loop now entries
            else if now <? NextAt e then next_loop now entries
            else mret (Some (probeSpoolItemFromEnvelope (TrimSuffix entry.1 ".json") e))
        end
      else next_loop now entries
  end.

Definition Next (now : Z) : M spool_error (option ProbeSpoolItem) :=
  cleanupPendingLocked now;;
  entries ← os (ReadDir (pendingDir s));
  next_loop now entries.

Definition Load (id : string) : M spool_error ProbeSpoolItem :=
  p ← from_result (pendingPathLocked id);
  e ← readEnvelopeLocked p;
  mret (probeSpoolItemFromEnvelope id e).

Definition retry_envelope (attempt nextAt : Z) (e : probeSpoolEnvelope) : probeSpoolEnvelope :=
  mkEnvelope (SchemaVersion e) (Created e) attempt (UnixNano nextAt) (Checksum e) (Batch e).

Definition ScheduleRetry (id : string) (attempt nextAt : Z) : M spool_error () :=
  p ← from_result (pendingPathLocked id);
  e ← readEnvelopeLocked p;
  if nextAt =? time_zero then throw RetryTimeRequired
  else
    let encoded := envelope_text (retry_envelope attempt nextAt e) in
    if MaxItemBytes (limits s) <? str_len encoded then throw ItemTooLarge
    else
      os (atomicWritePrivateFile p encoded);;
      signal.

Definition Ack (id : string) : M spool_error () :=
  p ← from_result (pendingPathLocked id);
  os (removeFileAndSync p).

Definition Quarantine (id reason : string) : M spool_error () :=
  p ← from_result (pendingPathLocked id);
  quarantinePathLocked p reason.
End Spool.
