(* ===== verification/ProbeSpoolFacts.v ===== *)
(** * Properties of the probe spool *)

From S2P Require Export ProbeSpool.

(** A spool as [NewProbeSpool] makes it, with limits that fit their types. *)
Record spool_wf (s : ProbeSpool) : Prop := {
  wf_dirs : pendingDir s <> quarantineDir s;
  wf_limits : validateProbeSpoolLimits (limits s) = Ok ();
  wf_items : MaxPendingItems (limits s) <= maxInt64;
  wf_bytes : 2 * MaxPendingBytes (limits s) <= maxInt64;
  wf_qitems : MaxQuarantineItems (limits s) <= maxInt64;
  wf_qbytes : 2 * MaxQuarantineBytes (limits s) <= maxInt64
}.

Section Facts.
Context (s : ProbeSpool) (F : fault -> Prop).

Lemma keeps_readEnvelope (I : store -> Prop) (p : path) : keeps F I (readEnvelopeLocked s p).
Proof.
  unfold readEnvelopeLocked. apply keeps_bind; [auto with fs|]. intros [c perm| | |]; auto with fs.
  case_match; [auto with fs|]. apply keeps_bind; [auto with fs|]. intros content.
  repeat case_match; auto with fs.
Qed.
Hint Resolve keeps_readEnvelope : fs.

Lemma keeps_quarantine_sizes (I : store -> Prop) entries : keeps F I (quarantine_sizes s entries).
Proof.
  induction entries as [|[name n] entries IH]; simpl; [auto with fs|].
  case_match; [done|]. apply keeps_bind; [auto with fs|]. intros info.
  apply keeps_bind; [done|]. auto with fs.
Qed.
Hint Resolve keeps_quarantine_sizes : fs.

Lemma keeps_usage (I : store -> Prop) : keeps F I (pendingUsageLocked s).
Proof.
  unfold pendingUsageLocked. apply keeps_bind; [auto with fs|]. intros entries.
  enough (forall count total, keeps F I (usage_loop s entries count total)) by auto.
  induction entries as [|e entries IH]; intros count total; simpl; [auto with fs|].
  case_match; [|done]. apply keeps_bind; [auto with fs|]. auto.
Qed.

(** ** What the clean-up may touch

    An invariant of the files that survives removing the pending entries of [D],
    moving them into the quarantine, and any change inside the quarantine. *)
Record tolerant_at (D : path -> Prop) (I : store -> Prop) : Prop := {
  tol_remove (fs : store) (p : path) : I fs -> D p \/ p.1 = quarantineDir s -> I (delete p fs);
  tol_quarantine (fs : store) (name : string) (n : node) : I fs -> I (<[(quarantineDir s, name) := n]> fs)
}.

Definition tolerant : (store -> Prop) -> Prop := tolerant_at (fun p => p.1 = pendingDir s).

Lemma keeps_prune D (I : store -> Prop) incoming : tolerant_at D I -> keeps F I (pruneQuarantineLocked s incoming).
Proof.
  intros Ht. unfold pruneQuarantineLocked.
  apply keeps_bind; [auto with fs|]. intros entries.
  apply keeps_bind; [auto with fs|]. intros items.
  apply keeps_bind; [|auto with fs].
  generalize (foldl (fun t '(_, size) => i64 (t + size)) 0 items). 
  induction items as [|[name size] items IH]; intros total; simpl; (case_match; [|auto with fs]);
    [auto with fs|].
  apply keeps_bind.
  - apply keeps_attempt, keeps_Remove. intros fs Hi. apply (tol_remove _ I Ht); auto.
  - intros [a|[]]; auto with fs.
Qed.

Lemma keeps_quarantinePath D (I : store -> Prop) (p : path) reason :
  D p -> tolerant_at D I -> keeps F I (quarantinePathLocked s p reason).
Proof.
  intros Hp Ht. assert (forall fs, I fs -> I (delete p fs)) as Hdel.
  { intros fs Hi. apply (tol_remove D I Ht); auto. }
  unfold quarantinePathLocked. apply keeps_bind; [auto with fs|].
  intros [[c perm|e|t|]|[]]; auto with fs;
    try (apply keeps_bind; [apply keeps_lift_error, keeps_RemoveAll, Hdel|auto with fs]).
  case_match; [apply keeps_lift_error, keeps_removeFileAndSync, Hdel|].
  apply keeps_bind; [by apply (keeps_prune D)|]. intros _.
  apply keeps_bind.
  { apply keeps_lift_error, keeps_Rename. intros fs n Hi _. apply (tol_quarantine _ I Ht), Hdel, Hi. }
  intros _. apply keeps_bind; [|auto with fs].
  apply keeps_lift_error, keeps_Chmod. intros fs c' perm' Hi _. by apply (tol_quarantine _ I Ht).
Qed.

Lemma keeps_cleanup (I : store -> Prop) now : tolerant I -> keeps F I (cleanupPendingLocked s now).
Proof.
  intros Ht. unfold cleanupPendingLocked. apply keeps_bind; [auto with fs|]. intros entries.
  induction entries as [|entry entries IH]; simpl; [auto with fs|].
  apply keeps_bind; [|auto]. unfold cleanup_entry.
  case_match; [|by apply (keeps_quarantinePath (fun p => p.1 = pendingDir s))].
  apply keeps_bind; [auto with fs|]. intros [e|err]; [|by apply (keeps_quarantinePath (fun p => p.1 = pendingDir s))].
  case_match; [|auto with fs]. apply keeps_lift_error, keeps_removeFileAndSync.
  intros fs Hi. apply (tol_remove _ I Ht); auto.
Qed.

Lemma keeps_next (I : store -> Prop) now : tolerant I -> keeps F I (Next s now).
Proof.
  intros Ht. unfold Next. apply keeps_bind; [by apply keeps_cleanup|]. intros _.
  apply keeps_bind; [auto with fs|]. intros entries.
  induction entries as [|entry entries IH]; simpl; [auto with fs|].
  case_match; [|done]. apply keeps_bind; [auto with fs|].
  intros [e|err]; [|apply keeps_bind; [by apply (keeps_quarantinePath (fun p => p.1 = pendingDir s))|done]].
  case_match; [|case_match; auto with fs].
  apply keeps_bind; [|done]. apply keeps_lift_error, keeps_removeFileAndSync.
  intros fs Hi. apply (tol_remove _ I Ht); auto.
Qed.

(** ** The size of the backlog *)
Definition pending_items (fs : store) : list (string * node) :=
  filter (fun e => is_item e = true) (dir_entries fs (pendingDir s)).
Definition entry_size (e : string * node) : Z := node_size e.2.
Definition pending_count (fs : store) : Z := Z.of_nat (length (pending_items fs)).
Definition pending_bytes (fs : store) : Z := Zsum (map entry_size (pending_items fs)).

Lemma entry_size_nonneg e : 0 <= entry_size e.
Proof. unfold entry_size, node_size, str_len. case_match; lia. Qed.

Lemma elem_of_pending_items (fs : store) (e : string * node) :
  e ∈ pending_items fs <-> is_item e = true /\ fs !! (pendingDir s, e.1) = Some e.2.
Proof.
  unfold pending_items. rewrite list_elem_of_filter. destruct e as [name n].
  by rewrite elem_of_dir_entries.
Qed.

Lemma pending_items_submseteq (fs : store) (l : list (string * node)) :
  (forall e, e ∈ pending_items fs -> e ∈ l) -> pending_items fs ⊆+ l.
Proof.
  intros H. apply NoDup_submseteq; [|done].
  apply NoDup_filter, dir_entries_NoDup'.
Qed.

(** ** Capacity *)
Definition within (fs : store) : Prop :=
  pending_count fs <= MaxPendingItems (limits s) /\ pending_bytes fs <= MaxPendingBytes (limits s).

Lemma within_submseteq (fs fs' : store) :
  pending_items fs' ⊆+ pending_items fs -> within fs -> within fs'.
Proof.
  unfold within, pending_count, pending_bytes. intros Hsub [H1 H2].
  pose proof (submseteq_length _ _ Hsub).
  pose proof (Zsum_submseteq entry_size _ _ entry_size_nonneg Hsub). lia.
Qed.

(** Deleting files and adding files that are not pending items. *)
Lemma pending_items_delete (fs : store) (p : path) : pending_items (delete p fs) ⊆+ pending_items fs.
Proof.
  apply pending_items_submseteq. intros e. rewrite !elem_of_pending_items.
  intros [He [Hne Hl]%lookup_delete_Some]. done.
Qed.

Lemma pending_items_other (fs : store) (p : path) (n : node) :
  p.1 <> pendingDir s \/ HasSuffix p.2 ".json" = false ->
  pending_items (<[p := n]> fs) ⊆+ pending_items fs.
Proof.
  intros Hp. apply pending_items_submseteq. intros [name m]. rewrite !elem_of_pending_items. simpl.
  intros [He Hl]. split; [done|]. rewrite lookup_insert_ne in Hl; [done|]. intros ->. simpl in Hp.
  destruct Hp as [|Hp]; [done|]. unfold is_item in He. simpl in He. rewrite Hp, andb_false_r in He.
  done.
Qed.

Lemma temp_not_json (d : string) : HasSuffix (".probe-spool-" +:+ d +:+ ".tmp") ".json" = false.
Proof.
  unfold HasSuffix, strip_suffix. rewrite !str_rev_app.
  change (str_rev ".json") with "nosj.". change (str_rev ".tmp") with "pmt.".
  by rewrite app_assoc_str, !app_cons_str.
Qed.

Lemma json_not_temp (p : path) : HasSuffix p.2 ".json" = true -> ~ temp_of p p.
Proof. intros H [d E]. rewrite E in H. simpl in H. by rewrite temp_not_json in H. Qed.

Lemma pending_items_leftover (p : path) (fs fs' : store) :
  with_leftover p fs fs' -> pending_items fs' ⊆+ pending_items fs.
Proof.
  intros [->|(q & c & perm & [d ->] & _ & ->)]; [done|].
  apply pending_items_other. right. apply temp_not_json.
Qed.

Lemma tolerant_within : pendingDir s <> quarantineDir s -> tolerant within.
Proof.
  intros Hd. split.
  - intros fs p Hi _. eapply within_submseteq; [apply pending_items_delete|done].
  - intros fs name n Hi. eapply within_submseteq; [|done]. apply pending_items_other. by left.
Qed.

Lemma usage_loop_spec (fs : store) (entries : list (string * node)) :
  (forall e, e ∈ entries -> fs !! (pendingDir s, e.1) = Some e.2) ->
  forall count total, 0 <= count -> 0 <= total ->
  count + Z.of_nat (length (filter (fun e => is_item e = true) entries)) <= maxInt64 ->
  total + Zsum (map entry_size (filter (fun e => is_item e = true) entries)) <= maxInt64 ->
  wp F (usage_loop s entries count total)
    (fun o fs' => fs' = fs /\ forall c t, o = Done (c, t) ->
      c = count + Z.of_nat (length (filter (fun e => is_item e = true) entries)) /\
      t = total + Zsum (map entry_size (filter (fun e => is_item e = true) entries))) fs.
Proof.
  induction entries as [|e entries IH]; intros Hin count total Hc Ht Hcb Htb; simpl.
  { apply wp_ret. split; [done|]. intros c t [= <- <-]. split; simpl; lia. }
  assert (minInt64 < 0) by (by vm_compute).
  rewrite filter_cons in *. destruct (is_item e) eqn:He.
  - rewrite decide_True in * by done. simpl in *.
    pose proof (entry_size_nonneg e).
    pose proof (Zsum_nonneg' entry_size (filter (fun e => is_item e = true) entries) entry_size_nonneg).
    apply wp_bind, wp_lift_error, wp_Lstat; [|done|done].
    rewrite (Hin e) by (by constructor).
    eapply wp_conseq.
    + unfold entry_size in *.
      rewrite !i64_id by (unfold in_i64; lia). apply IH; try lia.
      intros e' He'. apply Hin. by constructor.
    + intros o fs' [-> Hr]. split; [done|]. intros c t Ho. destruct (Hr c t Ho) as [-> ->].
      unfold entry_size. lia.
  - rewrite decide_False in * by done. apply IH; try done.
    intros e' He'. apply Hin. by constructor.
Qed.

Lemma usage_spec (fs : store) :
  pending_count fs <= maxInt64 -> pending_bytes fs <= maxInt64 ->
  wp F (pendingUsageLocked s)
    (fun o fs' => fs' = fs /\ forall c t, o = Done (c, t) ->
      c = pending_count fs /\ t = pending_bytes fs) fs.
Proof.
  intros Hc Ht. unfold pendingUsageLocked. apply wp_bind, wp_lift_error, wp_ReadDir; [|done|done].
  apply usage_loop_spec; try done. intros [name n] He. by apply elem_of_dir_entries in He.
Qed.

(** Publishing one item of the accepted size. *)
Lemma within_publish (fs fs' : store) (name : string) (c : string) :
  pending_count fs < MaxPendingItems (limits s) ->
  pending_bytes fs + str_len c <= MaxPendingBytes (limits s) ->
  with_leftover (pendingDir s, name) fs fs' \/
    with_leftover (pendingDir s, name) (replaced (pendingDir s, name) c fs) fs' ->
  within fs'.
Proof.
  intros Hc Hb Hfs'.
  assert (pending_items fs' ⊆+ (name, NFile c 384) :: pending_items fs) as Hsub.
  { destruct Hfs' as [H|H]; apply pending_items_leftover in H.
    - by apply submseteq_cons.
    - etrans; [exact H|]. apply pending_items_submseteq. intros [name' n].
      rewrite elem_of_pending_items. intros [He Hl]. simpl in Hl. unfold replaced in Hl.
      destruct (decide (name' = name)) as [->|Hne].
      + rewrite lookup_insert_eq in Hl. simplify_eq. constructor.
      + rewrite lookup_insert_ne in Hl by congruence. constructor.
        by apply elem_of_pending_items. }
  unfold within, pending_count, pending_bytes in *.
  pose proof (submseteq_length _ _ Hsub) as Hlen.
  pose proof (Zsum_submseteq entry_size _ _ entry_size_nonneg Hsub) as Hsum.
  change (Zsum (map entry_size ((name, NFile c 384) :: pending_items fs)))
    with (str_len c + Zsum (map entry_size (pending_items fs))) in Hsum.
  simpl in Hlen. lia.
Qed.
End Facts.

(** ** Identifiers *)
Definition id_char (c : ascii) : bool :=
  let v := byte_val c in is_digit c || (97 <=? v) && (v <=? 102) || (v =? 45).

Lemma id_char_facts c : id_char c = true ->
  byte_val c <> 46 /\ byte_val c <> 47 /\ byte_in "/\\" c = false /\ byte_in "/" c = false /\
  byte_val c < 128 /\ lower_byte c = c.
Proof.
  destruct c as [[][][][][][][][]]; vm_compute; intros H; try discriminate H;
    repeat split; discriminate.
Qed.

Lemma str_forall_impl (f g : ascii -> bool) (t : string) :
  (forall c, f c = true -> g c = true) -> str_forall f t = true -> str_forall g t = true.
Proof.
  intros Hfg. induction t as [|c t IH]; [done|]. simpl. rewrite !andb_true_iff.
  intros [? ?]. auto.
Qed.

Lemma hex_encode_id t : str_forall id_char (hex_encode t) = true.
Proof.
  assert (forall d, 0 <= d < 16 -> id_char (hex_chr d) = true) as Hd.
  { intros d Hd. assert (In d (map Z.of_nat (seq 0 16))) as Hin.
    { apply in_map_iff. exists (Z.to_nat d). rewrite in_seq. lia. }
    simpl in Hin. repeat destruct Hin as [<-|Hin]; [reflexivity..|done]. }
  induction t as [|c t IH]; [done|]. simpl. pose proof (byte_val_range c). rewrite IH.
  rewrite !Hd; [done| |].
  - apply Z.mod_pos_bound. lia.
  - split; [apply Z.div_pos; lia|apply Z.div_lt_upper_bound; lia].
Qed.

Lemma newID_chars now random : str_forall id_char (newID now random) = true.
Proof.
  assert (forall w z, str_forall id_char (fixed_digits w z "") = true) as Hf.
  { intros w z. eapply str_forall_impl; [|apply fixed_digits_digits].
    intros c Hc. unfold id_char. by rewrite Hc. }
  unfold newID, pad020. rewrite !str_forall_app, hex_encode_id.
  destruct (_ <? 0); rewrite ?str_forall_app, Hf; done.
Qed.

Lemma str_exists_forall (f g : ascii -> bool) (t : string) :
  (forall c, f c = true -> g c = false) -> str_forall f t = true -> str_exists g t = false.
Proof.
  intros Hfg. induction t as [|c t IH]; [done|]. simpl. rewrite andb_true_iff, orb_false_iff.
  intros [? ?]. auto.
Qed.

Lemma trim_left_none (set t : string) :
  match t with EmptyString => True | String c _ => byte_in set c = false end ->
  trim_left_in set t = t.
Proof. destruct t as [|c t]; [done|]. simpl. by intros ->. Qed.

Lemma str_forall_rev (f : ascii -> bool) (t : string) :
  str_forall f (str_rev t) = str_forall f t.
Proof.
  induction t as [|c t IH]; [done|]. unfold str_rev. simpl.
  rewrite str_rev_onto_app, str_forall_app, IH. simpl. by rewrite andb_true_r, andb_comm.
Qed.

Lemma strip_prefix_slash (t : string) : str_forall id_char t = true -> Cut t "/" = None.
Proof.
  induction t as [|c t IH]; [done|]. simpl. intros [Hc Ht]%andb_true_iff.
  destruct (decide ("/"%char = c)) as [<-|]; [done|]. by rewrite IH.
Qed.

Lemma Base_id (id : string) : id <> "" -> str_forall id_char id = true -> filepath_Base id = id.
Proof.
  intros Hne Hid. unfold filepath_Base. rewrite bool_decide_false by done.
  assert (TrimRight id "/" = id) as ->.
  { unfold TrimRight. rewrite trim_left_none, str_rev_involutive; [done|].
    rewrite <- str_forall_rev in Hid. destruct (str_rev id) as [|c r]; [done|]. simpl in Hid.
    apply andb_true_iff in Hid as [Hc%id_char_facts _]. tauto. }
  rewrite bool_decide_false by done. unfold Split.
  destruct (String.length id) eqn:E; simpl; [by destruct id|]. by rewrite strip_prefix_slash.
Qed.

(** On such bytes the case mapping is the identity. *)
Lemma ToLower_id (t : string) : str_forall id_char t = true -> ToLower t = t.
Proof.
  unfold ToLower. induction t as [|a t IH]; [done|]. intros H. pose proof H as H'. simpl in H.
  apply andb_true_iff in H as [Ha Ht]. specialize (IH Ht). cbn [case_map].
  pose proof (id_char_facts a Ha) as (_ & _ & _ & _ & Hlt & Hlow).
  assert (forall b, two_hit [(196, 176, 105)] a b = None) as H2.
  { intros b. unfold two_hit. simpl. destruct (Z.eqb_spec (byte_val a) 196); [lia|done]. }
  assert (forall b c, three_hit [(226, 132, 170, 107)] a b c = None) as H3.
  { intros b c. unfold three_hit. simpl. destruct (Z.eqb_spec (byte_val a) 226); [lia|done]. }
  destruct t as [|b [|c t]]; rewrite ?H2, ?H3, ?Hlow; [done| |]; by rewrite IH.
Qed.

Lemma not_json_suffix (id : string) : str_forall id_char id = true -> HasSuffix id ".json" = false.
Proof.
  intros Hid. destruct (HasSuffix id ".json") eqn:E; [|done].
  apply HasSuffix_true in E. rewrite E, str_forall_app in Hid. simpl in Hid.
  by rewrite andb_false_r in Hid.
Qed.

Lemma pendingPath_id (s : ProbeSpool) (id : string) :
  id <> "" -> str_forall id_char id = true ->
  pendingPathLocked s id = Ok (pendingDir s, id +:+ ".json").
Proof.
  intros Hne Hid. unfold pendingPathLocked.
  rewrite Base_id, ToLower_id, not_json_suffix by done.
  assert (ContainsAny id "/\\" = false) as ->.
  { apply (str_exists_forall id_char); [|done]. intros c Hc%id_char_facts. tauto. }
  rewrite (bool_decide_true (id = id)) by done.
  rewrite !bool_decide_false by (by intros ->). done.
Qed.

Lemma newID_ne now random : newID now random <> "".
Proof.
  unfold newID. intros E. apply (f_equal String.length) in E.
  rewrite !length_app_str in E. simpl in E. lia.
Qed.

(** Every identifier the spool makes is one its operations accept. *)
Lemma pendingPath_newID (s : ProbeSpool) now random :
  pendingPathLocked s (newID now random) = Ok (pendingDir s, newID now random +:+ ".json").
Proof. apply pendingPath_id; [apply newID_ne|apply newID_chars]. Qed.
