(* ===== verification/ProbeSpoolSafety.v ===== *)
(** * What the probe spool promises

    Bounds, durability, order and the fate of every item, over every schedule of
    I/O errors and crash points unless a theorem says otherwise. *)

From S2P Require Export ProbeSpoolFacts.

(** ** Items the agent wrote *)

(** The pending file of [id] holds the envelope [e], as the agent writes it. *)
Definition item_path (s : ProbeSpool) (id : string) : path := (pendingDir s, id +:+ ".json").
Definition stores (s : ProbeSpool) (id : string) (e : probeSpoolEnvelope) (fs : store) : Prop :=
  fs !! item_path s id = Some (NFile (envelope_text e) 384) /\ envelope_wf e /\
  str_len (envelope_text e) <= MaxItemBytes (limits s).

(** The other pending files are as they were. *)
Definition others_same (s : ProbeSpool) (p : path) (fs fs' : store) : Prop :=
  forall q, q.1 = pendingDir s -> HasSuffix q.2 ".json" = true -> q <> p -> fs' !! q = fs !! q.

Lemma str_len_nonneg c : 0 <= str_len c.
Proof. unfold str_len. lia. Qed.

Lemma limits_positive (s : ProbeSpool) : spool_wf s ->
  0 < TTL (limits s) /\ 0 < MaxPendingItems (limits s) /\ 0 < MaxPendingBytes (limits s) /\
  0 < MaxItemBytes (limits s) <= MaxPendingBytes (limits s) /\
  0 < MaxQuarantineItems (limits s) /\ 0 < MaxQuarantineBytes (limits s).
Proof.
  intros [_ Hv _ _ _ _]. unfold validateProbeSpoolLimits in Hv.
  destruct (_ || _) eqn:E; [done|]. rewrite !orb_false_iff, !Z.leb_gt in E.
  destruct (Z.ltb_spec (MaxPendingBytes (limits s)) (MaxItemBytes (limits s))); [done|]. lia.
Qed.

Lemma item_below_pending (s : ProbeSpool) :
  spool_wf s -> MaxItemBytes (limits s) <= MaxPendingBytes (limits s).
Proof. intros Hwf. pose proof (limits_positive s Hwf). lia. Qed.

Section Lemmas.
Context (s : ProbeSpool) (Hwf : spool_wf s).

Lemma item_path_json id : HasSuffix (item_path s id).2 ".json" = true.
Proof. apply HasSuffix_app. Qed.

Lemma leftover_lookup (p q : path) (fs fs' : store) :
  with_leftover p fs fs' -> HasSuffix q.2 ".json" = true -> fs' !! q = fs !! q.
Proof.
  intros [->|(t & c & perm & Ht & _ & ->)] Hq; [done|].
  apply lookup_insert_ne. intros ->. destruct Ht as [d E]. rewrite E in Hq. simpl in Hq.
  by rewrite temp_not_json in Hq.
Qed.

Lemma leftover_others (p : path) (c : string) (fs fs' : store) :
  with_leftover p fs fs' \/ with_leftover p (replaced p c fs) fs' -> others_same s p fs fs'.
Proof.
  intros [H|H] q _ Hq Hne; rewrite (leftover_lookup _ _ _ _ H Hq); [done|].
  by apply lookup_insert_ne.
Qed.

Lemma substring_all (c : string) n : str_len c <= n -> String.substring 0 (Z.to_nat n) c = c.
Proof.
  intros Hn. assert (String.length c <= Z.to_nat n)%nat as Hle by (unfold str_len in Hn; lia).
  clear Hn. revert Hle. generalize (Z.to_nat n). induction c as [|a c IH]; intros [|m]; simpl; try done; try lia.
  intros Hle. by rewrite IH by lia.
Qed.

(** Reading a file that is present: its envelope, or an error. *)
Lemma read_spec (F : fault -> Prop) (p : path) (c : string) (perm : Z) (fs : store) (Q : outcome spool_error probeSpoolEnvelope -> store -> Prop) :
  fs !! p = Some (NFile c perm) ->
  (str_len c <= MaxItemBytes (limits s) -> match parse_envelope c with
   | Some e => Q (Done e) fs
   | None => Q (Fail InvalidEnvelope) fs
   end) ->
  (MaxItemBytes (limits s) < str_len c -> Q (Fail ItemTooLarge) fs) ->
  ((exists n, F (FErr n)) -> Q (Fail (SpoolOS ErrIO)) fs) -> ((exists n, F (FCrash n)) -> Q Crashed fs) ->
  wp F (readEnvelopeLocked s p) Q fs.
Proof.
  intros Hp Hok Hbig Herr Hcrash. unfold readEnvelopeLocked.
  apply wp_bind, wp_lift_error, wp_Lstat; [|done|done]. rewrite Hp. cbn [node_size].
  destruct (Z.ltb_spec (MaxItemBytes (limits s)) (str_len c)); [apply wp_throw; auto|].
  apply wp_bind, wp_lift_error, wp_ReadFile; [|done|done]. rewrite Hp, substring_all by lia.
  destruct (Z.ltb_spec (MaxItemBytes (limits s)) (str_len c)); [lia|].
  specialize (Hok ltac:(lia)). destruct (parse_envelope c); [by apply wp_ret|by apply wp_throw].
Qed.

Lemma read_stored (F : fault -> Prop) (id : string) (e : probeSpoolEnvelope) (fs : store) (Q : outcome spool_error probeSpoolEnvelope -> store -> Prop) :
  stores s id e fs -> Q (Done e) fs ->
  ((exists n, F (FErr n)) -> Q (Fail (SpoolOS ErrIO)) fs) -> ((exists n, F (FCrash n)) -> Q Crashed fs) ->
  wp F (readEnvelopeLocked s (item_path s id)) Q fs.
Proof.
  intros (Hl & He & Hsize) Hok Herr Hcrash. eapply read_spec; [done| |lia|done|done].
  intros _. by rewrite envelope_roundtrip.
Qed.

(** Room to add up the backlog and one more item without overflow. *)
Definition roomy (fs : store) : Prop :=
  pending_count s fs <= maxInt64 /\ pending_bytes s fs + MaxItemBytes (limits s) <= maxInt64.

Lemma within_roomy (fs : store) : within s fs -> roomy fs.
Proof.
  intros [Hc Hb]. pose proof (wf_items s Hwf). pose proof (wf_bytes s Hwf). pose proof (limits_positive s Hwf).
  unfold roomy. lia.
Qed.

(** What [Enqueue] does after its clean-up left [fs1]: at most one atomic write of the
    envelope, and only when count and bytes leave room for it. *)
Definition enqueued_at (rounds : list ProbeRound) (now : Z) (random : option string)
  (o : outcome spool_error string) (fs1 fs' : store) : Prop :=
  (fs' = fs1 /\ forall id, o <> Done id) \/
  exists body bytes, marshalProbeResults rounds = Ok body /\ random = Some bytes /\
    let encoded := envelope_text (enqueue_envelope now body) in
    let id := newID now bytes in
    str_len encoded <= MaxItemBytes (limits s) /\
    pending_count s fs1 < MaxPendingItems (limits s) /\
    pending_bytes s fs1 + str_len encoded <= MaxPendingBytes (limits s) /\
    (with_leftover (item_path s id) fs1 fs' \/
     with_leftover (item_path s id) (replaced (item_path s id) encoded fs1) fs') /\
    (forall id', o = Done id' -> id' = id /\ fs' = replaced (item_path s id) encoded fs1).

Lemma enqueue_room_spec (F : fault -> Prop) rounds now free random (I : store -> Prop) (fs : store) :
  keeps F I (cleanupPendingLocked s now) -> (forall fs, I fs -> roomy fs) -> I fs ->
  wp F (Enqueue s rounds now free random)
    (fun o fs' => exists fs1, I fs1 /\ enqueued_at rounds now random o fs1 fs') fs.
Proof.
  intros Ht Hroom HI. unfold Enqueue.
  assert (forall o fs1, I fs1 -> (forall id, o <> Done id) ->
    exists fs2, I fs2 /\ enqueued_at rounds now random o fs2 fs1) as Hstop.
  { intros o fs1 H1 Ho. exists fs1. split; [done|]. by left. }
  destruct (marshalProbeResults rounds) as [body|e] eqn:Em; [|apply wp_throw; by apply Hstop].
  apply wp_bind. eapply wp_conseq; [by apply Ht|].
  intros [[]|e|] fs1 HI1; simpl; [|by apply Hstop..]. cbv zeta.
  set (encoded := envelope_text (enqueue_envelope now body)).
  destruct (Z.ltb_spec (MaxItemBytes (limits s)) (str_len encoded)); [apply wp_throw; by apply Hstop|].
  destruct (Hroom _ HI1) as [Hc1 Hb1]. pose proof (limits_positive s Hwf).
  apply wp_bind. eapply wp_conseq; [apply usage_spec; lia|].
  intros [[count total]|e|] fs2 [-> Hu]; simpl; [|by apply Hstop..].
  destruct (Hu _ _ eq_refl) as [-> ->].
  assert (0 <= pending_bytes s fs1) by apply Zsum_nonneg', entry_size_nonneg.
  pose proof (str_len_nonneg encoded). assert (minInt64 <= 0) by (by vm_compute).
  rewrite i64_id by (unfold in_i64; lia).
  destruct (_ || _) eqn:Ecap; [apply wp_throw; by apply Hstop|].
  apply orb_false_iff in Ecap as [Ecap1%Z.leb_gt Ecap2%Z.ltb_ge].
  destruct free as [free|]; [|apply wp_throw; by apply Hstop].
  destruct (_ <? _); [apply wp_throw; by apply Hstop|].
  destruct random as [bytes|]; simpl; [|apply wp_bind, wp_throw; by apply Hstop].
  apply wp_bind, wp_ret. apply wp_bind, wp_lift_error. eapply wp_conseq.
  { apply atomicWrite_spec, json_not_temp, item_path_json. }
  assert (forall o fs3, with_leftover (item_path s (newID now bytes)) fs1 fs3 \/
      with_leftover (item_path s (newID now bytes)) (replaced (item_path s (newID now bytes)) encoded fs1) fs3 ->
    (forall id', o = Done id' -> id' = newID now bytes /\ fs3 = replaced (item_path s (newID now bytes)) encoded fs1) ->
    exists fs2, I fs2 /\ enqueued_at rounds now (Some bytes) o fs2 fs3) as Hend.
  { intros o fs3 Hleft Ho. exists fs1. split; [done|]. right. exists body, bytes. by split_and!. }
  intros [[]|e|] fs3 [Hleft Hdone]; simpl; [|by apply Hend..].
  apply wp_bind, wp_signal, wp_ret, Hend; [done|]. intros id' [= <-]. by rewrite Hdone.
Qed.

Lemma enqueue_spec (F : fault -> Prop) rounds now free random (I : store -> Prop) (fs : store) :
  keeps F I (cleanupPendingLocked s now) -> I fs -> within s fs ->
  wp F (Enqueue s rounds now free random)
    (fun o fs' => exists fs1, I fs1 /\ within s fs1 /\ enqueued_at rounds now random o fs1 fs') fs.
Proof.
  intros Ht HI Hin. eapply wp_conseq.
  { apply (enqueue_room_spec F rounds now free random (fun fs => I fs /\ within s fs)); [| |done].
    - apply keeps_conj; [done|]. apply keeps_cleanup, tolerant_within, Hwf.
    - intros fs1 [_ H]. by apply within_roomy. }
  intros o fs' (fs1 & [H1 H2] & H3). by exists fs1.
Qed.
End Lemmas.

(** ** The quarantine *)
Section Quarantine.
Context (s : ProbeSpool) (Hwf : spool_wf s) (F : fault -> Prop).

(** Names and sizes of the quarantined entries. *)
Definition quarantined (fs : store) : list (string * Z) :=
  omap (fun e => if is_dir e.2 then None else Some (e.1, node_size e.2))
    (dir_entries fs (quarantineDir s)).
Definition quarantine_count (fs : store) : Z := Z.of_nat (length (quarantined fs)).
Definition quarantine_bytes (fs : store) : Z := Zsum (map snd (quarantined fs)).
Definition quarantine_within (fs : store) : Prop :=
  quarantine_count fs <= MaxQuarantineItems (limits s) /\
  quarantine_bytes fs <= MaxQuarantineBytes (limits s).

Lemma elem_of_quarantined (fs : store) name z :
  (name, z) ∈ quarantined fs <->
  exists n, fs !! (quarantineDir s, name) = Some n /\ is_dir n = false /\ node_size n = z.
Proof.
  unfold quarantined. rewrite list_elem_of_omap. split.
  - intros ([name' n] & Hin%elem_of_dir_entries & E). simpl in E.
    destruct (is_dir n) eqn:Ed; [done|]. simplify_eq. eauto.
  - intros (n & Hl & Hd & <-). exists (name, n). split; [by apply elem_of_dir_entries|].
    simpl. by rewrite Hd.
Qed.

Lemma quarantined_NoDup (fs : store) : NoDup (quarantined fs).
Proof.
  unfold quarantined. pose proof (dir_entries_NoDup fs (quarantineDir s)) as Hnd.
  induction (dir_entries fs (quarantineDir s)) as [|[x n] l IH]; simpl; [constructor|].
  simpl in Hnd. apply NoDup_cons in Hnd as [Hx Hl]. destruct (is_dir n); [auto|].
  constructor; [|auto]. intros ([y m] & Hin & E)%list_elem_of_omap. simpl in E.
  destruct (is_dir m); [done|]. simplify_eq. apply Hx, list_elem_of_fmap. by exists (x, m).
Qed.

Lemma quarantined_submseteq (fs : store) (l : list (string * Z)) :
  (forall e, e ∈ quarantined fs -> e ∈ l) -> quarantined fs ⊆+ l.
Proof. intros H. apply NoDup_submseteq; [apply quarantined_NoDup|done]. Qed.

Lemma quarantined_nonneg (fs : store) e : e ∈ quarantined fs -> 0 <= e.2.
Proof.
  destruct e as [name z]. intros (n & _ & _ & <-)%elem_of_quarantined. simpl.
  unfold node_size, str_len. case_match; lia.
Qed.

Definition sizes_ok (l : list (string * Z)) : Prop := Forall (fun e => 0 <= e.2) l.

Lemma sizes_submseteq (l k : list (string * Z)) : sizes_ok k -> l ⊆+ k ->
  Z.of_nat (length l) <= Z.of_nat (length k) /\ Zsum (map snd l) <= Zsum (map snd k).
Proof.
  intros Hk Hsub. pose proof (submseteq_length _ _ Hsub). split; [lia|].
  apply submseteq_Permutation in Hsub as (l' & Hp).
  rewrite (Zsum_perm _ _ (Permutation_map snd Hp)), map_app, Zsum_app.
  assert (0 <= Zsum (map snd l')); [|lia].
  apply Zsum_nonneg, Forall_map. unfold sizes_ok in Hk. rewrite Hp in Hk.
  apply Forall_app in Hk as [_ Hk]. done.
Qed.

(** What [quarantine_sizes] reads off the listing. *)
Lemma sizes_spec (fs : store) (entries : list (string * node)) :
  (forall e, e ∈ entries -> fs !! (quarantineDir s, e.1) = Some e.2) ->
  wp F (quarantine_sizes s entries)
    (fun o fs' => fs' = fs /\ forall items, o = Done items ->
      items = omap (fun e => if is_dir e.2 then None else Some (e.1, node_size e.2)) entries) fs.
Proof.
  induction entries as [|[name n] entries IH]; intros Hin; simpl.
  { apply wp_ret. by split; [|intros ? [= <-]]. }
  assert (forall e, e ∈ entries -> fs !! (quarantineDir s, e.1) = Some e.2) as Hin'.
  { intros e He. apply Hin. by constructor. }
  destruct (is_dir n); [by apply IH|].
  apply wp_bind, wp_lift_error, wp_Lstat; [|done|done].
  pose proof (Hin (name, n) ltac:(constructor)) as Hn. simpl in Hn. rewrite Hn.
  apply wp_bind. eapply wp_conseq; [by apply IH|].
  intros [items|e|] fs' [-> Hi]; simpl; [|done|done].
  apply wp_ret. split; [done|]. intros ? [= <-]. by rewrite (Hi items).
Qed.

Lemma fold_total (items : list (string * Z)) : sizes_ok items ->
  forall t, 0 <= t -> t + Zsum (map snd items) <= maxInt64 ->
  foldl (fun t '(_, size) => i64 (t + size)) t items = t + Zsum (map snd items).
Proof.
  assert (minInt64 <= 0) by (by vm_compute).
  induction 1 as [|[name z] items Hz Hitems IH]; intros t Ht Hle; simpl in *; [lia|].
  assert (0 <= Zsum (map snd items)) by (by apply Zsum_nonneg, Forall_map).
  rewrite i64_id by (unfold in_i64; lia). rewrite IH; lia.
Qed.

(** Nothing but quarantined entries is touched. *)
Definition outside_same (fs fs' : store) : Prop :=
  forall q : path, q.1 <> quarantineDir s -> fs' !! q = fs !! q.

Lemma quarantined_delete (fs : store) (p : path) :
  quarantined (delete p fs) ⊆+ quarantined fs.
Proof.
  apply quarantined_submseteq. intros [x z] (n & Hl & Hn)%elem_of_quarantined.
  apply lookup_delete_Some in Hl as [_ Hl]. apply elem_of_quarantined. eauto.
Qed.

(** The listing without its first name. *)
Lemma quarantined_tail (fs : store) name z (items : list (string * Z)) :
  quarantined fs ⊆+ (name, z) :: items -> fs !! (quarantineDir s, name) = None ->
  quarantined fs ⊆+ items.
Proof.
  intros Hsub Hnone. apply quarantined_submseteq. intros [x zx] Hin.
  pose proof (elem_of_submseteq _ _ _ Hin Hsub) as Hin'.
  apply elem_of_cons in Hin' as [E|]; [|done]. simplify_eq.
  apply elem_of_quarantined in Hin as (n & Hl & _). by rewrite Hnone in Hl.
Qed.

Definition pruned (incoming : Z) (fs : store) (o : outcome spool_error ()) (fs' : store) : Prop :=
  outside_same fs fs' /\ quarantined fs' ⊆+ quarantined fs /\
  (o = Done () -> quarantine_count fs' + 1 <= MaxQuarantineItems (limits s) /\
    quarantine_bytes fs' + incoming <= MaxQuarantineBytes (limits s)).

Lemma pruned_delete incoming (fs fs' : store) name o :
  pruned incoming (delete (quarantineDir s, name) fs) o fs' -> pruned incoming fs o fs'.
Proof.
  intros (Ho & Hs & Hd). split_and!; [|etrans; [exact Hs|apply quarantined_delete]|done].
  intros q Hq. rewrite (Ho q Hq). apply lookup_delete_ne. intros <-. done.
Qed.

Lemma pruned_done incoming (items : list (string * Z)) (fs : store) :
  sizes_ok items -> quarantined fs ⊆+ items ->
  Z.of_nat (length items) + 1 <= MaxQuarantineItems (limits s) ->
  Zsum (map snd items) + incoming <= MaxQuarantineBytes (limits s) ->
  pruned incoming fs (Done ()) fs.
Proof.
  intros Hok Hsub H1 H2. destruct (sizes_submseteq _ _ Hok Hsub) as [Hc Hb].
  split_and!; [done|done|]. intros _. unfold quarantine_count, quarantine_bytes. lia.
Qed.

Lemma prune_loop_spec incoming : 0 <= incoming <= MaxQuarantineBytes (limits s) ->
  forall (items : list (string * Z)) (fs : store), sizes_ok items ->
  Zsum (map snd items) + incoming <= maxInt64 -> quarantined fs ⊆+ items ->
  wp F (prune_loop s incoming items (Zsum (map snd items))) (pruned incoming fs) fs.
Proof.
  intros Hinc. pose proof (limits_positive s Hwf) as Hpos. assert (minInt64 <= 0) by (by vm_compute).
  assert (forall fs : store, quarantined fs ⊆+ quarantined fs) as Hrefl by done.
  induction items as [|[name z] items IH]; intros fs Hok Hmax Hsub; cbn [prune_loop].
  { assert (pruned incoming fs (Done ()) fs) as Hdone by (apply (pruned_done incoming []); simpl; [done|done|lia|lia]).
    destruct (_ || _); by apply wp_ret. }
  assert (0 <= Zsum (map snd ((name, z) :: items))) by (by apply Zsum_nonneg, Forall_map).
  rewrite i64_id by (unfold in_i64; lia). destruct (_ || _) eqn:E.
  2:{ apply orb_false_iff in E as [E1%Z.ltb_ge E2%Z.ltb_ge]. apply wp_ret.
      by apply (pruned_done incoming ((name, z) :: items)). }
  inversion Hok as [|? ? Hz Hitems]; subst. cbn [map snd Zsum] in *.
  assert (0 <= Zsum (map snd items)) by (by apply Zsum_nonneg, Forall_map).
  rewrite i64_id by (unfold in_i64; simpl in *; lia).
  replace (z + Zsum (map snd items) - z) with (Zsum (map snd items)) by lia.
  assert (forall fs' o, o <> Done () -> fs' = fs \/ fs' = delete (quarantineDir s, name) fs ->
    pruned incoming fs o fs') as Hstop.
  { intros fs' o Ho [-> | ->]; [by split_and!|]. apply pruned_delete with (name := name).
    by split_and!. }
  assert (wp F (prune_loop s incoming items (Zsum (map snd items))) (pruned incoming fs)
    (delete (quarantineDir s, name) fs)) as Hrest.
  { eapply wp_conseq; [apply IH; [done|lia|]|intros; by eapply pruned_delete].
    eapply quarantined_tail; [|apply lookup_delete_eq].
    etrans; [apply quarantined_delete|exact Hsub]. }
  apply wp_bind, wp_attempt, wp_os_call; [|intros _; apply wp_throw; by apply Hstop; auto|].
  - destruct (fs !! (quarantineDir s, name)) as [[| []| |]|] eqn:El; try exact Hrest.
    + apply wp_throw. apply Hstop; auto.
    + rewrite delete_id in Hrest by done. exact Hrest.
  - intros _. split; [apply Hstop; auto|]. repeat case_match; simplify_eq;
    first [exact I|apply Hstop; auto].
Qed.

Lemma prune_spec incoming (fs : store) :
  0 <= incoming <= MaxQuarantineBytes (limits s) -> quarantine_within fs ->
  wp F (pruneQuarantineLocked s incoming) (pruned incoming fs) fs.
Proof.
  intros Hinc [_ Hq]. pose proof (wf_qbytes s Hwf). unfold quarantine_bytes in Hq.
  assert (sizes_ok (quarantined fs)) as Hok by (apply Forall_forall; intros; by eapply quarantined_nonneg).
  assert (forall o, o <> Done () -> pruned incoming fs o fs) as Hstop by (by intros; split_and!).
  unfold pruneQuarantineLocked. apply wp_bind, wp_lift_error, wp_ReadDir; [|auto..].
  apply wp_bind. eapply wp_conseq.
  { apply sizes_spec. intros [name n] He. by apply elem_of_dir_entries in He. }
  intros [items|e|] fs1 [-> Hi]; simpl; [|auto..].
  rewrite (Hi items eq_refl). fold (quarantined fs). rewrite fold_total by (done || lia).
  apply wp_bind. eapply wp_conseq; [apply prune_loop_spec; try done; lia|].
  intros [[]|e|] fs2 Hp; simpl; [|done|done].
  apply wp_lift_error, wp_sync; [done| |]; intros _; destruct Hp as (? & ? & ?); by split_and!.
Qed.

(** *** Moving one file into the quarantine *)
Definition quarantine_path (p : path) (reason : string) : path :=
  (quarantineDir s, p.2 +:+ "." +:+ clean_reason reason).

Definition set_aside (p : path) (reason : string) (fs : store) (o : outcome spool_error ())
  (fs' : store) : Prop :=
  (forall q : path, q.1 <> quarantineDir s -> q <> p -> fs' !! q = fs !! q) /\
  (fs' !! p = fs !! p \/ fs' !! p = None /\
    forall c perm, fs !! p = Some (NFile c perm) -> str_len c <= MaxQuarantineBytes (limits s) ->
      exists perm', fs' !! quarantine_path p reason = Some (NFile c perm')) /\
  quarantine_within fs' /\
  (o = Done () -> fs' !! p = None /\
    forall c perm, fs !! p = Some (NFile c perm) -> str_len c <= MaxQuarantineBytes (limits s) ->
      fs' !! quarantine_path p reason = Some (NFile c 384)).

Lemma quarantine_within_submseteq (fs fs' : store) :
  quarantined fs' ⊆+ quarantined fs -> quarantine_within fs -> quarantine_within fs'.
Proof.
  intros Hsub [H1 H2]. destruct (sizes_submseteq (quarantined fs') (quarantined fs)) as [? ?];
    [apply Forall_forall; intros; by eapply quarantined_nonneg|done|].
  unfold quarantine_within, quarantine_count, quarantine_bytes in *. lia.
Qed.

Lemma quarantined_insert (fs : store) (name c : string) (perm : Z) (p : path) :
  quarantined (<[(quarantineDir s, name) := NFile c perm]> (delete p fs)) ⊆+
    (name, str_len c) :: quarantined fs.
Proof.
  apply quarantined_submseteq. intros [x z] (n & Hl & Hn)%elem_of_quarantined.
  apply lookup_insert_Some in Hl as [[Hx <-]|[Hx Hl]].
  - simplify_eq. destruct Hn as [_ <-]. constructor.
  - constructor. apply lookup_delete_Some in Hl as [_ Hl]. apply elem_of_quarantined. eauto.
Qed.

(** The files once [p], which held [c], is in the quarantine. *)
Lemma moved_spec (p : path) (reason c : string) (perm perm' : Z) (fs fs1 : store) o :
  p.1 = pendingDir s -> fs !! p = Some (NFile c perm) ->
  pruned (str_len c) fs (Done ()) fs1 -> (o = Done () -> perm' = 384) ->
  set_aside p reason fs o (<[quarantine_path p reason := NFile c perm']> (delete p fs1)).
Proof.
  intros Hp Hc (Hout & Hsub & Hroom) Hperm. destruct (Hroom eq_refl) as [Hr1 Hr2].
  assert (p.1 <> quarantineDir s) as Hpq by (rewrite Hp; apply (wf_dirs s Hwf)).
  assert (quarantine_path p reason <> p) as Hne by (intros E; apply Hpq; by rewrite <- E).
  split_and!.
  - intros q Hq Hqp. rewrite lookup_insert_ne by (intros <-; by apply Hq).
    rewrite lookup_delete_ne by done. by apply Hout.
  - right. split; [rewrite lookup_insert_ne by done; apply lookup_delete_eq|].
    intros c' perm'' Hc' _. rewrite Hc in Hc'. simplify_eq. exists perm'. apply lookup_insert_eq.
  - pose proof (quarantined_insert fs1 (p.2 +:+ "." +:+ clean_reason reason) c perm' p) as Hs.
    destruct (sizes_submseteq (quarantined (<[quarantine_path p reason := NFile c perm']>
      (delete p fs1))) ((p.2 +:+ "." +:+ clean_reason reason, str_len c) :: quarantined fs1))
      as [H1 H2]; [|exact Hs|].
    + constructor; [apply str_len_nonneg|]. apply Forall_forall. intros. by eapply quarantined_nonneg.
    + unfold quarantine_within, quarantine_count, quarantine_bytes in *.
      cbn [map snd Zsum length] in *. lia.
  - intros ->. rewrite (Hperm eq_refl). split; [rewrite lookup_insert_ne by done; apply lookup_delete_eq|].
    intros c' perm'' Hc' _. rewrite Hc in Hc'. simplify_eq. apply lookup_insert_eq.
Qed.

Lemma set_aside_gone (p : path) reason (fs : store) o :
  (forall c perm, fs !! p = Some (NFile c perm) -> MaxQuarantineBytes (limits s) < str_len c) ->
  quarantine_within fs -> p.1 = pendingDir s -> set_aside p reason fs o (delete p fs).
Proof.
  intros Hbig Hq Hp. split_and!.
  - intros q _ Hqp. by apply lookup_delete_ne.
  - right. split; [apply lookup_delete_eq|]. intros c perm Hc Hle. specialize (Hbig c perm Hc). lia.
  - eapply quarantine_within_submseteq; [apply quarantined_delete|done].
  - intros _. split; [apply lookup_delete_eq|]. intros c perm Hc Hle. specialize (Hbig c perm Hc). lia.
Qed.

Lemma remove_set_aside (p : path) reason (fs : store) :
  (forall c perm, fs !! p = Some (NFile c perm) -> MaxQuarantineBytes (limits s) < str_len c) ->
  fs !! p <> None ->
  (forall o, o <> Done () -> set_aside p reason fs o fs) ->
  (forall o, set_aside p reason fs o (delete p fs)) ->
  wp F (lift_error SpoolOS (removeFileAndSync p)) (set_aside p reason fs) fs.
Proof.
  intros Hbig Hsome Hstop Hgone. unfold removeFileAndSync.
  apply wp_lift_error, wp_bind, wp_attempt, wp_os_call.
  - destruct (fs !! p) as [[| []| |]|]; try (apply wp_sync; intros; apply Hgone); [|done].
    apply wp_throw. by apply Hstop.
  - intros _. apply wp_throw. by apply Hstop.
  - intros _. split; [by apply Hstop|]. destruct (fs !! p) as [[| []| |]|]; try apply Hgone; done.
Qed.

(** What is not a regular file is removed. *)
Lemma discard_spec (p : path) (reason : string) (fs : store) :
  (forall o, o <> Done () -> set_aside p reason fs o fs) -> (forall o, set_aside p reason fs o (delete p fs)) ->
  wp F (lift_error SpoolOS (RemoveAll p);; lift_error SpoolOS syncDirectory) (set_aside p reason fs) fs.
Proof.
  intros Hstop Hgone.
  apply wp_bind, wp_lift_error, wp_os_call; [|intros _; by apply Hstop|intros _; split; [by apply Hstop|done]].
  apply wp_lift_error, wp_sync; auto.
Qed.

(** A file moved to the quarantine gets its mode, and both directories are synced. *)
Lemma moved_sync_spec (p q : path) (reason : string) (fs fs1 : store) (c : string) (perm : Z) :
  (forall o perm', (o = Done () -> perm' = 384) -> set_aside p reason fs o (<[q := NFile c perm']> fs1)) ->
  wp F (lift_error SpoolOS (Chmod q 384);; lift_error SpoolOS syncDirectory;; lift_error SpoolOS syncDirectory)
    (set_aside p reason fs) (<[q := NFile c perm]> fs1).
Proof.
  intros Hmoved. apply wp_bind, wp_lift_error, wp_os_call; [|intros _; by apply Hmoved|intros _; split; [by apply Hmoved|]];
    cbv beta; rewrite lookup_insert_eq, insert_insert_eq; [|by apply Hmoved].
  apply wp_bind, wp_lift_error, wp_sync; [|intros _; by apply Hmoved..].
  apply wp_lift_error, wp_sync; intros; by apply Hmoved.
Qed.

Lemma quarantine_spec (p : path) (reason : string) (fs : store) :
  p.1 = pendingDir s -> quarantine_within fs ->
  wp F (quarantinePathLocked s p reason) (set_aside p reason fs) fs.
Proof.
  intros Hp Hq.
  assert (forall o, o <> Done () -> set_aside p reason fs o fs) as Hstop by (by intros; split_and!; auto).
  unfold quarantinePathLocked. apply wp_bind, wp_attempt, wp_Lstat;
    [|intros _; apply wp_throw; by apply Hstop|intros _; by apply Hstop].
  destruct (fs !! p) as [n|] eqn:Ep.
  2: { apply wp_ret. split_and!; auto. intros _. split; [done|]. by rewrite Ep. }
  assert ((forall c perm, n = NFile c perm -> MaxQuarantineBytes (limits s) < str_len c) ->
    forall o, set_aside p reason fs o (delete p fs)) as Hgone.
  { intros Hb o. apply set_aside_gone; try done. intros c perm Hc. simplify_eq. by eapply Hb. }
  destruct n as [c perm| | |]; [|by apply discard_spec; [|apply Hgone]..]. cbn [node_size].
  destruct (Z.ltb_spec (MaxQuarantineBytes (limits s)) (str_len c)) as [Hbig|Hsmall].
  { assert (forall c' perm', NFile c perm = NFile c' perm' -> MaxQuarantineBytes (limits s) < str_len c')
      as Hb by (by intros ? ? [= <- <-]).
    apply remove_set_aside; auto; [|by rewrite Ep]. intros c' perm' E. rewrite Ep in E. simplify_eq. done. }
  pose proof (str_len_nonneg c).
  apply wp_bind. eapply wp_conseq; [by apply prune_spec|].
  intros o fs1 Hpr.
  assert (forall o', o' <> Done () -> set_aside p reason fs o' fs1) as Hstop1.
  { intros o' Ho'. destruct Hpr as (Hout & Hsub & _). split_and!; try done.
    - intros q Hqd _. by apply Hout.
    - left. apply Hout. rewrite Hp. apply (wf_dirs s Hwf).
    - by eapply quarantine_within_submseteq. }
  destruct o as [[]|e|]; [|by apply Hstop1..]. fold (quarantine_path p reason).
  assert (forall o perm', (o = Done () -> perm' = 384) ->
    set_aside p reason fs o (<[quarantine_path p reason := NFile c perm']> (delete p fs1))) as Hmoved.
  { intros o perm' Hperm. by eapply moved_spec. }
  assert (fs1 !! p = Some (NFile c perm)) as Ep1.
  { destruct Hpr as (Hout & _). rewrite Hout; [done|]. rewrite Hp. apply (wf_dirs s Hwf). }
  apply wp_bind, wp_lift_error, wp_os_call; [|intros _; by apply Hstop1|intros _; split; [by apply Hstop1|]];
    cbv beta; rewrite Ep1.
  2: { repeat case_match; simplify_eq; first [exact I|by apply Hmoved]. }
  destruct (fs1 !! quarantine_path p reason) as [[]|]; try (by apply moved_sync_spec). by apply Hstop1.
Qed.
End Quarantine.

(** ** Items in the queue *)
Section Queue.
Context (s : ProbeSpool) (Hwf : spool_wf s).

(** A readable item that is not expired at [now]. *)
Definition live (now : Z) (c : string) : Prop :=
  str_len c <= MaxItemBytes (limits s) /\
  exists e, parse_envelope c = Some e /\ expired s now e = false.

(** An item whose retry time has not come. *)
Definition waiting (now : Z) (n : node) : Prop :=
  exists c perm e, n = NFile c perm /\ parse_envelope c = Some e /\
    expired s now e = false /\ now < NextAt e.

Section Live.
Context (now : Z) (name : string) (c : string) (perm : Z)
  (Hname : HasSuffix name ".json" = true) (Hlive : live now c).

Let here (fs : store) : Prop := fs !! (pendingDir s, name) = Some (NFile c perm).

Lemma here_tolerant : tolerant_at s (fun p => p.1 = pendingDir s /\ p <> (pendingDir s, name)) here.
Proof.
  split.
  - intros fs p Hh Hp. unfold here. rewrite lookup_delete_ne; [done|]. intros ->.
    destruct Hp as [[_ Hne]|Hp]; [done|]. by apply (wf_dirs s Hwf).
  - intros fs x n Hh. unfold here. rewrite lookup_insert_ne; [done|].
    intros E. apply (wf_dirs s Hwf). by simplify_eq.
Qed.

Lemma read_here (fs : store) (Q : outcome spool_error probeSpoolEnvelope -> store -> Prop) :
  here fs -> (forall e, parse_envelope c = Some e -> expired s now e = false -> Q (Done e) fs) ->
  Q Crashed fs -> wp reads_work (readEnvelopeLocked s (pendingDir s, name)) Q fs.
Proof.
  intros Hh Hok Hcrash. destruct Hlive as (Hsize & e & He & Hexp).
  eapply read_spec; [exact Hh| |lia|by intros [n Hn]|done]. intros _. rewrite He. auto.
Qed.

Lemma keeps_entry_here (entry : string * node) :
  (entry.1 = name -> is_dir entry.2 = false) ->
  keeps reads_work here (cleanup_entry s now entry).
Proof.
  intros Hentry. unfold cleanup_entry. destruct (decide (entry.1 = name)) as [E|Hne].
  - assert (is_item entry = true) as ->.
    { unfold is_item. by rewrite E, Hname, (Hentry E). }
    intros fs Hh. rewrite E. apply wp_bind, wp_attempt, read_here; [done| |done].
    intros e He Hexp. rewrite Hexp. by apply wp_ret.
  - assert ((pendingDir s, entry.1) <> (pendingDir s, name)) as Hp by congruence.
    pose proof here_tolerant as Ht. case_match.
    + apply keeps_bind; [apply keeps_attempt, keeps_readEnvelope|]. intros [e|err].
      * case_match; [|apply keeps_ret]. apply keeps_lift_error, keeps_removeFileAndSync.
        intros fs Hh. apply (tol_remove s _ _ Ht); auto.
      * (eapply keeps_quarantinePath; [|exact Ht]; done).
    + (eapply keeps_quarantinePath; [|exact Ht]; done).
Qed.

Lemma listing_here (fs : store) entry :
  here fs -> entry ∈ dir_entries fs (pendingDir s) -> entry.1 = name -> is_dir entry.2 = false.
Proof.
  intros Hh Hin <-. destruct entry as [x n]. apply elem_of_dir_entries in Hin.
  unfold here in Hh. simpl in *. by simplify_eq.
Qed.

Lemma keeps_cleanup_here : keeps reads_work here (cleanupPendingLocked s now).
Proof.
  intros fs Hh. unfold cleanupPendingLocked. apply wp_bind, wp_lift_error, wp_ReadDir; [|done|done].
  pose proof (listing_here fs) as Hl. revert Hl. generalize (dir_entries fs (pendingDir s)).
  intros entries Hl. assert (forall e, e ∈ entries -> e.1 = name -> is_dir e.2 = false) as He by auto.
  clear Hl. revert fs Hh. induction entries as [|entry entries IH]; intros fs Hh; [by apply wp_ret|].
  cbn [cleanup_loop]. apply wp_bind. eapply wp_conseq.
  - apply keeps_entry_here; [|exact Hh]. apply He. constructor.
  - intros [[]|e|] fs1 H1; [|done|done]. apply IH; [|done]. intros. apply He; [by constructor|done].
Qed.

Lemma keeps_next_here : keeps reads_work here (Next s now).
Proof.
  unfold Next. apply keeps_bind; [apply keeps_cleanup_here|]. intros _ fs Hh.
  apply wp_bind, wp_lift_error, wp_ReadDir; [|done|done].
  pose proof (listing_here fs) as Hl. revert Hl. generalize (dir_entries fs (pendingDir s)).
  intros entries Hl. assert (forall e, e ∈ entries -> e.1 = name -> is_dir e.2 = false) as He by auto.
  clear Hl. revert fs Hh. induction entries as [|entry entries IH]; intros fs Hh; [by apply wp_ret|].
  assert (keeps reads_work here (next_loop s now entries)) as Hrest.
  { intros fs1 H1. apply IH; [|done]. intros. apply He; [by constructor|done]. }
  cbn [next_loop]. destruct (is_item entry); [|by apply Hrest].
  destruct (decide (entry.1 = name)) as [E|Hne].
  - rewrite E. apply wp_bind, wp_attempt, read_here; [done| |done].
    intros e Hp Hexp. rewrite Hexp. case_match; [by apply Hrest|by apply wp_ret].
  - assert ((pendingDir s, entry.1) <> (pendingDir s, name)) as Hp by congruence.
    revert fs Hh. apply (keeps_bind reads_work here); [apply keeps_attempt, keeps_readEnvelope|].
    pose proof here_tolerant as Ht. intros [e|err].
    + case_match; [|case_match; [done|apply keeps_ret]]. apply keeps_bind; [|done].
      apply keeps_lift_error, keeps_removeFileAndSync. intros fs1 H1. apply (tol_remove s _ _ Ht); auto.
    + apply keeps_bind; [(eapply keeps_quarantinePath; [|exact Ht]; done)|done].
Qed.
End Live.

Section Order.
Context (now : Z) (F : fault -> Prop).

(** An item of this name, if there is one, is waiting. *)
Definition settled (name : string) (fs : store) : Prop :=
  forall n, fs !! (pendingDir s, name) = Some n -> is_item (name, n) = true -> waiting now n.

(** Pending files are only removed. *)
Definition shrinks (fs fs' : store) : Prop :=
  forall q : path, q.1 = pendingDir s -> fs' !! q = None \/ fs' !! q = fs !! q.

Lemma shrinks_trans (fs1 fs2 fs3 : store) : shrinks fs1 fs2 -> shrinks fs2 fs3 -> shrinks fs1 fs3.
Proof. intros H12 H23 q Hq. destruct (H12 q Hq), (H23 q Hq); [left|left|left|right]; congruence. Qed.

Lemma settled_shrinks name (fs fs' : store) : shrinks fs fs' -> settled name fs -> settled name fs'.
Proof.
  intros Hsh Hs n Hn Hi. destruct (Hsh (pendingDir s, name) eq_refl) as [E|E]; [by rewrite E in Hn|].
  apply Hs; [by rewrite <- E|done].
Qed.

Definition selected (name : string) (item : ProbeSpoolItem) (fs : store) : Prop :=
  exists c perm e, fs !! (pendingDir s, name) = Some (NFile c perm) /\ HasSuffix name ".json" = true /\
    parse_envelope c = Some e /\ expired s now e = false /\ NextAt e <= now /\
    item = probeSpoolItemFromEnvelope (TrimSuffix name ".json") e.

Definition scanned (entries : list (string * node)) (fs : store)
  (o : outcome spool_error (option ProbeSpoolItem)) (fs' : store) : Prop :=
  quarantine_within s fs' /\ shrinks fs fs' /\
  match o with
  | Done (Some item) => exists pre x post, entries = pre ++ x :: post /\
      Forall (fun y => settled y.1 fs') pre /\ selected x.1 item fs'
  | Done None => Forall (fun y => settled y.1 fs') entries
  | _ => True
  end.

Lemma scanned_cons entry entries (fs fs1 fs' : store) o :
  shrinks fs fs1 -> settled entry.1 fs1 -> scanned entries fs1 o fs' ->
  scanned (entry :: entries) fs o fs'.
Proof.
  intros Hsh Hset (Hq & Hsh' & Ho). pose proof (settled_shrinks _ _ _ Hsh' Hset).
  split; [done|]. split; [by eapply shrinks_trans|]. destruct o as [[item|]|e|]; [| |done|done].
  - destruct Ho as (pre & x & post & -> & Hpre & Hx). exists (entry :: pre), x, post.
    split; [done|]. split; [by constructor|done].
  - by constructor.
Qed.

Lemma set_aside_shrinks (p : path) reason (fs fs' : store) o :
  set_aside s p reason fs o fs' -> shrinks fs fs'.
Proof.
  intros (Hout & Hp & _) q Hq. destruct (decide (q = p)) as [->|Hne].
  { destruct Hp as [Hp|[Hp _]]; auto. }
  right. apply Hout; [|done]. rewrite Hq. apply (wf_dirs s Hwf).
Qed.

Lemma settled_gone name (fs : store) : fs !! (pendingDir s, name) = None -> settled name fs.
Proof. intros Hn n Hl. by rewrite Hn in Hl. Qed.

Lemma delete_shrinks (p : path) (fs : store) : shrinks fs (delete p fs).
Proof.
  intros q _. destruct (decide (q = p)) as [->|Hne]; [left; apply lookup_delete_eq|].
  right. by apply lookup_delete_ne.
Qed.

Lemma quarantine_within_delete (p : path) (fs : store) :
  quarantine_within s fs -> quarantine_within s (delete p fs).
Proof. apply quarantine_within_submseteq, quarantined_delete. Qed.

Lemma remove_spec (p : path) (fs : store) (Q : outcome os_error () -> store -> Prop) :
  (forall o, o <> Done () -> Q o fs) -> (forall o, Q o (delete p fs)) ->
  wp F (removeFileAndSync p) Q fs.
Proof.
  intros Hstop Hgone. unfold removeFileAndSync. apply wp_bind, wp_attempt, wp_os_call.
  - destruct (fs !! p) as [[| []| |]|] eqn:E; try (apply wp_sync; intros; apply Hgone).
    + apply wp_throw. by apply Hstop.
    + rewrite delete_id in Hgone by done. apply wp_sync; intros; apply Hgone.
  - intros _. apply wp_throw. by apply Hstop.
  - intros _. split; [by apply Hstop|]. destruct (fs !! p) as [[| []| |]|]; try apply Hgone; done.
Qed.

(** Reading any pending file: what it says, or an error. *)
Lemma read_any (p : path) (fs : store) (Q : outcome spool_error probeSpoolEnvelope -> store -> Prop) :
  (forall c perm e, fs !! p = Some (NFile c perm) -> parse_envelope c = Some e -> Q (Done e) fs) ->
  (forall o, (forall e, o <> Done e) -> Q o fs) -> wp F (readEnvelopeLocked s p) Q fs.
Proof.
  intros Hok Hstop. destruct (fs !! p) as [[c perm|e|t|]|] eqn:E.
  { eapply read_spec; [exact E| | | |].
    - intros _. destruct (parse_envelope c) eqn:Ep; [by eapply Hok|by apply Hstop].
    - intros _. by apply Hstop.
    - intros _. by apply Hstop.
    - intros _. by apply Hstop. }
  all: unfold readEnvelopeLocked; apply wp_bind, wp_lift_error, wp_Lstat; try (intros _; by apply Hstop);
    rewrite E; try (apply wp_throw); by apply Hstop.
Qed.

Lemma next_loop_spec (entries : list (string * node)) (fs : store) :
  quarantine_within s fs ->
  (forall e n, e ∈ entries -> fs !! (pendingDir s, e.1) = Some n -> n = e.2) ->
  wp F (next_loop s now entries) (scanned entries fs) fs.
Proof.
  revert fs. induction entries as [|entry entries IH]; intros fs Hq Hin; cbn [next_loop].
  { apply wp_ret. split; [done|]. split; [by right|]. constructor. }
  assert (forall fs1, shrinks fs fs1 -> quarantine_within s fs1 -> settled entry.1 fs1 ->
    wp F (next_loop s now entries) (scanned (entry :: entries) fs) fs1) as Hrest.
  { intros fs1 Hsh Hq1 Hset. eapply wp_conseq.
    - apply IH; [done|]. intros e n He Hl. apply (Hin e n); [by constructor|].
      destruct (Hsh (pendingDir s, e.1) eq_refl) as [E|E]; [by rewrite E in Hl|by rewrite <- E].
    - intros o fs' H. by eapply scanned_cons. }
  assert (shrinks fs fs) as Hrefl by (by right).
  assert (forall o fs', shrinks fs fs' -> quarantine_within s fs' -> (forall r, o <> Done r) ->
    scanned (entry :: entries) fs o fs') as Hstop.
  { intros o fs' Hsh Hq1 Ho. split; [done|]. split; [done|]. destruct o as [r| |]; [|done|done].
    by destruct (Ho r). }
  destruct (is_item entry) eqn:Hi.
  2: { apply Hrest; [done|done|]. intros n Hn Hi'. destruct entry as [x m].
       pose proof (Hin (x, m) n ltac:(constructor) Hn) as ->. simpl in Hi'. by rewrite Hi in Hi'. }
  apply wp_bind, wp_attempt, read_any.
  - intros c perm e Hc He. destruct (expired s now e) eqn:Hexp.
    + apply wp_bind, wp_lift_error, remove_spec.
      * intros [[]| |] Ho; [done|apply Hstop; done|apply Hstop; done].
      * assert (quarantine_within s (delete (pendingDir s, entry.1) fs)) by (by apply quarantine_within_delete).
        intros [[]| |]; [|by apply Hstop; [apply delete_shrinks| |]..].
        apply Hrest; [apply delete_shrinks|done|]. apply settled_gone, lookup_delete_eq.
    + destruct (Z.ltb_spec now (NextAt e)) as [Hlt|Hge].
      * apply Hrest; [done|done|]. intros n Hn _. rewrite Hc in Hn. simplify_eq.
        by exists c, perm, e.
      * apply wp_ret. split; [done|]. split; [done|]. exists [], entry, entries.
        split; [done|]. split; [constructor|]. exists c, perm, e.
        unfold is_item in Hi. apply andb_true_iff in Hi as [_ Hi]. done.
  - intros o Ho. destruct o as [e|err|]; [by destruct (Ho e)| |by apply Hstop].
    apply wp_bind. eapply wp_conseq; [by apply quarantine_spec|].
    intros [[]|e|] fs1 Hset; pose proof (set_aside_shrinks _ _ _ _ _ Hset) as Hsh;
      destruct Hset as (_ & _ & Hq1 & Hdone); [|by apply Hstop..].
    apply Hrest; [done|done|]. by apply settled_gone, Hdone.
Qed.
End Order.
End Queue.

Lemma cleanup_spec (s : ProbeSpool) (F : fault -> Prop) now (fs : store) :
  spool_wf s -> quarantine_within s fs ->
  wp F (cleanupPendingLocked s now) (fun _ fs' => quarantine_within s fs' /\ shrinks s fs fs') fs.
Proof.
  intros Hwf Hq. unfold cleanupPendingLocked.
  assert (shrinks s fs fs) as Hrefl by (by right).
  apply wp_bind, wp_lift_error, wp_ReadDir; [|done|done].
  enough (forall entries fs1, quarantine_within s fs1 -> shrinks s fs fs1 ->
    wp F (cleanup_loop s now entries) (fun _ fs' => quarantine_within s fs' /\ shrinks s fs fs') fs1)
    by auto.
  induction entries as [|entry entries IH]; intros fs1 Hq1 Hsh1; [by apply wp_ret|].
  cbn [cleanup_loop]. apply wp_bind.
  eapply (wp_conseq F _ (fun _ fs' => quarantine_within s fs' /\ shrinks s fs fs'));
    [|intros [[]|e|] fs2 [? ?]; auto].
  assert (forall reason, wp F (quarantinePathLocked s (pendingDir s, entry.1) reason)
    (fun _ fs' => quarantine_within s fs' /\ shrinks s fs fs') fs1) as Hquar.
  { intros reason. eapply wp_conseq; [by apply quarantine_spec|]. intros o fs2 Hset.
    split; [by destruct Hset as (_ & _ & ? & _)|]. eapply shrinks_trans; [exact Hsh1|].
    by eapply set_aside_shrinks. }
  unfold cleanup_entry. case_match; [|apply Hquar].
  apply wp_bind, wp_attempt, read_any.
  - intros c perm e _ _. case_match; [|by apply wp_ret].
    apply wp_lift_error, remove_spec; intros [[]| |]; try done; intros;
      (split; [by apply quarantine_within_delete|]);
      (eapply shrinks_trans; [exact Hsh1|apply delete_shrinks]).
  - intros [e|e|] Ho; [by destruct (Ho e)|apply Hquar|done].
Qed.

(** ** Properties *)

(** C11. The atomic write is atomic.  Whatever operation fails and wherever the
    process dies, the target file holds its old content or the complete new
    content, with at most one temporary file beside it; when the call returns
    without error the new content is in place and no temporary is left. *)
Theorem atomic_write_is_atomic (p : path) (content : string) (fs : store) :
  HasSuffix p.2 ".json" = true ->
  wp any_fault (atomicWritePrivateFile p content)
    (fun o fs' =>
      (with_leftover p fs fs' \/ with_leftover p (<[p := NFile content 384]> fs) fs') /\
      (fs' !! p = fs !! p \/ fs' !! p = Some (NFile content 384)) /\
      (o = Done () -> fs' = <[p := NFile content 384]> fs)) fs.
Proof.
  intros Hp. eapply wp_conseq; [by apply atomicWrite_spec, json_not_temp|].
  intros o fs' [Hleft Hdone]. split; [done|]. split; [|done].
  destruct Hleft as [H|H]; rewrite (leftover_lookup _ _ _ _ H Hp); [by left|right].
  apply lookup_insert_eq.
Qed.

(** The backlog bounds hold after [Enqueue], whatever fails and wherever it
    crashes: if at most [MaxPendingItems] items and [MaxPendingBytes] bytes were
    pending before, so it is after. *)
Theorem enqueue_within_limits (s : ProbeSpool) rounds now free random (fs : store) :
  spool_wf s -> within s fs ->
  wp any_fault (Enqueue s rounds now free random) (fun _ fs' => within s fs') fs.
Proof.
  intros Hwf Hin. eapply wp_conseq.
  { apply (enqueue_spec s Hwf any_fault rounds now free random (within s)); [|done|done].
    apply keeps_cleanup, tolerant_within, Hwf. }
  intros o fs' (fs1 & _ & Hin1 & [[-> _]|(body & bytes & _ & _ & Hlen & Hc & Hb & Hleft & _)]); [done|].
  by eapply within_publish.
Qed.

Lemma enqueue_envelope_wf rounds now body :
  Forall round_wf rounds -> 0 < now <= maxInt64 -> marshalProbeResults rounds = Ok body ->
  envelope_wf (enqueue_envelope now body).
Proof.
  intros Hr Hnow Hm. destruct (marshal_facts rounds body Hr Hm) as (_ & Hb & Ht).
  assert (minInt64 <= 0) by (by vm_compute).
  split; simpl; try done; unfold UnixNano; rewrite i64_id by (unfold in_i64; lia); lia.
Qed.

Lemma load_stored (s : ProbeSpool) id e (fs : store) :
  pendingPathLocked s id = Ok (item_path s id) -> stores s id e fs ->
  wp no_fault (Load s id)
    (fun o fs' => fs' = fs /\ o = Done (mkItem id (Batch e) (Created e) (Attempt e) (NextAt e))) fs.
Proof.
  intros Hid Hst. unfold Load. rewrite Hid. apply wp_bind, wp_ret, wp_bind.
  eapply read_stored; [exact Hst|by apply wp_ret|by intros [n Hn]..].
Qed.

(** C9. What [Enqueue] accepts is durable: under any schedule of I/O errors, if
    it returns an identifier, [Load] of that identifier gives back exactly the
    bytes of the batch, created now, due now, with no attempt yet. *)
Theorem enqueue_load_round_trip (s : ProbeSpool) rounds now free random (fs : store) :
  spool_wf s -> within s fs -> Forall round_wf rounds -> 0 < now <= maxInt64 ->
  wp any_fault (Enqueue s rounds now free random)
    (fun o fs' => forall id, o = Done id ->
      exists body, marshalProbeResults rounds = Ok body /\
      wp no_fault (Load s id) (fun o' fs'' => fs'' = fs' /\ o' = Done (mkItem id body now 0 now)) fs')
    fs.
Proof.
  intros Hwf Hin Hr Hnow. eapply wp_conseq.
  { apply (enqueue_spec s Hwf any_fault rounds now free random (within s)); [|done|done].
    apply keeps_cleanup, tolerant_within, Hwf. }
  intros o fs' (fs1 & _ & _ & [[_ Hno]|(body & bytes & Hm & _ & Hlen & _ & _ & _ & Hdone)]) id Ho;
    [by destruct (Hno id)|].
  destruct (Hdone id Ho) as [-> ->]. exists body. split; [done|].
  assert (minInt64 <= 0) by (by vm_compute).
  eapply wp_conseq.
  - apply (load_stored s _ (enqueue_envelope now body)); [apply pendingPath_newID|].
    split_and!; [apply lookup_insert_eq|by eapply enqueue_envelope_wf|done].
  - intros o' fs'' [-> ->]. split; [done|]. simpl. unfold UnixNano.
    rewrite i64_id by (unfold in_i64; lia). done.
Qed.

Lemma schedule_retry_spec (s : ProbeSpool) (F : fault -> Prop) id e attempt nextAt (fs : store) :
  pendingPathLocked s id = Ok (item_path s id) -> stores s id e fs ->
  0 <= attempt < two32 -> 0 < nextAt <= maxInt64 ->
  wp F (ScheduleRetry s id attempt nextAt)
    (fun o fs' =>
      (stores s id e fs' \/ stores s id (retry_envelope attempt nextAt e) fs') /\
      (o = Done () -> stores s id (retry_envelope attempt nextAt e) fs') /\
      others_same s (item_path s id) fs fs') fs.
Proof.
  intros Hid Hst Hat Hnext. unfold ScheduleRetry. rewrite Hid. apply wp_bind, wp_ret, wp_bind.
  assert (forall o : outcome spool_error (), o <> Done () ->
    (stores s id e fs \/ stores s id (retry_envelope attempt nextAt e) fs) /\
    (o = Done () -> stores s id (retry_envelope attempt nextAt e) fs) /\
    others_same s (item_path s id) fs fs) as Hstop by (intros; split_and!; [by left|done|done]).
  eapply read_stored; [exact Hst| |intros _; by apply Hstop..].
  assert (minInt64 <= 0 /\ time_zero < 0) as [? ?] by (by vm_compute).
  assert (envelope_wf (retry_envelope attempt nextAt e)) as Hwf'.
  { destruct Hst as (_ & [? ? ? ? ? ? ?] & _). split; simpl; try done.
    unfold UnixNano. rewrite i64_id by (unfold in_i64; lia). lia. }
  destruct (Z.eqb_spec nextAt time_zero); [lia|]. cbv zeta.
  destruct (Z.ltb_spec (MaxItemBytes (limits s)) (str_len (envelope_text (retry_envelope attempt nextAt e))))
    as [Hbig|Hsize]; [apply wp_throw; by apply Hstop|].
  apply wp_bind, wp_lift_error. eapply wp_conseq.
  { apply atomicWrite_spec, json_not_temp, item_path_json. }
  assert (forall (ok : Prop) (fs' : store), with_leftover (item_path s id) fs fs' \/ with_leftover (item_path s id)
      (replaced (item_path s id) (envelope_text (retry_envelope attempt nextAt e)) fs) fs' ->
    (ok -> fs' = replaced (item_path s id) (envelope_text (retry_envelope attempt nextAt e)) fs) ->
    (stores s id e fs' \/ stores s id (retry_envelope attempt nextAt e) fs') /\
    (ok -> stores s id (retry_envelope attempt nextAt e) fs') /\
    others_same s (item_path s id) fs fs') as Hend.
  { intros ok fs' Hleft Hdone. split_and!.
    - unfold stores. destruct Hleft as [H'|H']; rewrite (leftover_lookup _ _ _ _ H' (item_path_json s id));
        [by left|right]. split; [apply lookup_insert_eq|done].
    - intros Ho. rewrite (Hdone Ho). split; [apply lookup_insert_eq|done].
    - by eapply leftover_others. }
  intros [[]|err|] fs' [Hleft Hdone]; [apply wp_signal|..]; apply Hend; try done; intros _; by apply Hdone.
Qed.

(** [ScheduleRetry] is atomic and changes one item only.  Under any faults
    the item is still there afterwards, with its old or its new attempt counter
    and retry time and the same batch; on success it is the new one; no other
    pending item is touched. *)
Theorem schedule_retry_atomic (s : ProbeSpool) id e attempt nextAt (fs : store) :
  pendingPathLocked s id = Ok (item_path s id) -> stores s id e fs ->
  0 <= attempt < two32 -> 0 < nextAt <= maxInt64 ->
  wp any_fault (ScheduleRetry s id attempt nextAt)
    (fun o fs' =>
      (stores s id e fs' \/ stores s id (retry_envelope attempt nextAt e) fs') /\
      (o = Done () -> stores s id (retry_envelope attempt nextAt e) fs') /\
      others_same s (item_path s id) fs fs') fs.
Proof. apply schedule_retry_spec. Qed.

Lemma next_spec (s : ProbeSpool) (F : fault -> Prop) now (fs : store) :
  spool_wf s -> quarantine_within s fs ->
  wp F (Next s now)
    (fun o fs' => quarantine_within s fs' /\
      (forall item, o = Done (Some item) -> exists name, selected s now name item fs' /\
        forall name' n, fs' !! (pendingDir s, name') = Some n -> is_item (name', n) = true ->
          String.le name' name -> name' <> name -> waiting s now n) /\
      (o = Done None -> forall name' n, fs' !! (pendingDir s, name') = Some n ->
        is_item (name', n) = true -> waiting s now n)) fs.
Proof.
  intros Hwf Hq. unfold Next. apply wp_bind. eapply wp_conseq; [by apply cleanup_spec|].
  intros [[]|e|] fs1 [Hq1 _]; [|by split_and!; intros..].
  apply wp_bind, wp_lift_error, wp_ReadDir; [|intros _; by split_and!; intros..].
  eapply wp_conseq.
  { apply next_loop_spec; [done|done|]. intros [x m] n He Hn. simpl in *.
    apply elem_of_dir_entries in He. by simplify_eq. }
  intros o fs' (Hq2 & Hsh & Ho).
  assert (forall name n, fs' !! (pendingDir s, name) = Some n ->
    (name, n) ∈ dir_entries fs1 (pendingDir s)) as Hlisted.
  { intros name n Hn. apply elem_of_dir_entries.
    destruct (Hsh (pendingDir s, name) eq_refl) as [E|E]; [by rewrite E in Hn|by rewrite <- E]. }
  split_and!; [done| |].
  - intros item ->. destruct Ho as (pre & x & post & E & Hpre & Hx). exists x.1. split; [done|].
    intros name n Hn Hi Hle Hne. pose proof (Hlisted _ _ Hn) as Hin. rewrite E in Hin.
    apply elem_of_app in Hin as [Hin|Hin].
    + rewrite Forall_forall in Hpre. by apply (Hpre _ Hin n).
    + exfalso. apply elem_of_cons in Hin as [<-|Hin]; [done|].
      apply Hne, (anti_symm String.le); [done|].
      exact (dir_entries_sorted fs1 (pendingDir s) pre post x (name, n) E Hin).
  - intros -> name n Hn Hi. rewrite Forall_forall in Ho. apply (Ho (name, n)); [|done|done].
    by apply Hlisted.
Qed.

(** C27. [Next] hands out the first due item in name order, which is creation
    order while the clock does not go back.  Under any faults, a returned item is a pending file that decodes, is
    not expired and is due, and every pending item with a smaller name waits for
    its retry time; when nothing is returned, every pending item waits. *)
Theorem next_selects_first_due (s : ProbeSpool) now (fs : store) :
  spool_wf s -> quarantine_within s fs ->
  wp any_fault (Next s now)
    (fun o fs' =>
      (forall item, o = Done (Some item) -> exists name, selected s now name item fs' /\
        forall name' n, fs' !! (pendingDir s, name') = Some n -> is_item (name', n) = true ->
          String.le name' name -> name' <> name -> waiting s now n) /\
      (o = Done None -> forall name' n, fs' !! (pendingDir s, name') = Some n ->
        is_item (name', n) = true -> waiting s now n)) fs.
Proof.
  intros Hwf Hq. eapply wp_conseq; [by apply next_spec|]. by intros o fs' [_ H].
Qed.

(** C6. A readable, unexpired batch is not lost as long as reads do not fail:
    across [Next] and [Enqueue] its file stays exactly as it is, even if the
    process dies in the middle of the clean-up, the quarantine or the write of
    another item, and whatever errors the operations that write, flush, rename
    or remove files have; the identifier that [Enqueue] draws must not be that of
    the batch.  A failed read is excluded because the clean-up takes it for an
    invalid item. *)
Theorem live_items_survive (s : ProbeSpool) rounds now free random name c perm (fs : store) :
  spool_wf s -> within s fs -> HasSuffix name ".json" = true -> live s now c ->
  fs !! (pendingDir s, name) = Some (NFile c perm) ->
  (forall bytes, random = Some bytes -> name <> newID now bytes +:+ ".json") ->
  wp reads_work (Next s now) (fun _ fs' => fs' !! (pendingDir s, name) = Some (NFile c perm)) fs /\
  wp reads_work (Enqueue s rounds now free random)
    (fun _ fs' => fs' !! (pendingDir s, name) = Some (NFile c perm)) fs.
Proof.
  intros Hwf Hin Hname Hlive Hh Hfresh. split.
  - exact (keeps_next_here s Hwf now name c perm Hname Hlive fs Hh).
  - eapply wp_conseq.
    { apply (enqueue_spec s Hwf reads_work rounds now free random
        (fun fs => fs !! (pendingDir s, name) = Some (NFile c perm))); [|exact Hh|exact Hin].
      exact (keeps_cleanup_here s Hwf now name c perm Hname Hlive). }
    intros o fs' (fs1 & Hh1 & _ & [[-> _]|(body & bytes & _ & Hr & _ & _ & _ & Hleft & _)]); [done|].
    rewrite <- Hh1. apply (leftover_others s _ _ _ _ Hleft); [done|done|].
    intros E. apply (Hfresh bytes Hr). unfold item_path in E. by injection E.
Qed.

(** C28. The quarantine keeps the evidence and its bounds.  Under any faults the
    file stays in the queue or, if it fits, is found in the quarantine with
    exactly its bytes; success means the latter, with mode 0600; nothing else in
    the queue is touched, and the quarantine never holds more than
    [MaxQuarantineItems] entries or [MaxQuarantineBytes] bytes. *)
Theorem quarantine_bounded_and_exact (s : ProbeSpool) id reason c perm (fs : store) :
  spool_wf s -> pendingPathLocked s id = Ok (item_path s id) -> quarantine_within s fs ->
  fs !! item_path s id = Some (NFile c perm) ->
  wp any_fault (Quarantine s id reason)
    (fun o fs' => quarantine_within s fs' /\
      (forall q, q.1 = pendingDir s -> q <> item_path s id -> fs' !! q = fs !! q) /\
      (fs' !! item_path s id = fs !! item_path s id \/ fs' !! item_path s id = None /\
        (str_len c <= MaxQuarantineBytes (limits s) ->
          exists perm', fs' !! quarantine_path s (item_path s id) reason = Some (NFile c perm'))) /\
      (o = Done () -> fs' !! item_path s id = None /\
        (str_len c <= MaxQuarantineBytes (limits s) ->
          fs' !! quarantine_path s (item_path s id) reason = Some (NFile c 384)))) fs.
Proof.
  intros Hwf Hid Hq Hc. unfold Quarantine. rewrite Hid. apply wp_bind, wp_ret.
  eapply wp_conseq; [by apply quarantine_spec|]. intros o fs' (Hout & Hgone & Hq' & Hdone).
  split; [done|]. split_and!.
  - intros q Hqd Hne. apply Hout; [|done]. rewrite Hqd. apply (wf_dirs s Hwf).
  - destruct Hgone as [Hp|[Hp Hev]]; [by left|right]. split; [done|]. intros Hle. by eapply Hev.
  - intros Ho. destruct (Hdone Ho) as [Hg Hev]. split; [done|]. intros Hle. by eapply Hev.
Qed.

(** [Ack] removes its item and nothing else: when it returns without error
    the file is gone for good, when it fails or the process dies the file is
    untouched or gone, and every other file is as it was. *)
Theorem ack_removes_its_item (s : ProbeSpool) id (fs : store) :
  pendingPathLocked s id = Ok (item_path s id) ->
  wp any_fault (Ack s id)
    (fun o fs' => (fs' = fs \/ fs' = delete (item_path s id) fs) /\
      (o = Done () -> fs' = delete (item_path s id) fs)) fs.
Proof.
  intros Hid. unfold Ack. rewrite Hid. apply wp_bind, wp_ret, wp_lift_error, remove_spec.
  - intros [[]| |] Ho; [done|by split; [left|]..].
  - intros [[]| |]; by split; [right|].
Qed.

(** ** Order of identifiers *)
Lemma compare_app_same (p x y : string) :
  String.compare (p +:+ x) (p +:+ y) = String.compare x y.
Proof.
  induction p as [|c p IH]; [done|]. rewrite !app_cons_str. simpl.
  unfold Ascii.compare. by rewrite N.compare_refl.
Qed.

Lemma compare_app_lt (p q x y : string) :
  String.length p = String.length q -> String.compare p q = Lt ->
  String.compare (p +:+ x) (q +:+ y) = Lt.
Proof.
  revert q. induction p as [|c p IH]; intros [|d q]; simpl; try done.
  intros [= Hl]. destruct (Ascii.compare c d); auto.
Qed.

Lemma compare_digits w : forall a b, 0 <= a < b -> b < 10 ^ Z.of_nat w ->
  String.compare (fixed_digits w a "") (fixed_digits w b "") = Lt.
Proof.
  induction w as [|w IH]; intros a b Hab Hb; [simpl in Hb; lia|].
  cbn [fixed_digits]. rewrite (fixed_digits_app w (a / 10)), (fixed_digits_app w (b / 10)).
  rewrite Nat2Z.inj_succ, Z.pow_succ_r in Hb by lia.
  pose proof (Z.div_mod a 10 ltac:(lia)). pose proof (Z.div_mod b 10 ltac:(lia)).
  pose proof (mod10_range a). pose proof (mod10_range b).
  assert (0 <= a / 10 /\ b / 10 < 10 ^ Z.of_nat w) as [? ?].
  { split; [apply Z.div_pos; lia|apply Z.div_lt_upper_bound; lia]. }
  destruct (decide (a / 10 = b / 10)) as [E|Hne].
  - rewrite E, compare_app_same. simpl.
    assert (Ascii.compare (digit_chr (a mod 10)) (digit_chr (b mod 10)) = Lt) as ->; [|done].
    apply N.compare_lt_iff. destruct (digit_chr_spec (a mod 10) ltac:(lia)) as (_ & _ & Ha).
    destruct (digit_chr_spec (b mod 10) ltac:(lia)) as (_ & _ & Hb').
    unfold byte_val in *. lia.
  - apply compare_app_lt; [by rewrite !fixed_digits_length|]. apply IH; lia.
Qed.

(** Name order is creation order: an item created at an earlier nanosecond
    has a smaller file name, whatever its random part. *)
Theorem earlier_items_sort_first t1 t2 r1 r2 :
  0 <= t1 < t2 -> t2 <= maxInt64 ->
  String.compare (newID t1 r1 +:+ ".json") (newID t2 r2 +:+ ".json") = Lt.
Proof.
  intros H1 H2. assert (minInt64 <= 0 /\ maxInt64 < 10 ^ Z.of_nat 20) as [? ?] by (by vm_compute).
  unfold newID, pad020, UnixNano. rewrite !i64_id by (unfold in_i64; lia).
  destruct (Z.ltb_spec t1 0); [lia|]. destruct (Z.ltb_spec t2 0); [lia|].
  rewrite !app_assoc_str. apply compare_app_lt; [by rewrite !fixed_digits_length|].
  apply compare_digits; lia.
Qed.

(** ** Witnesses *)
Definition demo_spool : ProbeSpool :=
  mkSpool "/d/probe-spool" "/d/probe-spool/pending" "/d/probe-spool/quarantine" DefaultProbeSpoolLimits.
Definition demo_round : ProbeRound :=
  mkProbeRound "r1" 3 "t1" (1700000000 * Second) "tcp"
    [mkProbeSample 0 true (Some (f64_of_Z 12)) ""; mkProbeSample 1 false None "timeout"].
Definition demo_now : Z := 1700000001 * Second.
Definition demo_random : string := "0123456789abcdef".
Definition demo_body : string :=
  match marshalProbeResults [demo_round] with Ok b => b | Err _ => "" end.
Definition demo_envelope : probeSpoolEnvelope := enqueue_envelope demo_now demo_body.
Definition demo_id : string := newID demo_now demo_random.
Definition demo_store : store :=
  {[ item_path demo_spool demo_id := NFile (envelope_text demo_envelope) 384 ]}.

Lemma demo_wf : spool_wf demo_spool.
Proof. split; try done; by vm_compute. Qed.

Lemma demo_rounds : Forall round_wf [demo_round].
Proof. repeat constructor; by vm_compute. Qed.

Lemma demo_marshal : marshalProbeResults [demo_round] = Ok demo_body.
Proof. vm_compute. reflexivity. Qed.

Lemma demo_stores : stores demo_spool demo_id demo_envelope demo_store.
Proof.
  split; [apply lookup_insert_eq|]. split; [|by vm_compute].
  eapply enqueue_envelope_wf; [apply demo_rounds|by vm_compute|apply demo_marshal].
Qed.

Lemma demo_pending_path : pendingPathLocked demo_spool demo_id = Ok (item_path demo_spool demo_id).
Proof. apply pendingPath_newID. Qed.

Lemma demo_within : within demo_spool demo_store.
Proof. by vm_compute. Qed.

Lemma demo_quarantine_within : quarantine_within demo_spool demo_store.
Proof. by vm_compute. Qed.

Lemma atomic_write_is_atomic_witness :
  HasSuffix (item_path demo_spool demo_id).2 ".json" = true /\
  wp any_fault (atomicWritePrivateFile (item_path demo_spool demo_id) "new")
    (fun o fs' =>
      (with_leftover (item_path demo_spool demo_id) demo_store fs' \/
        with_leftover (item_path demo_spool demo_id)
          (<[item_path demo_spool demo_id := NFile "new" 384]> demo_store) fs') /\
      (fs' !! item_path demo_spool demo_id = demo_store !! item_path demo_spool demo_id \/
        fs' !! item_path demo_spool demo_id = Some (NFile "new" 384)) /\
      (o = Done () -> fs' = <[item_path demo_spool demo_id := NFile "new" 384]> demo_store)) demo_store.
Proof.
  split; [vm_compute; reflexivity|]. apply atomic_write_is_atomic. vm_compute. reflexivity.
Defined.

Lemma enqueue_within_limits_witness :
  wp any_fault (Enqueue demo_spool [demo_round] demo_now (Ok 1000000000) (Some "fedcba9876543210"))
    (fun _ fs' => within demo_spool fs') demo_store.
Proof. apply enqueue_within_limits; [apply demo_wf|apply demo_within]. Defined.

Lemma enqueue_load_round_trip_witness :
  wp any_fault (Enqueue demo_spool [demo_round] demo_now (Ok 1000000000) (Some demo_random))
    (fun o fs' => forall id, o = Done id ->
      exists body, marshalProbeResults [demo_round] = Ok body /\
      wp no_fault (Load demo_spool id)
        (fun o' fs'' => fs'' = fs' /\ o' = Done (mkItem id body demo_now 0 demo_now)) fs') ∅.
Proof.
  apply enqueue_load_round_trip; [apply demo_wf|by vm_compute|apply demo_rounds|by vm_compute].
Defined.

Lemma schedule_retry_atomic_witness :
  wp any_fault (ScheduleRetry demo_spool demo_id 1 (demo_now + Second))
    (fun o fs' =>
      (stores demo_spool demo_id demo_envelope fs' \/
        stores demo_spool demo_id (retry_envelope 1 (demo_now + Second) demo_envelope) fs') /\
      (o = Done () ->
        stores demo_spool demo_id (retry_envelope 1 (demo_now + Second) demo_envelope) fs') /\
      others_same demo_spool (item_path demo_spool demo_id) demo_store fs') demo_store.
Proof.
  apply schedule_retry_atomic; [apply demo_pending_path|apply demo_stores|by vm_compute..].
Defined.

Lemma next_selects_first_due_witness :
  wp any_fault (Next demo_spool demo_now)
    (fun o fs' =>
      (forall item, o = Done (Some item) -> exists name, selected demo_spool demo_now name item fs' /\
        forall name' n, fs' !! (pendingDir demo_spool, name') = Some n -> is_item (name', n) = true ->
          String.le name' name -> name' <> name -> waiting demo_spool demo_now n) /\
      (o = Done None -> forall name' n, fs' !! (pendingDir demo_spool, name') = Some n ->
        is_item (name', n) = true -> waiting demo_spool demo_now n)) demo_store.
Proof. apply next_selects_first_due; [apply demo_wf|apply demo_quarantine_within]. Defined.

Lemma demo_live : live demo_spool demo_now (envelope_text demo_envelope).
Proof.
  split; [by vm_compute|]. exists demo_envelope. split; [|by vm_compute].
  apply envelope_roundtrip, demo_stores.
Qed.

Lemma live_items_survive_witness :
  wp reads_work (Next demo_spool demo_now)
    (fun _ fs' => fs' !! (pendingDir demo_spool, demo_id +:+ ".json") =
      Some (NFile (envelope_text demo_envelope) 384)) demo_store /\
  wp reads_work (Enqueue demo_spool [demo_round] demo_now (Ok 1000000000) (Some "fedcba9876543210"))
    (fun _ fs' => fs' !! (pendingDir demo_spool, demo_id +:+ ".json") =
      Some (NFile (envelope_text demo_envelope) 384)) demo_store.
Proof.
  apply live_items_survive;
    [apply demo_wf|apply demo_within|by vm_compute|apply demo_live|apply demo_stores|].
  intros bytes [= <-]. vm_compute. discriminate.
Defined.

Lemma quarantine_bounded_and_exact_witness :
  wp any_fault (Quarantine demo_spool demo_id "http-409-stale_probe_config")
    (fun o fs' => quarantine_within demo_spool fs' /\
      (forall q, q.1 = pendingDir demo_spool -> q <> item_path demo_spool demo_id ->
        fs' !! q = demo_store !! q) /\
      (fs' !! item_path demo_spool demo_id = demo_store !! item_path demo_spool demo_id \/
        fs' !! item_path demo_spool demo_id = None /\
        (str_len (envelope_text demo_envelope) <= MaxQuarantineBytes (limits demo_spool) ->
          exists perm', fs' !! quarantine_path demo_spool (item_path demo_spool demo_id)
            "http-409-stale_probe_config" = Some (NFile (envelope_text demo_envelope) perm'))) /\
      (o = Done () -> fs' !! item_path demo_spool demo_id = None /\
        (str_len (envelope_text demo_envelope) <= MaxQuarantineBytes (limits demo_spool) ->
          fs' !! quarantine_path demo_spool (item_path demo_spool demo_id) "http-409-stale_probe_config" =
            Some (NFile (envelope_text demo_envelope) 384)))) demo_store.
Proof.
  apply (quarantine_bounded_and_exact demo_spool demo_id "http-409-stale_probe_config" _ 384);
    [apply demo_wf|apply demo_pending_path|apply demo_quarantine_within|apply demo_stores].
Defined.

Lemma ack_removes_its_item_witness :
  wp any_fault (Ack demo_spool demo_id)
    (fun o fs' => (fs' = demo_store \/ fs' = delete (item_path demo_spool demo_id) demo_store) /\
      (o = Done () -> fs' = delete (item_path demo_spool demo_id) demo_store)) demo_store.
Proof. apply ack_removes_its_item, demo_pending_path. Defined.

Lemma earlier_items_sort_first_witness :
  0 <= demo_now < demo_now + 1 /\ String.compare (newID demo_now "zzzzzzzzzzzzzzzz" +:+ ".json")
    (newID (demo_now + 1) "0000000000000000" +:+ ".json") = Lt.
Proof. split; [by vm_compute|]. apply earlier_items_sort_first; by vm_compute. Defined.

(** An undisturbed run: enqueue, then the next item is the batch. *)
Example demo_enqueue_next :
  let w := mkWorld ∅ [] ["1"; "2"] false in
  let '(w1, o1) := Enqueue demo_spool [demo_round] demo_now (Ok 1000000000) (Some demo_random) w in
  let '(w2, o2) := Next demo_spool (demo_now + Second) w1 in
  o1 = Done demo_id /\
  o2 = Done (Some (mkItem demo_id demo_body demo_now 0 demo_now)) /\ notified w2 = true /\
  bool_decide (files w2 = demo_store) = true.
Proof. vm_compute. done. Qed.
