(* ===== verification/ProbeSpoolInit.v ===== *)
(** * Opening the spool (probe_spool.go, probe_spool_fs_unix.go)

    The private directories under the data directory: made, and never reached
    through a link or a file in their place. *)

From S2P Require Export ProbeSpool LogFile.

(** ** [os.Stat], [os.MkdirAll] *)
Section Dirs.
(** Whether the target of a link is, at its end, a directory; [None]: dangling. *)
Context (resolves : string -> option bool).

Definition Stat_IsDir (p : path) : M os_error bool :=
  os_call (fun fs =>
    match fs !! p with
    | None => Err ErrNotExist
    | Some (NDir _) => Ok (fs, true)
    | Some (NSymlink t) => match resolves t with Some b => Ok (fs, b) | None => Err ErrNotExist end
    | Some _ => Ok (fs, false)
    end).

(** Making a directory also fills its parent. *)
Definition Mkdir (parent : option path) (p : path) : M os_error () :=
  os_call (fun fs =>
    match fs !! p with
    | Some _ => Err ErrIO
    | None =>
        let fill n := match n with NDir _ => NDir false | n => n end in
        Ok (<[p := NDir true]> (match parent with Some q => alter fill q fs | None => fs end), ())
    end).

(** The directories a path goes through, the last one first. *)
Fixpoint dir_chain (dir : string) (components : list string) (acc : list path) : list path :=
  match components with
  | [] => acc
  | c :: components => dir_chain (path_join dir c) components ((dir, c) :: acc)
  end.
Definition path_chain (p : string) : list path :=
  dir_chain "/" (List.filter (fun c => negb (bool_decide (c = ""))) (Split p "/")) [].

Fixpoint mkdir_all (chain : list path) : M os_error () :=
  match chain with
  | [] => mret ()
  | p :: parents =>
      info ← attempt (Stat_IsDir p);
      match info with
      | Ok true => mret ()
      | Ok false => throw ErrIO
      | Err _ =>
          mkdir_all parents;;
          made ← attempt (Mkdir (head parents) p);
          match made with
          | Ok _ => mret ()
          | Err e =>
              info ← attempt (Lstat p);
              match info with Ok (NDir _) => mret () | _ => throw e end
          end
      end
  end.

(** ** probe_spool_fs_unix.go *)
Inductive dir_error : Type := DirOS (e : os_error) | UnsafeDirectory.

(** [p] is the path, [chain] the directories it goes through. *)
Definition ensure_chain (p : path) (chain : list path) : M dir_error () :=
  info ← attempt (Lstat p);
  match info with
  | Ok info => if is_dir info then mret () else throw UnsafeDirectory
  | Err ErrNotExist => mret ()
  | Err e => throw (DirOS e)
  end;;
  lift_error DirOS (mkdir_all chain);;
  lift_error DirOS (Chmod p 448);;
  info ← lift_error DirOS (Lstat p);
  if is_dir info then mret () else throw UnsafeDirectory.

Definition ensurePrivateDirectory (p : string) : M dir_error () := ensure_chain (split_path p) (path_chain p).

(** [diskFreeBytes], from what [statfs] stored. *)
Definition diskFreeBytes (stat : result os_error (Z * Z)) : result os_error Z :=
  match stat with
  | Err e => Err e
  | Ok (bavail, bsize) => Ok (u64 (u64 bavail * u64 bsize))
  end.

(** ** probe_spool.go: the whole of [NewProbeSpool] *)
Inductive open_error : Type := BadOptions (e : spool_error) | PrepareDirectory (e : dir_error).

Fixpoint ensure_all (ps : list string) : M open_error () :=
  match ps with
  | [] => mret ()
  | p :: ps => lift_error PrepareDirectory (ensurePrivateDirectory p);; ensure_all ps
  end.

Definition spool_directories (dataDir : string) (s : ProbeSpool) : list string :=
  [clean_abs dataDir; root s; pendingDir s; quarantineDir s].

Definition open_spool (dataDir : string) (l : ProbeSpoolLimits) : M open_error ProbeSpool :=
  s ← lift_error BadOptions (from_result (NewProbeSpool dataDir l));
  ensure_all (spool_directories dataDir s);;
  mret s.
End Dirs.

Example open_spool_1 :
  let w := mkWorld {[("/", "var") := NDir false]} [] [] false in
  let '(w', o) := open_spool (fun _ => None) "/var/lib/zeno" (mkLimits 0 0 0 0 0 0 0) w in
  (match o with Done s => pendingDir s | _ => "" end, map_size (files w')) =
  ("/var/lib/zeno/probe-spool/pending", 6%nat).
Proof. vm_compute. reflexivity. Qed.
Example open_spool_2 :
  let w := mkWorld {[("/", "var") := NDir false; ("/var", "lib") := NSymlink "/tmp"]} [] [] false in
  snd (open_spool (fun _ => Some true) "/var/lib" (mkLimits 0 0 0 0 0 0 0) w) = Fail (PrepareDirectory UnsafeDirectory).
Proof. vm_compute. reflexivity. Qed.

(** ** What opening changes *)

(** Only directories were added; a directory may have been filled. *)
Definition dirs_added (fs fs' : store) : Prop := forall q,
  match fs !! q with
  | None => fs' !! q = None \/ exists b, fs' !! q = Some (NDir b)
  | Some (NDir _) => exists b, fs' !! q = Some (NDir b)
  | Some n => fs' !! q = Some n
  end.

Lemma dirs_added_refl fs : dirs_added fs fs.
Proof. intros q. destruct (fs !! q) as [[]|]; eauto. Qed.

Lemma dirs_added_trans fs1 fs2 fs3 : dirs_added fs1 fs2 -> dirs_added fs2 fs3 -> dirs_added fs1 fs3.
Proof.
  intros H12 H23 q. specialize (H12 q). specialize (H23 q).
  destruct (fs1 !! q) as [[]|]; try (by rewrite H12 in H23).
  - destruct H12 as [b H12]. by rewrite H12 in H23.
  - destruct H12 as [H12|[b H12]]; rewrite H12 in H23; [done|by right].
Qed.

Section Opening.
Context (resolves : string -> option bool).

Lemma keeps_Mkdir fs0 parent p : keeps any_fault (dirs_added fs0) (Mkdir parent p).
Proof.
  apply keeps_os_call. intros fs fs' a Hi. destruct (fs !! p) eqn:Ep; [done|]. intros [= <- _].
  apply (dirs_added_trans fs0 fs); [done|]. intros q. destruct (decide (q = p)) as [->|Hq].
  { rewrite Ep, lookup_insert_eq. eauto. }
  rewrite lookup_insert_ne by done. destruct parent as [r|]; [|apply dirs_added_refl].
  destruct (decide (q = r)) as [->|Hqr]; [rewrite lookup_alter_eq|rewrite lookup_alter_ne by done; apply dirs_added_refl].
  destruct (fs !! r) as [[]|]; cbn; eauto.
Qed.

Lemma keeps_mkdir_all fs0 chain : keeps any_fault (dirs_added fs0) (mkdir_all resolves chain).
Proof.
  induction chain as [|p parents IH]; cbn [mkdir_all]; [apply keeps_ret|].
  apply keeps_bind.
  { apply keeps_attempt, keeps_os_call. intros fs fs' a Hi. destruct (fs !! p) as [[]|]; try done.
    all: try (by intros [= <- _]). destruct (resolves target); [by intros [= <- _]|done]. }
  intros [[]|]; [apply keeps_ret|apply keeps_throw|]. apply keeps_bind; [done|]. intros _.
  apply keeps_bind; [apply keeps_attempt, keeps_Mkdir|]. intros [_|e']; [apply keeps_ret|].
  apply keeps_bind; [apply keeps_attempt, keeps_Lstat|]. intros [[? ?|?|?|]|?]; apply keeps_ret || apply keeps_throw.
Qed.
End Opening.

Section Result.
Context (resolves : string -> option bool).

Definition real_dir (fs : store) (p : path) : Prop := exists b, fs !! p = Some (NDir b).

(** Nothing but a directory can be at [p]. *)
Definition dir_or_none (fs : store) (p : path) : Prop := fs !! p = None \/ real_dir fs p.

Lemma dir_or_none_added fs fs' p : dirs_added fs fs' -> dir_or_none fs p -> dir_or_none fs' p.
Proof. intros H [Hp|[b Hp]]; specialize (H p); rewrite Hp in H; [done|by right]. Qed.

Lemma ensure_rest_spec p chain fs : dir_or_none fs p ->
  wp any_fault (lift_error DirOS (mkdir_all resolves chain);;
    lift_error DirOS (Chmod p 448);;
    info ← lift_error DirOS (Lstat p);
    if is_dir info then mret () else throw UnsafeDirectory)
    (fun o fs' => dirs_added fs fs' /\ (o = Done () -> real_dir fs' p)) fs.
Proof.
  intros Hp. apply wp_bind, wp_lift_error. eapply wp_conseq; [apply (keeps_mkdir_all resolves fs), dirs_added_refl|].
  intros [[]|e|] fs1 H1; cbn beta iota; [|by split..]. pose proof (dir_or_none_added _ _ _ H1 Hp) as Hp1.
  apply wp_bind, wp_lift_error, wp_os_call; [|by split|].
  2: { intros _. split; [by split|]. destruct Hp1 as [Hp1|[b Hp1]]; rewrite Hp1; by split. }
  destruct Hp1 as [Hp1|[b Hp1]]; rewrite Hp1; cbn beta iota; [by split|].
  apply wp_bind, wp_lift_error, wp_Lstat; [|by split..]. rewrite Hp1. cbn. apply wp_ret. split; [done|].
  intros _. by exists b.
Qed.

Lemma ensure_chain_spec p chain fs : wp any_fault (ensure_chain resolves p chain) (fun o fs' =>
  dirs_added fs fs' /\ (o = Done () -> real_dir fs' p)) fs.
Proof.
  pose proof (dirs_added_refl fs) as Hr.
  unfold ensure_chain. apply wp_bind, wp_attempt, wp_Lstat; [|intros _; apply wp_bind, wp_throw; by split|by split].
  destruct (fs !! p) as [n|] eqn:Ep; cbn beta iota.
  - destruct n as [c perm|b|t|]; cbn; [apply wp_bind, wp_throw; by split| |apply wp_bind, wp_throw; by split..].
    apply wp_bind, wp_ret, ensure_rest_spec. right. by exists b.
  - apply wp_bind, wp_ret, ensure_rest_spec. by left.
Qed.

Lemma ensure_all_spec ps : forall fs, wp any_fault (ensure_all resolves ps) (fun o fs' =>
  dirs_added fs fs' /\ (o = Done () -> Forall (fun p => real_dir fs' (split_path p)) ps)) fs.
Proof.
  induction ps as [|p ps IH]; intros fs; cbn [ensure_all].
  { apply wp_ret. split; [apply dirs_added_refl|by constructor]. }
  apply wp_bind, wp_lift_error. eapply wp_conseq; [apply ensure_chain_spec|].
  intros [[]|e|] fs1 [H1 Hd]; cbn beta iota; [|by split..]. eapply wp_conseq; [apply IH|].
  intros o fs2 [H2 Hs]. split; [by eapply dirs_added_trans|]. intros Ho. constructor; [|auto].
  destruct (Hd eq_refl) as [b Hb]. specialize (H2 (split_path p)). by rewrite Hb in H2.
Qed.
End Result.

(** Opening the spool, whatever fails and wherever the process dies, only adds directories: no file, link or device is
    replaced or re-permissioned; and when it succeeds, the data directory, the spool and its two directories
    are directories themselves, none of them a link. *)
Theorem spool_opened_in_real_directories resolves dataDir l fs :
  wp any_fault (open_spool resolves dataDir l) (fun o fs' =>
    dirs_added fs fs' /\
    forall s, o = Done s -> Forall (fun p => real_dir fs' (split_path p)) (spool_directories dataDir s) /\
      NewProbeSpool dataDir l = Ok s) fs.
Proof.
  unfold open_spool. pose proof (dirs_added_refl fs) as Hr.
  apply wp_bind, wp_lift_error, wp_from_result. destruct (NewProbeSpool dataDir l) as [s|e]; cbn beta iota; [|by split].
  apply wp_bind. eapply wp_conseq; [apply ensure_all_spec|]. intros [[]|e|] fs' [Ha Hd]; cbn beta iota; [|by split..].
  apply wp_ret. split; [done|]. intros s' [= <-]. split; [auto|done].
Qed.
