(* ===== verification/WindowsSpool.v ===== *)
(** * The spool's files on Windows (probe_spool_fs_windows.go)

    The private directories get an access list of their own.  The functions of
    package windows and the Clean of Windows paths are arguments; the calls that
    change something, or open something, are listed in order. *)

From S2P Require Export ProbeSpoolInit.

Definition FILE_ATTRIBUTE_DIRECTORY : Z := 16.
Definition FILE_ATTRIBUTE_REPARSE_POINT : Z := 1024.
Definition SE_FILE_OBJECT : Z := 1.
Definition DACL_SECURITY_INFORMATION : Z := 4.
Definition PROTECTED_DACL_SECURITY_INFORMATION : Z := Z.shiftl 1 31.
Definition MOVEFILE_REPLACE_EXISTING : Z := 1.
Definition MOVEFILE_WRITE_THROUGH : Z := 8.

Section Windows.
Context {error token descriptor acl : Type}.

Record win_api : Type := mkWinApi {
  w_Clean : string -> string;
  w_UTF16PtrFromString : string -> result error string;
  w_MkdirAll : string -> Z -> option error;
  w_GetFileAttributes : string -> result error Z;
  w_OpenCurrentProcessToken : result error token;
  w_GetTokenUser : token -> result error string;  (* the SID's text *)
  w_SecurityDescriptorFromString : string -> result error descriptor;
  w_DACL : descriptor -> result error acl;
  w_SetNamedSecurityInfo : string -> Z -> Z -> acl -> option error;
  w_GetDiskFreeSpaceEx : string -> result error Z;
  w_MoveFileEx : string -> string -> Z -> option error
}.
Context (api : win_api).

Inductive win_call : Type :=
| CMkdirAll (p : string) (perm : Z)
| COpenToken
| CSetNamedSecurityInfo (name : string) (objectType info : Z) (dacl : acl)
| CCloseToken
| CMoveFileEx (from to : string) (flags : Z).

Inductive win_error : Type := WinAPI (e : error) | UnsafeReparse.

Definition private_sddl (sid : string) : string :=
  "D:P(A;OICI;FA;;;SY)(A;OICI;FA;;;BA)(A;OICI;FA;;;" +:+ sid +:+ ")".

Definition win_result (e : option error) : result win_error () :=
  match e with Some e => Err (WinAPI e) | None => Ok () end.

(** The calls [ensurePrivateDirectory] makes with the process token open. *)
Definition secure_directory (p : string) (t : token) : list win_call * result win_error () :=
  match w_GetTokenUser api t with
  | Err e => ([], Err (WinAPI e))
  | Ok sid =>
      match w_SecurityDescriptorFromString api (private_sddl sid) with
      | Err e => ([], Err (WinAPI e))
      | Ok d =>
          match w_DACL api d with
          | Err e => ([], Err (WinAPI e))
          | Ok dacl =>
              let info := Z.lor DACL_SECURITY_INFORMATION PROTECTED_DACL_SECURITY_INFORMATION in
              ([CSetNamedSecurityInfo (w_Clean api p) SE_FILE_OBJECT info dacl],
               win_result (w_SetNamedSecurityInfo api (w_Clean api p) SE_FILE_OBJECT info dacl))
          end
      end
  end.

Definition windows_ensurePrivateDirectory (p : string) : list win_call * result win_error () :=
  let made := CMkdirAll p 448 in
  match w_MkdirAll api p 448 with
  | Some e => ([made], Err (WinAPI e))
  | None =>
      match w_UTF16PtrFromString api (w_Clean api p) with
      | Err e => ([made], Err (WinAPI e))
      | Ok pointer =>
          match w_GetFileAttributes api pointer with
          | Err e => ([made], Err (WinAPI e))
          | Ok attributes =>
              if negb (Z.land attributes FILE_ATTRIBUTE_REPARSE_POINT =? 0) ||
                 (Z.land attributes FILE_ATTRIBUTE_DIRECTORY =? 0)
              then ([made], Err UnsafeReparse)
              else
                match w_OpenCurrentProcessToken api with
                | Err e => ([made], Err (WinAPI e))
                | Ok t =>
                    let '(calls, r) := secure_directory p t in
                    ([made; COpenToken] ++ calls ++ [CCloseToken], r)
                end
          end
      end
  end.

Definition windows_diskFreeBytes (p : string) : result error Z :=
  match w_UTF16PtrFromString api (w_Clean api p) with
  | Err e => Err e
  | Ok pointer => w_GetDiskFreeSpaceEx api pointer
  end.

Definition windows_replaceFileAtomically (source destination : string) : list win_call * option error :=
  match w_UTF16PtrFromString api source with
  | Err e => ([], Some e)
  | Ok from =>
      match w_UTF16PtrFromString api destination with
      | Err e => ([], Some e)
      | Ok to =>
          let flags := Z.lor MOVEFILE_REPLACE_EXISTING MOVEFILE_WRITE_THROUGH in
          ([CMoveFileEx from to flags], w_MoveFileEx api from to flags)
      end
  end.

Definition windows_syncDirectory (p : string) : option error := None.
End Windows.
Arguments win_api : clear implicits.
Arguments win_call : clear implicits.
Arguments win_error : clear implicits.

(** ** What an access list in SDDL says

    A reader of the part of the language the agent writes: a protected list of
    entries with six fields, as the documentation of SDDL has it. *)
Record ace : Type := mkAce { ace_type : string; ace_flags : string; ace_rights : string; ace_account : string }.

Fixpoint read_aces (fuel : nat) (s : string) : option (list ace) :=
  match fuel, s with
  | _, EmptyString => Some []
  | O, _ => None
  | S fuel, String c r =>
      if bool_decide (c = "("%char) then
        match Cut r ")" with
        | None => None
        | Some (body, rest) =>
            match Split body ";" with
            | [t; f; rights; EmptyString; EmptyString; account] =>
                l ← read_aces fuel rest; Some (mkAce t f rights account :: l)
            | _ => None
            end
        end
      else None
  end.

(** Whether inheritance is blocked, and the entries. *)
Definition read_sddl (s : string) : option (bool * list ace) :=
  match strip_prefix "D:" s with
  | None => None
  | Some r =>
      let '(protected, r) := match strip_prefix "P" r with Some r => (true, r) | None => (false, r) end in
      l ← read_aces (String.length r) r; Some (protected, l)
  end.

(** Full access, inherited by the files and directories below. *)
Definition full_access (account : string) : ace := mkAce "A" "OICI" "FA" account.
Definition private_aces (sid : string) : list ace := map full_access ["SY"; "BA"; sid].

(** The text of a SID: letters, digits and dashes. *)
Definition sid_char (c : ascii) : bool :=
  is_digit c || (65 <=? byte_val c) && (byte_val c <=? 90) || (byte_val c =? 45).

Lemma sid_char_facts sid : str_forall sid_char sid = true ->
  str_exists (Ascii.eqb ")") sid = false /\ str_exists (Ascii.eqb ";") sid = false.
Proof.
  induction sid as [|c sid IH]; [done|]. cbn [str_forall str_exists]. intros [Hc Hs]%andb_true_iff.
  destruct (IH Hs) as [-> ->]. rewrite !orb_false_r. split; apply Ascii.eqb_neq; by intros <-.
Qed.

Lemma split_step n w rest : str_exists (Ascii.eqb ";") w = false ->
  split_fuel (S n) (w +:+ String ";" rest) ";" = w :: split_fuel n rest ";".
Proof. intros Hw. cbn [split_fuel]. by rewrite (Cut_byte ";"). Qed.

Lemma read_ace fuel body rest text t f r account : text = "(" +:+ body +:+ ")" +:+ rest ->
  Cut (body +:+ ")" +:+ rest) ")" = Some (body, rest) -> Split body ";" = [t; f; r; ""; ""; account] ->
  read_aces (S fuel) text = (l ← read_aces fuel rest; Some (mkAce t f r account :: l)).
Proof.
  intros -> Hc Hs. change ("(" +:+ body +:+ ")" +:+ rest) with (String "(" (body +:+ ")" +:+ rest)).
  cbn [read_aces]. rewrite bool_decide_true, Hc, Hs by done. done.
Qed.

Lemma private_sddl_reads sid : str_forall sid_char sid = true ->
  read_sddl (private_sddl sid) = Some (true, private_aces sid).
Proof.
  intros [Hparen Hsemi]%sid_char_facts. set (own := "A;OICI;FA;;;" +:+ sid).
  assert (Cut (own +:+ ")" +:+ "") ")" = Some (own, "")) as Hc by (by apply (Cut_byte ")")).
  assert (Split own ";" = ["A"; "OICI"; "FA"; ""; ""; sid]) as Hs.
  { unfold own, Split. assert (exists n, String.length ("A;OICI;FA;;;" +:+ sid) = S (S (S (S (S (S n)))))) as [n ->] by (by eexists).
    change ("A;OICI;FA;;;" +:+ sid) with ("A" +:+ String ";" ("OICI" +:+ String ";" ("FA" +:+ String ";" ("" +:+ String ";"
      ("" +:+ String ";" sid))))).
    rewrite !split_step by done. cbn [split_fuel]. by rewrite (Cut_byte_none ";"). }
  assert (forall n, read_aces (S (S (S n))) ("(A;OICI;FA;;;SY)(A;OICI;FA;;;BA)(A;OICI;FA;;;" +:+ sid +:+ ")") =
    Some (private_aces sid)) as H.
  { intros n. erewrite (read_ace _ "A;OICI;FA;;;SY" ("(A;OICI;FA;;;BA)(A;OICI;FA;;;" +:+ sid +:+ ")")); [|reflexivity..].
    erewrite (read_ace _ "A;OICI;FA;;;BA" ("(A;OICI;FA;;;" +:+ sid +:+ ")")); [|reflexivity..].
    erewrite (read_ace _ own ""); [|reflexivity|exact Hc|exact Hs]. by destruct n. }
  unfold read_sddl. set (text := private_sddl sid).
  assert (strip_prefix "D:" text = Some ("P" +:+ "(A;OICI;FA;;;SY)(A;OICI;FA;;;BA)(A;OICI;FA;;;" +:+ sid +:+ ")"))
    as -> by reflexivity.
  assert (forall r, strip_prefix "P" ("P" +:+ r) = Some r) as -> by (by intros r; simpl; destruct r).
  assert (exists n, String.length ("(A;OICI;FA;;;SY)(A;OICI;FA;;;BA)(A;OICI;FA;;;" +:+ sid +:+ ")") = S (S (S n))) as [n ->]
    by (by eexists).
  by rewrite H.
Qed.

Lemma land_bit a b : 0 <= b -> (Z.land a (2 ^ b) =? 0) = negb (Z.testbit a b).
Proof.
  intros Hb. destruct (Z.testbit a b) eqn:E; cbn [negb].
  - apply Z.eqb_neq. intros H. assert (Z.testbit (Z.land a (2 ^ b)) b = false) as Hf by (by rewrite H, Z.bits_0).
    rewrite Z.land_spec, E, Z.pow2_bits_true in Hf by done. done.
  - apply Z.eqb_eq. apply Z.bits_inj'. intros n Hn. rewrite Z.land_spec, Z.bits_0.
    destruct (decide (n = b)) as [->|Hne]; [by rewrite E|]. by rewrite Z.pow2_bits_false, andb_false_r by done.
Qed.

(** ** Properties *)
Section Private.
Context {error token descriptor acl : Type} (api : win_api error token descriptor acl) (p : string).

(** What a successful call found and did: each of its calls succeeded, the one that
    sets the access list included. *)
Definition made_private (calls : list (win_call acl)) : Prop := exists pointer attributes t sid d dacl,
  w_MkdirAll api p 448 = None /\
  w_UTF16PtrFromString api (w_Clean api p) = Ok pointer /\ w_GetFileAttributes api pointer = Ok attributes /\
  Z.testbit attributes 10 = false /\ Z.testbit attributes 4 = true /\
  w_OpenCurrentProcessToken api = Ok t /\ w_GetTokenUser api t = Ok sid /\
  w_SecurityDescriptorFromString api (private_sddl sid) = Ok d /\ w_DACL api d = Ok dacl /\
  w_SetNamedSecurityInfo api (w_Clean api p) SE_FILE_OBJECT (4 + 2147483648) dacl = None /\
  calls = [CMkdirAll p 448; COpenToken;
           CSetNamedSecurityInfo (w_Clean api p) SE_FILE_OBJECT (4 + 2147483648) dacl; CCloseToken].

Definition directory_outcome (out : list (win_call acl) * result (win_error error) ()) : Prop :=
  (out.2 = Ok () <-> made_private out.1) /\ (out.2 = Err UnsafeReparse -> out.1 = [CMkdirAll p 448]) /\
  (COpenToken ∈ out.1 -> last out.1 = Some CCloseToken).

Lemma stopped_early e : directory_outcome ([CMkdirAll p 448], Err e).
Proof.
  split; [split; [done|by intros (? & ? & ? & ? & ? & ? & H); decompose [and] H]|]. split; [done|].
  by intros H%list_elem_of_singleton.
Qed.

Lemma stopped_open calls e : e <> UnsafeReparse -> ~ made_private ([CMkdirAll p 448; COpenToken] ++ calls ++ [CCloseToken]) ->
  directory_outcome ([CMkdirAll p 448; COpenToken] ++ calls ++ [CCloseToken], Err e).
Proof.
  intros He Hno. split; [by split|]. split; [by intros [= ->]|]. intros _. cbn [fst]. by rewrite app_assoc, last_snoc.
Qed.

Lemma nothing_set : ~ made_private ([CMkdirAll p 448; COpenToken] ++ [] ++ [CCloseToken]).
Proof. intros (? & ? & ? & ? & ? & ? & H). by decompose [and] H. Qed.

Lemma ensure_outcome : directory_outcome (windows_ensurePrivateDirectory api p).
Proof.
  unfold windows_ensurePrivateDirectory.
  destruct (w_MkdirAll api p 448) as [e|] eqn:Em; [apply stopped_early|].
  destruct (w_UTF16PtrFromString api (w_Clean api p)) as [pointer|e] eqn:Ep; [|apply stopped_early].
  destruct (w_GetFileAttributes api pointer) as [attributes|e] eqn:Ea; [|apply stopped_early].
  change FILE_ATTRIBUTE_REPARSE_POINT with (2 ^ 10). change FILE_ATTRIBUTE_DIRECTORY with (2 ^ 4).
  rewrite !land_bit by done.
  destruct (Z.testbit attributes 10) eqn:E10; [apply stopped_early|].
  destruct (Z.testbit attributes 4) eqn:E4; [|apply stopped_early]. cbn [negb orb].
  destruct (w_OpenCurrentProcessToken api) as [t|e] eqn:Et; [|apply stopped_early]. unfold secure_directory.
  destruct (w_GetTokenUser api t) as [sid|e] eqn:Eu; [|by apply (stopped_open []), nothing_set].
  destruct (w_SecurityDescriptorFromString api (private_sddl sid)) as [d|e] eqn:Ed; [|by apply (stopped_open []), nothing_set].
  destruct (w_DACL api d) as [dacl|e] eqn:El; [|by apply (stopped_open []), nothing_set]. cbv zeta.
  change (Z.lor DACL_SECURITY_INFORMATION PROTECTED_DACL_SECURITY_INFORMATION) with (4 + 2147483648).
  destruct (w_SetNamedSecurityInfo _ _ _ _ dacl) as [e|] eqn:Es.
  - apply (stopped_open [_]); [done|]. intros (? & ? & ? & ? & ? & dacl' & H). decompose [and] H. simpl in *. simplify_eq.
  - split; [|split; [done|done]]. split; [|done]. intros _. by exists pointer, attributes, t, sid, d, dacl.
Qed.
End Private.

(** C23. The spool's directories are closed to other accounts on Windows.  [ensurePrivateDirectory] succeeds exactly when
    the directory could be made, its path is a directory and no reparse point, and SetNamedSecurityInfo succeeded in
    giving it a protected access list, the one change made to it, from a text that, read back, grants full access to the
    system, the administrators and the account of the process and to nobody else (for a SID of digits, capital letters
    and dashes, as SIDs are written).  A reparse point or a file in its place is refused before anything is opened or changed, and the process
    token is always closed. *)
Theorem windows_directory_private {error token descriptor acl : Type} (api : win_api error token descriptor acl) p sid :
  directory_outcome api p (windows_ensurePrivateDirectory api p) /\
  (str_forall sid_char sid = true -> read_sddl (private_sddl sid) = Some (true, private_aces sid)).
Proof. split; [apply ensure_outcome|apply private_sddl_reads]. Qed.

Definition demo_win : win_api () () string string :=
  mkWinApi (fun p => p) (fun p => Ok p) (fun _ _ => None) (fun _ => Ok FILE_ATTRIBUTE_DIRECTORY) (Ok ())
    (fun _ => Ok "S-1-5-80-7") (fun text => Ok text) (fun d => Ok d) (fun _ _ _ _ => None) (fun _ => Ok 1)
    (fun _ _ _ => None).

Lemma windows_directory_private_witness :
  made_private demo_win "spool" (windows_ensurePrivateDirectory demo_win "spool").1 /\
  read_sddl (private_sddl "S-1-5-80-7") = Some (true, private_aces "S-1-5-80-7").
Proof.
  destruct (windows_directory_private demo_win "spool" "S-1-5-80-7") as [[H _] Hsddl].
  split; [apply H; by vm_compute|apply Hsddl; by vm_compute].
Defined.

(** A rename over an existing file that reaches the disk before it returns. *)
Example windows_replace_1 (api : win_api () () () ()) :
  w_UTF16PtrFromString api "a" = Ok "a" -> w_UTF16PtrFromString api "b" = Ok "b" ->
  fst (windows_replaceFileAtomically api "a" "b") = [CMoveFileEx "a" "b" 9].
Proof. intros H1 H2. unfold windows_replaceFileAtomically. by rewrite H1, H2. Qed.
