(* ===== verification/ProbeUploader.v ===== *)
(** * The probe uploader (internal/agent/probe_uploader.go)

    Sends the oldest due batch of the spool to the Controller and decides, from
    the answer, what becomes of it.  The clock, the context, the answer of the
    HTTP client and the jitter are arguments; [http.ParseTime] is the argument
    [ParseTime], so every theorem holds whatever dates it accepts. *)

From S2P Require Export ProbeSpoolSafety.

(** ** Backoff *)
Definition maxProbeUploadBackoff : Z := 5 * Minute.
Definition defaultProbeUploadPolling : Z := Second.
Definition maxUint32 : Z := two32 - 1.

(** The loop of [probeUploadBackoff]; nine rounds reach the cap. *)
Fixpoint backoff_loop (fuel : nat) (step attempt delay : Z) : Z :=
  match fuel with
  | O => delay
  | S fuel =>
      if step <? attempt then
        if maxProbeUploadBackoff ÷ 2 <=? delay then maxProbeUploadBackoff
        else backoff_loop fuel (step + 1) attempt (i64 (delay * 2))
      else if maxProbeUploadBackoff <? delay then maxProbeUploadBackoff else delay
  end.
Definition probeUploadBackoff (attempt : Z) : Z :=
  let attempt := if attempt =? 0 then 1 else attempt in
  backoff_loop 10 1 attempt Second.

(** ** Retry-After *)
Definition allASCIIDigits (value : string) : bool := all_digits value.

Definition parseProbeRetryAfter (ParseTime : string -> option Z) (value : string) (now : Z) : Z * bool :=
  let value := TrimSpace value in
  if bool_decide (value = "") then (0, false)
  else
    match ParseInt value with
    | Ok seconds =>
        if seconds <? 0 then (0, false)
        else
          let delay := i64 (seconds * Second) in
          if (maxProbeUploadBackoff ÷ Second <? seconds) || (maxProbeUploadBackoff <? delay)
          then (maxProbeUploadBackoff, true) else (delay, true)
    | Err _ =>
        if allASCIIDigits value then (maxProbeUploadBackoff, true)
        else
          match ParseTime value with
          | None => (0, false)
          | Some when_ =>
              let delay := time_sub when_ now in
              let delay := if delay <? 0 then 0 else delay in
              let delay := if maxProbeUploadBackoff <? delay then maxProbeUploadBackoff else delay in
              (delay, true)
          end
    end.

(** ** Answers of the Controller *)
Inductive ctx_error := Canceled | DeadlineExceeded.

(** What [postBody] reports: a failure, with what its error wraps, or a status. *)
Inductive post_result :=
| PostFailed (deadline : bool)
| Posted (status : Z) (retryAfter responseCode : string).

Inductive http_result :=
| DoFailed (deadline : bool)
| Answer (status : Z) (retryAfter : string) (body : result bool string).

Definition StatusOK : Z := 200.
Definition StatusMultipleChoices : Z := 300.
Definition StatusRequestTimeout : Z := 408.
Definition StatusConflict : Z := 409.
Definition StatusTooManyRequests : Z := 429.
Definition StatusInternalServerError : Z := 500.

(** [payload.Error] after [json.Unmarshal]: the last such member that is not null. *)
Definition error_member (v : json) : string :=
  match v with
  | JObj ms =>
      foldl (fun old '(key, (_, w)) =>
        if field_is "error" key then match w with JStr raw => unquote raw | _ => old end else old) "" ms
  | _ => ""
  end.

Definition maxResponseBytes : Z := Z.shiftl 4 10.

(** [postBody] from the call of [client.http.Do] on; the agent reads at most
    [maxResponseBytes + 1] of [body].  When reading it fails, [Err], the error is
    reported whatever the status is; the flag of an error says that it wraps a
    deadline. *)
Definition postBody (answer : http_result) : post_result :=
  match answer with
  | DoFailed deadline => PostFailed deadline
  | Answer _ _ (Err deadline) => PostFailed deadline
  | Answer status retryAfter (Ok body) =>
      let responseBody := String.substring 0 (Z.to_nat (maxResponseBytes + 1)) body in
      let responseCode :=
        if (str_len responseBody <=? maxResponseBytes) && (status =? StatusConflict) then
          match parse_json responseBody with
          | Some v =>
              if struct_ok [("error", string_ok)] v then
                let e := error_member v in
                if bool_decide (e = "stale_probe_config") || bool_decide (e = "probe_round_conflict")
                then e else ""
              else ""
          | None => ""
          end
        else "" in
      Posted status retryAfter responseCode
  end.

Definition isRetryableProbeUploadStatus (status : Z) : bool :=
  (status =? StatusRequestTimeout) || (status =? StatusTooManyRequests) ||
  (StatusInternalServerError <=? status) && (status <=? 599).

(** ** Errors of an upload *)
Inductive upload_error :=
| ContextError (e : ctx_error)
| ReadSpoolError (e : spool_error)
| AckError (e : spool_error)
| QuarantineError (status : Z) (e : spool_error)
| PersistRetryError (e : spool_error)
| ProbeUploadRetryError (StatusCode attempt nextAt : Z) (timeout : bool)
| ProbeUploadStaleError (status : Z)
| ProbeUploadRoundConflictError
| AgentAPIStatusError (status : Z).

(** [errors.As(err, &statusErr)] through the [Unwrap] methods, and [&retryErr]. *)
Definition as_status_error (e : upload_error) : bool :=
  match e with
  | ProbeUploadRetryError code _ _ _ => negb (code =? 0)
  | ProbeUploadStaleError _ | ProbeUploadRoundConflictError | AgentAPIStatusError _ => true
  | _ => false
  end.
Definition as_retry_error (e : upload_error) : bool :=
  match e with ProbeUploadRetryError _ _ _ _ => true | _ => false end.

(** [randomProbeUploadJitter], the default of the jitter option.  [draw n] is what
    [cryptorand.Int] yields below [n], [None] when the random source fails; it
    panics, [None] here, for a bound that is not positive. *)
Definition randomProbeUploadJitter (draw : Z -> option Z) (limit : Z) : option Z :=
  if limit <=? 0 then Some 0
  else
    let bound := i64 (limit + 1) in
    if bound <=? 0 then None else Some (match draw bound with Some value => value | None => limit end).

(** ** One upload *)
Section Uploader.
Context (s : ProbeSpool) (ParseTime : string -> option Z) (jitter : Z -> Z).

Definition retry_delay (attempt : Z) (retryAfter : string) (now : Z) : Z :=
  let '(delay, valid) := parseProbeRetryAfter ParseTime retryAfter now in
  if valid then delay
  else
    let limit := probeUploadBackoff attempt in
    let delay := jitter limit in
    let delay := if delay <? 0 then 0 else delay in
    if limit <? delay then limit else delay.

Definition next_attempt (attempt : Z) : Z :=
  if attempt =? maxUint32 then attempt else u32 (attempt + 1).

Definition scheduleRetry (item : ProbeSpoolItem) (now : Z) (retryAfter : string) (status : Z)
  (timedOut : bool) : M spool_error upload_error :=
  let n := next_attempt (item_Attempt item) in
  let nextAt := time_add now (retry_delay n retryAfter now) in
  r ← attempt (ScheduleRetry s (item_ID item) n nextAt);
  match r with
  | Err e => mret (PersistRetryError e)
  | Ok _ => mret (ProbeUploadRetryError status n nextAt timedOut)
  end.

(** The reason of a quarantined rejection. *)
Definition reject_reason (status : Z) (responseCode : string) : string :=
  let reason := "http-" +:+ Itoa status in
  if (status =? StatusConflict) &&
     (bool_decide (responseCode = "stale_probe_config") || bool_decide (responseCode = "probe_round_conflict"))
  then reason +:+ "-" +:+ responseCode else reason.

Definition rejection (status : Z) (responseCode : string) : upload_error :=
  if (status =? StatusConflict) && bool_decide (responseCode = "stale_probe_config")
  then ProbeUploadStaleError status
  else if (status =? StatusConflict) && bool_decide (responseCode = "probe_round_conflict")
  then ProbeUploadRoundConflictError
  else AgentAPIStatusError status.

(** What becomes of an item, given what the post reported. *)
Definition settle (item : ProbeSpoolItem) (now : Z) (posted : post_result) (ctxAfter : option ctx_error)
  : M spool_error (option upload_error) :=
  match posted with
  | PostFailed deadline =>
      match ctxAfter with
      | Some Canceled => mret (Some (ContextError Canceled))
      | _ =>
          let timedOut := deadline || match ctxAfter with Some DeadlineExceeded => true | _ => false end in
          err ← scheduleRetry item now "" 0 timedOut; mret (Some err)
      end
  | Posted status retryAfter responseCode =>
      if (StatusOK <=? status) && (status <? StatusMultipleChoices) then
        r ← attempt (Ack s (item_ID item));
        mret (match r with Err e => Some (AckError e) | Ok _ => None end)
      else if isRetryableProbeUploadStatus status then
        err ← scheduleRetry item now retryAfter status false; mret (Some err)
      else
        r ← attempt (Quarantine s (item_ID item) (reject_reason status responseCode));
        mret (Some (match r with
                    | Err e => QuarantineError status e
                    | Ok _ => rejection status responseCode
                    end))
  end.

(** [uploadOne]: the context is looked at before and after taking the mutex and
    after a failed post; [answer] is what the Controller says to a body. *)
Definition uploadOne (ctx0 ctx1 : option ctx_error) (now : Z) (answer : string -> http_result)
  (ctxAfter : option ctx_error) : M spool_error (bool * option upload_error) :=
  match ctx0, ctx1 with
  | Some e, _ | None, Some e => mret (false, Some (ContextError e))
  | None, None =>
      r ← attempt (Next s now);
      match r with
      | Err e => mret (false, Some (ReadSpoolError e))
      | Ok None => mret (false, None)
      | Ok (Some item) =>
          err ← settle item now (postBody (answer (item_Body item))) ctxAfter;
          mret (true, err)
      end
  end.

Definition UploadOne (ctx0 ctx1 : option ctx_error) (now : Z) (answer : string -> http_result)
  (ctxAfter : option ctx_error) : M spool_error (option upload_error) :=
  '(_, err) ← uploadOne ctx0 ctx1 now answer ctxAfter; mret err.

(** ** The runner *)

(** What one turn of [Run] reads: the contexts, the clock, the Controller, the
    context after the upload, and how the wait ends if it waits. *)
Inductive wake := WakeCancelled (e : ctx_error) | WakeNotified | WakeTimer.

Record turn : Type := mkTurn {
  t_ctx0 : option ctx_error;
  t_ctx1 : option ctx_error;
  t_now : Z;
  t_answer : string -> http_result;
  t_ctxPost : option ctx_error;
  t_ctxAfter : option ctx_error;
  t_wake : wake
}.

(** The token of the notification channel is taken. *)
Definition take_token {E} : M E () := fun w =>
  (mkWorld (files w) (faults w) (suffixes w) false, Done ()).

Inductive decision := Return (e : upload_error) | Continue (rejected : option upload_error) | Sleep (rejected : option upload_error).

(** The body of the loop after [uploadOne].  The second [errors.As] is not
    evaluated when the first one succeeds, and [retryErr] then stays [nil]: an error
    with a status is handed to [OnRejected], a scheduled retry included. *)
Definition decide_turn (ctxAfter : option ctx_error) (worked : bool) (err : option upload_error) : decision :=
  match ctxAfter with
  | Some e => Return (ContextError e)
  | None =>
      match err with
      | Some e =>
          let proceed (rejected : option upload_error) := if worked then Continue rejected else Sleep rejected in
          if as_status_error e then proceed (Some e)
          else if as_retry_error e then proceed None
          else Return e
      | None => if worked then Continue None else Sleep None
      end
  end.

Definition add_rejected (r : option upload_error) (l : list upload_error) : list upload_error :=
  match r with Some e => e :: l | None => l end.

(** [Run] over the given turns: the error it returns, or [None] if it is still
    running, and the calls of [OnRejected]. *)
Fixpoint Run (turns : list turn) : M spool_error (option upload_error * list upload_error) :=
  match turns with
  | [] => mret (None, [])
  | t :: turns =>
      '(worked, err) ← uploadOne (t_ctx0 t) (t_ctx1 t) (t_now t) (t_answer t) (t_ctxPost t);
      match decide_turn (t_ctxAfter t) worked err with
      | Return e => mret (Some e, [])
      | Continue r => '(res, l) ← Run turns; mret (res, add_rejected r l)
      | Sleep r =>
          match t_wake t with
          | WakeCancelled e => mret (Some (ContextError e), add_rejected r [])
          | WakeNotified => take_token;; '(res, l) ← Run turns; mret (res, add_rejected r l)
          | WakeTimer => '(res, l) ← Run turns; mret (res, add_rejected r l)
          end
      end
  end.
End Uploader.

(** ** Lemmas: delays *)
Lemma backoff_value attempt : 0 <= attempt ->
  probeUploadBackoff attempt =
    if attempt <=? 9 then 2 ^ (Z.max 1 attempt - 1) * Second else maxProbeUploadBackoff.
Proof.
  intros Ha. destruct (Z.leb_spec attempt 9) as [Hle|Hgt].
  - assert (In attempt (map Z.of_nat (seq 0 10))) as Hin.
    { apply in_map_iff. exists (Z.to_nat attempt). rewrite in_seq. lia. }
    simpl in Hin. repeat destruct Hin as [<-|Hin]; [vm_compute; reflexivity..|done].
  - unfold probeUploadBackoff. destruct (Z.eqb_spec attempt 0); [lia|].
    do 9 (cbn [backoff_loop]; rewrite (proj2 (Z.ltb_lt _ attempt)) by lia;
      match goal with |- context [maxProbeUploadBackoff ÷ 2 <=? ?d] =>
        let b := eval vm_compute in (maxProbeUploadBackoff ÷ 2 <=? d) in
        change (maxProbeUploadBackoff ÷ 2 <=? d) with b; cbv iota end). done.
Qed.

Lemma backoff_range attempt : 0 <= attempt -> Second <= probeUploadBackoff attempt <= maxProbeUploadBackoff.
Proof.
  intros Ha. rewrite backoff_value by done. destruct (Z.leb_spec attempt 9).
  - assert (In attempt (map Z.of_nat (seq 0 10))) as Hin.
    { apply in_map_iff. exists (Z.to_nat attempt). rewrite in_seq. lia. }
    simpl in Hin. repeat destruct Hin as [<-|Hin]; [vm_compute; split; discriminate..|done].
  - vm_compute; split; discriminate.
Qed.

Lemma retry_after_range ParseTime value now :
  0 <= (parseProbeRetryAfter ParseTime value now).1 <= maxProbeUploadBackoff.
Proof.
  assert (0 <= maxProbeUploadBackoff) by (by vm_compute).
  unfold parseProbeRetryAfter. cbv zeta.
  destruct (bool_decide _); [simpl; lia|]. destruct (ParseInt _) as [seconds|].
  - destruct (Z.ltb_spec seconds 0); [simpl; lia|].
    destruct (_ || _) eqn:E; [simpl; lia|]. apply orb_false_iff in E as [E1%Z.ltb_ge E2%Z.ltb_ge].
    change (maxProbeUploadBackoff ÷ Second) with 300 in E1.
    assert (minInt64 <= 0 /\ 300 * Second <= maxInt64 /\ 0 < Second) as (? & ? & ?) by (by vm_compute).
    simpl. rewrite i64_id in * by (unfold in_i64; nia). nia.
  - destruct (allASCIIDigits _); [simpl; lia|]. destruct (ParseTime _); simpl; zcase; lia.
Qed.

Lemma retry_delay_range ParseTime jitter attempt retryAfter now : 0 <= attempt ->
  0 <= retry_delay ParseTime jitter attempt retryAfter now <= maxProbeUploadBackoff /\
  ((parseProbeRetryAfter ParseTime retryAfter now).2 = false ->
    retry_delay ParseTime jitter attempt retryAfter now <= probeUploadBackoff attempt).
Proof.
  intros Ha. unfold retry_delay. pose proof (retry_after_range ParseTime retryAfter now) as Hr.
  pose proof (backoff_range attempt Ha) as Hb. assert (0 < Second) by (by vm_compute).
  destruct (parseProbeRetryAfter _ _ _) as [delay valid]. simpl in *.
  destruct valid; [split; [lia|done]|]. zcase; lia.
Qed.

Lemma backoff_positive attempt : 0 <= attempt -> 0 < probeUploadBackoff attempt <= maxProbeUploadBackoff.
Proof. intros Ha. pose proof (backoff_range attempt Ha). assert (0 < Second) by (by vm_compute). lia. Qed.

Lemma random_jitter draw limit : 0 < limit < maxInt64 ->
  randomProbeUploadJitter draw limit = Some (default limit (draw (limit + 1))).
Proof.
  intros Hl. unfold randomProbeUploadJitter. assert (minInt64 <= 0) by (by vm_compute).
  rewrite i64_id by (unfold in_i64; lia). rewrite !(proj2 (Z.leb_gt _ _)) by lia. by destruct (draw _).
Qed.

Lemma next_attempt_range attempt : 0 <= attempt < two32 -> 0 <= next_attempt attempt < two32.
Proof.
  intros Ha. unfold next_attempt, maxUint32. destruct (Z.eqb_spec attempt (two32 - 1)); [lia|].
  rewrite u32_id by lia. lia.
Qed.

(** ** Lemmas: one item *)
Section Item.
Context (s : ProbeSpool) (ParseTime : string -> option Z) (jitter : Z -> Z) (F : fault -> Prop).
Context (Hwf : spool_wf s).
Context (Hevidence : MaxItemBytes (limits s) <= MaxQuarantineBytes (limits s)).

(** The batch of [e] is still queued under [id], perhaps with another retry time. *)
Definition queued (id : string) (e : probeSpoolEnvelope) (fs : store) : Prop :=
  exists e', stores s id e' fs /\ Batch e' = Batch e /\ Created e' = Created e.

Definition accepted (posted : post_result) : Prop :=
  exists status ra code, posted = Posted status ra code /\ 200 <= status < 300.

(** A terminal answer: neither 2xx nor 408, 429 or 5xx. *)
Definition terminal (posted : post_result) (status : Z) (code : string) : Prop :=
  exists ra, posted = Posted status ra code /\ ~ 200 <= status < 300 /\
    isRetryableProbeUploadStatus status = false.

(** The exact bytes of the item lie in the quarantine, under a name with the reason. *)
Definition in_quarantine (id : string) (e : probeSpoolEnvelope) (reason : string) (fs : store) : Prop :=
  fs !! item_path s id = None /\
  exists perm, fs !! quarantine_path s (item_path s id) reason = Some (NFile (envelope_text e) perm).

(** What may have become of the item. *)
Definition accounted (id : string) (e : probeSpoolEnvelope) (posted : post_result) (fs : store) : Prop :=
  queued id e fs \/
  (accepted posted /\ fs !! item_path s id = None) \/
  exists status code, terminal posted status code /\
    in_quarantine id e (reject_reason status code) fs.

(** What the returned error says, and what is then on disk. *)
Definition reported (id : string) (e : probeSpoolEnvelope) (now : Z) (posted : post_result)
  (err : option upload_error) (fs : store) : Prop :=
  match err with
  | None => accepted posted /\ fs !! item_path s id = None
  | Some (ProbeUploadRetryError _ n nextAt _) =>
      n = next_attempt (Attempt e) /\ now <= nextAt <= now + maxProbeUploadBackoff /\
      stores s id (retry_envelope n nextAt e) fs
  | Some (ProbeUploadStaleError _ | ProbeUploadRoundConflictError | AgentAPIStatusError _) =>
      exists status code, terminal posted status code /\ err = Some (rejection status code) /\
        in_quarantine id e (reject_reason status code) fs
  | Some (ContextError Canceled) => stores s id e fs
  | Some _ => True
  end.

Lemma stores_queued id e fs : stores s id e fs -> queued id e fs.
Proof. intros H. by exists e. Qed.

Lemma retry_spec id e now retryAfter status timedOut posted (fs : store) :
  pendingPathLocked s id = Ok (item_path s id) -> stores s id e fs ->
  0 < now <= maxInt64 - maxProbeUploadBackoff ->
  wp F (scheduleRetry s ParseTime jitter
      (mkItem id (Batch e) (Created e) (Attempt e) (NextAt e)) now retryAfter status timedOut)
    (fun o fs' => accounted id e posted fs' /\ others_same s (item_path s id) fs fs' /\
      forall err, o = Done err -> reported id e now posted (Some err) fs') fs.
Proof.
  intros Hid Hst Hnow. unfold scheduleRetry. cbn [item_Attempt item_ID].
  pose proof Hst as (_ & [_ _ Hat _ _ _ _] & _).
  pose proof (next_attempt_range (Attempt e) Hat) as Hn.
  destruct (retry_delay_range ParseTime jitter (next_attempt (Attempt e)) retryAfter now ltac:(lia)) as [Hd _].
  set (delay := retry_delay _ _ _ _ _) in *. unfold time_add. cbv zeta.
  apply wp_bind, wp_attempt. eapply wp_conseq; [apply schedule_retry_spec; [done|done|lia|lia]|].
  intros o fs' (Hkept & Hdone & Hoth).
  assert (accounted id e posted fs') as Hacc.
  { left. destruct Hkept as [H|H]; [by exists e|]. by eexists. }
  destruct o as [[]|err|]; [apply wp_ret|apply wp_ret|]; (split; [done|]; split; [done|]).
  - intros err [= <-]. split; [done|]. split; [lia|]. by apply Hdone.
  - by intros err' [= <-].
  - done.
Qed.

Lemma pendingPath_Ok id p : pendingPathLocked s id = Ok p -> p = item_path s id.
Proof. unfold pendingPathLocked. case_match; [done|]. by intros [= <-]. Qed.

Lemma others_refl p (fs : store) : others_same s p fs fs.
Proof. by intros q _ _ _. Qed.

(** Settling the stored item [e] of [id], under any faults. *)
Lemma settle_spec id e now posted ctxAfter (fs : store) :
  pendingPathLocked s id = Ok (item_path s id) -> stores s id e fs -> quarantine_within s fs ->
  0 < now <= maxInt64 - maxProbeUploadBackoff ->
  wp F (settle s ParseTime jitter
      (mkItem id (Batch e) (Created e) (Attempt e) (NextAt e)) now posted ctxAfter)
    (fun o fs' => accounted id e posted fs' /\
      forall err, o = Done err -> reported id e now posted err fs') fs.
Proof.
  intros Hid Hst Hq Hnow.
  assert (forall retryAfter status timedOut,
    wp F (err ← scheduleRetry s ParseTime jitter
        (mkItem id (Batch e) (Created e) (Attempt e) (NextAt e)) now retryAfter status timedOut;
        mret (Some err))
      (fun o fs' => accounted id e posted fs' /\
        forall err, o = Done err -> reported id e now posted err fs') fs) as Hretry.
  { intros ra st to. apply wp_bind. eapply wp_conseq; [by apply (retry_spec id e now ra st to posted)|].
    intros [err|x|] fs' (Hacc & _ & Hrep); [apply wp_ret| |]; (split; [done|]); try done.
    intros ? [= <-]. by apply Hrep. }
  assert (accounted id e posted fs) as Hkept by (left; by apply stores_queued).
  unfold settle. destruct posted as [deadline|status ra code].
  { destruct ctxAfter as [[]|]; try apply Hretry. apply wp_ret. split; [done|]. by intros ? [= <-]. }
  cbn [item_ID]. destruct ((StatusOK <=? status) && (status <? StatusMultipleChoices)) eqn:E2xx.
  - apply andb_true_iff in E2xx as [H1%Z.leb_le H2%Z.ltb_lt].
    assert (accepted (Posted status ra code)) as Hok by (by exists status, ra, code).
    apply wp_bind, wp_attempt. unfold Ack. rewrite Hid. apply wp_bind, wp_ret, wp_lift_error, remove_spec.
    + intros [[]|err|] Ho; [done|apply wp_ret|]; (split; [done|]); [by intros ? [= <-]|done].
    + assert (delete (item_path s id) fs !! item_path s id = None) as Hgone by apply lookup_delete_eq.
      assert (accounted id e (Posted status ra code) (delete (item_path s id) fs)) as Hacc by (right; by left).
      intros [[]|err|]; [apply wp_ret|apply wp_ret|]; (split; [done|]); [by intros ? [= <-]..|done].
  - destruct (isRetryableProbeUploadStatus status) eqn:Eretry; [apply Hretry|].
    assert (terminal (Posted status ra code) status code) as Hterm.
    { exists ra. split; [done|]. split; [|done]. intros [H1 H2].
      apply andb_false_iff in E2xx as [E%Z.leb_gt|E%Z.ltb_ge]; unfold StatusOK, StatusMultipleChoices in *; lia. }
    pose proof Hst as (Hl & _ & Hsize).
    apply wp_bind, wp_attempt. unfold Quarantine. rewrite Hid. apply wp_bind, wp_ret.
    eapply wp_conseq; [apply quarantine_spec; done|].
    intros o fs' (_ & Hgone & _ & Hdone).
    assert (accounted id e (Posted status ra code) fs') as Hacc.
    { destruct Hgone as [Hsame|[Hnone Hev]].
      - left. apply stores_queued. destruct Hst as (_ & ? & ?). split; [by rewrite Hsame|done].
      - right; right. exists status, code. split; [done|]. split; [done|]. eapply Hev; [done|lia]. }
    destruct o as [[]|err|]; [apply wp_ret|apply wp_ret|]; (split; [done|]); [| |done].
    + intros ? [= <-]. destruct (Hdone eq_refl) as [Hnone Hev].
      assert (in_quarantine id e (reject_reason status code) fs') as Hin.
      { split; [done|]. exists 384. eapply Hev; [done|lia]. }
      unfold reported. destruct (rejection status code) eqn:Er;
        try (exists status, code; rewrite Er; done); unfold rejection in Er; by repeat case_match.
    + by intros ? [= <-].
Qed.

(** Settling any item leaves the others alone. *)
Lemma settle_others item now posted ctxAfter (fs : store) : quarantine_within s fs ->
  wp F (settle s ParseTime jitter item now posted ctxAfter)
    (fun _ fs' => others_same s (item_path s (item_ID item)) fs fs') fs.
Proof.
  intros Hq. set (p := item_path s (item_ID item)).
  assert (forall ra st to, wp F (err ← scheduleRetry s ParseTime jitter item now ra st to; mret (Some err))
    (fun _ fs' => others_same s p fs fs') fs) as Hretry.
  { intros ra st to. unfold scheduleRetry. cbv zeta. apply wp_bind, wp_bind, wp_attempt.
    eapply (wp_conseq F _ (fun _ fs' => others_same s p fs fs')).
    - unfold ScheduleRetry. apply wp_bind, wp_from_result.
      destruct (pendingPathLocked s (item_ID item)) as [q|err] eqn:Ep; [|apply others_refl].
      apply pendingPath_Ok in Ep as ->. apply wp_bind, read_any.
      + intros c perm e _ _. case_match; [apply wp_throw, others_refl|].
        case_match; [apply wp_throw, others_refl|]. apply wp_bind, wp_lift_error.
        eapply wp_conseq; [apply atomicWrite_spec, json_not_temp, item_path_json|].
        intros [[]|err|] fs' [Hleft _]; [apply wp_signal|..]; by eapply leftover_others.
      + intros [e|err|] He; [by destruct (He e)|apply others_refl..].
    - intros [[]|err|] fs' H; [by apply wp_ret, wp_ret..|done]. }
  unfold settle. destruct posted as [deadline|status ra code].
  { destruct ctxAfter as [[]|]; try apply Hretry. apply wp_ret, others_refl. }
  case_match.
  - apply wp_bind, wp_attempt. unfold Ack. apply wp_bind, wp_from_result.
    destruct (pendingPathLocked s (item_ID item)) as [q|err] eqn:Ep; [|apply wp_ret, others_refl].
    apply pendingPath_Ok in Ep as ->. apply wp_lift_error, remove_spec.
    + intros [[]|err|] Ho; [done|apply wp_ret, others_refl|apply others_refl].
    + assert (others_same s p fs (delete p fs)) as Hd by (intros q _ _ Hne; by apply lookup_delete_ne).
      intros [[]|err|]; [by apply wp_ret..|done].
  - case_match; [apply Hretry|]. apply wp_bind, wp_attempt. unfold Quarantine. apply wp_bind, wp_from_result.
    destruct (pendingPathLocked s (item_ID item)) as [q|err] eqn:Ep; [|apply wp_ret, others_refl].
    apply pendingPath_Ok in Ep as ->. eapply wp_conseq; [by apply quarantine_spec|].
    intros o fs' (Hout & _). assert (others_same s p fs fs') as Ho.
    { intros q Hqd _ Hne. apply Hout; [|done]. rewrite Hqd. apply (wf_dirs s Hwf). }
    destruct o as [[]|err|]; [by apply wp_ret..|done].
Qed.
End Item.

(** The clean-up and the choice of [Next] keep a stored, unexpired item; if it is
    the one chosen, it is chosen as it was stored. *)
Lemma next_stored (s : ProbeSpool) id e now (fs : store) :
  spool_wf s -> stores s id e fs -> quarantine_within s fs -> expired s now e = false ->
  wp reads_work (Next s now)
    (fun o fs1 => quarantine_within s fs1 /\ stores s id e fs1 /\
      forall item, o = Done (Some item) -> item_ID item = id ->
        item = mkItem id (Batch e) (Created e) (Attempt e) (NextAt e)) fs.
Proof.
  intros Hwf Hst Hq Hexp. pose proof Hst as (Hl & He & Hsize).
  assert (live s now (envelope_text e)) as Hlive.
  { split; [done|]. exists e. split; [by apply envelope_roundtrip|done]. }
  eapply wp_conseq.
  { apply wp_conj; [by apply (next_spec s reads_work now fs)|].
    exact (keeps_next_here s Hwf now (id +:+ ".json") (envelope_text e) 384
      (item_path_json s id) Hlive fs Hl). }
  intros o fs1 [(Hq1 & Hsel & _) Hl1]. split; [done|]. split; [by split_and!|].
  intros item Ho Heq.
  destruct (Hsel item Ho) as (name & (c & perm & e1 & Hc & Hname & Hp & _ & _ & Hitem) & _).
  assert (name = id +:+ ".json") as ->.
  { rewrite (HasSuffix_true _ _ Hname). f_equal. by rewrite Hitem in Heq. }
  rewrite Hl1 in Hc. simplify_eq. rewrite envelope_roundtrip in Hp by done. simplify_eq.
  by rewrite TrimSuffix_app.
Qed.

(** Computations that crash or return, but do not fail. *)
Definition nofail {E A : Type} (m : M E A) : Prop :=
  forall w, match (m w).2 with Fail _ => False | _ => True end.
Definition returns {E A : Type} (P : A -> Prop) (m : M E A) : Prop :=
  forall w, match (m w).2 with Done a => P a | _ => True end.

Lemma nofail_ret {E A : Type} (a : A) : nofail (E := E) (mret a).
Proof. done. Qed.
Lemma nofail_attempt {E E' A : Type} (m : M E A) : nofail (E := E') (attempt m).
Proof. intros w. unfold attempt. by destruct (m w) as [w' [a|e|]]. Qed.
Lemma nofail_bind {E A B : Type} (m : M E A) (f : A -> M E B) :
  nofail m -> (forall a, nofail (f a)) -> nofail (m ≫= f).
Proof.
  intros Hm Hf w. specialize (Hm w). unfold mbind, M_bind.
  destruct (m w) as [w' [a|e|]]; [apply Hf|done|done].
Qed.
Lemma returns_ret {E A : Type} (P : A -> Prop) (a : A) : P a -> returns (E := E) P (mret a).
Proof. by intros H w. Qed.
Lemma returns_bind {E A B : Type} (P : A -> Prop) (Q : B -> Prop) (m : M E A) (f : A -> M E B) :
  returns P m -> (forall a, P a -> returns Q (f a)) -> returns Q (m ≫= f).
Proof.
  intros Hm Hf w. specialize (Hm w). unfold mbind, M_bind.
  destruct (m w) as [w' [a|e|]]; [by apply Hf|done|done].
Qed.
Lemma returns_any {E A : Type} (m : M E A) : returns (fun _ => True) m.
Proof. intros w. by destruct (m w) as [w' [a|e|]]. Qed.

Lemma nofail_uploadOne s ParseTime jitter ctx0 ctx1 now answer ctxAfter :
  nofail (uploadOne s ParseTime jitter ctx0 ctx1 now answer ctxAfter).
Proof.
  assert (forall item ra st to, nofail (err ← scheduleRetry s ParseTime jitter item now ra st to; mret (Some err)))
    as Hsched.
  { intros. apply nofail_bind; [|intros; apply nofail_ret]. unfold scheduleRetry. cbv zeta.
    apply nofail_bind; [apply nofail_attempt|]. intros [[]|e]; apply nofail_ret. }
  unfold uploadOne. destruct ctx0, ctx1; try apply nofail_ret.
  apply nofail_bind; [apply nofail_attempt|]. intros [[item|]|e]; try apply nofail_ret.
  apply nofail_bind; [|intros; apply nofail_ret]. unfold settle.
  destruct (postBody _); [destruct ctxAfter as [[]|]; try apply Hsched; apply nofail_ret|].
  repeat case_match; try apply Hsched;
    (apply nofail_bind; [apply nofail_attempt|intros; apply nofail_ret]).
Qed.

Definition local_error (e : upload_error) : Prop :=
  match e with
  | ContextError _ | ReadSpoolError _ | AckError _ | QuarantineError _ _ | PersistRetryError _ => True
  | _ => False
  end.
Definition terminal_error (e : upload_error) : Prop :=
  match e with
  | ProbeUploadStaleError _ | ProbeUploadRoundConflictError | AgentAPIStatusError _ => True
  | _ => False
  end.

(** A retry that was scheduled: the request got no answer, or a retryable status. *)
Definition lost_answer (e : upload_error) : Prop :=
  match e with ProbeUploadRetryError code _ _ _ => code = 0 | _ => False end.
Definition retryable_answer (e : upload_error) : Prop :=
  match e with
  | ProbeUploadRetryError code _ _ timedOut => isRetryableProbeUploadStatus code = true /\ timedOut = false
  | _ => False
  end.

(** What an upload can report. *)
Definition upload_outcome (r : bool * option upload_error) : Prop :=
  forall e, r.2 = Some e -> local_error e \/ terminal_error e \/ lost_answer e \/ retryable_answer e.

Lemma returns_scheduleRetry s ParseTime jitter item now ra status timedOut :
  status = 0 \/ isRetryableProbeUploadStatus status = true /\ timedOut = false ->
  returns (fun e => local_error e \/ terminal_error e \/ lost_answer e \/ retryable_answer e)
    (scheduleRetry s ParseTime jitter item now ra status timedOut).
Proof.
  intros Hs. unfold scheduleRetry. cbv zeta. eapply returns_bind; [apply returns_any|].
  intros [[]|e] _; apply returns_ret; [|by left]. right; right. destruct Hs as [->|[Hr ->]]; [by left|by right].
Qed.

Lemma terminal_rejection status code : terminal_error (rejection status code).
Proof. unfold rejection. by repeat case_match. Qed.

Lemma returns_uploadOne s ParseTime jitter ctx0 ctx1 now answer ctxAfter :
  returns upload_outcome (uploadOne s ParseTime jitter ctx0 ctx1 now answer ctxAfter).
Proof.
  assert (forall worked e, local_error e -> returns (E := spool_error) upload_outcome (mret (worked, Some e))) as Hlocal.
  { intros worked e He. apply returns_ret. intros ? [= <-]. by left. }
  assert (forall worked, returns (E := spool_error) upload_outcome (mret (worked, None))) as Hnone
    by (intros worked; by apply returns_ret).
  unfold uploadOne. destruct ctx0 as [e|]; [by apply Hlocal|]. destruct ctx1 as [e|]; [by apply Hlocal|].
  eapply returns_bind; [apply returns_any|]. intros [[item|]|e] _; [|apply Hnone|by apply Hlocal].
  apply (returns_bind (fun err => upload_outcome (true, err))); [|intros err Herr; by apply returns_ret].
  assert (forall ra status timedOut, status = 0 \/ isRetryableProbeUploadStatus status = true /\ timedOut = false ->
    returns (fun err => upload_outcome (true, err))
      (err ← scheduleRetry s ParseTime jitter item now ra status timedOut; mret (Some err))) as Hretry.
  { intros ra status timedOut Hs. eapply returns_bind; [by apply returns_scheduleRetry|].
    intros err Herr. apply returns_ret. by intros ? [= <-]. }
  assert (forall err, (forall e, err = Some e -> local_error e \/ terminal_error e) ->
    returns (E := spool_error) (fun err => upload_outcome (true, err)) (mret err)) as Hret.
  { intros err Herr. apply returns_ret. intros e He. destruct (Herr e He); auto. }
  unfold settle. destruct (postBody _) as [deadline|status ra code].
  - destruct ctxAfter as [[]|]; try (apply Hretry; by left). apply Hret. intros ? [= <-]. by left.
  - case_match; [|destruct (isRetryableProbeUploadStatus status) eqn:Er; [apply Hretry; by right|]];
      (eapply returns_bind; [apply returns_any|]; intros r _; apply Hret; destruct r; intros ? [= <-]);
      [by left|right; apply terminal_rejection|by left].
Qed.

(** What the runner does with an error: which are returned, and of which [OnRejected] is told. *)
Definition run_result (r : option upload_error * list upload_error) : Prop :=
  (forall e, r.1 = Some e -> local_error e) /\ Forall (fun e => terminal_error e \/ retryable_answer e) r.2.

Lemma decide_turn_spec c worked err : upload_outcome (worked, err) ->
  match decide_turn c worked err with
  | Return e => local_error e
  | Continue r | Sleep r => forall e, r = Some e -> terminal_error e \/ retryable_answer e
  end.
Proof.
  unfold decide_turn. intros Hout. destruct c as [c|]; [done|].
  destruct err as [e|]; [|by destruct worked]. specialize (Hout e eq_refl). cbv zeta.
  assert (as_status_error e = true -> terminal_error e \/ retryable_answer e) as Hstatus.
  { intros Hs. destruct Hout as [H|[H|[H|H]]]; [|by left| |by right].
    - by destruct e.
    - destruct e as [| | | | |code n nextAt timedOut| | |]; try done. simpl in *. by rewrite H in Hs. }
  destruct (as_status_error e) eqn:Es; [destruct worked; intros ? [= <-]; by apply Hstatus|].
  destruct (as_retry_error e) eqn:Er; [by destruct worked|]. by destruct e.
Qed.

Lemma add_rejected_ok (P : upload_error -> Prop) r l :
  (forall e, r = Some e -> P e) -> Forall P l -> Forall P (add_rejected r l).
Proof. intros Hr Hl. destruct r; [|done]. constructor; auto. Qed.

Lemma Run_returns s ParseTime jitter turns :
  nofail (Run s ParseTime jitter turns) /\ returns run_result (Run s ParseTime jitter turns).
Proof.
  induction turns as [|t turns [IHn IHr]]; [split; [apply nofail_ret|by apply returns_ret]|].
  cbn [Run].
  assert (forall r, nofail ('(res, l) ← Run s ParseTime jitter turns; mret (res, add_rejected r l))) as Hnofail
    by (intros r; apply nofail_bind; [done|by intros []]).
  assert (forall r, (forall e, r = Some e -> terminal_error e \/ retryable_answer e) ->
    returns run_result ('(res, l) ← Run s ParseTime jitter turns; mret (res, add_rejected r l))) as Hrest.
  { intros r Hr. eapply returns_bind; [exact IHr|]. intros [res l] [H1 H2]. apply returns_ret.
    split; [done|by apply add_rejected_ok]. }
  split.
  - apply nofail_bind; [apply nofail_uploadOne|]. intros [worked err].
    destruct (decide_turn _ _ _) as [e|r|r]; [apply nofail_ret|apply Hnofail|].
    destruct (t_wake t); [apply nofail_ret|by apply nofail_bind|apply Hnofail].
  - eapply returns_bind; [apply returns_uploadOne|]. intros [worked err] Hout.
    pose proof (decide_turn_spec (t_ctxAfter t) worked err Hout) as Hd.
    destruct (decide_turn _ _ _) as [e|r|r]; [|by apply Hrest|].
    + apply returns_ret. split; [by intros ? [= <-]|constructor].
    + destruct (t_wake t); [| |by apply Hrest].
      * apply returns_ret. split; [by intros ? [= <-]|]. apply add_rejected_ok; [done|constructor].
      * eapply returns_bind; [apply returns_any|]. intros _ _. by apply Hrest.
Qed.

(** ** Properties *)

(** The retry backoff doubles from one second to its cap of five minutes:
    1, 2, 4, ... 256 s for attempts 1 to 9 and 300 s from then on, for every
    attempt counter (which counts as 1 when it is 0). *)
Theorem upload_backoff_doubles_to_cap attempt : 0 <= attempt < two32 ->
  probeUploadBackoff attempt =
    if attempt <=? 9 then 2 ^ (Z.max 1 attempt - 1) * Second else 300 * Second.
Proof. intros Ha. rewrite backoff_value by lia. done. Qed.

(** Every delay before a retry is bounded, whatever the Controller sends in
    Retry-After, whatever dates [http.ParseTime] accepts and whatever a jitter
    hook returns: it is between 0 and five minutes, and without a usable
    Retry-After it is at most the backoff of the attempt. *)
Theorem retry_delay_bounded ParseTime jitter attempt retryAfter now : 0 <= attempt ->
  0 <= retry_delay ParseTime jitter attempt retryAfter now <= 300 * Second /\
  ((parseProbeRetryAfter ParseTime retryAfter now).2 = false ->
    retry_delay ParseTime jitter attempt retryAfter now <= probeUploadBackoff attempt).
Proof. apply retry_delay_range. Qed.

Lemma uploadOne_accounts (s : ProbeSpool) ParseTime jitter id e ctx0 ctx1 now answer ctxAfter
  (fs : store) :
  spool_wf s -> MaxItemBytes (limits s) <= MaxQuarantineBytes (limits s) ->
  pendingPathLocked s id = Ok (item_path s id) -> stores s id e fs -> quarantine_within s fs ->
  expired s now e = false -> 0 < now <= maxInt64 - maxProbeUploadBackoff ->
  wp reads_work (uploadOne s ParseTime jitter ctx0 ctx1 now answer ctxAfter)
    (fun _ fs' => accounted s id e (postBody (answer (Batch e))) fs') fs.
Proof.
  intros Hwf Hevid Hid Hst Hq Hexp Hnow. unfold uploadOne.
  assert (forall fs1, stores s id e fs1 -> accounted s id e (postBody (answer (Batch e))) fs1) as Hkept.
  { intros fs1 H1. left. by apply stores_queued. }
  destruct ctx0 as [c0|]; [by apply wp_ret, Hkept|]. destruct ctx1 as [c1|]; [by apply wp_ret, Hkept|].
  apply wp_bind, wp_attempt. eapply wp_conseq; [by apply next_stored|].
  intros o fs1 (Hq1 & Hst1 & Hitem).
  destruct o as [[item|]|err|]; [|by apply wp_ret, Hkept|by apply wp_ret, Hkept|by apply Hkept].
  apply wp_bind. eapply (wp_conseq reads_work _ (fun _ fs' => accounted s id e (postBody (answer (Batch e))) fs'));
    [|intros [err|err|] fs2 H2; [by apply wp_ret|done|done]].
  destruct (decide (item_ID item = id)) as [Heq|Hne].
  - rewrite (Hitem item eq_refl Heq). eapply wp_conseq; [by apply settle_spec|]. by intros o fs2 [H2 _].
  - eapply wp_conseq; [by apply settle_others|]. intros o fs2 Hoth. apply Hkept.
    destruct Hst1 as (Hl1 & He & Hsize). split; [|done]. rewrite <- Hl1.
    apply Hoth; [done|apply item_path_json|]. unfold item_path. intros [= E].
    apply Hne. apply (f_equal (fun t => TrimSuffix t ".json")) in E. by rewrite !TrimSuffix_app in E.
Qed.

(** No batch is lost by an upload.  For any stored, unexpired batch, after
    [uploadOne] with any answer of the Controller and a crash at any point, the
    batch is still queued, or the Controller accepted it with a 2xx status, or
    it was rejected for good and its exact bytes lie in the quarantine. *)
Theorem upload_accounts_for_every_batch (s : ProbeSpool) ParseTime jitter id e ctx0 ctx1 now answer ctxAfter
  (fs : store) :
  spool_wf s -> MaxItemBytes (limits s) <= MaxQuarantineBytes (limits s) ->
  pendingPathLocked s id = Ok (item_path s id) -> stores s id e fs -> quarantine_within s fs ->
  expired s now e = false -> 0 < now <= maxInt64 - maxProbeUploadBackoff ->
  wp reads_work (uploadOne s ParseTime jitter ctx0 ctx1 now answer ctxAfter)
    (fun _ fs' => accounted s id e (postBody (answer (Batch e))) fs') fs.
Proof. exact (uploadOne_accounts s ParseTime jitter id e ctx0 ctx1 now answer ctxAfter fs). Qed.

(** C17. What an upload reports is already on disk.  Settling a stored item under
    any I/O errors: success means a 2xx answer and the file gone; a retry error
    names an attempt counter one higher (saturating) and a retry time within
    five minutes that are already in the file; a rejection means a terminal
    status and the exact bytes in the quarantine; cancellation changes nothing. *)
Theorem settlement_is_durable (s : ProbeSpool) ParseTime jitter id e now posted ctxAfter (fs : store) :
  spool_wf s -> MaxItemBytes (limits s) <= MaxQuarantineBytes (limits s) ->
  pendingPathLocked s id = Ok (item_path s id) -> stores s id e fs -> quarantine_within s fs ->
  0 < now <= maxInt64 - maxProbeUploadBackoff ->
  wp any_fault (settle s ParseTime jitter
      (mkItem id (Batch e) (Created e) (Attempt e) (NextAt e)) now posted ctxAfter)
    (fun o fs' => accounted s id e posted fs' /\
      forall err, o = Done err -> reported s id e now posted err fs') fs.
Proof. intros. by apply settle_spec. Qed.

(** A cancelled upload consumes no attempt: when the context is cancelled
    before the upload or while the request is in flight, a stored item keeps its
    attempt counter, its retry time and its batch. *)
Theorem cancellation_consumes_no_attempt (s : ProbeSpool) ParseTime jitter id e ctx0 ctx1 now answer deadline
  (fs : store) :
  spool_wf s -> stores s id e fs -> quarantine_within s fs -> expired s now e = false ->
  (forall body, answer body = DoFailed deadline) ->
  wp reads_work (uploadOne s ParseTime jitter ctx0 ctx1 now answer (Some Canceled))
    (fun _ fs' => stores s id e fs' /\ (ctx0 <> None \/ ctx1 <> None -> fs' = fs)) fs.
Proof.
  intros Hwf Hst Hq Hexp Hans. unfold uploadOne.
  destruct ctx0 as [c0|]; [by apply wp_ret|]. destruct ctx1 as [c1|]; [by apply wp_ret|].
  apply wp_bind, wp_attempt. eapply wp_conseq; [by apply next_stored|].
  intros o fs1 (Hq1 & Hst1 & _).
  assert (@None ctx_error <> None \/ @None ctx_error <> None -> fs1 = fs) as Hno by (by intros [?|?]).
  destruct o as [[item|]|err|]; [|by apply wp_ret|by apply wp_ret|done].
  rewrite Hans. by apply wp_bind, wp_ret, wp_ret.
Qed.

(** C40. No answer of the Controller stops the runner.  Over any sequence of turns and any I/O errors and crashes,
    [Run] returns only the error of its context or a local spool error.  [OnRejected] is called for terminal rejections
    and, against its documentation, for the scheduled retries of a retryable status, 408, 429 or 5xx; never for a
    request that got no answer.  And it is told of each of them: an uploader with a live context goes on after an error
    and calls [OnRejected] exactly when the error carries a status of the Controller. *)
Theorem run_survives_controller (s : ProbeSpool) ParseTime jitter turns w :
  match (Run s ParseTime jitter turns w).2 with
  | Done (res, rejected) =>
      (forall e, res = Some e -> local_error e) /\ Forall (fun e => terminal_error e \/ retryable_answer e) rejected
  | Fail _ => False
  | Crashed => True
  end /\
  forall worked e,
    decide_turn None worked (Some e) =
      match e with
      | ProbeUploadRetryError 0 _ _ _ => if worked then Continue None else Sleep None
      | ProbeUploadRetryError _ _ _ _ | ProbeUploadStaleError _ | ProbeUploadRoundConflictError
      | AgentAPIStatusError _ => if worked then Continue (Some e) else Sleep (Some e)
      | _ => Return e
      end.
Proof.
  split.
  - pose proof (Run_returns s ParseTime jitter turns) as [Hn Hr]. specialize (Hn w). specialize (Hr w).
    destruct (Run s ParseTime jitter turns w) as [w' [[res l]|e|]]; auto.
  - intros worked e. by destruct e as [| | | | |[] n nextAt timedOut| | |], worked.
Qed.

(** C29. The default jitter spreads retries over the whole backoff and never shortens it to nothing by failing.  Without a
    usable Retry-After, a retry of the uploader that [NewProbeUploader] builds waits exactly the number drawn between
    zero and the backoff, each of which can be drawn; when the random source fails it waits the whole backoff.  The
    jitter never panics, and the clamping of [scheduleRetry] never acts on it. *)
Theorem default_jitter_spreads_retries ParseTime draw attempt retryAfter now :
  0 <= attempt -> (forall n r, 0 < n -> draw n = Some r -> 0 <= r < n) ->
  (parseProbeRetryAfter ParseTime retryAfter now).2 = false ->
  let limit := probeUploadBackoff attempt in
  retry_delay ParseTime (fun l => default 0 (randomProbeUploadJitter draw l)) attempt retryAfter now =
    default limit (draw (limit + 1)) /\
  is_Some (randomProbeUploadJitter draw limit) /\
  (forall d, 0 <= d <= limit ->
    retry_delay ParseTime (fun l => default 0 (randomProbeUploadJitter (fun _ => Some d) l)) attempt retryAfter now = d).
Proof.
  intros Ha Hdraw Hno limit. assert (maxProbeUploadBackoff < maxInt64) by (by vm_compute).
  pose proof (backoff_positive attempt Ha) as Hb. fold limit in Hb. unfold retry_delay.
  destruct (parseProbeRetryAfter _ _ _) as [delay valid]. simpl in Hno. subst valid. cbv zeta. fold limit.
  rewrite !random_jitter by lia. split; [|split; [by eexists|]].
  - specialize (Hdraw (limit + 1)). destruct (draw (limit + 1)) as [r|]; simpl; [specialize (Hdraw r ltac:(lia) eq_refl)|];
      zcase; lia.
  - intros d Hd. rewrite random_jitter by lia. simpl. zcase; lia.
Qed.

(** A Retry-After of zero seconds makes the item due again at once, so [Run],
    which does not wait after work, posts it again without any delay; and it
    reports the retry as a rejection first. *)
Example retry_after_zero_is_due_now ParseTime jitter now :
  retry_delay ParseTime jitter 1 "0" now = 0 /\
  decide_turn None true (Some (ProbeUploadRetryError 503 1 now false)) = Continue (Some (ProbeUploadRetryError 503 1 now false)).
Proof. split; reflexivity. Qed.

(** A 2xx answer whose body cannot be read is no acceptance: the batch is sent again. *)
Example unreadable_acceptance_is_retried status retryAfter deadline :
  postBody (Answer status retryAfter (Err deadline)) = PostFailed deadline.
Proof. reflexivity. Qed.

(** ** Witnesses *)
Definition no_dates (value : string) : option Z := None.
Definition full_jitter (limit : Z) : Z := limit.

Lemma upload_backoff_doubles_to_cap_witness :
  0 <= 4 < two32 /\ probeUploadBackoff 4 = 2 ^ (Z.max 1 4 - 1) * Second.
Proof. split; [by vm_compute|]. apply (upload_backoff_doubles_to_cap 4). by vm_compute. Defined.

Lemma default_jitter_spreads_retries_witness :
  let draw n := Some (n - 1) in
  retry_delay no_dates (fun l => default 0 (randomProbeUploadJitter draw l)) 3 "soon" demo_now = 4 * Second /\
  is_Some (randomProbeUploadJitter draw (4 * Second)) /\
  (forall d, 0 <= d <= 4 * Second ->
    retry_delay no_dates (fun l => default 0 (randomProbeUploadJitter (fun _ => Some d) l)) 3 "soon" demo_now = d).
Proof.
  apply (default_jitter_spreads_retries no_dates (fun n => Some (n - 1)) 3 "soon" demo_now); [lia| |by vm_compute].
  intros n r Hn [= <-]. lia.
Defined.

Lemma retry_delay_bounded_witness :
  0 <= retry_delay no_dates full_jitter 3 "86400" demo_now <= 300 * Second /\
  ((parseProbeRetryAfter no_dates "86400" demo_now).2 = false ->
    retry_delay no_dates full_jitter 3 "86400" demo_now <= probeUploadBackoff 3).
Proof. apply retry_delay_bounded. lia. Defined.

Lemma demo_not_expired : expired demo_spool demo_now demo_envelope = false.
Proof. vm_compute. reflexivity. Qed.

Lemma upload_accounts_for_every_batch_witness :
  wp reads_work (uploadOne demo_spool no_dates full_jitter None None demo_now
      (fun _ => Answer 503 "" (Ok "busy")) None)
    (fun _ fs' => accounted demo_spool demo_id demo_envelope (Posted 503 "" "") fs') demo_store.
Proof.
  apply (upload_accounts_for_every_batch demo_spool no_dates full_jitter demo_id demo_envelope None None
    demo_now (fun _ => Answer 503 "" (Ok "busy")) None demo_store);
    [apply demo_wf|by vm_compute|apply demo_pending_path|apply demo_stores|apply demo_quarantine_within
    |apply demo_not_expired|by vm_compute].
Defined.

Lemma settlement_is_durable_witness :
  wp any_fault (settle demo_spool no_dates full_jitter
      (mkItem demo_id (Batch demo_envelope) (Created demo_envelope) (Attempt demo_envelope)
        (NextAt demo_envelope)) demo_now (Posted 409 "" "stale_probe_config") None)
    (fun o fs' =>
      accounted demo_spool demo_id demo_envelope (Posted 409 "" "stale_probe_config") fs' /\
      forall err, o = Done err ->
        reported demo_spool demo_id demo_envelope demo_now (Posted 409 "" "stale_probe_config") err fs')
    demo_store.
Proof.
  apply settlement_is_durable;
    [apply demo_wf|by vm_compute|apply demo_pending_path|apply demo_stores|apply demo_quarantine_within
    |by vm_compute].
Defined.

Lemma cancellation_consumes_no_attempt_witness :
  wp reads_work (uploadOne demo_spool no_dates full_jitter None None demo_now
      (fun _ => DoFailed false) (Some Canceled))
    (fun _ fs' => stores demo_spool demo_id demo_envelope fs' /\
      (@None ctx_error <> None \/ @None ctx_error <> None -> fs' = demo_store)) demo_store.
Proof.
  apply (cancellation_consumes_no_attempt _ _ _ _ _ _ _ _ _ false);
    [apply demo_wf|apply demo_stores|apply demo_quarantine_within|apply demo_not_expired|done].
Defined.

(** An undisturbed run: a 503, then, when the item is due again, a 2xx. *)
Example demo_upload :
  let w := mkWorld demo_store [] ["1"] false in
  let '(w1, o1) := uploadOne demo_spool no_dates full_jitter None None demo_now
    (fun _ => Answer 503 "" (Ok "busy")) None w in
  let '(w2, o2) := uploadOne demo_spool no_dates full_jitter None None (demo_now + Second)
    (fun body => if bool_decide (body = demo_body) then Answer 204 "" (Ok "") else DoFailed false) None w1 in
  o1 = Done (true, Some (ProbeUploadRetryError 503 1 (demo_now + Second) false)) /\
  o2 = Done (true, None) /\ bool_decide (files w2 = ∅) = true.
Proof. vm_compute. done. Qed.
