(* ===== verification/ProbeBacklog.v ===== *)
(** * The backlog of the probe spool over its whole life

    [Enqueue] bounds the backlog, but a retry rewrites an item with a longer
    attempt counter and retry time and [ScheduleRetry] checks the size of the
    item only (probe_spool.go, lines 270 to 297).  This file states what every
    operation of the spool and the uploader keeps all the same, under any I/O
    errors and crashes: the pending items are items the agent wrote, at most
    [MaxPendingItems] of them, and their bytes exceed [MaxPendingBytes] by at
    most [retry_growth] bytes for each item. *)

From S2P Require Export ProbeUploader.

(** ** The length of an envelope *)
Lemma digits_fuel_length n : forall z acc (w : nat), 0 <= z < 10 ^ Z.of_nat n -> (0 < n)%nat ->
  z < 10 ^ Z.of_nat w -> (0 < w)%nat ->
  (String.length acc < String.length (digits_fuel n z acc) <= String.length acc + w)%nat.
Proof.
  induction n as [|n IH]; intros z acc w Hz Hn Hw Hpos; [lia|]. cbn [digits_fuel].
  destruct (Z.ltb_spec z 10); [simpl; lia|].
  rewrite Nat2Z.inj_succ, Z.pow_succ_r in Hz by lia.
  destruct w as [|w]; [lia|]. rewrite Nat2Z.inj_succ, Z.pow_succ_r in Hw by lia.
  destruct n as [|n]; [simpl in Hz; lia|]. destruct w as [|w]; [simpl in Hw; lia|].
  assert (0 <= z / 10 < 10 ^ Z.of_nat (S n)) as Hq.
  { split; [apply Z.div_pos; lia|apply Z.div_lt_upper_bound; lia]. }
  assert (z / 10 < 10 ^ Z.of_nat (S w)) as Hqw by (apply Z.div_lt_upper_bound; lia).
  pose proof (IH (z / 10) (String (digit_chr (z mod 10)) acc) (S w) Hq ltac:(lia) Hqw ltac:(lia)).
  simpl in *. lia.
Qed.

Lemma Itoa_length (w : nat) z : 0 <= z < 10 ^ Z.of_nat w -> (0 < w)%nat ->
  1 <= str_len (Itoa z) <= Z.of_nat w.
Proof.
  intros Hz Hw. unfold Itoa, utoa, str_len. destruct (Z.ltb_spec z 0); [lia|].
  destruct (digits_fuel_length (S (Z.to_nat (Z.log2 z))) z "" w); try lia; [|simpl in *; lia].
  split; [lia|]. rewrite Nat2Z.inj_succ, Z2Nat.id by apply Z.log2_nonneg.
  assert (z < 2 ^ Z.succ (Z.log2 z)) by (destruct (Z.eq_dec z 0) as [->|]; [done|apply Z.log2_spec; lia]).
  assert (2 ^ Z.succ (Z.log2 z) <= 10 ^ Z.succ (Z.log2 z)); [|lia].
  apply Z.pow_le_mono_l. pose proof (Z.log2_nonneg z). lia.
Qed.

Lemma str_len_app p q : str_len (p +:+ q) = str_len p + str_len q.
Proof. unfold str_len. rewrite length_app_str. lia. Qed.

(** The size of an item apart from what a retry changes. *)
Definition base_size (e : probeSpoolEnvelope) : Z := str_len (envelope_text (retry_envelope 0 0 e)).

(** Ten digits of a 32-bit counter and nineteen of a time, for one digit each. *)
Definition retry_growth : Z := 27.

Lemma envelope_growth e : envelope_wf e -> base_size e <= str_len (envelope_text e) <= base_size e + retry_growth.
Proof.
  intros [_ _ Hat Hnx _ _ _].
  destruct (Itoa_length 10 (Attempt e)) as [? ?]; [|lia|].
  { assert (two32 < 10 ^ Z.of_nat 10) by (by vm_compute). lia. }
  destruct (Itoa_length 19 (NextAt e)) as [? ?]; [|lia|].
  { assert (maxInt64 < 10 ^ Z.of_nat 19) by (by vm_compute). lia. }
  unfold base_size, retry_growth, envelope_text, retry_envelope, json_object, json_member.
  cbn [SchemaVersion Created Attempt NextAt Checksum Batch GoStrings.Join].
  change (Itoa 0) with "0". change (Itoa (UnixNano 0)) with "0".
  rewrite !str_len_app. change (str_len "0") with 1. lia.
Qed.

Lemma base_size_retry attempt nextAt e : base_size (retry_envelope attempt nextAt e) = base_size e.
Proof. done. Qed.

(** ** The items of a spool that only the agent writes *)
Section Backlog.
Context (s : ProbeSpool) (Hwf : spool_wf s)
  (Hroom : 2 * MaxPendingBytes (limits s) + retry_growth * MaxPendingItems (limits s) <= maxInt64).

Definition id_ok (id : string) : Prop := id <> "" /\ str_forall id_char id = true.

(** Every pending item is one that [Enqueue] or [ScheduleRetry] wrote. *)
Definition canonical (fs : store) : Prop :=
  forall name n, fs !! (pendingDir s, name) = Some n -> HasSuffix name ".json" = true ->
    exists id e, name = id +:+ ".json" /\ id_ok id /\ stores s id e fs.

Definition node_base (n : node) : Z :=
  match n with
  | NFile c _ => match parse_envelope c with Some e => base_size e | None => str_len c end
  | _ => node_size n
  end.
Definition entry_base (e : string * node) : Z := node_base e.2.
Definition base_bytes (fs : store) : Z := Zsum (map entry_base (pending_items s fs)).

(** The invariant of the pending directory. *)
Definition backlog (fs : store) : Prop :=
  canonical fs /\ pending_count s fs <= MaxPendingItems (limits s) /\ base_bytes fs <= MaxPendingBytes (limits s).

Lemma id_ok_path id : id_ok id -> pendingPathLocked s id = Ok (item_path s id).
Proof. intros [? ?]. by apply pendingPath_id. Qed.

Lemma id_ok_newID now random : id_ok (newID now random).
Proof. split; [apply newID_ne|apply newID_chars]. Qed.

Lemma entry_base_nonneg e : 0 <= entry_base e.
Proof.
  unfold entry_base, node_base, base_size, node_size. repeat case_match; unfold str_len; lia.
Qed.

Lemma entry_base_cons name e perm l : envelope_wf e ->
  Zsum (map entry_base ((name, NFile (envelope_text e) perm) :: l)) = base_size e + Zsum (map entry_base l).
Proof.
  intros He. change (node_base (NFile (envelope_text e) perm) + Zsum (map entry_base l) =
    base_size e + Zsum (map entry_base l)). unfold node_base. by rewrite envelope_roundtrip.
Qed.

Lemma node_base_stored e perm : envelope_wf e -> node_base (NFile (envelope_text e) perm) = base_size e.
Proof. intros He. simpl. by rewrite envelope_roundtrip. Qed.

Lemma item_path_inj id id' : item_path s id = item_path s id' -> id = id'.
Proof.
  unfold item_path. intros E. apply (f_equal (fun p : path => TrimSuffix p.2 ".json")) in E.
  simpl in E. by rewrite !TrimSuffix_app in E.
Qed.

Lemma canonical_item (fs : store) id n : canonical fs -> fs !! item_path s id = Some n ->
  id_ok id /\ exists e, stores s id e fs.
Proof.
  intros Hc Hn. destruct (Hc _ _ Hn (item_path_json s id)) as (id' & e & E & Hid & Hst).
  apply (f_equal (fun t => TrimSuffix t ".json")) in E. rewrite !TrimSuffix_app in E. subst id'. by eauto.
Qed.

(** Pending items that are items of the other files still, or gone. *)
Lemma canonical_mono (fs fs' : store) : canonical fs ->
  (forall name, HasSuffix name ".json" = true -> fs' !! (pendingDir s, name) = None \/
    fs' !! (pendingDir s, name) = fs !! (pendingDir s, name)) -> canonical fs'.
Proof.
  intros Hc Hsame name n Hn Hj. destruct (Hsame name Hj) as [E|E]; [by rewrite E in Hn|].
  rewrite E in Hn. destruct (Hc name n Hn Hj) as (id & e & -> & Hid & Hl & He). exists id, e.
  split; [done|]. split; [done|]. split; [|done]. unfold item_path. rewrite E. exact Hl.
Qed.

Lemma backlog_submseteq (fs fs' : store) : canonical fs' ->
  pending_items s fs' ⊆+ pending_items s fs -> backlog fs -> backlog fs'.
Proof.
  intros Hc Hsub (_ & H1 & H2). split; [done|]. unfold pending_count, base_bytes in *.
  pose proof (submseteq_length _ _ Hsub).
  pose proof (Zsum_submseteq entry_base _ _ entry_base_nonneg Hsub). lia.
Qed.

Lemma backlog_delete (fs : store) (p : path) : backlog fs -> backlog (delete p fs).
Proof.
  intros Hb. eapply backlog_submseteq; [|apply pending_items_delete|done].
  eapply canonical_mono; [apply Hb|]. intros name _.
  destruct (decide (p = (pendingDir s, name))) as [->|Hne]; [left; apply lookup_delete_eq|].
  right. by apply lookup_delete_ne.
Qed.

Lemma backlog_other (fs : store) (p : path) (n : node) :
  p.1 <> pendingDir s \/ HasSuffix p.2 ".json" = false -> backlog fs -> backlog (<[p := n]> fs).
Proof.
  intros Hp Hb. eapply backlog_submseteq; [|by apply pending_items_other|done].
  eapply canonical_mono; [apply Hb|]. intros name Hj. right. apply lookup_insert_ne. intros ->.
  simpl in Hp. destruct Hp as [|Hp]; [done|]. by rewrite Hp in Hj.
Qed.

Lemma backlog_leftover (p : path) (fs fs' : store) : with_leftover p fs fs' -> backlog fs -> backlog fs'.
Proof.
  intros [->|(q & c & perm & [d ->] & _ & ->)]; [done|]. apply backlog_other. right. apply temp_not_json.
Qed.

Lemma tolerant_backlog : tolerant s backlog.
Proof.
  split; [intros fs p Hb _; by apply backlog_delete|].
  intros fs name n Hb. apply backlog_other; [|done]. left. simpl. intros E. by apply (wf_dirs s Hwf).
Qed.

(** Writing an item: what is written, and what was there before. *)
Lemma backlog_write (fs : store) id e : id_ok id -> envelope_wf e ->
  str_len (envelope_text e) <= MaxItemBytes (limits s) -> canonical fs ->
  pending_count s (delete (item_path s id) fs) < MaxPendingItems (limits s) ->
  base_bytes (delete (item_path s id) fs) + base_size e <= MaxPendingBytes (limits s) ->
  backlog (replaced (item_path s id) (envelope_text e) fs).
Proof.
  intros Hid He Hlen Hc Hcount Hbytes.
  assert (pending_items s (replaced (item_path s id) (envelope_text e) fs) ⊆+
    (id +:+ ".json", NFile (envelope_text e) 384) :: pending_items s (delete (item_path s id) fs)) as Hsub.
  { apply pending_items_submseteq. intros [name n]. rewrite elem_of_pending_items. intros [Hi Hl].
    unfold replaced in Hl. cbn [fst snd] in Hl. destruct (decide (item_path s id = (pendingDir s, name))) as [E|Hne].
    - rewrite E, lookup_insert_eq in Hl. unfold item_path in E. simplify_eq. constructor.
    - rewrite lookup_insert_ne in Hl by done. constructor. apply elem_of_pending_items.
      split; [done|]. by rewrite lookup_delete_ne. }
  split_and!.
  - intros name n Hn Hj. unfold replaced in Hn.
    destruct (decide (item_path s id = (pendingDir s, name))) as [E|Hne].
    + unfold item_path in E. simplify_eq. exists id, e. split; [done|]. split; [done|].
      split; [apply lookup_insert_eq|done].
    + rewrite lookup_insert_ne in Hn by done. destruct (Hc name n Hn Hj) as (id' & e' & -> & Hid' & Hl & Hrest).
      exists id', e'. split; [done|]. split; [done|]. split; [|done]. unfold replaced.
      by rewrite lookup_insert_ne.
  - pose proof (submseteq_length _ _ Hsub) as Hl. unfold pending_count in *. rewrite length_cons in Hl. lia.
  - pose proof (Zsum_submseteq entry_base _ _ entry_base_nonneg Hsub) as Hl. unfold base_bytes in *.
    rewrite entry_base_cons in Hl by done. lia.
Qed.

(** The sizes the code adds up. *)
Lemma base_bytes_le (fs : store) : canonical fs -> base_bytes fs <= pending_bytes s fs <=
  base_bytes fs + retry_growth * pending_count s fs.
Proof.
  intros Hc. unfold base_bytes, pending_bytes, pending_count.
  assert (forall x, x ∈ pending_items s fs -> entry_base x <= entry_size x <= entry_base x + retry_growth) as Hone.
  { intros [name n] [Hi Hl]%elem_of_pending_items. simpl in Hl.
    unfold is_item in Hi. apply andb_true_iff in Hi as [_ Hi]. simpl in Hi.
    destruct (Hc name n Hl Hi) as (id & e & -> & _ & Hn & He & _). unfold item_path in Hn. rewrite Hn in Hl.
    simplify_eq. unfold entry_base, entry_size. cbn [snd]. rewrite node_base_stored by done.
    by apply envelope_growth. }
  revert Hone. generalize (pending_items s fs). induction l as [|x l IH]; intros Hone; [simpl; lia|].
  pose proof (Hone x ltac:(constructor)). destruct IH as [? ?]; [intros; apply Hone; by constructor|].
  cbn [map Zsum length]. lia.
Qed.

Lemma backlog_roomy (fs : store) : backlog fs -> roomy s fs.
Proof.
  intros (Hc & H1 & H2). pose proof (base_bytes_le fs Hc) as [_ Hle]. pose proof (limits_positive s Hwf).
  pose proof (wf_items s Hwf). unfold roomy, retry_growth in *. lia.
Qed.

(** ** What the operations keep *)
Context (F : fault -> Prop).

Lemma keeps_cleanup_backlog now : keeps F backlog (cleanupPendingLocked s now).
Proof. apply keeps_cleanup, tolerant_backlog. Qed.

Lemma keeps_next_backlog now : keeps F backlog (Next s now).
Proof. apply keeps_next, tolerant_backlog. Qed.

Lemma enqueued_backlog rounds now random o (fs1 fs' : store) : Forall round_wf rounds -> 0 < now <= maxInt64 ->
  backlog fs1 -> enqueued_at s rounds now random o fs1 fs' -> backlog fs'.
Proof.
  intros Hr Hnow Hb [[-> _]|(body & bytes & Hm & _ & Hlen & Hcount & Hbytes & Hleft & _)]; [done|].
  pose proof (enqueue_envelope_wf rounds now body Hr Hnow Hm) as He.
  destruct Hleft as [Hl|Hl]; eapply backlog_leftover; try exact Hl; [done|].
  pose proof (envelope_growth _ He) as [Hle _]. pose proof Hb as (Hc & _ & _).
  pose proof (base_bytes_le fs1 Hc) as [Hbase _].
  pose proof (pending_items_delete s fs1 (item_path s (newID now bytes))) as Hsub.
  apply backlog_write; try done; [apply id_ok_newID|..].
  - pose proof (submseteq_length _ _ Hsub). unfold pending_count in *. lia.
  - pose proof (Zsum_submseteq entry_base _ _ entry_base_nonneg Hsub). unfold base_bytes in *. lia.
Qed.

Lemma keeps_enqueue_backlog rounds now free random : Forall round_wf rounds -> 0 < now <= maxInt64 ->
  keeps F backlog (Enqueue s rounds now free random).
Proof.
  intros Hr Hnow fs Hb. eapply wp_conseq.
  { apply (enqueue_room_spec s Hwf F rounds now free random backlog); [apply keeps_cleanup_backlog| |done].
    apply backlog_roomy. }
  intros o fs' (fs1 & Hb1 & H). by eapply enqueued_backlog.
Qed.

(** The entries with one item apart. *)
Lemma pending_items_take (fs : store) id e : stores s id e fs ->
  (id +:+ ".json", NFile (envelope_text e) 384) :: pending_items s (delete (item_path s id) fs) ⊆+
    pending_items s fs.
Proof.
  intros (Hl & _). apply NoDup_submseteq.
  - constructor; [|apply NoDup_filter, dir_entries_NoDup'].
    intros [_ Hd]%elem_of_pending_items. simpl in Hd. unfold item_path in Hd. by rewrite lookup_delete_eq in Hd.
  - intros [name n] [E|Hin]%elem_of_cons.
    + simplify_eq. apply elem_of_pending_items. split; [|exact Hl].
      unfold is_item. cbn [fst snd is_dir]. apply (item_path_json s id).
    + apply elem_of_pending_items in Hin as [Hi Hd]. apply elem_of_pending_items. split; [done|].
      by apply lookup_delete_Some in Hd as [_ ?].
Qed.

(** Rewriting an item in place. *)
Lemma backlog_rewrite (fs : store) id e e' : backlog fs -> id_ok id -> stores s id e fs -> envelope_wf e' ->
  str_len (envelope_text e') <= MaxItemBytes (limits s) -> base_size e' = base_size e ->
  backlog (replaced (item_path s id) (envelope_text e') fs).
Proof.
  intros (Hc & H1 & H2) Hid Hst He' Hlen' Hbase. pose proof (pending_items_take fs id e Hst) as Hsub.
  destruct Hst as (Hl & He & Hlen).
  apply backlog_write; try done.
  - pose proof (submseteq_length _ _ Hsub) as H. unfold pending_count in *. rewrite length_cons in H. lia.
  - pose proof (Zsum_submseteq entry_base _ _ entry_base_nonneg Hsub) as H. unfold base_bytes in *.
    rewrite entry_base_cons in H by done. lia.
Qed.

Lemma retry_envelope_wf attempt nextAt e : envelope_wf e -> 0 <= attempt < two32 -> 0 < nextAt <= maxInt64 ->
  envelope_wf (retry_envelope attempt nextAt e).
Proof.
  intros [? ? ? ? ? ? ?] Hat Hnext. assert (minInt64 <= 0) by (by vm_compute).
  split; simpl; try done. unfold UnixNano. rewrite i64_id by (unfold in_i64; lia). lia.
Qed.

Lemma keeps_schedule_backlog id attempt nextAt : 0 <= attempt < two32 -> 0 < nextAt <= maxInt64 ->
  keeps F backlog (ScheduleRetry s id attempt nextAt).
Proof.
  intros Hat Hnext fs Hb. unfold ScheduleRetry. apply wp_bind, wp_from_result.
  destruct (pendingPathLocked s id) as [q|err] eqn:Ep; [|done].
  apply pendingPath_Ok in Ep as ->. apply wp_bind, read_any; [|intros [e|err|] He; [by destruct (He e)|done..]].
  intros c perm e Hl Hp. destruct (canonical_item fs id _ (proj1 Hb) Hl) as [Hid [e' Hst]].
  pose proof Hst as (Hl' & He & Hlen). rewrite Hl in Hl'. simplify_eq. rewrite envelope_roundtrip in Hp by done.
  simplify_eq. case_match; [by apply wp_throw|]. cbv zeta.
  destruct (Z.ltb_spec (MaxItemBytes (limits s)) (str_len (envelope_text (retry_envelope attempt nextAt e))))
    as [Hbig|Hsize]; [by apply wp_throw|].
  apply wp_bind, wp_lift_error. eapply wp_conseq; [apply atomicWrite_spec, json_not_temp, item_path_json|].
  intros o fs' [Hleft _]. assert (backlog fs') as Hb'.
  { destruct Hleft as [H'|H']; eapply backlog_leftover; try exact H'; [done|].
    apply (backlog_rewrite fs id e); try done. by apply retry_envelope_wf. }
  destruct o as [[]|err|]; [by apply wp_signal|done|done].
Qed.

(** Settling an item keeps what its three outcomes keep. *)
Lemma keeps_settle (I : store -> Prop) ParseTime jitter item now posted ctxAfter :
  0 <= item_Attempt item < two32 -> 0 < now <= maxInt64 - maxProbeUploadBackoff ->
  (forall n nextAt, 0 <= n < two32 -> 0 < nextAt <= maxInt64 -> keeps F I (ScheduleRetry s (item_ID item) n nextAt)) ->
  keeps F I (Ack s (item_ID item)) -> (forall reason, keeps F I (Quarantine s (item_ID item) reason)) ->
  keeps F I (settle s ParseTime jitter item now posted ctxAfter).
Proof.
  intros Hat Hnow Hsched Hack Hquar.
  assert (forall ra st to, keeps F I (err ← scheduleRetry s ParseTime jitter item now ra st to; mret (Some err)))
    as Hretry.
  { intros ra st to. pose proof (next_attempt_range _ Hat) as Hn.
    destruct (retry_delay_range ParseTime jitter (next_attempt (item_Attempt item)) ra now ltac:(lia)) as [Hd _].
    apply keeps_bind; [|auto with fs]. unfold scheduleRetry, time_add. cbv zeta.
    apply keeps_bind; [|intros [[]|e]; auto with fs]. apply keeps_attempt, Hsched; [done|lia]. }
  unfold settle. destruct posted as [deadline|status ra code].
  { destruct ctxAfter as [[]|]; try apply Hretry. auto with fs. }
  case_match; [|case_match; [apply Hretry|]];
    (apply keeps_bind; [|auto with fs]); apply keeps_attempt; auto.
Qed.

Lemma keeps_ack (I : store -> Prop) id : (forall fs p, I fs -> I (delete p fs)) -> keeps F I (Ack s id).
Proof.
  intros Hdel. unfold Ack. apply keeps_bind; [auto with fs|].
  intros p. apply keeps_lift_error, keeps_removeFileAndSync. auto.
Qed.

Lemma keeps_settle_backlog ParseTime jitter item now posted ctxAfter :
  0 <= item_Attempt item < two32 -> 0 < now <= maxInt64 - maxProbeUploadBackoff ->
  keeps F backlog (settle s ParseTime jitter item now posted ctxAfter).
Proof.
  intros Hat Hnow. apply keeps_settle; try done.
  - intros n nextAt Hn Hnext. by apply keeps_schedule_backlog.
  - apply keeps_ack. intros fs p. apply backlog_delete.
  - intros reason fs Hb. unfold Quarantine.
    apply wp_bind, wp_from_result. destruct (pendingPathLocked s _) as [q|err] eqn:Ep; [|done].
    apply pendingPath_Ok in Ep as ->. revert fs Hb.
    apply (keeps_quarantinePath s F (fun p => p.1 = pendingDir s)); [done|apply tolerant_backlog].
Qed.

(** *** The quarantine *)
Lemma quarantine_untouched (fs fs' : store) :
  (forall name, fs' !! (quarantineDir s, name) = fs !! (quarantineDir s, name)) ->
  quarantine_within s fs -> quarantine_within s fs'.
Proof.
  intros Hsame. apply quarantine_within_submseteq, quarantined_submseteq. intros [x z].
  rewrite !elem_of_quarantined. by setoid_rewrite Hsame.
Qed.

Lemma write_untouched (p : path) (t : string) (fs fs' : store) : p.1 = pendingDir s ->
  with_leftover p fs fs' \/ with_leftover p (replaced p t fs) fs' ->
  forall name, fs' !! (quarantineDir s, name) = fs !! (quarantineDir s, name).
Proof.
  intros Hp Hleft name. pose proof (wf_dirs s Hwf) as Hd.
  assert (forall base, with_leftover p base fs' -> fs' !! (quarantineDir s, name) = base !! (quarantineDir s, name)) as Hl.
  { intros base [->|(q & u & perm & [d ->] & _ & ->)]; [done|]. apply lookup_insert_ne.
    rewrite Hp. intros [= E _]. done. }
  destruct Hleft as [H|H]; rewrite (Hl _ H); [done|]. unfold replaced. apply lookup_insert_ne.
  intros ->. by apply Hd.
Qed.

Lemma keeps_settle_quarantine ParseTime jitter item now posted ctxAfter :
  0 <= item_Attempt item < two32 -> 0 < now <= maxInt64 - maxProbeUploadBackoff ->
  keeps F (quarantine_within s) (settle s ParseTime jitter item now posted ctxAfter).
Proof.
  intros Hat Hnow. apply keeps_settle; try done.
  - intros n nextAt Hn Hnext fs Hq. unfold ScheduleRetry. apply wp_bind, wp_from_result.
    destruct (pendingPathLocked s _) as [q|err] eqn:Ep; [|done].
    apply pendingPath_Ok in Ep as ->. apply wp_bind, read_any; [|intros [e|err|] He; [by destruct (He e)|done..]].
    intros t perm e _ _. case_match; [by apply wp_throw|]. cbv zeta. case_match; [by apply wp_throw|].
    apply wp_bind, wp_lift_error. eapply wp_conseq; [apply atomicWrite_spec, json_not_temp, item_path_json|].
    intros o fs' [Hleft _]. assert (quarantine_within s fs') as Hq'.
    { eapply quarantine_untouched; [|exact Hq]. eapply write_untouched; [|exact Hleft]; done. }
    destruct o as [[]|err|]; [by apply wp_signal|done|done].
  - apply keeps_ack. intros fs p. by apply quarantine_within_delete.
  - intros reason fs Hq. unfold Quarantine. apply wp_bind, wp_from_result.
    destruct (pendingPathLocked s _) as [q|err] eqn:Ep; [|done]. apply pendingPath_Ok in Ep as ->.
    eapply wp_conseq; [by apply quarantine_spec|]. by intros o fs' (_ & _ & ? & _).
Qed.

(** What both directories keep through the clean-up, [Enqueue] and [Next]. *)
Lemma keeps_cleanup_spool now :
  keeps F (fun fs => backlog fs /\ quarantine_within s fs) (cleanupPendingLocked s now).
Proof.
  intros fs [Hb Hq]. apply wp_conj; [by apply keeps_cleanup_backlog|].
  eapply wp_conseq; [by apply cleanup_spec|]. by intros o fs' [? _].
Qed.

Lemma keeps_enqueue_spool rounds now free random : Forall round_wf rounds -> 0 < now <= maxInt64 ->
  keeps F (fun fs => backlog fs /\ quarantine_within s fs) (Enqueue s rounds now free random).
Proof.
  intros Hr Hnow fs H. eapply wp_conseq.
  { apply (enqueue_room_spec s Hwf F rounds now free random (fun fs => backlog fs /\ quarantine_within s fs)); [apply keeps_cleanup_spool| |exact H].
    intros fs1 [? _]. by apply backlog_roomy. }
  intros o fs' (fs1 & [Hb1 Hq1] & He). split; [by eapply enqueued_backlog|].
  destruct He as [[-> _]|(body & bytes & _ & _ & _ & _ & _ & Hleft & _)]; [done|].
  eapply quarantine_untouched; [|exact Hq1]. eapply write_untouched; [|exact Hleft]; done.
Qed.

(** [Next] hands out an item as it is stored. *)
Definition as_stored (id : string) (e : probeSpoolEnvelope) : ProbeSpoolItem :=
  mkItem id (Batch e) (Created e) (Attempt e) (NextAt e).

Lemma next_hands_out now (fs : store) : backlog fs -> quarantine_within s fs ->
  wp F (Next s now) (fun o fs' => backlog fs' /\ quarantine_within s fs' /\
    forall item, o = Done (Some item) -> exists id e, item = as_stored id e /\ id_ok id /\
      stores s id e fs' /\ expired s now e = false /\ NextAt e <= now) fs.
Proof.
  intros Hb Hq. eapply wp_conseq; [apply wp_conj; [by apply keeps_next_backlog|by apply next_spec]|].
  intros o fs' (Hb' & Hq' & Hsel & _). split; [done|]. split; [done|]. intros item ->.
  destruct (Hsel item eq_refl) as (name & (t & perm & e & Hl & Hj & Hp & Hexp & Hdue & ->) & _).
  destruct (proj1 Hb' name _ Hl Hj) as (id & e' & -> & Hid & Hst). pose proof Hst as (Hl' & He & _).
  unfold item_path in Hl'. rewrite Hl in Hl'. simplify_eq. rewrite envelope_roundtrip in Hp by done. simplify_eq.
  exists id, e. rewrite TrimSuffix_app. done.
Qed.
End Backlog.

(** ** A process dies only at a crash fault *)
Create HintDb survives.
Section Alive.
Context (s : ProbeSpool) (F : fault -> Prop) (HF : forall n, ~ F (FCrash n)).

Definition survives {E A : Type} (m : M E A) : Prop := forall fs, wp F m (fun o _ => o <> Crashed) fs.

Lemma survives_ret {E A : Type} (a : A) : survives (E := E) (mret a).
Proof. intros fs. by apply wp_ret. Qed.
Lemma survives_throw {E A : Type} (e : E) : survives (A := A) (throw e).
Proof. intros fs. by apply wp_throw. Qed.
Lemma survives_bind {E A B : Type} (m : M E A) (f : A -> M E B) :
  survives m -> (forall a, survives (f a)) -> survives (m ≫= f).
Proof.
  intros Hm Hf fs. apply wp_bind. eapply wp_conseq; [apply Hm|].
  intros [a|e|] fs' Ho; [apply Hf|done|done].
Qed.
Lemma survives_attempt {E E' A : Type} (m : M E A) : survives m -> survives (E := E') (attempt m).
Proof. intros Hm fs. apply wp_attempt. eapply wp_conseq; [apply Hm|]. by intros [a|e|] fs' Ho. Qed.
Lemma survives_lift_error {E E' A : Type} (g : E -> E') (m : M E A) : survives m -> survives (lift_error g m).
Proof. intros Hm fs. apply wp_lift_error. eapply wp_conseq; [apply Hm|]. by intros [a|e|] fs' Ho. Qed.
Lemma survives_from_result {E A : Type} (r : result E A) : survives (from_result r).
Proof. destruct r; [apply survives_ret|apply survives_throw]. Qed.
Lemma survives_signal {E : Type} : survives (E := E) signal.
Proof. intros fs. by apply wp_signal. Qed.
Lemma survives_os_call {A : Type} (eff : store -> result os_error (store * A)) : survives (os_call eff).
Proof.
  intros fs. apply wp_os_call; [destruct (eff fs) as [[]|]; done|done|]. intros [n Hn]. by destruct (HF n).
Qed.
Lemma survives_os_read {A : Type} (r : store -> result os_error A) : survives (os_read r).
Proof. intros fs. apply wp_read; [done..|]. intros [n Hn]. by destruct (HF n). Qed.
#[local] Hint Resolve survives_ret survives_throw survives_bind survives_attempt survives_lift_error survives_from_result
  survives_signal survives_os_call survives_os_read : survives.

Lemma survives_atomicWrite p c : survives (atomicWritePrivateFile p c).
Proof.
  assert (survives (CreateTemp p.1 ".probe-spool-" ".tmp")) as Ht.
  { intros fs. apply wp_CreateTemp; [done|intros [n Hn]; by destruct (HF n)|].
    intros d q _. split; [done|]. intros [n Hn]. by destruct (HF n). }
  assert (forall q, survives (WriteFile q c)) as Hw.
  { intros q fs. apply wp_WriteFile; [done|done|]. intros c' [n Hn]. by destruct (HF n). }
  unfold atomicWritePrivateFile. apply survives_bind; [done|]. intros q. apply survives_bind.
  - apply survives_attempt. unfold Chmod, SyncFile, CloseFile, replaceFileAtomically, Rename. auto 10 with survives.
  - intros [u|e]; unfold CloseFile, Remove, syncDirectory; auto 10 with survives.
Qed.

Lemma survives_remove p : survives (removeFileAndSync p).
Proof.
  unfold removeFileAndSync, Remove, syncDirectory. apply survives_bind; [auto with survives|].
  intros [u|[]]; auto with survives.
Qed.

Lemma survives_read p : survives (readEnvelopeLocked s p).
Proof.
  unfold readEnvelopeLocked, Lstat, ReadFile. apply survives_bind; [auto with survives|]. intros [c perm| | |];
    auto with survives. case_match; [auto with survives|]. apply survives_bind; [auto with survives|].
  intros content. repeat case_match; auto with survives.
Qed.

Lemma survives_prune incoming : survives (pruneQuarantineLocked s incoming).
Proof.
  unfold pruneQuarantineLocked, ReadDir, syncDirectory. apply survives_bind; [auto with survives|]. intros entries.
  apply survives_bind.
  - induction entries as [|[name n] entries IH]; simpl; [auto with survives|].
    case_match; [done|]. unfold Lstat. auto with survives.
  - intros items. apply survives_bind; [|auto with survives].
    generalize (foldl (fun t '(_, size) => i64 (t + size)) 0 items).
    induction items as [|[name size] items IH]; intros total; simpl; (case_match; [|auto with survives]);
      [auto with survives|]. unfold Remove. apply survives_bind; [auto with survives|].
    intros [u|[]]; auto with survives.
Qed.

Lemma survives_quarantinePath p reason : survives (quarantinePathLocked s p reason).
Proof.
  pose proof survives_remove. pose proof survives_prune.
  unfold quarantinePathLocked, Lstat, Rename, Chmod, RemoveAll, syncDirectory.
  apply survives_bind; [auto with survives|]. intros [[c perm|e|t|]|[]]; auto with survives.
  case_match; auto 10 with survives.
Qed.

Lemma survives_cleanup now : survives (cleanupPendingLocked s now).
Proof.
  pose proof survives_remove. pose proof survives_read. pose proof survives_quarantinePath.
  unfold cleanupPendingLocked, ReadDir. apply survives_bind; [auto with survives|]. intros entries.
  induction entries as [|entry entries IH]; simpl; [auto with survives|]. apply survives_bind; [|auto].
  unfold cleanup_entry. case_match; [|auto]. apply survives_bind; [auto with survives|].
  intros [e|err]; [|auto]. case_match; auto with survives.
Qed.

Lemma survives_enqueue rounds now free random : survives (Enqueue s rounds now free random).
Proof.
  pose proof survives_cleanup. pose proof survives_atomicWrite.
  unfold Enqueue. case_match; [|auto with survives]. apply survives_bind; [auto|]. intros _. cbv zeta.
  case_match; [auto with survives|]. apply survives_bind.
  - unfold pendingUsageLocked, ReadDir. apply survives_bind; [auto with survives|]. intros entries.
    generalize 0 at 1. generalize 0.
    induction entries as [|entry entries IH]; intros i j; simpl; [auto with survives|].
    case_match; [unfold Lstat|]; auto with survives.
  - intros [count total]. case_match; [auto with survives|]. case_match; [|auto with survives].
    case_match; auto 10 with survives.
Qed.
End Alive.
