(* ===== verification/NetAddr.v ===== *)
(** * Addresses a probe may reach (probe.go lines 586 to 679 and 748 to 760)

    [netip.Addr] and the predicates of package [net/netip] the agent uses, the
    validation of a single address, and the resolution of a probe host.
    [netip.ParseAddr] and [Addr.String] are modelled in full; the DNS lookup is
    an argument. *)

From S2P Require Export ProbeTypes GoStrings.

(** ** [netip.Addr] *)

(** The zero value, an IPv4 address, or an IPv6 address with its zone. *)
Inductive addr : Type :=
| AInvalid
| A4 (v : Z)
| A6 (v : Z) (zone : string).

#[export] Instance addr_eq_dec : EqDecision addr.
Proof. solve_decision. Defined.

Definition addr_wf (a : addr) : Prop :=
  match a with
  | AInvalid => True
  | A4 v => 0 <= v < 2 ^ 32
  | A6 v _ => 0 <= v < 2 ^ 128
  end.

Definition ip4 (a b c d : Z) : Z := ((a * 256 + b) * 256 + c) * 256 + d.

Definition IsValid (a : addr) : bool := match a with AInvalid => false | _ => true end.
Definition Is4 (a : addr) : bool := match a with A4 _ => true | _ => false end.
Definition Is6 (a : addr) : bool := match a with A6 _ _ => true | _ => false end.

(** An IPv4-mapped address becomes the IPv4 address. *)
Definition Unmap (a : addr) : addr :=
  match a with
  | A6 v _ => if Z.shiftr v 32 =? 65535 then A4 (v mod 2 ^ 32) else a
  | _ => a
  end.

Definition IsUnspecified (a : addr) : bool :=
  match a with
  | A4 v => v =? 0
  | A6 v zone => (v =? 0) && bool_decide (zone = "")
  | AInvalid => false
  end.
Definition IsLoopback (a : addr) : bool :=
  match a with
  | A4 v => Z.shiftr v 24 =? 127
  | A6 v _ => v =? 1
  | AInvalid => false
  end.
Definition IsMulticast (a : addr) : bool :=
  match a with
  | A4 v => Z.shiftr v 28 =? 14
  | A6 v _ => Z.shiftr v 120 =? 255
  | AInvalid => false
  end.
Definition IsLinkLocalUnicast (a : addr) : bool :=
  match a with
  | A4 v => Z.shiftr v 16 =? 169 * 256 + 254
  | A6 v _ => Z.shiftr v 118 =? 1018
  | AInvalid => false
  end.
Definition IsLinkLocalMulticast (a : addr) : bool :=
  match a with
  | A4 v => Z.shiftr v 8 =? 224 * 65536
  | A6 v _ => Z.land (Z.shiftr v 112) 65295 =? 65282
  | AInvalid => false
  end.

(** [netip.Prefix.Contains]: never an address of the other family, nor one with
    a zone. *)
Record prefix : Type := mkPrefix { p_addr : addr; p_bits : Z }.
Definition Contains_ (p : prefix) (a : addr) : bool :=
  match p_addr p, a with
  | A4 v, A4 w => Z.shiftr v (32 - p_bits p) =? Z.shiftr w (32 - p_bits p)
  | A6 v _, A6 w zone =>
      bool_decide (zone = "") && (Z.shiftr v (128 - p_bits p) =? Z.shiftr w (128 - p_bits p))
  | _, _ => false
  end.

(** ** [netip.ParseAddr]

    Addresses are read as eight 16-bit groups; [None] stands for the error, of
    which the agent only looks at the presence. *)
Definition dot : ascii := chr 46.
Definition colon : ascii := chr 58.
Definition percent : ascii := chr 37.

(** [parseIPv4Fields]: [first] and [prevDot] say whether the position is 0 and
    whether the previous byte is a dot. *)
Fixpoint parseIPv4Fields (s : string) (first prevDot : bool) (val digLen : Z) (fields : list Z)
  : option (list Z) :=
  match s with
  | EmptyString => if (length fields <? 3)%nat then None else Some (fields ++ [val])
  | String c s =>
      if is_digit c then
        if (digLen =? 1) && (val =? 0) then None
        else
          let val := val * 10 + digit_val c in
          if 255 <? val then None else parseIPv4Fields s false false val (digLen + 1) fields
      else if Ascii.eqb c dot then
        if first || bool_decide (s = "") || prevDot then None
        else if (length fields =? 3)%nat then None
        else parseIPv4Fields s false true 0 0 (fields ++ [val])
      else None
  end.

Definition parseIPv4 (s : string) : option addr :=
  match parseIPv4Fields s true false 0 0 [] with
  | Some [a; b; c; d] => Some (A4 (ip4 a b c d))
  | _ => None
  end.

Definition hex_val (c : ascii) : option Z :=
  let b := byte_val c in
  if is_digit c then Some (b - 48)
  else if (97 <=? b) && (b <=? 102) then Some (b - 87)
  else if (65 <=? b) && (b <=? 70) then Some (b - 55)
  else None.

(** One hexadecimal group of at most four digits. *)
Fixpoint scan_group (s : string) (off : nat) (acc : Z) : option (Z * nat * string) :=
  match s with
  | EmptyString => Some (acc, off, "")
  | String c rest =>
      match hex_val c with
      | Some d => if (3 <? off)%nat then None else scan_group rest (S off) (acc * 16 + d)
      | None => Some (acc, off, s)
      end
  end.

(** The loop over the groups, [n] of which are still free. *)
Fixpoint parse_groups (n : nat) (s : string) (groups : list Z) (ellipsis : option nat)
  : option (string * list Z * option nat) :=
  match n with
  | O => Some (s, groups, ellipsis)
  | S n =>
      match scan_group s 0 0 with
      | None | Some (_, O, _) => None
      | Some (acc, _, rest) =>
          if HasPrefix rest "." then
            if bool_decide (ellipsis = None) && negb (length groups =? 6)%nat then None
            else if (8 <? length groups + 2)%nat then None
            else
              match parseIPv4Fields s true false 0 0 [] with
              | Some [a; b; c; d] => Some ("", groups ++ [a * 256 + b; c * 256 + d], ellipsis)
              | _ => None
              end
          else
            let groups := groups ++ [acc] in
            match rest with
            | EmptyString => Some ("", groups, ellipsis)
            | String c rest =>
                if negb (Ascii.eqb c colon) then None
                else
                  match rest with
                  | EmptyString => None
                  | String c' rest' =>
                      if Ascii.eqb c' colon then
                        match ellipsis with
                        | Some _ => None
                        | None =>
                            if bool_decide (rest' = "") then Some ("", groups, Some (length groups))
                            else parse_groups n rest' groups (Some (length groups))
                        end
                      else parse_groups n rest groups ellipsis
                  end
            end
      end
  end.

Definition group_value (groups : list Z) : Z := fold_left (fun v g => v * 65536 + g) groups 0.

(** Expansion of the ellipsis. *)
Definition expand_groups (groups : list Z) (ellipsis : option nat) : option (list Z) :=
  if (length groups <? 8)%nat then
    match ellipsis with
    | None => None
    | Some e => Some (take e groups ++ replicate (8 - length groups) 0 ++ drop e groups)
    end
  else match ellipsis with Some _ => None | None => Some groups end.

Definition parseIPv6 (s : string) : option addr :=
  let split := Cut s "%" in
  let zone := match split with Some (_, z) => z | None => "" end in
  if bool_decide (is_Some split) && bool_decide (zone = "") then None
  else
    let s := match split with Some (s, _) => s | None => s end in
    let lead := strip_prefix "::" s in
    if bool_decide (lead = Some "") then Some (A6 0 zone)
    else
      match
        match lead with
        | Some rest => parse_groups 8 rest [] (Some 0%nat)
        | None => parse_groups 8 s [] None
        end
      with
      | Some (rest, groups, ellipsis) =>
          if bool_decide (rest = "") then
            match expand_groups groups ellipsis with
            | Some gs => Some (A6 (group_value gs) zone)
            | None => None
            end
          else None
      | None => None
      end.

Fixpoint parse_addr_as (s text : string) : option addr :=
  match s with
  | EmptyString => None
  | String c s =>
      if Ascii.eqb c dot then parseIPv4 text
      else if Ascii.eqb c colon then parseIPv6 text
      else if Ascii.eqb c percent then None
      else parse_addr_as s text
  end.
Definition ParseAddr (s : string) : option addr := parse_addr_as s s.

Example ParseAddr_1 :
  map ParseAddr ["127.0.0.1"; "1.2.3.256"; "01.2.3.4"; "1.2.3"; "::1"; "fe80::1%eth0"; "::ffff:10.0.0.1";
    "1:2:3:4:5:6:7:8"; "1:2:3:4:5:6:7::"; "1:2:3:4:5:6:7:8::"; "::1::"; "12345::"; "example.test"; "fe80::%"] =
  [Some (A4 (ip4 127 0 0 1)); None; None; None; Some (A6 1 ""); Some (A6 (Z.shiftl 0xfe80 112 + 1) "eth0");
   Some (A6 (Z.shiftl 0xffff 32 + ip4 10 0 0 1) "");
   Some (A6 0x00010002000300040005000600070008 ""); Some (A6 0x00010002000300040005000600070000 "");
   None; None; None; None; None].
Proof. vm_compute. reflexivity. Qed.

(** ** [Addr.String] *)
Definition ipv4_text (v : Z) : string :=
  Join [Itoa (Z.shiftr v 24 mod 256); Itoa (Z.shiftr v 16 mod 256); Itoa (Z.shiftr v 8 mod 256); Itoa (v mod 256)] ".".

Definition group_of (v : Z) (i : nat) : Z := Z.shiftr v (16 * (7 - Z.of_nat i)) mod 65536.
Definition groups_of (v : Z) : list Z := map (group_of v) (seq 0 8).

(** [appendHex]: no leading zeros. *)
Definition hex_group (g : Z) : string :=
  (if 4096 <=? g then String (hex_chr (Z.shiftr g 12)) "" else "") +:+
  (if 256 <=? g then String (hex_chr (Z.shiftr g 8 mod 16)) "" else "") +:+
  (if 16 <=? g then String (hex_chr (Z.shiftr g 4 mod 16)) "" else "") +:+
  String (hex_chr (g mod 16)) "".

Fixpoint zero_run (gs : list Z) : nat :=
  match gs with
  | 0 :: gs => S (zero_run gs)
  | _ => O
  end.

(** The first longest run of at least two zero groups, as start and end. *)
Fixpoint longest_run (n i : nat) (gs : list Z) (best : nat * nat) : nat * nat :=
  match n with
  | O => best
  | S n =>
      let l := zero_run (drop i gs) in
      longest_run n (S i) gs (if (2 <=? l)%nat && (snd best - fst best <? l)%nat then (i, i + l)%nat else best)
  end.

Fixpoint hex_groups (n i : nat) (gs : list Z) (zs ze : nat) : string :=
  match n with
  | O => ""
  | S n =>
      if (8 <=? i)%nat then ""
      else if (i =? zs)%nat then
        "::" +:+ (if (8 <=? ze)%nat then "" else hex_group (nth ze gs 0) +:+ hex_groups n (S ze) gs zs ze)
      else (if (0 <? i)%nat then ":" else "") +:+ hex_group (nth i gs 0) +:+ hex_groups n (S i) gs zs ze
  end.

Definition ipv6_text (v : Z) : string :=
  let gs := groups_of v in
  let '(zs, ze) := longest_run 8 0 gs (255, 255)%nat in
  hex_groups 9 0 gs zs ze.

Definition Addr_String (a : addr) : string :=
  match a with
  | AInvalid => "invalid IP"
  | A4 v => ipv4_text v
  | A6 v zone =>
      (if Z.shiftr v 32 =? 65535 then "::ffff:" +:+ ipv4_text (v mod 2 ^ 32) else ipv6_text v) +:+
      (if bool_decide (zone = "") then "" else "%" +:+ zone)
  end.

Example Addr_String_1 :
  map Addr_String [A4 (ip4 127 0 0 1); A6 1 ""; A6 0 "lo"; A6 0x20010db8000000000001000000000001 "";
    A6 (Z.shiftl 0xffff 32 + ip4 10 0 0 1) ""; A6 0x00010002000300040005000600070000 ""; A6 (Z.shiftl 0xfe80 112) "eth0"] =
  ["127.0.0.1"; "::1"; "::%lo"; "2001:db8::1:0:0:1"; "::ffff:10.0.0.1"; "1:2:3:4:5:6:7:0"; "fe80::%eth0"].
Proof. vm_compute. reflexivity. Qed.

(** ** Validation of one address *)
Definition alwaysUnsafeProbeAddressPrefixes : list prefix :=
  [mkPrefix (A4 (ip4 0 0 0 0)) 8;
   mkPrefix (A4 (ip4 169 254 0 0)) 16;
   mkPrefix (A4 (ip4 100 100 100 200)) 32;
   mkPrefix (A6 (Z.shiftl 0xfd00 112 + Z.shiftl 0x0ec2 96 + 0x254) "") 128;
   mkPrefix (A6 0 "") 128;
   mkPrefix (A6 (Z.shiftl 0xfe80 112) "") 10].

(** The sentinel errors of probe.go, and the errors the code passes on. *)
Record go_error : Type := mkError {
  is_canceled : bool;
  is_deadline : bool;
  is_unsafe_redirect : bool;
  is_unsafe : bool;
  is_invalid : bool;
  is_dns : bool;
  net_timeout : bool;
  message : string
}.

Definition errUnsafeProbeTarget : go_error := mkError false false false true false false false "unsafe probe target".
Definition errInvalidProbeTarget : go_error := mkError false false false false true false false "invalid probe target".
Definition errProbeDNS : go_error := mkError false false false false false true false "probe dns error".
Definition errUnsafeProbeRedirect : go_error :=
  mkError false false true false false false false "unsafe probe redirect".

(** [fmt.Errorf("%w: %v", sentinel, err)] *)
Definition wrap_error (sentinel err : go_error) : go_error :=
  mkError (is_canceled sentinel) (is_deadline sentinel) (is_unsafe_redirect sentinel) (is_unsafe sentinel)
    (is_invalid sentinel) (is_dns sentinel) false (message sentinel +:+ ": " +:+ message err).

Definition classifyContextError (err : option go_error) : string :=
  match err with
  | None => ""
  | Some e => if is_canceled e then "cancelled" else if is_deadline e then "timeout" else ""
  end.

Definition validateSafeProbeAddress (a : addr) (allowLoopback : bool) : result go_error () :=
  if negb (IsValid a) || IsUnspecified a || IsMulticast a || IsLinkLocalUnicast a || IsLinkLocalMulticast a
  then Err errUnsafeProbeTarget
  else if existsb (fun p => Contains_ p a) alwaysUnsafeProbeAddressPrefixes
  then Err errUnsafeProbeTarget
  else if allowLoopback && IsLoopback a then Ok ()
  else if IsLoopback a then Err errUnsafeProbeTarget
  else Ok ().

(** ** Resolution of a host *)
Definition normalizeProbeHost (host : string) : string := TrimSpace (Trim host "[]").

(** The loop over the answers: unmap, validate, drop duplicates. *)
Fixpoint check_answers (allowLocalhostLoopback : bool) (seen result_ answers : list addr)
  : result go_error (list addr) :=
  match answers with
  | [] => Ok result_
  | a :: answers =>
      let a := Unmap a in
      if allowLocalhostLoopback && negb (IsLoopback a) then Err errUnsafeProbeTarget
      else
        match validateSafeProbeAddress a allowLocalhostLoopback with
        | Err e => Err e
        | Ok _ =>
            if bool_decide (a ∈ seen) then check_answers allowLocalhostLoopback seen result_ answers
            else check_answers allowLocalhostLoopback (a :: seen) (result_ ++ [a]) answers
        end
  end.

(** [ctx0] and [ctx1] are [ctx.Err()] before and after the lookup. *)
Definition resolveSafeProbeHostWithLookup (host : string) (allowExplicitLoopback : bool)
  (ctx0 ctx1 : option go_error) (lookup : string -> result go_error (list addr))
  : result go_error (list addr) :=
  let host := normalizeProbeHost host in
  if bool_decide (host = "") || HasPrefix host "-" then Err errInvalidProbeTarget
  else
    match ParseAddr host with
    | Some a =>
        let a := Unmap a in
        match validateSafeProbeAddress a allowExplicitLoopback with
        | Err e => Err e
        | Ok _ => Ok [a]
        end
    | None =>
        match ctx0 with
        | Some e => Err e
        | None =>
            match lookup host with
            | Err e =>
                match ctx1 with
                | Some c => Err c
                | None =>
                    if negb (bool_decide (classifyContextError (Some e) = "")) then Err e
                    else Err (wrap_error errProbeDNS e)
                end
            | Ok [] => Err errProbeDNS
            | Ok answers =>
                check_answers (allowExplicitLoopback && EqualFold host "localhost") [] [] answers
            end
        end
    end.

Definition validProbePort (port : Z) : bool := (0 <? port) && (port <=? 65535).

(** Rotation of a resolved list between samples. *)
Definition rotatedProbeAddresses (addresses : list addr) (offset : Z) : list addr :=
  if Z.of_nat (length addresses) <=? 1 then addresses
  else
    let start := Z.rem offset (Z.of_nat (length addresses)) in
    let start := if start <? 0 then start + Z.of_nat (length addresses) else start in
    drop (Z.to_nat start) addresses ++ take (Z.to_nat start) addresses.

(** ** Lemmas *)

Definition metadata6 : Z := Z.shiftl 0xfd00 112 + Z.shiftl 0x0ec2 96 + 0x254.

(** The ranges no probe may reach, whatever the zone of the address is: unspecified,
    "this network", link-local (the cloud metadata service among them), multicast and
    the other metadata addresses. *)
Definition forbidden (a : addr) : Prop :=
  match a with
  | AInvalid => True
  | A4 v =>
      v < 2 ^ 24 \/ ip4 169 254 0 0 <= v <= ip4 169 254 255 255 \/
      v = ip4 100 100 100 200 \/ ip4 224 0 0 0 <= v <= ip4 239 255 255 255
  | A6 v zone =>
      v = 0 \/ Z.shiftr v 118 = 1018 \/ Z.shiftr v 120 = 255 \/ v = metadata6
  end.

(** The two of them that the code lets through: the unspecified address and the
    IPv6 metadata address with a zone, which no prefix contains. *)
Definition zoned_exception (a : addr) : Prop :=
  match a with A6 v zone => zone <> "" /\ (v = 0 \/ v = metadata6) | _ => False end.

#[export] Instance zoned_exception_dec a : Decision (zoned_exception a).
Proof. destruct a as [|v|v zone]; simpl; apply _. Defined.

Definition loopback (a : addr) : Prop :=
  match a with
  | A4 v => ip4 127 0 0 0 <= v <= ip4 127 255 255 255
  | A6 v _ => v = 1
  | AInvalid => False
  end.

Lemma shiftr_range v k c : 0 <= k ->
  Z.shiftr v k = c <-> c * 2 ^ k <= v < (c + 1) * 2 ^ k.
Proof.
  intros Hk. rewrite Z.shiftr_div_pow2 by done.
  pose proof (Z.pow_pos_nonneg 2 k ltac:(lia) Hk) as Hp.
  generalize dependent (2 ^ k). intros b Hb. pose proof (Z.div_mod v b ltac:(lia)).
  pose proof (Z.mod_pos_bound v b Hb). split; [intros <-; lia|intros Hv].
  assert (v / b < c + 1) by (apply Z.div_lt_upper_bound; lia).
  assert (c <= v / b) by (apply Z.div_le_lower_bound; lia). lia.
Qed.

Lemma loopback_spec a : IsLoopback a = true <-> loopback a.
Proof.
  unfold IsLoopback, loopback. destruct a as [|v|v zone]; [done| |by rewrite Z.eqb_eq].
  rewrite Z.eqb_eq, shiftr_range by lia. unfold ip4. lia.
Qed.

Ltac zbool :=
  rewrite ?orb_true_iff, ?andb_true_iff, ?Z.eqb_eq, ?bool_decide_eq_true.

Definition standard_unsafe (a : addr) : bool :=
  negb (IsValid a) || IsUnspecified a || IsMulticast a || IsLinkLocalUnicast a || IsLinkLocalMulticast a.
Definition in_unsafe_prefix (a : addr) : bool :=
  existsb (fun p => Contains_ p a) alwaysUnsafeProbeAddressPrefixes.

Lemma unsafe_prefix4 v :
  in_unsafe_prefix (A4 v) = (Z.shiftr v 24 =? 0) || ((Z.shiftr v 16 =? 169 * 256 + 254) ||
    (Z.shiftr v 0 =? ip4 100 100 100 200)).
Proof.
  unfold in_unsafe_prefix, alwaysUnsafeProbeAddressPrefixes. cbn [existsb Contains_ p_addr p_bits].
  rewrite !orb_false_r, (Z.eqb_sym (Z.shiftr v 24)), (Z.eqb_sym (Z.shiftr v 16)), (Z.eqb_sym (Z.shiftr v 0)).
  reflexivity.
Qed.

Lemma unsafe_prefix6 v zone :
  in_unsafe_prefix (A6 v zone) = bool_decide (zone = "") && (Z.shiftr v 0 =? metadata6) ||
    (bool_decide (zone = "") && (Z.shiftr v 0 =? 0) ||
     bool_decide (zone = "") && (Z.shiftr v 118 =? 1018)).
Proof.
  unfold in_unsafe_prefix, alwaysUnsafeProbeAddressPrefixes. cbn [existsb Contains_ p_addr p_bits].
  rewrite !orb_false_r, (Z.eqb_sym (Z.shiftr v 118)), !(Z.eqb_sym (Z.shiftr v 0)).
  reflexivity.
Qed.

(** Exactly the forbidden addresses but these are rejected whatever the loopback rule. *)
Lemma forbidden_spec a : addr_wf a ->
  standard_unsafe a || in_unsafe_prefix a = true <-> forbidden a /\ ~ zoned_exception a.
Proof.
  intros Hwf. destruct a as [|v|v zone]; [by split; [split; [done|intros []]|]| |]; unfold addr_wf in Hwf.
  - rewrite unsafe_prefix4. unfold standard_unsafe, IsValid, IsUnspecified, IsMulticast,
      IsLinkLocalUnicast, IsLinkLocalMulticast, forbidden, zoned_exception.
    zbool. rewrite !shiftr_range by lia. unfold ip4. simpl negb. rewrite Z.pow_0_r.
    intuition (try discriminate; try lia).
  - rewrite unsafe_prefix6. unfold standard_unsafe, IsValid, IsUnspecified, IsMulticast,
      IsLinkLocalUnicast, IsLinkLocalMulticast, forbidden, zoned_exception.
    zbool. rewrite Z.shiftr_0_r. simpl negb.
    assert (Z.land (Z.shiftr v 112) 65295 = 65282 -> Z.shiftr v 120 = 255) as Hll.
    { intros H. apply (f_equal (fun x => Z.shiftr x 8)) in H. rewrite Z.shiftr_land in H.
      rewrite Z.shiftr_shiftr in H by lia. change (112 + 8) with 120 in H.
      change (Z.shiftr 65295 8) with (Z.ones 8) in H. change (Z.shiftr 65282 8) with 255 in H.
      rewrite Z.land_ones in H by lia. rewrite Z.mod_small in H; [done|].
      rewrite Z.shiftr_div_pow2 by lia. split; [apply Z.div_pos; lia|].
      apply Z.div_lt_upper_bound; [lia|]. rewrite <- Z.pow_add_r by lia. apply Hwf. }
    assert (v = 0 \/ v = metadata6 -> Z.shiftr v 118 <> 1018 /\ Z.shiftr v 120 <> 255) as Hconst
      by (intros [->| ->]; split; by vm_compute).
    generalize dependent (v = metadata6). generalize dependent (v = 0). generalize dependent (Z.shiftr v 120 = 255).
    generalize dependent (Z.shiftr v 118 = 1018). intros P118 P120 Hll P0 Pm Hconst.
    assert (false = true <-> False) as -> by done. destruct (decide (zone = "")); tauto.
Qed.

Lemma validate_spec a allow : addr_wf a ->
  validateSafeProbeAddress a allow = Ok () <-> (forbidden a -> zoned_exception a) /\ (loopback a -> allow = true).
Proof.
  intros Hwf.
  assert ((forbidden a -> zoned_exception a) <-> ~ (forbidden a /\ ~ zoned_exception a)) as ->.
  { split; [tauto|]. intros H Hf. destruct (decide (zoned_exception a)); [done|]. by destruct H. }
  rewrite <- forbidden_spec, <- loopback_spec by done.
  unfold validateSafeProbeAddress. fold (standard_unsafe a) (in_unsafe_prefix a).
  destruct (standard_unsafe a), (in_unsafe_prefix a), (IsLoopback a), allow; simpl;
    split; intros H; try discriminate H; try done; try (by destruct H as [[] ?]); try (by split).
  by destruct H as [_ H]; discriminate (H eq_refl).
Qed.

(** What [ParseAddr] accepts is a well-formed address. *)
Definition octet (v : Z) : Prop := 0 <= v <= 255.
Definition group_wf (v : Z) : Prop := 0 <= v < 65536.

Lemma digit_val_range c : is_digit c = true -> 0 <= digit_val c <= 9.
Proof. unfold is_digit, digit_val. rewrite andb_true_iff, !Z.leb_le. lia. Qed.

Lemma parseIPv4Fields_wf s : forall first prevDot val digLen fields res,
  octet val -> Forall octet fields ->
  parseIPv4Fields s first prevDot val digLen fields = Some res -> Forall octet res.
Proof.
  induction s as [|c s IH]; intros first prevDot val digLen fields res Hval Hf; cbn [parseIPv4Fields].
  { destruct (_ <? _)%nat; [done|]. intros [= <-]. apply Forall_app. by split; [|constructor]. }
  destruct (is_digit c) eqn:Ed.
  - apply digit_val_range in Ed. destruct (_ && _); [done|].
    destruct (Z.ltb_spec 255 (val * 10 + digit_val c)); [done|]. apply IH; [|done]. unfold octet in *. lia.
  - destruct (Ascii.eqb c dot); [|done]. destruct (_ || _); [done|]. destruct (_ =? _)%nat; [done|].
    apply IH; [unfold octet; lia|]. apply Forall_app. by split; [|constructor].
Qed.

Lemma hex_val_range c d : hex_val c = Some d -> 0 <= d < 16.
Proof.
  unfold hex_val, is_digit. zcase; simpl; intros [= <-]; lia.
Qed.

Lemma scan_group_wf s : forall off acc v n rest,
  (off <= 4)%nat -> 0 <= acc < 16 ^ Z.of_nat off ->
  scan_group s off acc = Some (v, n, rest) -> group_wf v.
Proof.
  assert (forall off acc, (off <= 4)%nat -> 0 <= acc < 16 ^ Z.of_nat off -> group_wf acc) as Hb.
  { intros off acc Ho Ha. unfold group_wf. assert (16 ^ Z.of_nat off <= 16 ^ 4); [|lia].
    apply Z.pow_le_mono_r; lia. }
  induction s as [|c s IH]; intros off acc v n rest Ho Ha; cbn [scan_group].
  { intros [= <- <- <-]. by apply (Hb off). }
  destruct (hex_val c) as [d|] eqn:Ed; [|intros [= <- <- <-]; by apply (Hb off)].
  apply hex_val_range in Ed. destruct (Nat.ltb_spec 3 off); [done|]. apply IH; [lia|].
  rewrite Nat2Z.inj_succ, Z.pow_succ_r by lia. lia.
Qed.

Lemma ip4_octets a b c d : octet a -> octet b -> octet c -> octet d -> 0 <= ip4 a b c d < 2 ^ 32.
Proof. unfold octet, ip4. lia. Qed.

Lemma parse_groups_wf n : forall s groups ellipsis rest res e,
  Forall group_wf groups -> parse_groups n s groups ellipsis = Some (rest, res, e) ->
  (length groups + n = 8)%nat -> Forall group_wf res /\ (length res <= 8)%nat.
Proof.
  induction n as [|n IH]; intros s groups ellipsis rest res e Hg; cbn [parse_groups].
  { intros [= <- <- <-] ?. split; [done|lia]. }
  destruct (scan_group s 0 0) as [[[acc [|off]] tl]|] eqn:Es; [done| |done].
  apply scan_group_wf in Es; [|lia..].
  assert (Forall group_wf (groups ++ [acc])) as Hg' by (apply Forall_app; by split; [|constructor]).
  destruct (HasPrefix tl ".").
  - destruct (_ && _); [done|]. destruct (Nat.ltb_spec 8 (length groups + 2)); [done|].
    destruct (parseIPv4Fields s true false 0 0 []) as [fs|] eqn:Ef; [|done].
    apply parseIPv4Fields_wf in Ef; [|unfold octet; lia|constructor].
    destruct fs as [|a [|b [|c [|d [|? ?]]]]]; try done. intros [= <- <- <-] _.
    rewrite length_app. cbn [length]. split; [|lia]. apply Forall_app. split; [done|].
    rewrite !Forall_cons in Ef. unfold octet, group_wf in *. repeat constructor; lia.
  - destruct tl as [|c tl].
    { intros [= <- <- <-] Hn. split; [done|]. rewrite length_app. cbn [length]. lia. }
    destruct (negb _); [done|]. destruct tl as [|c' tl]; [done|].
    destruct (Ascii.eqb c' colon).
    + destruct ellipsis; [done|]. case_bool_decide.
      * intros [= <- <- <-] Hn. split; [done|]. rewrite length_app. cbn [length]. lia.
      * intros H' Hn. eapply IH; [exact Hg'|exact H'|]. rewrite length_app. cbn [length]. lia.
    + intros H' Hn. eapply IH; [exact Hg'|exact H'|]. rewrite length_app. cbn [length]. lia.
Qed.

Lemma group_value_range gs : Forall group_wf gs -> forall v k, 0 <= v < 2 ^ (16 * Z.of_nat k) ->
  0 <= fold_left (fun v g => v * 65536 + g) gs v < 2 ^ (16 * Z.of_nat (k + length gs)).
Proof.
  induction 1 as [|g gs Hg _ IH]; intros v k Hv; cbn [fold_left length]; [by rewrite Nat.add_0_r|].
  replace (k + S (length gs))%nat with (S k + length gs)%nat by lia. apply IH.
  replace (16 * Z.of_nat (S k)) with (16 * Z.of_nat k + 16) by lia.
  rewrite Z.pow_add_r by lia. unfold group_wf in Hg. change (2 ^ 16) with 65536. lia.
Qed.

Lemma expand_groups_wf gs e res : Forall group_wf gs -> (length gs <= 8)%nat ->
  expand_groups gs e = Some res -> Forall group_wf res /\ (length res = 8)%nat.
Proof.
  intros Hg Hl. unfold expand_groups. destruct (Nat.ltb_spec (length gs) 8).
  - destruct e as [e|]; [|done]. intros [= <-]. rewrite !length_app, length_replicate, length_take, length_drop.
    split; [|lia]. rewrite !Forall_app. split; [by apply Forall_take|]. split; [|by apply Forall_drop].
    apply Forall_replicate. unfold group_wf. lia.
  - destruct e; [done|]. intros [= <-]. split; [done|lia].
Qed.

Lemma parseIPv4_wf s a : parseIPv4 s = Some a -> addr_wf a.
Proof.
  unfold parseIPv4. destruct (parseIPv4Fields s true false 0 0 []) as [fs|] eqn:Ef; [|done].
  apply parseIPv4Fields_wf in Ef; [|unfold octet; lia|constructor].
  destruct fs as [|a' [|b [|c [|d [|? ?]]]]]; try done. intros [= <-].
  rewrite !Forall_cons in Ef. destruct Ef as (? & ? & ? & ? & _). by apply ip4_octets.
Qed.

Lemma parseIPv6_wf s a : parseIPv6 s = Some a -> addr_wf a.
Proof.
  unfold parseIPv6. destruct (_ && _); [done|]. case_bool_decide; [by intros [= <-]|].
  intros H'. set (zone := match Cut s "%" with Some (_, z) => z | None => "" end) in *. clearbody zone.
  set (s0 := match Cut s "%" with Some (s1, _) => s1 | None => s end) in *. clearbody s0.
  destruct (match strip_prefix "::" s0 with
    | Some rest => parse_groups 8 rest [] (Some 0%nat) | None => parse_groups 8 s0 [] None end)
    as [[[rest groups] e]|] eqn:Eg; [|done].
  assert (Forall group_wf groups /\ (length groups <= 8)%nat) as [Hg Hl].
  { destruct (strip_prefix "::" s0); (eapply parse_groups_wf; [|exact Eg|]; [constructor|done]). }
  case_bool_decide; [|done]. destruct (expand_groups groups e) as [gs|] eqn:Ee; [|done].
  injection H' as <-. destruct (expand_groups_wf _ _ _ Hg Hl Ee) as [Hgs Hlen].
  pose proof (group_value_range gs Hgs 0 0 ltac:(simpl; lia)) as Hr. rewrite Hlen in Hr. exact Hr.
Qed.

Lemma ParseAddr_wf s a : ParseAddr s = Some a -> addr_wf a.
Proof.
  unfold ParseAddr. generalize s at 2. induction s as [|c s IH]; intros text; cbn [parse_addr_as]; [done|].
  destruct (Ascii.eqb c dot); [apply parseIPv4_wf|]. destruct (Ascii.eqb c colon); [apply parseIPv6_wf|].
  destruct (Ascii.eqb c percent); [done|]. apply IH.
Qed.

Lemma Unmap_wf a : addr_wf a -> addr_wf (Unmap a).
Proof.
  destruct a as [|v|v zone]; [done..|]. intros H. unfold Unmap.
  destruct (_ =? _); [|done]. apply Z.mod_pos_bound. lia.
Qed.

Lemma check_answers_spec allow answers : forall seen acc res,
  Forall addr_wf answers -> (forall a, a ∈ seen <-> a ∈ acc) -> NoDup acc ->
  Forall (fun a => validateSafeProbeAddress a allow = Ok () /\ (allow = true -> loopback a)) acc ->
  check_answers allow seen acc answers = Ok res ->
  NoDup res /\ (forall a, a ∈ res <-> a ∈ acc \/ a ∈ map Unmap answers) /\
  Forall (fun a => validateSafeProbeAddress a allow = Ok () /\ (allow = true -> loopback a)) res.
Proof.
  induction answers as [|a answers IH]; intros seen acc res Hwf Hseen Hnd Hacc; cbn [check_answers].
  { intros [= ->]. split; [done|]. split; [|done]. intros a. rewrite elem_of_nil. tauto. }
  inversion Hwf as [|? ? Ha Hrest]; subst.
  destruct (allow && negb (IsLoopback (Unmap a))) eqn:El; [done|].
  destruct (validateSafeProbeAddress (Unmap a) allow) as [[]|e] eqn:Ev; [|done].
  assert (allow = true -> loopback (Unmap a)) as Hl.
  { intros ->. apply loopback_spec. by destruct (IsLoopback (Unmap a)). }
  case_bool_decide as Hin; intros H.
  - destruct (IH seen acc res Hrest Hseen Hnd Hacc H) as (H1 & H2 & H3).
    split; [done|]. split; [|done]. intros x. rewrite H2. cbn [map]. rewrite elem_of_cons.
    rewrite Hseen in Hin. intuition congruence.
  - destruct (IH (Unmap a :: seen) (acc ++ [Unmap a]) res Hrest) as (H1 & H2 & H3); [| | |exact H|].
    + intros x. rewrite elem_of_cons, elem_of_app, list_elem_of_singleton, Hseen. tauto.
    + apply NoDup_app. rewrite Hseen in Hin. split; [done|]. split; [|apply NoDup_singleton].
      intros x Hx. rewrite list_elem_of_singleton. by intros ->.
    + apply Forall_app. split; [done|]. by constructor.
    + split; [done|]. split; [|done]. intros x. rewrite H2. cbn [map].
      rewrite elem_of_app, list_elem_of_singleton, elem_of_cons. tauto.
Qed.

Lemma check_answers_complete allow answers : forall seen acc,
  (exists res, check_answers allow seen acc answers = Ok res) <->
  Forall (fun a => (allow = true -> IsLoopback (Unmap a) = true) /\
                   validateSafeProbeAddress (Unmap a) allow = Ok ()) answers.
Proof.
  induction answers as [|a answers IH]; intros seen acc; cbn [check_answers].
  { split; [constructor|by exists acc]. }
  rewrite Forall_cons.
  destruct allow, (IsLoopback (Unmap a)) eqn:El; cbn [andb negb];
    try (split; [by intros [? [=]]|by intros [[H _] _]; discriminate (H eq_refl)]);
    (destruct (validateSafeProbeAddress (Unmap a) _) as [[]|e] eqn:Ev;
      [|by split; [intros [? [=]]|intros [[_ [=]] _]]]);
    (case_bool_decide; rewrite IH; intuition (try discriminate)).
Qed.

Lemma Unmap_idemp a : Unmap (Unmap a) = Unmap a.
Proof.
  destruct a as [|v|v zone]; try done. cbn [Unmap].
  destruct (Z.shiftr v 32 =? 65535) eqn:E; cbn [Unmap]; by rewrite ?E.
Qed.

(** What a resolution of [host] may hand to a dialler. *)
Record safe_answer (host : string) (literal allow : bool) (a : addr) : Prop := {
  answer_unmapped : Unmap a = a;
  answer_not_forbidden : forbidden a -> zoned_exception a;
  answer_loopback : loopback a -> allow = true /\ (literal = true \/ EqualFold host "localhost" = true);
  answer_localhost : allow = true -> literal = false -> EqualFold host "localhost" = true -> loopback a
}.

Lemma resolve_spec host allow ctx0 ctx1 lookup res :
  (forall l, lookup (normalizeProbeHost host) = Ok l -> Forall addr_wf l) ->
  resolveSafeProbeHostWithLookup host allow ctx0 ctx1 lookup = Ok res ->
  res <> [] /\ NoDup res /\
  Forall (safe_answer (normalizeProbeHost host) (bool_decide (is_Some (ParseAddr (normalizeProbeHost host)))) allow) res /\
  match ParseAddr (normalizeProbeHost host) with
  | Some a => res = [Unmap a]
  | None => exists l, lookup (normalizeProbeHost host) = Ok l /\ forall a, a ∈ res <-> a ∈ map Unmap l
  end.
Proof.
  intros Hwf H. unfold resolveSafeProbeHostWithLookup in H.
  set (h := normalizeProbeHost host) in *.
  destruct (bool_decide (h = "") || HasPrefix h "-"); [done|].
  destruct (ParseAddr h) as [a|] eqn:Ep.
  - destruct (validateSafeProbeAddress (Unmap a) allow) as [[]|e] eqn:Ev; [|done].
    injection H as <-. apply validate_spec in Ev; [|by eapply Unmap_wf, ParseAddr_wf].
    destruct Ev as [Hf Hl]. split; [done|]. split; [apply NoDup_singleton|]. split; [|done].
    apply Forall_singleton. rewrite bool_decide_eq_true_2 by eauto.
    split; [apply Unmap_idemp|done| |done]. intros Hlo. split; [by apply Hl|]. by constructor.
  - destruct ctx0; [done|]. destruct (lookup h) as [l|e] eqn:El.
    2:{ destruct ctx1; [done|]. by destruct (negb _). }
    destruct l as [|a0 l0]; [done|]. set (l := a0 :: l0) in *.
    specialize (Hwf l eq_refl).
    pose proof (check_answers_spec _ _ [] [] res Hwf ltac:(done) (NoDup_nil_2) ltac:(constructor) H)
      as (Hnd & Hin & Hall).
    assert (forall a, a ∈ res <-> a ∈ map Unmap l) as Hin'.
    { intros a. rewrite Hin, elem_of_nil. tauto. }
    split; [|split; [done|split; [|by exists l]]].
    { intros ->. specialize (Hin' (Unmap a0)). rewrite elem_of_nil in Hin'.
      apply Hin'. subst l. cbn [map]. rewrite elem_of_cons. auto. }
    rewrite bool_decide_eq_false_2 by (by intros [? [=]]).
    rewrite Forall_forall in Hall |- *. intros a Ha. destruct (Hall a Ha) as [Hv Hlo].
    apply Hin', list_elem_of_fmap in Ha as (b & -> & Hb).
    rewrite Forall_forall in Hwf. apply validate_spec in Hv; [|by apply Unmap_wf, Hwf].
    destruct Hv as [Hf Hl]. split; [apply Unmap_idemp|done| |].
    + intros Hlb. apply Hl in Hlb. apply andb_true_iff in Hlb as [-> ->]. auto.
    + intros -> _ He. rewrite He in Hlo. by apply Hlo.
Qed.

(** ** Properties *)

(** C14. Whatever the resolver answers, the addresses
    resolveSafeProbeHostWithLookup returns are safe to connect to: the list is
    not empty, has no duplicates, holds no IPv4-mapped form and no unspecified,
    "this network", link-local, multicast or cloud-metadata address, and a
    loopback address appears only when the caller allows it and the host is an
    address literal or the name localhost. A name is resolved to exactly its
    unmapped answers, and a single such answer rejects the whole name.  The exception, an error of the code: the
    unspecified address :: and the metadata address fd00:ec2::254 pass the check when they carry a zone. *)
Theorem resolve_returns_only_safe_addresses host allow ctx0 ctx1 lookup :
  (forall h l, lookup h = Ok l -> Forall addr_wf l) ->
  (forall res, resolveSafeProbeHostWithLookup host allow ctx0 ctx1 lookup = Ok res ->
    res <> [] /\ NoDup res /\
    Forall (safe_answer (normalizeProbeHost host)
      (bool_decide (is_Some (ParseAddr (normalizeProbeHost host)))) allow) res /\
    match ParseAddr (normalizeProbeHost host) with
    | Some a => res = [Unmap a]
    | None => exists l, lookup (normalizeProbeHost host) = Ok l /\ forall a, a ∈ res <-> a ∈ map Unmap l
    end) /\
  (forall l a, ParseAddr (normalizeProbeHost host) = None -> lookup (normalizeProbeHost host) = Ok l ->
    a ∈ l -> forbidden (Unmap a) -> ~ zoned_exception (Unmap a) ->
    forall res, resolveSafeProbeHostWithLookup host allow ctx0 ctx1 lookup <> Ok res).
Proof.
  intros Hl. split.
  - intros res H. eapply resolve_spec; eauto.
  - intros l a Hn Hlk Ha Hf Hz res H.
    destruct (resolve_spec _ _ _ _ _ _ (Hl _) H) as (_ & _ & Hall & Hm).
    rewrite Hn in Hm. destruct Hm as (l' & Hlk' & Hin). assert (l' = l) as -> by congruence.
    rewrite Forall_forall in Hall. apply Hz. eapply answer_not_forbidden; [|exact Hf].
    apply Hall, Hin. by apply list_elem_of_fmap_2.
Qed.

Definition demo_lookup (h : string) : result go_error (list addr) :=
  if bool_decide (h = "example.test")
  then Ok [A4 (ip4 93 184 216 34); A6 (Z.shiftl 65535 32 + ip4 93 184 216 34) ""; A6 (Z.shiftl 0x2606 112 + 1) ""]
  else if bool_decide (h = "rebind.test") then Ok [A4 (ip4 93 184 216 34); A4 (ip4 169 254 169 254)]
  else Err errProbeDNS.

Lemma demo_lookup_wf h l : demo_lookup h = Ok l -> Forall addr_wf l.
Proof.
  unfold demo_lookup. case_bool_decide; [intros [= <-]|case_bool_decide; [intros [= <-]|done]];
    repeat constructor; by vm_compute.
Qed.

Lemma resolve_returns_only_safe_addresses_witness :
  resolveSafeProbeHostWithLookup "[example.test]" true None None demo_lookup =
    Ok [A4 (ip4 93 184 216 34); A6 (Z.shiftl 0x2606 112 + 1) ""] /\
  NoDup [A4 (ip4 93 184 216 34); A6 (Z.shiftl 0x2606 112 + 1) ""] /\
  (forall res, resolveSafeProbeHostWithLookup "rebind.test" true None None demo_lookup <> Ok res).
Proof.
  split; [vm_compute; reflexivity|]. split.
  - pose proof (proj1 (resolve_returns_only_safe_addresses "[example.test]" true None None demo_lookup
      demo_lookup_wf)) as H.
    destruct (H [A4 (ip4 93 184 216 34); A6 (Z.shiftl 0x2606 112 + 1) ""]) as (_ & Hnd & _);
      [vm_compute; reflexivity|exact Hnd].
  - apply (proj2 (resolve_returns_only_safe_addresses "rebind.test" true None None demo_lookup
      demo_lookup_wf)) with (l := [A4 (ip4 93 184 216 34); A4 (ip4 169 254 169 254)])
      (a := A4 (ip4 169 254 169 254)).
    + vm_compute. reflexivity.
    + vm_compute. reflexivity.
    + rewrite !elem_of_cons. auto.
    + vm_compute. intuition congruence.
    + exact (fun H => H).
Defined.

(** Rotating the resolved addresses between samples loses and duplicates
    none of them, and sample number [offset] starts with the address at position
    [offset] modulo their number, so that consecutive samples go through them all. *)
Theorem rotation_is_a_permutation addresses offset :
  rotatedProbeAddresses addresses offset ≡ₚ addresses /\
  (forall i, (i < length addresses)%nat ->
    rotatedProbeAddresses addresses offset !! i =
      addresses !! Z.to_nat ((offset + Z.of_nat i) mod Z.of_nat (length addresses))).
Proof.
  unfold rotatedProbeAddresses. destruct (Z.leb_spec (Z.of_nat (length addresses)) 1) as [Hle|Hgt].
  { split; [done|]. intros i Hi. assert (i = 0%nat) as -> by lia.
    assert (Z.of_nat (length addresses) = 1) as -> by lia. by rewrite Z.mod_1_r. }
  set (n := Z.of_nat (length addresses)) in *.
  assert ((if Z.rem offset n <? 0 then Z.rem offset n + n else Z.rem offset n) = offset mod n) as Hs.
  { pose proof (Z.quot_rem' offset n). pose proof (Z.rem_bound_abs offset n ltac:(lia)) as Hb.
    destruct (Z.ltb_spec (Z.rem offset n) 0) as [Hneg|Hpos].
    - apply Z.mod_unique with (Z.quot offset n - 1); lia.
    - apply Z.mod_unique with (Z.quot offset n); lia. }
  rewrite Hs. clear Hs. pose proof (Z.mod_pos_bound offset n ltac:(lia)) as Hm. split.
  { rewrite Permutation_app_comm. by rewrite take_drop. }
  intros i Hi. set (s := Z.to_nat (offset mod n)). assert (Z.of_nat s = offset mod n) as Hs by lia.
  rewrite <- Zplus_mod_idemp_l, <- Hs.
  destruct (Nat.lt_ge_cases i (length addresses - s)) as [Hlt|Hge].
  - rewrite lookup_app_l by (rewrite length_drop; lia). rewrite lookup_drop.
    f_equal. rewrite Z.mod_small by lia. lia.
  - rewrite lookup_app_r by (rewrite length_drop; lia). rewrite length_drop, lookup_take_lt by lia.
    f_equal. assert ((Z.of_nat s + Z.of_nat i) mod n = Z.of_nat s + Z.of_nat i - n) as ->; [|lia].
    symmetry. apply Z.mod_unique with 1; lia.
Qed.

(** A zoned IPv6 address escapes the prefix list: [Prefix.Contains] is false for
    every address that carries a zone. *)
Example zoned_metadata_is_accepted :
  validateSafeProbeAddress (A6 metadata6 "eth0") false = Ok () /\
  validateSafeProbeAddress (A6 metadata6 "") false = Err errUnsafeProbeTarget.
Proof. split; vm_compute; reflexivity. Qed.
