(* ===== verification/GoUrl.v ===== *)
(** * Hosts, ports and URLs

    [net.SplitHostPort], [net.JoinHostPort], the fields of [url.URL] with
    [Hostname] and [Port], and [net.ParseIP].  [url.Parse] itself, whose grammar
    changes between Go releases, is an argument where it is used. *)

From S2P Require Export NetAddr.

(** ** Host and port texts *)

(** The text before and after the last [c]. *)
Fixpoint last_cut (c : ascii) (s : string) : option (string * string) :=
  match s with
  | EmptyString => None
  | String d s =>
      match last_cut c s with
      | Some (a, b) => Some (String d a, b)
      | None => if Ascii.eqb d c then Some ("", s) else None
      end
  end.

Definition lbracket : ascii := chr 91.
Definition rbracket : ascii := chr 93.
Definition has_byte (c : ascii) (s : string) : bool := str_exists (Ascii.eqb c) s.

Definition plain_error (text : string) : go_error :=
  mkError false false false false false false false text.
Definition addrErr (addr text : string) : go_error := plain_error ("address " +:+ addr +:+ ": " +:+ text).

(** [net.SplitHostPort] *)
Definition SplitHostPort (hostport : string) : result go_error (string * string) :=
  let missingPort := Err (addrErr hostport "missing port in address") in
  let tooManyColons := Err (addrErr hostport "too many colons in address") in
  match last_cut colon hostport with
  | None => missingPort
  | Some (before, after) =>
      match strip_prefix "[" hostport with
      | Some inner =>
          match Cut inner "]" with
          | None => Err (addrErr hostport "missing ']' in address")
          | Some (_, EmptyString) => missingPort
          | Some (host, String c port) =>
              if negb (Ascii.eqb c colon) then missingPort
              else if has_byte colon port then tooManyColons
              else if has_byte lbracket inner then Err (addrErr hostport "unexpected '[' in address")
              else if has_byte rbracket port then Err (addrErr hostport "unexpected ']' in address")
              else Ok (host, port)
          end
      | None =>
          if has_byte colon before then tooManyColons
          else if has_byte lbracket hostport then Err (addrErr hostport "unexpected '[' in address")
          else if has_byte rbracket hostport then Err (addrErr hostport "unexpected ']' in address")
          else Ok (before, after)
      end
  end.

(** [net.JoinHostPort] *)
Definition JoinHostPort (host port : string) : string :=
  if has_byte colon host then "[" +:+ host +:+ "]:" +:+ port else host +:+ ":" +:+ port.

Example SplitHostPort_1 :
  map SplitHostPort ["a:80"; "[::1]:443"; "::1:80"; "a"; "[::1]"; "[::1]x:80"] =
  [Ok ("a", "80"); Ok ("::1", "443"); Err (addrErr "::1:80" "too many colons in address");
   Err (addrErr "a" "missing port in address"); Err (addrErr "[::1]" "missing port in address");
   Err (addrErr "[::1]x:80" "missing port in address")].
Proof. vm_compute. reflexivity. Qed.

(** ** [url.URL] *)

(** The fields the agent reads or sets; [Rest] stands for the others. *)
Record url : Type := mkURL {
  Scheme : string;
  Host : string;
  User : option string;
  Path : string;
  RawQuery : string;
  Fragment : string;
  Rest : string
}.

Definition validOptionalPort (port : string) : bool :=
  match port with
  | EmptyString => true
  | String c digits => Ascii.eqb c colon && str_forall is_digit digits
  end.

Definition splitHostPort (hostPort : string) : string * string :=
  let '(host, port) :=
    match last_cut colon hostPort with
    | Some (host, port) => if str_forall is_digit port then (host, port) else (hostPort, "")
    | None => (hostPort, "")
    end in
  match strip_prefix "[" host with
  | Some inner => match strip_suffix "]" inner with Some h => (h, port) | None => (host, port) end
  | None => (host, port)
  end.
Definition Hostname (u : url) : string := fst (splitHostPort (Host u)).
Definition url_Port (u : url) : string := snd (splitHostPort (Host u)).

(** ** [net.ParseIP] *)

(** The address in its 4-byte form when it has one ([To4]); no zones. *)
Definition ParseIP (s : string) : option addr :=
  match ParseAddr s with
  | Some (A6 v zone) => if bool_decide (zone = "") then Some (Unmap (A6 v zone)) else None
  | Some (A4 v) => Some (A4 v)
  | _ => None
  end.

(** [ip.String()], and [ip.IsLoopback()]: 127.0.0.0/8 and ::1. *)
Definition IP_String (ip : addr) : string := Addr_String ip.
Definition IP_IsLoopback (ip : addr) : bool := IsLoopback ip.

Example ParseIP_1 :
  map (fun s => IP_String <$> ParseIP s) ["127.0.0.1"; "::ffff:1.2.3.4"; "fe80::1%eth0"; "2001:DB8::1"; "1.2.3"] =
  [Some "127.0.0.1"; Some "1.2.3.4"; None; Some "2001:db8::1"; None].
Proof. vm_compute. reflexivity. Qed.
