(* ===== verification/NetworkIdentity.v ===== *)
(** * Public addresses and country of the node (network_identity.go)

    Which providers may be asked, which redirects are followed, what is kept of
    their answers, and the cache in front of them.  [url.Parse] and the
    providers are arguments; every definition that makes requests also returns
    the URLs it asked, in order. *)

From S2P Require Export GoUrl JsonDecode.

(** ** Records *)
Record NetworkIdentity : Type := mkIdentity { id_PublicIPv4 : string; id_PublicIPv6 : string; id_CountryCode : string }.
Definition no_identity : NetworkIdentity := mkIdentity "" "" "".
Definition identity_empty (identity : NetworkIdentity) : bool :=
  bool_decide (id_PublicIPv4 identity = "") && bool_decide (id_PublicIPv6 identity = "") &&
  bool_decide (id_CountryCode identity = "").

Record NetworkIdentityDiscoverer : Type := mkDiscoverer { IPv4URL : string; IPv6URL : string; GeoIPURLFormat : string }.
Definition NewNetworkIdentityDiscoverer : NetworkIdentityDiscoverer :=
  mkDiscoverer "https://api.ipify.org?format=json" "https://api6.ipify.org?format=json"
    "https://ipwho.is/%s?fields=success,country_code,ip".

Definition networkIdentityMaxJSONBodyBytes : Z := 4 * 1024.
Definition trustedNetworkIdentityHosts : list string := ["api.ipify.org"; "api6.ipify.org"; "ipwho.is"].

(** ** What an answer may contain *)
Definition normalizePublicIP (value : string) (family : Z) : string :=
  match ParseIP (TrimSpace value) with
  | None => ""
  | Some ip =>
      if family =? 4 then if Is4 ip then IP_String ip else ""
      else if family =? 6 then if Is4 ip then "" else IP_String ip
      else ""
  end.

Definition upper_letter (c : ascii) : bool := (65 <=? byte_val c) && (byte_val c <=? 90).
Definition normalizeCountryCode (value : string) : string :=
  let trimmed := ToUpper (TrimSpace value) in
  if negb (str_len trimmed =? 2) then "" else if str_forall upper_letter trimmed then trimmed else "".

(** ** Where a request may go *)
Definition isLocalIdentityProviderHost (host : string) : bool :=
  let host := ToLower (TrimSpace host) in
  if bool_decide (host = "localhost") then true
  else match ParseIP host with None => false | Some ip => IP_IsLoopback ip end.

Definition identityProviderURLAllowed (parsed : url) : bool :=
  if bool_decide (Scheme parsed = "https") then true
  else bool_decide (Scheme parsed = "http") && isLocalIdentityProviderHost (Hostname parsed).

Definition identityProviderRedirectAllowed (parsed : url) (originHost : string) : bool :=
  if negb (bool_decide (Scheme parsed = "https")) then false
  else
    let host := ToLower (Hostname parsed) in
    if bool_decide (host = ToLower originHost) then true
    else bool_decide (host ∈ trustedNetworkIdentityHosts).

(** ** Answers *)
Inductive provider_answer : Type :=
| ProviderFailed
| ProviderRedirect (location : url)
| ProviderAnswer (status : Z) (body : option string).  (* [None]: reading fails *)

Record geoIPResponse : Type := mkGeo { geo_Success : bool; geo_CountryCode : string; geo_IP : string }.
Definition ipify_member (old : string) (key : string) (v : json) : option string :=
  if field_is "ip" key then decode_string old v else Some old.
Definition geo_member (r : geoIPResponse) (key : string) (v : json) : option geoIPResponse :=
  if field_is "success" key then b ← decode_bool (geo_Success r) v; Some (mkGeo b (geo_CountryCode r) (geo_IP r))
  else if field_is "country_code" key then s ← decode_string (geo_CountryCode r) v; Some (mkGeo (geo_Success r) s (geo_IP r))
  else if field_is "ip" key then s ← decode_string (geo_IP r) v; Some (mkGeo (geo_Success r) (geo_CountryCode r) s)
  else Some r.

(** [fmt.Sprintf(format, s)] when the only verb of the format is one [%s]. *)
Definition Sprintf_s (format s : string) : string :=
  match Cut format "%s" with
  | Some (a, b) => a +:+ s +:+ b
  | None => format +:+ "%!(EXTRA string=" +:+ s +:+ ")"
  end.

Section Discovery.
Context (Parse : string -> result go_error url).

Definition urlpkgParse (value : string) : option url :=
  match Parse value with
  | Err _ => None
  | Ok parsed => if bool_decide (Scheme parsed = "") || bool_decide (Host parsed = "") then None else Some parsed
  end.

(** [CheckRedirect]: [via] requests have been made, and [base] is the client's
    own rule. *)
Definition redirect_allowed (base : url -> nat -> bool) (originHost : string) (next : url) (via : nat) : bool :=
  if (5 <=? via)%nat then false
  else if negb (identityProviderRedirectAllowed next originHost) then false
  else base next via.

Section Fetch.
Context (base : url -> nat -> bool) (serve : url -> provider_answer) (originHost : string).

(** [requestClient.Do]: at most five requests, so the fuel 5 is enough. *)
Fixpoint follow (fuel : nat) (u : url) (via : nat) : list url * option (Z * option string) :=
  match fuel with
  | O => ([], None)
  | S fuel =>
      match serve u with
      | ProviderFailed => ([u], None)
      | ProviderAnswer status body => ([u], Some (status, body))
      | ProviderRedirect next =>
          if redirect_allowed base originHost next (S via) then
            let '(asked, r) := follow fuel next (S via) in (u :: asked, r)
          else ([u], None)
      end
  end.
End Fetch.

(** [fetchJSON] up to the call of [json.Unmarshal]: the body it is given. *)
Definition fetchJSON (base : url -> nat -> bool) (serve : url -> provider_answer) (address : string)
  : list url * option string :=
  match urlpkgParse address with
  | None => ([], None)
  | Some parsed =>
      if negb (identityProviderURLAllowed parsed) then ([], None)
      else
        let '(asked, r) := follow base serve (Hostname parsed) 5 parsed 0 in
        match r with
        | None => (asked, None)
        | Some (status, body) =>
            if (status <? 200) || (300 <=? status) then (asked, None)
            else
              match body with
              | None => (asked, None)
              | Some body =>
                  let body := Stdlib.Strings.String.substring 0 (Z.to_nat (networkIdentityMaxJSONBodyBytes + 1)) body in
                  if networkIdentityMaxJSONBodyBytes <? str_len body then (asked, None) else (asked, Some body)
              end
        end
  end.

Context (d : NetworkIdentityDiscoverer) (base : url -> nat -> bool).

Definition fetchPublicIP (serve : url -> provider_answer) (address : string) (family : Z) : list url * string :=
  let address := TrimSpace address in
  if bool_decide (address = "") then ([], "")
  else
    let '(asked, body) := fetchJSON base serve address in
    match body ≫= Unmarshal ipify_member "" with
    | None => (asked, "")
    | Some ip => (asked, normalizePublicIP ip family)
    end.

Definition fetchCountryCode (serve : url -> provider_answer) (ip : string) : list url * string :=
  let format := TrimSpace (GeoIPURLFormat d) in
  if bool_decide (format = "") || bool_decide (TrimSpace ip = "") then ([], "")
  else
    let '(asked, body) := fetchJSON base serve (Sprintf_s format ip) in
    match body ≫= Unmarshal geo_member (mkGeo false "" "") with
    | None => (asked, "")
    | Some response => if negb (geo_Success response) then (asked, "") else (asked, normalizeCountryCode (geo_CountryCode response))
    end.

(** [Discover]: four fetches at most, each with the network as it is then. *)
Definition Discover (serve : nat -> url -> provider_answer) : list url * NetworkIdentity :=
  let '(a0, ipv4) := fetchPublicIP (serve 0%nat) (IPv4URL d) 4 in
  let '(a1, ipv6) := fetchPublicIP (serve 1%nat) (IPv6URL d) 6 in
  let '(a2, country) :=
    if bool_decide (ipv4 = "") then ([], "") else fetchCountryCode (serve 2%nat) ipv4 in
  let '(a3, country) :=
    if bool_decide (country = "") && negb (bool_decide (ipv6 = "")) then fetchCountryCode (serve 3%nat) ipv6
    else ([], country) in
  (a0 ++ a1 ++ a2 ++ a3, mkIdentity ipv4 ipv6 country).
End Discovery.

(** ** The cache *)
Record CachedNetworkIdentityDiscoverer : Type := mkCache {
  TTL : Z; cached : NetworkIdentity; checkedAt : Z; hasCache : bool
}.

Definition NewCachedNetworkIdentityDiscoverer (ttl : Z) : CachedNetworkIdentityDiscoverer :=
  mkCache (if ttl <=? 0 then 12 * Hour else ttl) no_identity time_zero false.

(** The two critical sections of [Discover]; the providers are asked between
    them, without the lock. *)
Definition cache_lookup (d : CachedNetworkIdentityDiscoverer) (now : Z) : option NetworkIdentity :=
  if hasCache d && (time_sub now (checkedAt d) <? TTL d) then Some (cached d) else None.

Definition cache_store (d : CachedNetworkIdentityDiscoverer) (now : Z) (identity : NetworkIdentity)
  : CachedNetworkIdentityDiscoverer * NetworkIdentity :=
  if identity_empty identity && hasCache d
  then (mkCache (TTL d) (cached d) now (hasCache d), cached d)
  else if negb (identity_empty identity) then (mkCache (TTL d) identity now true, identity)
  else (mkCache (TTL d) (cached d) now (hasCache d), identity).

Definition cached_Discover (d : CachedNetworkIdentityDiscoverer) (now : Z) (inner : option (unit -> list url * NetworkIdentity))
  : CachedNetworkIdentityDiscoverer * (list url * NetworkIdentity) :=
  match cache_lookup d now with
  | Some identity => (d, ([], identity))
  | None =>
      let '(asked, identity) := match inner with Some f => f tt | None => ([], no_identity) end in
      let '(d, identity) := cache_store d now identity in (d, (asked, identity))
  end.

(** ** Requests *)
Section FetchFacts.
Context (base : url -> nat -> bool) (serve : url -> provider_answer) (originHost : string).

Lemma follow_step fuel u via : follow base serve originHost (S fuel) u via =
  match serve u with
  | ProviderFailed => ([u], None)
  | ProviderAnswer status body => ([u], Some (status, body))
  | ProviderRedirect next =>
      if redirect_allowed base originHost next (S via) then
        let '(asked, r) := follow base serve originHost fuel next (S via) in (u :: asked, r)
      else ([u], None)
  end.
Proof. done. Qed.

Definition safe_chain (rest : list url) (via : nat) : Prop :=
  Forall (fun v => identityProviderRedirectAllowed v originHost = true) rest /\ (length rest + via <= Nat.max 4 via)%nat.

Lemma follow_safe fuel : forall u via, exists rest,
  fst (follow base serve originHost (S fuel) u via) = u :: rest /\ safe_chain rest via.
Proof.
  assert (forall via, safe_chain [] via) as Hnil by (intros via; split; [constructor|cbn; lia]).
  induction fuel as [|fuel IH]; intros u via; rewrite follow_step; destruct (serve u) as [|next|status body];
    try (exists []; split; [done|apply Hnil]); destruct (redirect_allowed base originHost next (S via)) eqn:E; try (exists []; split; [done|apply Hnil]).
  revert E. unfold redirect_allowed. destruct (Nat.leb_spec 5 (S via)) as [|Hv]; [done|].
  destruct (identityProviderRedirectAllowed next originHost) eqn:Ea; [|done]. intros _.
    destruct (IH next (S via)) as (rest & Hr & Hs & Hl).
    destruct (follow _ _ _ (S fuel) next (S via)) as [asked r]. cbn in Hr |- *. subst asked.
    exists (next :: rest). split; [done|]. split; [by constructor|cbn; lia].
Qed.

(** Five steps of fuel reach the end: more change nothing. *)
Lemma follow_fuel n u : follow base serve originHost (5 + n) u 0 = follow base serve originHost 5 u 0.
Proof.
  assert (forall k u via, (via + k = 4)%nat ->
    follow base serve originHost (S (k + n)) u via = follow base serve originHost (S k) u via) as H.
  { induction k as [|k IH]; intros u' via Hv; rewrite !follow_step; destruct (serve u') as [|next|]; try done;
      destruct (redirect_allowed base originHost next (S via)) eqn:E; try done.
    - revert E. unfold redirect_allowed. by rewrite (proj2 (Nat.leb_le 5 (S via))) by lia.
    - change (S k + n)%nat with (S (k + n)). by rewrite IH by lia. }
  apply (H 4%nat u 0%nat). lia.
Qed.
End FetchFacts.

(** C22. A provider is only asked over https, or over http on this host; every redirect that is followed leads over
    https to the same host or to one of the trusted hosts, at most five requests are made, and a body that is used has
    at most 4096 bytes and belongs to a request that was allowed.  The bound on the requests is the code's own: more
    fuel changes nothing. *)
Theorem identity_requests_stay_safe Parse base serve address :
  let '(asked, body) := fetchJSON Parse base serve address in
  (asked = [] /\ body = None \/
   exists first rest, asked = first :: rest /\ urlpkgParse Parse address = Some first /\
     identityProviderURLAllowed first = true /\
     Forall (fun v => identityProviderRedirectAllowed v (Hostname first) = true) rest /\ (length asked <= 5)%nat) /\
  (forall b, body = Some b -> str_len b <= networkIdentityMaxJSONBodyBytes) /\
  (forall n u, follow base serve (Hostname u) (5 + n) u 0 = follow base serve (Hostname u) 5 u 0).
Proof.
  assert (forall n u, follow base serve (Hostname u) (5 + n) u 0 = follow base serve (Hostname u) 5 u 0) as Hfuel
    by (intros n u; apply follow_fuel).
  unfold fetchJSON. destruct (urlpkgParse Parse address) as [u|] eqn:Ep; [|by split; [left|]].
  destruct (identityProviderURLAllowed u) eqn:Ea; cbn [negb]; [|by split; [left|]].
  destruct (follow_safe base serve (Hostname u) 4 u 0) as (rest & Hr & Hs & Hl).
  destruct (follow base serve (Hostname u) 5 u 0) as [asked r]. cbn [fst] in Hr. subst asked.
  assert (exists first rest', u :: rest = first :: rest' /\ Some u = Some first /\
    identityProviderURLAllowed first = true /\
    Forall (fun v => identityProviderRedirectAllowed v (Hostname first) = true) rest' /\
    (length (u :: rest) <= 5)%nat) as Hchain by (exists u, rest; repeat split; [done..|cbn; lia]).
  destruct r as [[status body]|]; [|by split; [right|]].
  destruct ((status <? 200) || (300 <=? status)); [by split; [right|]|].
  destruct body as [body|]; [|by split; [right|]].
  destruct (Z.ltb_spec networkIdentityMaxJSONBodyBytes
    (str_len (Stdlib.Strings.String.substring 0 (Z.to_nat (networkIdentityMaxJSONBodyBytes + 1)) body))) as [|Hb];
    [by split; [right|]|].
  split; [by right|]. split; [by intros b [= <-]|done].
Qed.

(** ** Well-formed identities *)
Definition ipv4_field (s : string) : Prop := s = "" \/ exists v, 0 <= v < 2 ^ 32 /\ s = Addr_String (A4 v).
Definition ipv6_field (s : string) : Prop := s = "" \/ exists v, 0 <= v < 2 ^ 128 /\ s = Addr_String (A6 v "").
Definition country_field (s : string) : Prop := s = "" \/ str_len s = 2 /\ str_forall upper_letter s = true.

Record identity_wf (identity : NetworkIdentity) : Prop := {
  wf_ipv4 : ipv4_field (id_PublicIPv4 identity);
  wf_ipv6 : ipv6_field (id_PublicIPv6 identity);
  wf_country : country_field (id_CountryCode identity)
}.

Lemma ParseIP_wf s ip : ParseIP s = Some ip ->
  (exists v, ip = A4 v /\ 0 <= v < 2 ^ 32) \/ (exists v, ip = A6 v "" /\ 0 <= v < 2 ^ 128).
Proof.
  unfold ParseIP. destruct (ParseAddr s) as [a|] eqn:E; [|done].
  apply ParseAddr_wf in E. destruct a as [|v|v zone]; cbn match; intros H.
  - discriminate.
  - left. exists v. split; [congruence|exact E].
  - case_bool_decide as Hz; [|discriminate]. subst zone. apply (inj Some) in H. subst ip. unfold Unmap.
    destruct (_ =? 65535); [left|right]; eexists; (split; [reflexivity|]); [|exact E].
    apply Z.mod_pos_bound. reflexivity.
Qed.

Lemma normalizePublicIP_4 s : ipv4_field (normalizePublicIP s 4).
Proof.
  unfold normalizePublicIP. destruct (ParseIP (TrimSpace s)) as [ip|] eqn:E; [|by left].
  apply ParseIP_wf in E as [(v & -> & Hv)|(v & -> & Hv)]; [right; by exists v|by left].
Qed.
Lemma normalizePublicIP_6 s : ipv6_field (normalizePublicIP s 6).
Proof.
  unfold normalizePublicIP. destruct (ParseIP (TrimSpace s)) as [ip|] eqn:E; [|by left].
  apply ParseIP_wf in E as [(v & -> & Hv)|(v & -> & Hv)]; [by left|right; by exists v].
Qed.
Lemma normalizeCountryCode_wf s : country_field (normalizeCountryCode s).
Proof.
  unfold normalizeCountryCode. destruct (Z.eqb_spec (str_len (ToUpper (TrimSpace s))) 2) as [Hl|]; [|by left].
  cbn [negb]. destruct (str_forall upper_letter _) eqn:E; [by right|by left].
Qed.

Lemma fetchPublicIP_field Parse base serve address :
  ipv4_field (fetchPublicIP Parse base serve address 4).2 /\ ipv6_field (fetchPublicIP Parse base serve address 6).2.
Proof.
  unfold fetchPublicIP. destruct (bool_decide (TrimSpace address = "")); [by split; left|].
  destruct (fetchJSON Parse base serve (TrimSpace address)) as [asked body].
  destruct (body ≫= Unmarshal ipify_member "") as [ip|]; [|by split; left].
  split; [apply normalizePublicIP_4|apply normalizePublicIP_6].
Qed.

Lemma fetchCountryCode_field Parse d base serve ip : country_field (fetchCountryCode Parse d base serve ip).2.
Proof.
  unfold fetchCountryCode. destruct (_ || _); [by left|].
  destruct (fetchJSON Parse base serve _) as [asked body].
  destruct (body ≫= Unmarshal geo_member _) as [r|]; [|by left].
  destruct (geo_Success r); [apply normalizeCountryCode_wf|by left].
Qed.

(** Whatever the providers answer, a discovered identity is made of canonical texts: the IPv4 and IPv6 fields are
    empty or the printed form of an address of that family, the country is empty or two capital letters, and it is
    only filled when some address is. *)
Theorem identity_well_formed Parse d base serve : let identity := snd (Discover Parse d base serve) in
  identity_wf identity /\
  (id_CountryCode identity <> "" -> id_PublicIPv4 identity <> "" \/ id_PublicIPv6 identity <> "").
Proof.
  unfold Discover.
  pose proof (proj1 (fetchPublicIP_field Parse base (serve 0%nat) (IPv4URL d))) as H4.
  destruct (fetchPublicIP Parse base (serve 0%nat) (IPv4URL d) 4) as [a0 ipv4].
  pose proof (proj2 (fetchPublicIP_field Parse base (serve 1%nat) (IPv6URL d))) as H6.
  destruct (fetchPublicIP Parse base (serve 1%nat) (IPv6URL d) 6) as [a1 ipv6]. cbn [snd] in H4, H6.
  pose proof (fetchCountryCode_field Parse d base (serve 2%nat) ipv4) as Hc.
  pose proof (fetchCountryCode_field Parse d base (serve 3%nat) ipv6) as Hc'.
  destruct (fetchCountryCode Parse d base (serve 2%nat) ipv4) as [a2 c].
  destruct (fetchCountryCode Parse d base (serve 3%nat) ipv6) as [a3 c']. cbn [snd] in Hc, Hc'.
  assert (country_field "") as Hempty by by left.
  repeat case_bool_decide; cbn; (split; [split; cbn; done|]); tauto || done || (intros; by left).
Qed.

(** ** The cache over any interleaving *)

(** One critical section of some call: a lookup at a time, or a store of what
    that call has discovered. *)
Inductive cache_op : Type := OpLookup (now : Z) | OpStore (now : Z) (identity : NetworkIdentity).

Definition cache_step (d : CachedNetworkIdentityDiscoverer) (op : cache_op)
  : CachedNetworkIdentityDiscoverer * option NetworkIdentity :=
  match op with
  | OpLookup now => (d, cache_lookup d now)
  | OpStore now identity => let '(d, r) := cache_store d now identity in (d, Some r)
  end.
Fixpoint cache_run (d : CachedNetworkIdentityDiscoverer) (ops : list cache_op)
  : CachedNetworkIdentityDiscoverer * list (option NetworkIdentity) :=
  match ops with
  | [] => (d, [])
  | op :: ops => let '(d, r) := cache_step d op in let '(d, rs) := cache_run d ops in (d, r :: rs)
  end.

(** The last identity that was not empty, if any. *)
Definition known (ops : list cache_op) : option NetworkIdentity :=
  last (omap (fun op => match op with
    | OpStore _ identity => if identity_empty identity then None else Some identity | OpLookup _ => None end) ops).

Definition cache_holds (d : CachedNetworkIdentityDiscoverer) (k : option NetworkIdentity) : Prop :=
  hasCache d = match k with Some _ => true | None => false end /\
  (forall identity, k = Some identity -> cached d = identity).

Lemma cache_step_holds d op before : cache_holds d (known before) ->
  let '(d', r) := cache_step d op in
  cache_holds d' (known (before ++ [op])) /\ TTL d' = TTL d /\
  (forall identity, r = Some identity -> known (before ++ [op]) = Some identity \/
     known (before ++ [op]) = None /\ identity_empty identity = true).
Proof.
  intros [Hh Hc]. unfold known in *. rewrite omap_app. destruct op as [now|now identity]; cbn.
  - rewrite app_nil_r. split; [by split|]. split; [done|]. unfold cache_lookup.
    destruct (hasCache d); [|done]. cbn [andb]. destruct (_ <? _); [|done]. intros identity [= <-]. left.
    destruct (last _) as [k|]; [by rewrite (Hc k)|done].
  - unfold cache_store. destruct (identity_empty identity) eqn:E; cbn.
    + rewrite app_nil_r. destruct (hasCache d) eqn:Hd; cbn.
      * split; [by split|]. split; [done|]. intros i [= <-]. destruct (last _) as [k|]; [left; by rewrite (Hc k)|done].
      * split; [by split|]. split; [done|]. intros i [= <-]. right. by destruct (last _).
    + rewrite last_snoc. split; [split; [done|by intros i [= <-]]|]. split; [done|]. intros i [= <-]. by left.
Qed.

Lemma cache_run_holds ops : forall d before, cache_holds d (known before) ->
  let '(d', rs) := cache_run d ops in
  cache_holds d' (known (before ++ ops)) /\
  forall i identity, rs !! i = Some (Some identity) ->
    known (before ++ take (S i) ops) = Some identity \/
    known (before ++ take (S i) ops) = None /\ identity_empty identity = true.
Proof.
  induction ops as [|op ops IH]; intros d before Hd; cbn [cache_run]; [by rewrite app_nil_r|].
  pose proof (cache_step_holds d op before Hd) as Hs. destruct (cache_step d op) as [d1 r].
  destruct Hs as (Hd1 & _ & Hr). specialize (IH d1 (before ++ [op]) Hd1).
  destruct (cache_run d1 ops) as [d2 rs]. rewrite <- (assoc_L (++)) in IH. destruct IH as [Hd2 Hrs].
  split; [done|]. intros [|i] identity; cbn [lookup list_lookup].
  - intros [= ->]. by apply Hr.
  - intros Hi. specialize (Hrs i identity Hi). by rewrite <- (assoc_L (++)) in Hrs.
Qed.

(** C37. Along any interleaving of the critical sections of concurrent calls the cache keeps the last identity that was
    not empty: every answer is that identity, and an empty one is given only while nothing has ever been discovered;
    a total failure never clears what is known. *)
Theorem known_identity_never_cleared ttl ops :
  let '(d, rs) := cache_run (NewCachedNetworkIdentityDiscoverer ttl) ops in
  hasCache d = (match known ops with Some _ => true | None => false end) /\
  (forall identity, known ops = Some identity -> cached d = identity) /\
  (forall i identity, rs !! i = Some (Some identity) ->
     known (take (S i) ops) = Some identity \/ known (take (S i) ops) = None /\ identity_empty identity = true).
Proof.
  assert (cache_holds (NewCachedNetworkIdentityDiscoverer ttl) (known [])) as H0 by by split.
  pose proof (cache_run_holds ops _ [] H0) as H. destruct (cache_run _ ops) as [d rs].
  destruct H as [[H1 H2] H3]. by repeat split.
Qed.

(** Until the first success nothing is cached: every call asks the providers again. *)
Example failures_are_not_cached : let d := NewCachedNetworkIdentityDiscoverer Hour in
  let '(d1, _) := cached_Discover d 0 (Some (fun _ => ([], no_identity))) in
  cache_lookup d1 1 = None.
Proof. reflexivity. Qed.
