(* ===== verification/Client.v ===== *)
(** * The Controller client (client.go)

    Which Controller addresses are accepted, the one request every call makes,
    what is done with the answer, and the typed calls.  [url.Parse],
    [URL.String] and the transport are arguments; the calls return the requests
    they hand to the transport. *)

From S2P Require Export GoUrl JsonDecode StateSample TargetManager.

(** ** Addresses *)
Inductive url_error : Type := URLInvalid | URLExtra | URLRemoteHTTP | URLScheme | URLParse.

Definition valid_explicit_port (port : string) : bool :=
  match ParseInt port with Ok p => (1 <=? p) && (p <=? 65535) | Err _ => false end.

Definition parsed_url_check (parsed : url) (allowInsecureHTTP : bool) : result url_error () :=
  if bool_decide (Host parsed = "") || bool_decide (GoUrl.Hostname parsed = "") then Err URLInvalid
  else if bool_decide (is_Some (User parsed)) || negb (bool_decide (RawQuery parsed = "")) ||
          negb (bool_decide (Fragment parsed = "")) then Err URLExtra
  else
    let scheme := ToLower (Scheme parsed) in
    if bool_decide (scheme = "https") then Ok ()
    else if bool_decide (scheme = "http") then
      let hostname := TrimSuffix (ToLower (GoUrl.Hostname parsed)) "." in
      if bool_decide (hostname = "localhost") then Ok ()
      else if match ParseIP hostname with Some address => IP_IsLoopback address | None => false end then Ok ()
      else if allowInsecureHTTP && bool_decide (is_Some (ParseIP hostname)) && valid_explicit_port (url_Port parsed)
      then Ok ()
      else Err URLRemoteHTTP
    else Err URLScheme.

(** ** The client *)
Record Client : Type := mkClient { baseURL : string; nodeID : string; token : string; allowInsecureHTTP : bool }.
Definition NewClientWithOptions (baseURL nodeID token : string) (allowInsecureHTTP : bool) : Client :=
  mkClient (TrimRight baseURL "/") (TrimSpace nodeID) (TrimSpace token) allowInsecureHTTP.
Definition NewClient (baseURL nodeID token : string) : Client := NewClientWithOptions baseURL nodeID token false.

Record api_request : Type := mkApiRequest {
  req_Method : string; req_URL : string; req_Header : list (string * string); req_Body : option string
}.
Inductive api_answer : Type := ApiFailed | ApiAnswer (status : Z) (body : option string).

Inductive api_error : Type :=
| MissingCredentials
| InvalidController (e : url_error)
| MarshalFailed
| TransportFailed
| AgentAPIStatusError (Method path : string) (StatusCode : Z)
| BodyUnreadable
| BodyTooLarge
| BodyUndecodable
| BatchVersions (e : codec_error).

(** [errors.As(err, &statusErr)]: no error of the client wraps a status error. *)
Definition IsAgentAPIStatus (err : api_error) (statusCode : Z) : bool :=
  match err with AgentAPIStatusError _ _ code => code =? statusCode | _ => false end.

Definition maxAgentAPIJSONBodyBytes : Z := Z.shiftl 1 20.

Definition setAuthHeaders (c : Client) : list (string * string) :=
  [("X-Node-ID", nodeID c); ("Authorization", "Bearer " +:+ token c)].

(** What is read of a body: [io.ReadAll(io.LimitReader(body, max+1))]. *)
Definition limited_body (body : string) : string :=
  Stdlib.Strings.String.substring 0 (Z.to_nat (maxAgentAPIJSONBodyBytes + 1)) body.

Section Calls.
Context (Parse : string -> result go_error url) (URL_String : url -> string).

Definition ValidateControllerURLWithOptions (baseURL : string) (allowInsecureHTTP : bool) : result url_error () :=
  match Parse (TrimSpace baseURL) with
  | Err _ => Err URLInvalid
  | Ok parsed => parsed_url_check parsed allowInsecureHTTP
  end.
Definition ValidateControllerURL (baseURL : string) : result url_error () :=
  ValidateControllerURLWithOptions baseURL false.

Context (c : Client) (send : api_request -> api_answer).

(** What becomes of an answer; [response] decodes the body of a call that
    wants one. *)
Definition answer_result {A} (method path : string) (response : option (string -> option A)) (answer : api_answer)
  : result api_error (option A) :=
  match answer with
  | ApiFailed => Err TransportFailed
  | ApiAnswer status body =>
      if (status <? 200) || (300 <=? status) then Err (AgentAPIStatusError method path status)
      else
        match response with
        | None => Ok None
        | Some decode =>
            match body with
            | None => Err BodyUnreadable
            | Some body =>
                let responseBody := limited_body body in
                if maxAgentAPIJSONBodyBytes <? str_len responseBody then Err BodyTooLarge
                else match decode responseBody with Some a => Ok (Some a) | None => Err BodyUndecodable end
            end
        end
  end.

(** [request]: no body, or the result of [json.Marshal]. *)
Definition doJSON {A} (method path : string) (request : option (option string)) (response : option (string -> option A))
  : list api_request * result api_error (option A) :=
  if bool_decide (baseURL c = "") || bool_decide (nodeID c = "") || bool_decide (token c = "")
  then ([], Err MissingCredentials)
  else
    match ValidateControllerURLWithOptions (baseURL c) (allowInsecureHTTP c) with
    | Err e => ([], Err (InvalidController e))
    | Ok _ =>
        match request with
        | Some None => ([], Err MarshalFailed)
        | _ =>
            let body := match request with Some b => b | None => None end in
            match Parse (baseURL c +:+ path) with
            | Err _ => ([], Err (InvalidController URLParse))
            | Ok _ =>
                let header := setAuthHeaders c ++
                  match request with Some _ => [("Content-Type", "application/json")] | None => [] end in
                let req := mkApiRequest method (baseURL c +:+ path) header body in
                ([req], answer_result method path response (send req))
            end
        end
    end.

Definition no_response : option (string -> option unit) := None.

Definition PostHeartbeat (status version : string) (ts : Z) : list api_request * result api_error (option unit) :=
  doJSON "POST" "/api/agent/v1/heartbeat" (Some (Some (heartbeat_text (mkHeartbeat (Unix ts) status version)))) no_response.

Definition PostHost (host : HostInfo) : list api_request * result api_error (option unit) :=
  doJSON "POST" "/api/agent/v1/host" (Some (Some (host_text host))) no_response.

Definition PostState (plus_v : StateSample -> string) (state : StateSample)
  : list api_request * result api_error (option unit) :=
  let state := ensureStateSampleIdentifiers plus_v state in
  doJSON "POST" "/api/agent/v1/state" (Some (state_text state)) no_response.

Definition PostProbeResults (rounds : list ProbeRound) : list api_request * result api_error (option unit) :=
  match commonProbeConfigVersion rounds with
  | Err e => ([], Err (BatchVersions e))
  | Ok configVersion =>
      doJSON "POST" "/api/agent/v1/probe-results" (Some (request_text configVersion rounds)) no_response
  end.

(** ** The probe configuration *)
Definition zero_target : ProbeTarget := mkProbeTarget "" "" "" "" None 0 0 0.

Definition target_member (t : ProbeTarget) (key : string) (v : json) : option ProbeTarget :=
  let '(mkProbeTarget id name typ address port count timeout interval) := t in
  if field_is "id" key then s ← decode_string id v; Some (mkProbeTarget s name typ address port count timeout interval)
  else if field_is "name" key then s ← decode_string name v; Some (mkProbeTarget id s typ address port count timeout interval)
  else if field_is "type" key then s ← decode_string typ v; Some (mkProbeTarget id name s address port count timeout interval)
  else if field_is "address" key then s ← decode_string address v; Some (mkProbeTarget id name typ s port count timeout interval)
  else if field_is "port" key then p ← decode_int_ptr port v; Some (mkProbeTarget id name typ address p count timeout interval)
  else if field_is "count" key then z ← decode_int64 count v; Some (mkProbeTarget id name typ address port z timeout interval)
  else if field_is "timeout_ms" key then z ← decode_int64 timeout v; Some (mkProbeTarget id name typ address port count z interval)
  else if field_is "interval_sec" key then z ← decode_int64 interval v; Some (mkProbeTarget id name typ address port count timeout z)
  else Some t.
Definition decode_target : ProbeTarget -> json -> option ProbeTarget := decode_struct target_member.

Definition config_member (r : slice ProbeTarget * Z) (key : string) (v : json) : option (slice ProbeTarget * Z) :=
  if field_is "targets" key then s ← decode_slice decode_target zero_target (fst r) v; Some (s, snd r)
  else if field_is "version" key then z ← decode_int64 (snd r) v; Some (fst r, z)
  else Some r.

Definition unmarshal_config (body : string) : option ProbeTargetsResponse :=
  '(s, version) ← Unmarshal config_member (nil_slice, 0) body;
  Some (mkResponse (slice_elems s) version).

Definition FetchProbeConfig : list api_request * result api_error ProbeTargetsResponse :=
  let '(sent, r) := doJSON "GET" "/api/agent/v1/probe-targets" None (Some unmarshal_config) in
  (sent,
   match r with
   | Err e => Err e
   | Ok (Some response) => Ok (mkResponse (SanitizeProbeTargets (Targets response)) (Version response))
   | Ok None => Ok (mkResponse [] 0)
   end).

Definition FetchProbeTargets : list api_request * result api_error (list ProbeTarget) :=
  let '(sent, r) := FetchProbeConfig in
  (sent, match r with Err e => Err e | Ok response => Ok (Targets response) end).

(** ** The address of the presence connection *)
Definition PresenceWebSocketURL : result url_error string :=
  match ValidateControllerURLWithOptions (baseURL c) (allowInsecureHTTP c) with
  | Err e => Err e
  | Ok _ =>
      match Parse (baseURL c) with
      | Err _ => Err URLParse
      | Ok parsed =>
          let with_scheme scheme :=
            Ok (URL_String (mkURL scheme (Host parsed) (User parsed) "/api/agent/v1/presence/ws" "" "" (Rest parsed))) in
          if bool_decide (Scheme parsed = "http") then with_scheme "ws"
          else if bool_decide (Scheme parsed = "https") then with_scheme "wss"
          else Err URLScheme
      end
  end.
End Calls.

(** ** Accepted controllers *)

(** The host is this machine, or the operator allowed plain HTTP and the URL
    names an IP address with an explicit port. *)
Definition plain_http_host (u : url) (allow : bool) : Prop :=
  let hostname := TrimSuffix (ToLower (GoUrl.Hostname u)) "." in
  hostname = "localhost" \/ (exists a, ParseIP hostname = Some a /\ loopback a) \/
  allow = true /\ (exists a, ParseIP hostname = Some a) /\
    exists p, ParseInt (url_Port u) = Ok p /\ 1 <= p <= 65535.

Record controller_ok (u : url) (allow : bool) : Prop := {
  ok_host : Host u <> "" /\ GoUrl.Hostname u <> "";
  ok_bare : User u = None /\ RawQuery u = "" /\ Fragment u = "";
  ok_scheme : ToLower (Scheme u) = "https" \/ ToLower (Scheme u) = "http" /\ plain_http_host u allow
}.

Lemma valid_explicit_port_spec port : valid_explicit_port port = true <-> exists p, ParseInt port = Ok p /\ 1 <= p <= 65535.
Proof.
  unfold valid_explicit_port. destruct (ParseInt port) as [p|e]; split.
  - intros [H1 H2]%andb_true_iff. exists p. split; [done|lia].
  - intros (q & [= ->] & H). apply andb_true_iff. lia.
  - done.
  - by intros (q & ? & _).
Qed.

Lemma plain_http_spec u allow : let hostname := TrimSuffix (ToLower (GoUrl.Hostname u)) "." in
  plain_http_host u allow <->
  bool_decide (hostname = "localhost") || match ParseIP hostname with Some a => IP_IsLoopback a | None => false end ||
  allow && bool_decide (is_Some (ParseIP hostname)) && valid_explicit_port (url_Port u) = true.
Proof.
  cbv zeta. unfold plain_http_host. set (hostname := TrimSuffix _ _).
  rewrite !orb_true_iff, !andb_true_iff, !bool_decide_eq_true, valid_explicit_port_spec.
  destruct (ParseIP hostname) as [a|]; unfold IP_IsLoopback; rewrite ?loopback_spec; split.
  - intros [H|[(b & [= <-] & Hl)|(Ha & _ & Hp)]]; [by left; left|by left; right|right]. by repeat split.
  - intros [[H|H]|((Ha & _) & Hp)]; [by left|right; left; by exists a|right; right]. split; [done|]. by split; [exists a|].
  - intros [H|[(b & ? & _)|(_ & (b & ?) & _)]]; [by left; left|done|done].
  - intros [[H|H]|((Ha & Hs) & Hp)]; [by left|done|]. by destruct Hs.
Qed.

Lemma parsed_url_check_spec u allow : parsed_url_check u allow = Ok () <-> controller_ok u allow.
Proof.
  unfold parsed_url_check. split.
  - destruct (bool_decide_reflect (Host u = "")) as [|Hh]; [done|].
    destruct (bool_decide_reflect (GoUrl.Hostname u = "")) as [|Hn]; [done|]. cbn [orb].
    destruct (bool_decide_reflect (is_Some (User u))) as [|Hu]; [done|].
    destruct (bool_decide_reflect (RawQuery u = "")) as [Hq|]; [|done].
    destruct (bool_decide_reflect (Fragment u = "")) as [Hf|]; [|done]. cbn [orb negb].
    intros H. split; [by split|split; [|by split]|]. { destruct (User u); [exfalso; apply Hu; eauto|done]. }
    destruct (bool_decide_reflect (ToLower (Scheme u) = "https")) as [|_]; [by left|]. right.
    destruct (bool_decide_reflect (ToLower (Scheme u) = "http")) as [Hs|]; [|done]. split; [done|].
    apply plain_http_spec. revert H.
    destruct (bool_decide _); [done|]. destruct (match ParseIP _ with Some _ => _ | None => _ end); [done|].
    by destruct (_ && _ && _).
  - intros [[Hh Hn] (Hu & Hq & Hf) Hs]. rewrite !(bool_decide_false (_ = "")) by done. cbn [orb].
    rewrite Hu, Hq, Hf. cbn. destruct Hs as [->|[-> Hp]]; [done|]. cbn. apply plain_http_spec in Hp. revert Hp.
    destruct (bool_decide _); [done|]. destruct (match ParseIP _ with Some _ => _ | None => _ end); [done|].
    by destruct (_ && _ && _).
Qed.

Lemma validate_controller_spec Parse base allow : ValidateControllerURLWithOptions Parse base allow = Ok () <->
  exists u, Parse (TrimSpace base) = Ok u /\ controller_ok u allow.
Proof.
  unfold ValidateControllerURLWithOptions. destruct (Parse (TrimSpace base)) as [u|e].
  - rewrite parsed_url_check_spec. split; [by exists u|]. by intros (v & [= ->] & H).
  - split; [done|]. by intros (v & ? & _).
Qed.

Lemma limited_body_all body : str_len body <= maxAgentAPIJSONBodyBytes -> limited_body body = body.
Proof. unfold limited_body, str_len. generalize maxAgentAPIJSONBodyBytes. intros n Hl. apply substring_short. lia. Qed.

(** A request of this client: where it goes, as whom, and that the controller was accepted. *)
Record own_request (Parse : string -> result go_error url) (c : Client) (method path : string)
  (request : option (option string)) (q : api_request) : Prop := {
  own_target : req_Method q = method /\ req_URL q = baseURL c +:+ path;
  own_complete : baseURL c <> "" /\ nodeID c <> "" /\ token c <> "";
  own_accepted : exists u, Parse (TrimSpace (baseURL c)) = Ok u /\ controller_ok u (allowInsecureHTTP c);
  own_header : take 2 (req_Header q) = [("X-Node-ID", nodeID c); ("Authorization", "Bearer " +:+ token c)];
  own_body : forall text, request = Some (Some text) -> req_Body q = Some text
}.

Definition sent_safely {A} Parse c method path request (out : list api_request * result api_error (option A)) : Prop :=
  let '(sent, r) := out in
  (length sent <= 1)%nat /\ (sent = [] -> exists e, r = Err e) /\
  Forall (own_request Parse c method path request) sent.

Lemma nothing_sent {A} Parse c method path request e : sent_safely (A := A) Parse c method path request ([], Err e).
Proof. repeat split; [cbn; lia|by eexists|constructor]. Qed.

Lemma doJSON_safe {A} Parse c send method path request (response : option (string -> option A)) :
  sent_safely Parse c method path request (doJSON Parse c send method path request response).
Proof.
  unfold doJSON. destruct (bool_decide_reflect (baseURL c = "")) as [|Hb]; [apply nothing_sent|].
  destruct (bool_decide_reflect (nodeID c = "")) as [|Hn]; [apply nothing_sent|].
  destruct (bool_decide_reflect (token c = "")) as [|Ht]; [apply nothing_sent|]. cbn [orb].
  destruct (ValidateControllerURLWithOptions Parse (baseURL c) (allowInsecureHTTP c)) as [[]|e] eqn:Ev; [|apply nothing_sent].
  apply validate_controller_spec in Ev.
  destruct request as [[text|]|]; [|apply nothing_sent|];
    (destruct (Parse (baseURL c +:+ path)); [|apply nothing_sent]);
    (split; [cbn; lia|]); (split; [done|]); (constructor; [|constructor]); split; try done; by intros t [= ->].
Qed.

(** A call that succeeds sent one request, which was answered with a 2xx status. *)
Lemma doJSON_ok {A} Parse c send method path request (response : option (string -> option A)) sent a :
  doJSON Parse c send method path request response = (sent, Ok a) ->
  exists q status body, sent = [q] /\ send q = ApiAnswer status body /\ 200 <= status < 300.
Proof.
  unfold doJSON. destruct (_ || _); [done|]. destruct (ValidateControllerURLWithOptions _ _ _); [|done].
  destruct request as [[text|]|]; [|done|]; (destruct (Parse (baseURL c +:+ path)); [|done]);
    intros [= <- Hr]; revert Hr; unfold answer_result;
    (match goal with |- context [send ?x] => destruct (send x) as [|status body] eqn:E end; [done|]);
    (destruct ((status <? 200) || (300 <=? status)) eqn:Es; [done|]); intros _;
    apply orb_false_iff in Es as [E1%Z.ltb_ge E2%Z.leb_gt]; by eexists _, status, body.
Qed.

(** C7. The node's token leaves the agent only in a request to a controller that was accepted: over https, or over plain
    http to this host or, when the operator allowed it, to an IP address with an explicit port; with no credentials,
    query or fragment in the address.  Every call hands at most one request to the transport, addressed at the
    configured base, and without one it fails. *)
Theorem token_goes_to_accepted_controllers {A} Parse c send method path request (response : option (string -> option A)) :
  sent_safely Parse c method path request (doJSON Parse c send method path request response).
Proof. exact (doJSON_safe Parse c send method path request response). Qed.

(** What a call makes of an answer: outside 2xx the status error of that method, path and code, whatever the body; a
    wanted body is read up to one mebibyte and decoded from those bytes alone, and a longer one is refused. *)
Theorem answers_are_bounded {A} method path (decode : string -> option A) status body :
  let r := answer_result method path (Some decode) (ApiAnswer status (Some body)) in
  (status < 200 \/ 300 <= status -> r = Err (AgentAPIStatusError method path status) /\
     forall e, r = Err e -> forall code, IsAgentAPIStatus e code = true <-> code = status) /\
  (200 <= status < 300 -> maxAgentAPIJSONBodyBytes < str_len body -> r = Err BodyTooLarge) /\
  (200 <= status < 300 -> str_len body <= maxAgentAPIJSONBodyBytes ->
     r = match decode body with Some a => Ok (Some a) | None => Err BodyUndecodable end).
Proof.
  cbv zeta. unfold answer_result. split; [|split].
  - intros Hs. assert ((status <? 200) || (300 <=? status) = true) as ->.
    { apply orb_true_iff. rewrite Z.ltb_lt, Z.leb_le. done. }
    split; [done|]. intros e [= <-] code. cbn. rewrite Z.eqb_eq. by split.
  - intros Hs Hl. assert ((status <? 200) || (300 <=? status) = false) as ->.
    { apply orb_false_iff. rewrite Z.ltb_ge, Z.leb_gt. lia. }
    destruct (Z.ltb_spec maxAgentAPIJSONBodyBytes (str_len (limited_body body))) as [|Hle]; [done|].
    exfalso. revert Hl Hle. unfold limited_body, str_len. rewrite substring_length.
    generalize maxAgentAPIJSONBodyBytes. intros n. lia.
  - intros Hs Hl. assert ((status <? 200) || (300 <=? status) = false) as ->.
    { apply orb_false_iff. rewrite Z.ltb_ge, Z.leb_gt. lia. }
    rewrite limited_body_all by done.
    destruct (Z.ltb_spec maxAgentAPIJSONBodyBytes (str_len body)); [lia|done].
Qed.

(** ** The probe configuration on the wire *)

(** The JSON of a response, by the tags of types.go. *)
Definition str_member (key s : string) : string * (string * json) :=
  (key, (json_string s, JStr (quote_fuel (String.length s) s))).
Definition int_member (key : string) (z : Z) : string * (string * json) := (key, (Itoa z, JNum (Itoa z))).

Definition target_members (t : ProbeTarget) : list (string * (string * json)) :=
  [str_member "id" (ID t); str_member "name" (Name t); str_member "type" (Type_ t); str_member "address" (Address t)] ++
  match Port t with Some p => [int_member "port" p] | None => [] end ++
  [int_member "count" (Count t); int_member "timeout_ms" (TimeoutMS t); int_member "interval_sec" (IntervalSec t)].
Definition target_text (t : ProbeTarget) : string := json_object (map member_text (target_members t)).
Definition config_text (r : ProbeTargetsResponse) : string :=
  json_object [json_member "targets" (json_array (map target_text (Targets r)));
               json_member "version" (Itoa (Version r))].

Record target_sendable (t : ProbeTarget) : Prop := {
  ts_texts : Forall (fun s => valid_utf8 s = true) [ID t; Name t; Type_ t; Address t];
  ts_ints : Forall in_i64 (default 0 (Port t) :: [Count t; TimeoutMS t; IntervalSec t])
}.

Lemma target_encodes t k : encodes (target_text t) (JObj (target_members t)) (S k).
Proof.
  apply encodes_object. unfold target_members, str_member, int_member. destruct (Port t) as [p|]; cbn [app];
    repeat (constructor; [by apply member_string || by apply member_int|]); constructor.
Qed.

(** [field_is] on known keys. *)
Ltac known_fields :=
  repeat match goal with |- context [field_is ?a ?b] =>
    let r := eval vm_compute in (field_is a b) in change (field_is a b) with r end; cbv iota.

Lemma target_decodes t : target_sendable t -> decode_target zero_target (JObj (target_members t)) = Some t.
Proof.
  intros [Ht Hi]. destruct t as [id name typ address port count timeout interval].
  cbn [ID Name Type_ Address Port Count TimeoutMS IntervalSec] in Ht, Hi. rewrite !Forall_cons in Ht. rewrite !Forall_cons in Hi. destruct Ht as (H1 & H2 & H3 & H4 & _), Hi as (Hp & H5 & H6 & H7 & _).
  unfold decode_target, decode_struct, target_members, zero_target, str_member, int_member.
  destruct port as [p|]; [change (in_i64 p) in Hp|clear Hp];
    cbn [app ID Name Type_ Address Port Count TimeoutMS IntervalSec decode_fields]; unfold target_member; known_fields;
    repeat (first [rewrite decode_quoted by done|rewrite decode_Itoa by done|
      cbn [decode_int_ptr]; rewrite ParseInt_Itoa by done]; cbn [mbind option_bind]); done.
Qed.

Definition response_sendable (r : ProbeTargetsResponse) : Prop :=
  Forall target_sendable (Targets r) /\ in_i64 (Version r).

Lemma config_decodes r : response_sendable r -> unmarshal_config (config_text r) = Some r.
Proof.
  intros [Ht Hv].
  assert (encodes (json_array (map target_text (Targets r))) (JArr (map (fun t => JObj (target_members t)) (Targets r))) 3) as Ha.
  { apply encodes_array. generalize (Targets r). intros l. induction l as [|t l IH]; constructor; [apply target_encodes|done]. }
  assert (encodes (config_text r) (JObj
    [("targets", (json_array (map target_text (Targets r)), JArr (map (fun t => JObj (target_members t)) (Targets r))));
     ("version", (Itoa (Version r), JNum (Itoa (Version r))))]) 4) as He.
  { apply (encodes_object [(_, (_, _)); (_, (_, _))]).
    constructor; [split; [by apply chunk_safe|exact Ha]|]. constructor; [by apply member_int|constructor]. }
  unfold unmarshal_config, Unmarshal. rewrite (encodes_parse_json _ _ _ He) by (unfold maxNestingDepth; lia).
  assert (Some (Targets r) = decode_elems decode_target zero_target [] (map (fun t => JObj (target_members t)) (Targets r))) as Hts.
  { rewrite decode_elems_fresh. clear -Ht. induction Ht as [|t l Ht _ IH]; [done|]. cbn [map mapM].
    rewrite target_decodes by done. cbn [mbind option_bind]. by rewrite <- IH. }
  assert (exists s, decode_slice decode_target zero_target nil_slice
    (JArr (map (fun t => JObj (target_members t)) (Targets r))) = Some s /\ slice_elems s = Targets r) as (s & Hs & Hel).
  { symmetry in Hts. apply (decode_slice_fresh decode_target zero_target), fmap_Some in Hts as (s & Hs & Hel). by exists s. }
  cbn [mbind option_bind decode_struct decode_fields]. unfold config_member. known_fields. cbn [fst snd].
  rewrite Hs. cbn [mbind option_bind fst snd]. rewrite decode_Itoa by done. cbn [mbind option_bind fst snd].
  rewrite Hel. by destruct r.
Qed.

(** C39. The probe configuration survives the wire.  When a client with an address, a node identifier and a token, whose
    address is accepted, gets a 2xx answer whose body of at most 1 MiB is the JSON of a configuration, it returns
    exactly that configuration's targets, sanitised, and its version; for texts of valid UTF-8 in any script, with any
    characters that need escaping, and for integers of 64 bits. *)
Theorem fetched_configuration_round_trip Parse c send r status :
  response_sendable r -> str_len (config_text r) <= maxAgentAPIJSONBodyBytes -> 200 <= status < 300 ->
  (forall q, send q = ApiAnswer status (Some (config_text r))) ->
  baseURL c <> "" -> nodeID c <> "" -> token c <> "" ->
  ValidateControllerURLWithOptions Parse (baseURL c) (allowInsecureHTTP c) = Ok () ->
  is_ok (Parse (baseURL c +:+ "/api/agent/v1/probe-targets")) = true ->
  snd (FetchProbeConfig Parse c send) = Ok (mkResponse (SanitizeProbeTargets (Targets r)) (Version r)).
Proof.
  intros Hr Hl Hs Hsend Hb Hn Ht Hv Hp. unfold FetchProbeConfig, doJSON.
  rewrite !(bool_decide_false (_ = "")) by done. cbn [orb]. rewrite Hv.
  destruct (Parse (baseURL c +:+ _)); [|done]. rewrite Hsend. cbn [snd].
  unfold answer_result. assert ((status <? 200) || (300 <=? status) = false) as ->.
  { apply orb_false_iff. rewrite Z.ltb_ge, Z.leb_gt. lia. }
  rewrite limited_body_all by done. destruct (Z.ltb_spec maxAgentAPIJSONBodyBytes (str_len (config_text r))); [lia|].
  by rewrite config_decodes.
Qed.

Definition demo_parse (s : string) : result go_error url := Ok (mkURL "https" "c.test" None "" "" "" "").
Definition demo_response : ProbeTargetsResponse :=
  mkResponse [mkProbeTarget "1" ("dns \ 上海 <" +:+ bytes [226; 128; 168; 10; 34]) "tcp" "1.1.1.1" (Some 53) 3 1000 60] 7.
Lemma fetched_configuration_round_trip_witness :
  snd (FetchProbeConfig demo_parse (NewClient "https://c.test" "n" "t")
    (fun _ => ApiAnswer 200 (Some (config_text demo_response)))) =
  Ok (mkResponse (SanitizeProbeTargets (Targets demo_response)) 7).
Proof.
  apply (fetched_configuration_round_trip demo_parse _ _ demo_response 200); try done; try lia.
  split; [|done]. constructor; [|constructor]. split; repeat constructor; done.
Defined.

(** The presence connection goes to the accepted controller: same host, [wss] exactly when the address is https, the
    presence path and no query; provided the configured address has no surrounding space. *)
Theorem presence_address_follows_controller Parse URL_String c : TrimSpace (baseURL c) = baseURL c ->
  match PresenceWebSocketURL Parse URL_String c with
  | Ok s => exists u scheme, Parse (baseURL c) = Ok u /\ controller_ok u (allowInsecureHTTP c) /\
      s = URL_String (mkURL scheme (Host u) None "/api/agent/v1/presence/ws" "" "" (Rest u)) /\
      (Scheme u = "https" /\ scheme = "wss" \/
       Scheme u = "http" /\ scheme = "ws" /\ plain_http_host u (allowInsecureHTTP c))
  | Err e => forall u, Parse (baseURL c) = Ok u -> controller_ok u (allowInsecureHTTP c) ->
      Scheme u <> "http" /\ Scheme u <> "https"
  end.
Proof.
  intros Htrim. unfold PresenceWebSocketURL.
  destruct (ValidateControllerURLWithOptions Parse (baseURL c) (allowInsecureHTTP c)) as [[]|e] eqn:Ev.
  - apply validate_controller_spec in Ev as (u & Hu & Hok). rewrite Htrim in Hu. rewrite Hu.
    destruct (ok_bare u _ Hok) as (HU & _).
    destruct (bool_decide_reflect (Scheme u = "http")) as [Hs|Hs1].
    + exists u, "ws". rewrite HU. split; [done|]. split; [done|]. split; [done|]. right. split; [done|]. split; [done|].
      destruct (ok_scheme u _ Hok) as [H|[_ H]]; [rewrite Hs in H; by vm_compute in H|done].
    + destruct (bool_decide_reflect (Scheme u = "https")) as [Hs|Hs2].
      * exists u, "wss". rewrite HU. do 3 (split; [done|]). by left.
      * intros v [= <-] _. by split.
  - intros u Hu Hok. exfalso. assert (ValidateControllerURLWithOptions Parse (baseURL c) (allowInsecureHTTP c) = Ok ()) as Hv.
    { apply validate_controller_spec. exists u. by rewrite Htrim. }
    congruence.
Qed.
Definition demo_url_string (u : url) : string := Scheme u +:+ "://" +:+ Host u +:+ Path u.
Lemma presence_address_follows_controller_witness :
  let c := NewClient "https://c.test/" "n" "t" in
  TrimSpace (baseURL c) = baseURL c /\
  PresenceWebSocketURL demo_parse demo_url_string c = Ok "wss://c.test/api/agent/v1/presence/ws" /\
  exists u, controller_ok u (allowInsecureHTTP c).
Proof.
  cbv zeta. set (c := NewClient "https://c.test/" "n" "t").
  assert (TrimSpace (baseURL c) = baseURL c) as Htrim by by vm_compute.
  assert (PresenceWebSocketURL demo_parse demo_url_string c = Ok "wss://c.test/api/agent/v1/presence/ws") as He by by vm_compute.
  pose proof (presence_address_follows_controller demo_parse demo_url_string c Htrim) as H. rewrite He in H.
  destruct H as (u & scheme & _ & Hok & _). split; [done|]. split; [done|]. by exists u.
Defined.
