(* ===== verification/PresenceConn.v ===== *)
(** * One presence connection (presence.go, runPresenceOnce)

    From the address to the close: the calls the agent makes on the connection,
    in order, with their deadlines.  The connection itself is the WebSocket
    library's: what its calls return, the control frames its reads meet and the
    messages they deliver are the environment's.  The message loop of
    [Presence] is what remains of it when deadlines and pings are forgotten. *)

From S2P Require Export Presence Client.

Definition presenceReadLimit : Z := Z.shiftl 64 10.
Definition presenceRefreshTimeout : Z := 20 * Second.

(** ** The calls on the connection *)
Inductive conn_call : Type :=
| CDial (url : string) (header : list (string * string))
| CSetReadLimit (n : Z)
| CSetReadDeadline (t : Z)
| CPong (appData : string) (deadline : Z)
| CSetWriteDeadline (t : Z)
| CHandleConfig (requestedVersion : Z) (timeout : Z)
| CWriteJSON (m : PresenceClientMessage) (written : bool)
| CClose.

(** A control frame met during a read: the clock at each use, what the calls
    its handler makes return. *)
Inductive control_frame : Type :=
| PingFrame (appData : string) (now now' : Z) (deadlineSet pongSent : result string ())
| PongFrame (now : Z) (deadlineSet : result string ()).

(** The ping and pong handlers: their calls and the error they return. *)
Definition handle_control (f : control_frame) : list conn_call * option string :=
  match f with
  | PingFrame appData now now' deadlineSet pongSent =>
      let deadline := CSetReadDeadline (time_add now presenceReadTimeout) in
      match deadlineSet with
      | Err e => ([deadline], Some e)
      | Ok _ =>
          ([deadline; CPong appData (time_add now' presenceWriteTimeout)],
           match pongSent with Err e => Some e | Ok _ => None end)
      end
  | PongFrame now deadlineSet =>
      ([CSetReadDeadline (time_add now presenceReadTimeout)], match deadlineSet with Err e => Some e | Ok _ => None end)
  end.

(** The control frames of one read, up to the first error, which the read returns. *)
Fixpoint handle_controls (fs : list control_frame) : list conn_call * option string :=
  match fs with
  | [] => ([], None)
  | f :: fs =>
      match handle_control f with
      | (calls, Some e) => (calls, Some e)
      | (calls, None) => let '(more, r) := handle_controls fs in (calls ++ more, r)
      end
  end.

(** One round of the loop: what [ReadJSON] meets and delivers, what the handler
    answers if it is called, the clock and the results of the write if there is one. *)
Record conn_turn : Type := mkConnTurn {
  ct_controls : list control_frame;
  ct_message : result string PresenceServerMessage;
  ct_answer : result string Z;
  ct_now : Z;
  ct_deadlineSet : result string ();
  ct_written : result string ()
}.

(** [writeJSON] *)
Definition writeJSON (t : conn_turn) (m : PresenceClientMessage) : list conn_call * result string () :=
  let deadline := CSetWriteDeadline (time_add (ct_now t) presenceWriteTimeout) in
  match ct_deadlineSet t with
  | Err e => ([deadline], Err e)
  | Ok _ => ([deadline; CWriteJSON m (match ct_written t with Ok _ => true | Err _ => false end)], ct_written t)
  end.

(** The loop of [runPresenceOnce]; [None]: it waits for a message. *)
Fixpoint presence_turns (has_handler : bool) (ts : list conn_turn) : list conn_call * option string :=
  match ts with
  | [] => ([], None)
  | t :: ts =>
      let '(controls, failed) := handle_controls (ct_controls t) in
      let read := match failed with Some e => Err e | None => ct_message t end in
      match read with
      | Err e => (controls, Some e)
      | Ok m =>
          let go_on (calls : list conn_call) :=
            let '(more, r) := presence_turns has_handler ts in (calls ++ more, r) in
          if bool_decide (smType m = "config_changed") then
            if negb has_handler then go_on controls
            else if smVersion m <? 0 then go_on controls
            else
              let called := controls ++ [CHandleConfig (smVersion m) presenceRefreshTimeout] in
              match ct_answer t with
              | Err _ => go_on called
              | Ok appliedVersion =>
                  if appliedVersion <? smVersion m then go_on called
                  else
                    match writeJSON t (mkClientMessage "config_applied" appliedVersion) with
                    | (calls, Err e) => (called ++ calls, Some e)
                    | (calls, Ok _) => go_on (called ++ calls)
                    end
              end
          else go_on controls
      end
  end.

(** What the dial and the first deadline return. *)
Record conn_start : Type := mkConnStart {
  cs_dialed : result string (); cs_now : Z; cs_deadlineSet : result string ()
}.

Definition url_error_text (e : url_error) : string :=
  match e with
  | URLInvalid | URLParse => "invalid controller url"
  | URLExtra => "controller url must not contain credentials, query, or fragment"
  | URLRemoteHTTP => "remote controller url must use https"
  | URLScheme => "controller url must use http or https"
  end.

(** [context.AfterFunc]: when the context is cancelled, another goroutine closes the
    connection too, among the calls made after the dial or after the last of them:
    [stopCloseOnCancel] does not wait for it.  [Some n]: after [n] of these calls. *)
Definition with_cancel_close (cancelled : option nat) (calls : list conn_call) : list conn_call :=
  match cancelled with None => calls | Some n => take n calls ++ CClose :: drop n calls end.

Section Once.
Context (Parse : string -> result go_error url) (URL_String : url -> string).

(** [runPresenceOnce]: its calls, and its error; [None] while it waits.  What the calls
    after a cancellation return is in the results of [s] and [ts]. *)
Definition runPresenceOnce (c : Client) (has_handler : bool) (s : conn_start) (ts : list conn_turn) (cancelled : option nat)
  : list conn_call * option string :=
  match PresenceWebSocketURL Parse URL_String c with
  | Err e => ([], Some (url_error_text e))
  | Ok presenceURL =>
      let dial := CDial presenceURL (setAuthHeaders c) in
      match cs_dialed s with
      | Err e => ([dial], Some e)
      | Ok _ =>
          let opened := [CSetReadLimit presenceReadLimit; CSetReadDeadline (time_add (cs_now s) presenceReadTimeout)] in
          let closed '(calls, r) :=
            (dial :: with_cancel_close cancelled (opened ++ calls ++ match r with Some _ => [CClose] | None => [] end), r) in
          match cs_deadlineSet s with
          | Err e => closed ([], Some e)
          | Ok _ => closed (presence_turns has_handler ts)
          end
      end
  end.
End Once.

(** ** The message loop behind the connection *)

(** What a round is to the message loop of [Presence]. *)
Definition turn_event (t : conn_turn) : presence_event :=
  match snd (handle_controls (ct_controls t)), ct_message t with
  | Some e, _ | None, Err e => EvReadError e
  | None, Ok m => EvMessage m (ct_answer t)
      (match ct_deadlineSet t with Err e => Err e | Ok _ => ct_written t end)
  end.

Definition acknowledged (calls : list conn_call) : list PresenceClientMessage :=
  omap (fun c => match c with CWriteJSON m true => Some m | _ => None end) calls.

Lemma acknowledged_app a b : acknowledged (a ++ b) = acknowledged a ++ acknowledged b.
Proof. apply omap_app. Qed.

Lemma cancel_close_acks cancelled calls : acknowledged (with_cancel_close cancelled calls) = acknowledged calls.
Proof.
  destruct cancelled as [n|]; [|done]. cbn [with_cancel_close]. rewrite acknowledged_app.
  change (CClose :: drop n calls) with ([CClose] ++ drop n calls). rewrite acknowledged_app.
  change (acknowledged [CClose]) with (@nil PresenceClientMessage). cbn [app]. by rewrite <- acknowledged_app, take_drop.
Qed.

Lemma handle_control_acks f : acknowledged (fst (handle_control f)) = [].
Proof. by destruct f as [appData now now' [] pong|now d]. Qed.

Lemma handle_controls_acks fs : acknowledged (fst (handle_controls fs)) = [].
Proof.
  induction fs as [|f fs IH]; [done|]. cbn [handle_controls]. pose proof (handle_control_acks f) as Hf.
  destruct (handle_control f) as [calls [e|]]; [done|]. destruct (handle_controls fs) as [more r].
  cbn [fst] in *. by rewrite acknowledged_app, Hf, IH.
Qed.

(** The loop acknowledges and returns what the message loop does. *)
Lemma presence_turns_refine h ts :
  (acknowledged (fst (presence_turns h ts)), snd (presence_turns h ts)) = message_loop h (map turn_event ts).
Proof.
  induction ts as [|t ts IH]; [done|]. cbn [presence_turns map]. unfold turn_event at 1.
  pose proof (handle_controls_acks (ct_controls t)) as Hc. destruct (handle_controls (ct_controls t)) as [controls [e|]];
    cbn [fst snd] in *; [by rewrite Hc|].
  destruct (ct_message t) as [m|e]; cbn [message_loop fst snd]; [|by rewrite Hc].
  assert (forall calls, acknowledged calls = [] ->
    let out := let '(more, r) := presence_turns h ts in (calls ++ more, r) in
    (acknowledged (fst out), snd out) = message_loop h (map turn_event ts)) as Hgo.
  { intros calls Hcalls. rewrite <- IH. destruct (presence_turns h ts) as [more r]. cbn [fst snd].
    by rewrite acknowledged_app, Hcalls. }
  case_bool_decide; [|by apply Hgo]. destruct h; cbn [negb]; [|by apply Hgo].
  destruct (smVersion m <? 0); [by apply Hgo|].
  assert (acknowledged (controls ++ [CHandleConfig (smVersion m) presenceRefreshTimeout]) = []) as Hcalled
    by by rewrite acknowledged_app, Hc.
  destruct (ct_answer t) as [v|e]; [|by apply Hgo]. destruct (v <? smVersion m); [by apply Hgo|].
  unfold writeJSON. destruct (ct_deadlineSet t) as [[]|e]; cbn [fst snd]; [|by rewrite acknowledged_app, Hcalled].
  destruct (ct_written t) as [[]|e]; cbn [fst snd]; [|by rewrite acknowledged_app, Hcalled].
  rewrite <- IH. destruct (presence_turns true ts) as [more r]. cbn [fst snd].
  by rewrite acknowledged_app, acknowledged_app, Hcalled.
Qed.

(** ** What goes on before the loop and after it *)
Definition not_close (c : conn_call) : Prop := match c with CClose | CDial _ _ | CSetReadLimit _ => False | _ => True end.

Lemma handle_controls_open fs : Forall not_close (fst (handle_controls fs)).
Proof.
  induction fs as [|f fs IH]; [constructor|]. cbn [handle_controls].
  assert (Forall not_close (fst (handle_control f))) as Hf.
  { destruct f as [appData now now' [u|e] pong|now d]; repeat constructor. }
  destruct (handle_control f) as [calls [e|]]; [done|]. destruct (handle_controls fs) as [more r].
  by apply Forall_app.
Qed.

Lemma presence_turns_open h ts : Forall not_close (fst (presence_turns h ts)).
Proof.
  induction ts as [|t ts IH]; [constructor|]. cbn [presence_turns].
  pose proof (handle_controls_open (ct_controls t)) as Hc. destruct (handle_controls (ct_controls t)) as [controls failed].
  cbn [fst] in Hc. destruct (match failed with Some e => Err e | None => ct_message t end) as [m|e]; [|done].
  assert (forall calls, Forall not_close calls ->
    Forall not_close (fst (let '(more, r) := presence_turns h ts in (calls ++ more, r)))) as Hgo.
  { intros calls Hcalls. destruct (presence_turns h ts) as [more r]. by apply Forall_app. }
  case_bool_decide; [|by apply Hgo]. destruct h; cbn [negb]; [|by apply Hgo].
  destruct (smVersion m <? 0); [by apply Hgo|].
  assert (Forall not_close (controls ++ [CHandleConfig (smVersion m) presenceRefreshTimeout])) as Hcalled
    by (apply Forall_app; split; [done|by repeat constructor]).
  destruct (ct_answer t) as [v|e]; [|by apply Hgo]. destruct (v <? smVersion m); [by apply Hgo|].
  unfold writeJSON. destruct (ct_deadlineSet t) as [[]|e]; cbn [fst];
    [|apply Forall_app; split; [done|by repeat constructor]].
  destruct (ct_written t) as [[]|e]; cbn [fst]; [apply Hgo|]; apply Forall_app; (split; [done|by repeat constructor]).
Qed.

(** The connection is this client's: to its accepted controller, as its node. *)
Definition own_connection (Parse : string -> result go_error url) (URL_String : url -> string) (c : Client) (call : conn_call) : Prop :=
  exists u scheme, Parse (baseURL c) = Ok u /\ controller_ok u (allowInsecureHTTP c) /\
    (Scheme u = "https" /\ scheme = "wss" \/ Scheme u = "http" /\ scheme = "ws" /\ plain_http_host u (allowInsecureHTTP c)) /\
    call = CDial (URL_String (mkURL scheme (Host u) None "/api/agent/v1/presence/ws" "" "" (Rest u)))
      [("X-Node-ID", nodeID c); ("Authorization", "Bearer " +:+ token c)].

(** A call of [runPresenceOnce] on a connection: nothing without an accepted
    address; dialled once, and closed when it returns, after its other calls; a
    cancellation closes it once more, at any time after the dial. *)
Definition connection_shape Parse URL_String c (cancelled : option nat) (calls : list conn_call) (r : option string) : Prop :=
  (calls = [] /\ is_Some r) \/
  exists dial rest, calls = dial :: rest /\ own_connection Parse URL_String c dial /\
    ((rest = [] /\ is_Some r) \/
     exists t middle, Forall not_close middle /\
       rest = with_cancel_close cancelled (CSetReadLimit presenceReadLimit :: CSetReadDeadline t :: middle ++
         match r with Some _ => [CClose] | None => [] end)).

Lemma own_connection_dial Parse URL_String c s : TrimSpace (baseURL c) = baseURL c ->
  PresenceWebSocketURL Parse URL_String c = Ok s -> own_connection Parse URL_String c (CDial s (setAuthHeaders c)).
Proof.
  intros Ht Hs. pose proof (presence_address_follows_controller Parse URL_String c Ht) as H. rewrite Hs in H.
  destruct H as (u & scheme & Hp & Hok & -> & Hsch). by exists u, scheme.
Qed.

Lemma runPresenceOnce_shape Parse URL_String c h s ts cancelled : TrimSpace (baseURL c) = baseURL c ->
  connection_shape Parse URL_String c cancelled (fst (runPresenceOnce Parse URL_String c h s ts cancelled))
    (snd (runPresenceOnce Parse URL_String c h s ts cancelled)).
Proof.
  intros Ht. unfold runPresenceOnce, connection_shape.
  destruct (PresenceWebSocketURL Parse URL_String c) as [addr|e] eqn:Eu; [right|left; by split].
  pose proof (own_connection_dial _ _ _ _ Ht Eu) as Hown.
  destruct (cs_dialed s) as [[]|e]; cbn [fst snd];
    [|exists (CDial addr (setAuthHeaders c)), []; split; [done|]; split; [done|left; by split]].
  pose proof (presence_turns_open h ts) as Ho.
  destruct (cs_deadlineSet s) as [[]|e].
  - destruct (presence_turns h ts) as [calls r]. cbn [fst snd app]. eexists _, _. split; [done|]. split; [done|]. right.
    eexists _, calls. by split.
  - cbn [fst snd app]. eexists _, _. split; [done|]. split; [done|]. right. eexists _, []. by split.
Qed.

Lemma acknowledged_dial u header calls : acknowledged (CDial u header :: calls) = acknowledged calls.
Proof. reflexivity. Qed.

Lemma runPresenceOnce_acks Parse URL_String c h s ts cancelled ack :
  ack ∈ acknowledged (fst (runPresenceOnce Parse URL_String c h s ts cancelled)) -> ack ∈ (message_loop h (map turn_event ts)).1.
Proof.
  unfold runPresenceOnce. destruct (PresenceWebSocketURL Parse URL_String c); [|by intros H%elem_of_nil].
  destruct (cs_dialed s) as [[]|e]; [|by intros H%elem_of_nil].
  pose proof (presence_turns_refine h ts) as Hr. destruct (presence_turns h ts) as [calls r]. cbn [fst snd] in Hr.
  destruct (cs_deadlineSet s) as [[]|e]; cbn [fst]; rewrite acknowledged_dial, cancel_close_acks, !acknowledged_app;
    [|by intros H%elem_of_nil].
  rewrite <- Hr. replace (acknowledged (match r with Some _ => [CClose] | None => [] end)) with (@nil PresenceClientMessage)
    by by destruct r.
  by rewrite app_nil_r.
Qed.

(** C34. A presence connection is sound from the dial to the close.  For a client whose controller address has no
    surrounding space, the token goes in the header of one dial, to the accepted controller, over wss exactly when its
    address is https; when the call returns, the connection has been closed, after everything else the call did with
    it, once if the context is not cancelled and once more, at any moment, if it is; and every acknowledgement written on it, with the target manager as handler, answers a received
    [config_changed], names a version at least as new as the requested one, and one that is installed or superseded. *)
Theorem presence_connection_sound Parse URL_String c start ts cancelled (s : system) (Hr : reachable s) :
  TrimSpace (baseURL c) = baseURL c -> Forall (event_ok (H := manager_handler s Hr)) (map turn_event ts) ->
  let '(calls, r) := runPresenceOnce Parse URL_String c true start ts cancelled in
  connection_shape Parse URL_String c cancelled calls r /\
  Forall (fun ack => cmType ack = "config_applied" /\ (initialized (mgr s) = true /\ cmVersion ack <= version (mgr s)) /\
    exists t m, t ∈ ts /\ ct_message t = Ok m /\ smType m = "config_changed" /\ 0 <= smVersion m <= cmVersion ack)
    (acknowledged calls).
Proof.
  intros Ht Hev. pose proof (runPresenceOnce_shape Parse URL_String c true start ts cancelled Ht) as Hs.
  pose proof (runPresenceOnce_acks Parse URL_String c true start ts cancelled) as Ha.
  destruct (runPresenceOnce _ _ _ _ _ _ _) as [calls r]. cbn [fst snd] in *. split; [done|].
  apply Forall_forall. intros ack Hin. apply Ha in Hin.
  pose proof (message_loop_justified (H := manager_handler s Hr) _ Hev) as Hj. rewrite Forall_forall in Hj.
  destruct (Hj ack Hin) as (Hty & Happ & m & answer & write & Hm & Hc & Hv). split; [done|]. split; [done|].
  apply list_elem_of_fmap in Hm as (t & He & Hint). exists t, m. split; [done|]. split; [|by split].
  revert He. unfold turn_event. destruct (snd (handle_controls (ct_controls t))); [done|].
  destruct (ct_message t); [|done]. by intros [= -> _ _].
Qed.

Definition demo_start : conn_start := mkConnStart (Ok ()) 0 (Ok ()).
Definition demo_turns : list conn_turn :=
  [mkConnTurn [PongFrame 5 (Ok ())] (Ok (mkServerMessage "config_changed" 3)) (Ok 4) 7 (Ok ()) (Ok ());
   mkConnTurn [] (Err "closed") (Ok 0) 0 (Ok ()) (Ok ())].
Lemma presence_connection_sound_witness :
  let c := NewClient "https://c.test/" "n" "t" in
  let '(calls, r) := runPresenceOnce demo_parse demo_url_string c true demo_start demo_turns (Some 3%nat) in
  connection_shape demo_parse demo_url_string c (Some 3%nat) calls r /\
  acknowledged calls = [mkClientMessage "config_applied" 4] /\ last calls = Some CClose.
Proof.
  cbv zeta. set (c := NewClient "https://c.test/" "n" "t").
  assert (TrimSpace (baseURL c) = baseURL c) as Htrim by by vm_compute.
  assert (Forall (event_ok (H := manager_handler example_system example_reachable)) (map turn_event demo_turns)) as Hev.
  { constructor; [exists O, (Ok 4); split; vm_compute; reflexivity|]. by repeat constructor. }
  pose proof (presence_connection_sound demo_parse demo_url_string c demo_start demo_turns (Some 3%nat) example_system
    example_reachable Htrim Hev) as H.
  set (out := runPresenceOnce demo_parse demo_url_string c true demo_start demo_turns (Some 3%nat)) in *.
  assert (acknowledged (fst out) = [mkClientMessage "config_applied" 4] /\ last (fst out) = Some CClose) as Hv
    by by vm_compute.
  destruct out as [calls r]. split; [apply H|exact Hv].
Defined.
