(* ===== verification/UploadRequest.v ===== *)
(** * The upload request (probe_uploader.go, postBody and NewProbeUploader)

    The request an upload makes through the client, and its composition with
    what the uploader makes of the answer. *)

From S2P Require Export Client ProbeUploader.

Definition probeResultsPath : string := "/api/agent/v1/probe-results".

(** [NewProbeUploader]: the options that are absent get their defaults. *)
Record ProbeUploaderOptions : Type := mkUploaderOptions {
  opt_Jitter : option (Z -> Z); opt_PollInterval : Z
}.
Record ProbeUploaderSettings : Type := mkUploaderSettings { set_jitter : Z -> Z; set_pollInterval : Z }.
Definition NewProbeUploader (randomProbeUploadJitter : Z -> Z) (options : ProbeUploaderOptions) : ProbeUploaderSettings :=
  mkUploaderSettings (default randomProbeUploadJitter (opt_Jitter options))
    (if opt_PollInterval options <=? 0 then defaultProbeUploadPolling else opt_PollInterval options).

Section Upload.
Context (Parse : string -> result go_error url).

(** The request of one upload, when everything before [client.http.Do] succeeds.
    [transport]: the client has its [http.Client]. *)
Definition upload_request (c : Client) (transport : bool) (body : string) : option api_request :=
  if bool_decide (baseURL c = "") || bool_decide (nodeID c = "") || bool_decide (token c = "") then None
  else
    match ValidateControllerURLWithOptions Parse (baseURL c) (allowInsecureHTTP c) with
    | Err _ => None
    | Ok _ =>
        match Parse (baseURL c +:+ probeResultsPath) with
        | Err _ => None
        | Ok _ =>
            if negb transport then None
            else Some (mkApiRequest "POST" (baseURL c +:+ probeResultsPath)
                   (setAuthHeaders c ++ [("Content-Type", "application/json")]) (Some body))
        end
    end.

(** The whole of [postBody]: the requests handed to the transport, and the
    report.  No error before the transport wraps a deadline. *)
Definition client_postBody (c : Client) (transport : bool) (send : api_request -> http_result) (body : string)
  : list api_request * post_result :=
  match upload_request c transport body with
  | None => ([], PostFailed false)
  | Some request => ([request], postBody (send request))
  end.

(** The answer [uploadOne] works on. *)
Definition client_answer (c : Client) (transport : bool) (send : api_request -> http_result) (body : string) : http_result :=
  match upload_request c transport body with None => DoFailed false | Some request => send request end.
End Upload.

(** ** What is sent, and what leaves the queue *)
Lemma upload_request_own Parse c transport body q : upload_request Parse c transport body = Some q ->
  own_request Parse c "POST" probeResultsPath (Some (Some body)) q.
Proof.
  unfold upload_request. destruct (bool_decide_reflect (baseURL c = "")) as [|Hb]; [done|].
  destruct (bool_decide_reflect (nodeID c = "")) as [|Hn]; [done|].
  destruct (bool_decide_reflect (token c = "")) as [|Ht]; [done|]. cbn [orb].
  destruct (ValidateControllerURLWithOptions Parse (baseURL c) (allowInsecureHTTP c)) as [[]|e] eqn:Ev; [|done].
  apply validate_controller_spec in Ev. destruct (Parse (baseURL c +:+ probeResultsPath)); [|done].
  destruct transport; cbn [negb]; [|done]. intros [= <-]. split; try done. by intros t [= ->].
Qed.

Lemma postBody_answer Parse c transport send body :
  snd (client_postBody Parse c transport send body) = postBody (client_answer Parse c transport send body).
Proof. unfold client_postBody, client_answer. by destruct (upload_request Parse c transport body). Qed.

(** The batch was sent: a request of this client with exactly the stored bytes,
    to an accepted controller, got the answer that decided it. *)
Definition delivered (Parse : string -> result go_error url) (c : Client) (send : api_request -> http_result) (e : probeSpoolEnvelope)
  (decided : post_result -> Prop) : Prop :=
  exists q, own_request Parse c "POST" probeResultsPath (Some (Some (Batch e))) q /\ req_Body q = Some (Batch e) /\
    decided (postBody (send q)).

(** A batch leaves the queue only by being delivered.  After [uploadOne] through the client, with any answers and a
    crash at any point, a stored batch is still queued, or a request with exactly its bytes and the node's credentials
    went to a controller that was accepted, whose answer was a 2xx status (and the file is gone) or a terminal status
    (and the exact bytes lie in the quarantine): no misconfiguration, invalid address or lost answer drops a batch. *)
Theorem batches_leave_only_when_delivered (s : ProbeSpool) ParseTime jitter id e ctx0 ctx1 now Parse c transport send ctxAfter
  (fs : store) :
  spool_wf s -> MaxItemBytes (limits s) <= MaxQuarantineBytes (limits s) ->
  pendingPathLocked s id = Ok (item_path s id) -> stores s id e fs -> quarantine_within s fs ->
  expired s now e = false -> 0 < now <= maxInt64 - maxProbeUploadBackoff ->
  wp reads_work (uploadOne s ParseTime jitter ctx0 ctx1 now (client_answer Parse c transport send) ctxAfter)
    (fun _ fs' => queued s id e fs' \/
      delivered Parse c send e accepted /\ fs' !! item_path s id = None \/
      exists status code, delivered Parse c send e (fun posted => terminal posted status code) /\
        in_quarantine s id e (reject_reason status code) fs') fs.
Proof.
  intros H1 H2 H3 H4 H5 H6 H7. eapply wp_conseq; [by apply (uploadOne_accounts s ParseTime jitter id e)|].
  intros o fs'. unfold accounted, client_answer. destruct (upload_request Parse c transport (Batch e)) as [q|] eqn:Eq.
  - pose proof (upload_request_own _ _ _ _ _ Eq) as Hq. pose proof (own_body _ _ _ _ _ _ Hq _ eq_refl) as Hb.
    intros [H|[[Ha H]|(status & code & Ht & H)]]; [by left|right; left|right; right].
    + split; [by exists q|done].
    + exists status, code. split; [by exists q|done].
  - intros [H|[[(? & ? & ? & [=] & _) _]|(? & ? & (? & [=] & _) & _)]]. by left.
Qed.
Lemma batches_leave_only_when_delivered_witness :
  wp reads_work (uploadOne demo_spool no_dates full_jitter None None demo_now
      (client_answer demo_parse (NewClient "https://c.test" "n" "t") true (fun _ => Answer 204 "" (Ok ""))) None)
    (fun _ fs' => queued demo_spool demo_id demo_envelope fs' \/
      delivered demo_parse (NewClient "https://c.test" "n" "t") (fun _ => Answer 204 "" (Ok "")) demo_envelope accepted /\
        fs' !! item_path demo_spool demo_id = None \/
      exists status code, delivered demo_parse (NewClient "https://c.test" "n" "t") (fun _ => Answer 204 "" (Ok ""))
          demo_envelope (fun posted => terminal posted status code) /\
        in_quarantine demo_spool demo_id demo_envelope (reject_reason status code) fs') demo_store.
Proof.
  apply (batches_leave_only_when_delivered demo_spool no_dates full_jitter demo_id demo_envelope);
    [apply demo_wf|by vm_compute|apply demo_pending_path|apply demo_stores|apply demo_quarantine_within
    |apply demo_not_expired|by vm_compute].
Defined.
