(* ===== verification/Pipeline.v ===== *)
(** * The pipeline: probe runs, the spool and the uploader together

    main.go starts the probe loop, which enqueues batches, and the uploader's
    [Run] side by side over one spool (runAgent, lines 165 to 270).  The spool's
    mutex makes its exported operations atomic, and nothing else does: between
    the [Next], the request and the [Ack], [ScheduleRetry] or [Quarantine] of an
    [uploadOne], any number of batches may be enqueued, and any clean-up may
    run.  This file models that as a transition system: one step for each
    operation of the spool, one for the request, one for the death of the process
    (which the next start follows), and the passing of time; its theorems hold in
    every reachable state. *)

From S2P Require Export UploadRequest ProbeBacklog.

(** [m], started on the files [fs] with faults in [F], can end with [o] on [fs']. *)
Definition yields {E A : Type} (F : fault -> Prop) (m : M E A) (fs : store) (o : outcome E A) (fs' : store) : Prop :=
  exists w, files w = fs /\ Forall F (faults w) /\ (m w).2 = o /\ files (m w).1 = fs'.

Lemma yields_wp {E A : Type} (F : fault -> Prop) (m : M E A) Q fs o fs' :
  yields F m fs o fs' -> wp F m Q fs -> Q o fs'.
Proof. intros (w & Hw & Hf & <- & <-) Hm. by apply Hm. Qed.

Lemma yields_mono {E A : Type} (F G : fault -> Prop) (m : M E A) fs o fs' :
  (forall f, F f -> G f) -> yields F m fs o fs' -> yields G m fs o fs'.
Proof.
  intros HFG (w & Hw & Hf & H). exists w. split; [done|]. split; [|done].
  eapply Forall_impl; [exact Hf|exact HFG].
Qed.

(** ** States and steps *)

(** Where [uploadOne] is: the process has one uploader, whose mutex holds from
    [Next] to the settlement. *)
Inductive upload_position :=
| Idle
| Picked (item : ProbeSpoolItem) (now : Z)
| Answered (item : ProbeSpoolItem) (now : Z) (posted : post_result).

(** A request that was sent, with the item it was sent for and its answer. *)
Record exchange : Type := mkExchange {
  ex_id : string; ex_request : api_request; ex_answer : http_result
}.

(** The files of the spool, the clock, the uploader; and, to state what happened,
    the batches whose [Enqueue] returned an identifier and the requests sent. *)
Record pipeline : Type := mkPipeline {
  disk : store;
  clock : Z;
  uploader : upload_position;
  enqueued : list (string * probeSpoolEnvelope);
  exchanges : list exchange
}.

Definition holds (u : upload_position) : option ProbeSpoolItem :=
  match u with Idle => None | Picked item _ | Answered item _ _ => Some item end.

(** A process that dies loses the position of its uploader. *)
Definition alive {E A : Type} (o : outcome E A) (u : upload_position) : upload_position :=
  match o with Crashed => Idle | _ => u end.

Definition latest_time : Z := maxInt64 - maxProbeUploadBackoff.

Section System.
Context (s : ProbeSpool) (ParseTime : string -> option Z) (jitter : Z -> Z)
  (Parse : string -> result go_error url) (c : Client) (transport : bool).

(** An identifier that was never drawn before. *)
Definition never_drawn (st : pipeline) (id : string) : Prop :=
  id ∉ (enqueued st).*1 /\ id ∉ map ex_id (exchanges st) /\
  forall item, holds (uploader st) = Some item -> item_ID item <> id.

(** The batch an [Enqueue] accepted, if it did. *)
Definition accept_batch (rounds : list ProbeRound) (now : Z) (o : outcome spool_error string)
  (l : list (string * probeSpoolEnvelope)) : list (string * probeSpoolEnvelope) :=
  match o, marshalProbeResults rounds with
  | Done id, Ok body => (id, enqueue_envelope now body) :: l
  | _, _ => l
  end.

Definition picked (now : Z) (o : outcome spool_error (option ProbeSpoolItem)) : upload_position :=
  match o with Done (Some item) => Picked item now | _ => Idle end.

(** The request of an upload, if one is made, and its answer. *)
Definition exchange_of (item : ProbeSpoolItem) (send : api_request -> http_result) : list exchange :=
  match upload_request Parse c transport (item_Body item) with
  | Some q => [mkExchange (item_ID item) q (send q)]
  | None => []
  end.

Definition crashed {E A : Type} (o : outcome E A) : bool := match o with Crashed => true | _ => false end.

(** The steps of the uploader and of time; the flag says that the process died. *)
Inductive upload_step (F : fault -> Prop) : pipeline -> pipeline -> bool -> Prop :=
| step_next st now o fs' :
    uploader st = Idle -> 0 < now <= clock st -> yields F (Next s now) (disk st) o fs' ->
    upload_step F st (mkPipeline fs' (clock st) (picked now o) (enqueued st) (exchanges st)) (crashed o)
| step_post st item now send :
    uploader st = Picked item now ->
    upload_step F st (mkPipeline (disk st) (clock st)
      (Answered item now (snd (client_postBody Parse c transport send (item_Body item))))
      (enqueued st) (exchange_of item send ++ exchanges st)) false
| step_settle st item now posted ctxAfter o fs' :
    uploader st = Answered item now posted ->
    yields F (settle s ParseTime jitter item now posted ctxAfter) (disk st) o fs' ->
    upload_step F st (mkPipeline fs' (clock st) Idle (enqueued st) (exchanges st)) (crashed o)
| step_die st : (exists n, F (FCrash n)) ->
    upload_step F st (mkPipeline (disk st) (clock st) Idle (enqueued st) (exchanges st)) true
| step_tick st t : clock st <= t <= latest_time ->
    upload_step F st (mkPipeline (disk st) t (uploader st) (enqueued st) (exchanges st)) false.

(** The files and the history after an [Enqueue] that ended with [o] on [fs']. *)
Definition after_enqueue (st : pipeline) (rounds : list ProbeRound) (now : Z) (o : outcome spool_error string)
  (fs' : store) : pipeline :=
  mkPipeline fs' (clock st) (alive o (uploader st)) (accept_batch rounds now o (enqueued st)) (exchanges st).

Inductive step (F : fault -> Prop) : pipeline -> pipeline -> Prop :=
| step_enqueue st rounds now free random o fs' :
    Forall round_wf rounds -> 0 < now <= clock st ->
    (forall bytes, random = Some bytes -> never_drawn st (newID now bytes)) ->
    yields F (Enqueue s rounds now free random) (disk st) o fs' ->
    step F st (after_enqueue st rounds now o fs')
| step_upload st st' died : upload_step F st st' died -> step F st st'.

(** A first start: nothing pending that the agent did not write, nothing sent. *)
Definition initial (st : pipeline) : Prop :=
  backlog s (disk st) /\ quarantine_within s (disk st) /\ 0 < clock st <= latest_time /\
  uploader st = Idle /\ enqueued st = [] /\ exchanges st = [].

Inductive reachable (F : fault -> Prop) : pipeline -> Prop :=
| reach_initial st : initial st -> reachable F st
| reach_step st st' : reachable F st -> step F st st' -> reachable F st'.

Lemma step_mono (F G : fault -> Prop) st st' : (forall f, F f -> G f) -> step F st st' -> step G st st'.
Proof.
  intros HFG. destruct 1 as [st rounds now free random o fs' Hr Hnow Hfresh Hrun|st st' died H].
  { eapply step_enqueue; try done. by eapply yields_mono. }
  destruct H as [st now o fs' Hidle Hnow Hrun|st item now send Hu
    |st item now posted ctxAfter o fs' Hu Hrun|st [n Hn]|st t Ht].
  - eapply step_upload, step_next; try done. by eapply yields_mono.
  - by eapply step_upload, step_post.
  - eapply step_upload, step_settle; try done. by eapply yields_mono.
  - eapply step_upload, step_die. eauto.
  - by eapply step_upload, step_tick.
Qed.

Lemma reachable_mono (F G : fault -> Prop) st : (forall f, F f -> G f) -> reachable F st -> reachable G st.
Proof.
  intros HFG. induction 1; [by apply reach_initial|]. eapply reach_step; [done|]. by eapply step_mono.
Qed.

(** [uploadOne] with no other step in between is [Next], the request and the settlement. *)
Lemma uploadOne_steps now send ctxAfter w :
  uploadOne s ParseTime jitter None None now (client_answer Parse c transport send) ctxAfter w =
    match Next s now w with
    | (w1, Done (Some item)) =>
        match settle s ParseTime jitter item now
          (snd (client_postBody Parse c transport send (item_Body item))) ctxAfter w1 with
        | (w2, Done err) => (w2, Done (true, err))
        | (w2, Fail e) => (w2, Fail e)
        | (w2, Crashed) => (w2, Crashed)
        end
    | (w1, Done None) => (w1, Done (false, None))
    | (w1, Fail e) => (w1, Done (false, Some (ReadSpoolError e)))
    | (w1, Crashed) => (w1, Crashed)
    end.
Proof.
  unfold uploadOne, mbind, M_bind, attempt. destruct (Next s now w) as [w1 [[item|]|e|]]; try done.
  by rewrite postBody_answer.
Qed.
End System.

(** ** What holds in every reachable state, under any faults *)
Section Invariant.
Context (s : ProbeSpool) (ParseTime : string -> option Z) (jitter : Z -> Z)
  (Parse : string -> result go_error url) (c : Client) (transport : bool).
Context (Hwf : spool_wf s)
  (Hroom : 2 * MaxPendingBytes (limits s) + retry_growth * MaxPendingItems (limits s) <= maxInt64).

Notation step := (step s ParseTime jitter Parse c transport).
Notation reachable := (reachable s ParseTime jitter Parse c transport).

Definition picked_at (u : upload_position) : option Z :=
  match u with Idle => None | Picked _ now | Answered _ now _ => Some now end.

Record sound (st : pipeline) : Prop := {
  sound_disk : backlog s (disk st) /\ quarantine_within s (disk st);
  sound_clock : 0 < clock st <= latest_time;
  sound_held : forall item, holds (uploader st) = Some item ->
    id_ok (item_ID item) /\ 0 <= item_Attempt item < two32;
  sound_time : forall now, picked_at (uploader st) = Some now -> 0 < now <= clock st
}.

Lemma latest_time_range : latest_time <= maxInt64.
Proof. by vm_compute. Qed.

Lemma holds_alive {E A : Type} (o : outcome E A) u item : holds (alive o u) = Some item -> holds u = Some item.
Proof. by destruct o. Qed.

Lemma sound_step F st st' : sound st -> step F st st' -> sound st'.
Proof.
  intros [[Hb Hq] Hclock Hheld Htime]. pose proof latest_time_range as Hlatest.
  destruct 1 as [st rounds now free random o fs' Hr Hnow _ Hrun|st st' died H];
    [|destruct H as [st now o fs' Hidle Hnow Hrun|st item now send Hu
    |st item now posted ctxAfter o fs' Hu Hrun|st _|st t Ht]]; simpl in *.
  - split; simpl; [|done| |].
    + eapply (yields_wp _ _ (fun _ fs => backlog s fs /\ quarantine_within s fs)); [exact Hrun|].
      apply keeps_enqueue_spool; try done. lia.
    + intros item Hi%holds_alive. by apply Hheld.
    + intros now' Hn. apply Htime. by destruct o.
  - pose proof (yields_wp _ _ _ _ _ _ Hrun (next_hands_out s Hwf F now _ Hb Hq)) as (Hb' & Hq' & Hitem).
    split; simpl; [done|done| |].
    + intros item Hi. destruct o as [[i|]|e|]; try done. simpl in Hi. injection Hi as ->.
      destruct (Hitem item eq_refl) as (id & e & -> & Hid & (_ & He & _) & _). split; [done|apply He].
    + intros now' Hn. destruct o as [[i|]|e|]; try done. by injection Hn as <-.
  - rewrite Hu in *. by split.
  - rewrite Hu in *. destruct (Hheld item eq_refl) as [_ Hat]. pose proof (Htime now eq_refl) as Hn.
    unfold latest_time in *. split; simpl; [|done..]. split.
    + eapply (yields_wp _ _ (fun _ => backlog s)); [exact Hrun|]. apply keeps_settle_backlog; try done. lia.
    + eapply (yields_wp _ _ (fun _ => quarantine_within s)); [exact Hrun|]. apply keeps_settle_quarantine; try done. lia.
  - by split.
  - split; simpl; [done|lia|done|]. intros now' Hn. specialize (Htime _ Hn). lia.
Qed.

Lemma sound_reachable F st : reachable F st -> sound st.
Proof.
  induction 1 as [st (Hb & Hq & Hc & Hu & _)|st st' _ IH Hstep]; [|by eapply sound_step].
  split; [done|done|by rewrite Hu..].
Qed.

(** ** The fate of a batch when reads do not fail, whatever happens to writes *)
Context (Hevidence : MaxItemBytes (limits s) <= MaxQuarantineBytes (limits s)).

(** A request of this client with exactly the bytes [body]. *)
Definition sent (id body : string) (x : exchange) : Prop :=
  ex_id x = id /\ own_request Parse c "POST" probeResultsPath (Some (Some body)) (ex_request x) /\
  req_Body (ex_request x) = Some body.

(** The batch was sent, and the answer was a 2xx or a terminal status. *)
Definition decided (st : pipeline) (id : string) (e : probeSpoolEnvelope) : Prop :=
  exists x, x ∈ exchanges st /\ sent id (Batch e) x /\
    (accepted (postBody (ex_answer x)) \/ exists status code, terminal (postBody (ex_answer x)) status code).

(** The batch is in the queue; if the uploader holds it, it holds it as stored. *)
Definition in_hand (st : pipeline) (id : string) (e : probeSpoolEnvelope) : Prop :=
  exists e1, stores s id e1 (disk st) /\ Batch e1 = Batch e /\ Created e1 = Created e /\
    forall item, holds (uploader st) = Some item -> item_ID item = id -> item = as_stored id e1.

Definition batch_ok (st : pipeline) (id : string) (e : probeSpoolEnvelope) : Prop :=
  expired s (clock st) e = true \/ decided st id e \/ in_hand st id e.

(** The answer the uploader works on is the answer to a request for its item. *)
Definition answer_ok (st : pipeline) : Prop :=
  forall item now posted, uploader st = Answered item now posted ->
    posted = PostFailed false \/ exists x, x ∈ exchanges st /\ sent (item_ID item) (item_Body item) x /\
      postBody (ex_answer x) = posted.

Record traced (st : pipeline) : Prop := {
  traced_ids : forall id e, (id, e) ∈ enqueued st -> id_ok id /\ batch_ok st id e;
  traced_answer : answer_ok st
}.

Lemma expired_mono now now' e : now' <= now -> expired s now e = false -> expired s now' e = false.
Proof.
  unfold expired, time_sub. intros Hle. rewrite !Z.leb_gt. assert (minInt64 <= maxInt64) by (by vm_compute).
  zcase; lia.
Qed.

Lemma expired_mono_true now now' e : now <= now' -> expired s now e = true -> expired s now' e = true.
Proof.
  intros Hle He. destruct (expired s now' e) eqn:E; [done|]. by rewrite (expired_mono now' now e Hle E) in He.
Qed.

Lemma expired_created now e e1 : Created e1 = Created e -> expired s now e1 = expired s now e.
Proof. unfold expired. by intros ->. Qed.

(** The file of a live batch through the clean-ups of [Enqueue] and [Next]. *)
Lemma stored_live id e now t fs : stores s id e fs -> expired s t e = false -> now <= t ->
  live s now (envelope_text e).
Proof.
  intros (_ & He & Hlen) Hexp Hle. split; [done|]. exists e. split; [by apply envelope_roundtrip|].
  by eapply expired_mono.
Qed.

Lemma stores_file id e fs fs' : fs' !! item_path s id = fs !! item_path s id -> stores s id e fs -> stores s id e fs'.
Proof. intros E (Hl & H). split; [by rewrite E|done]. Qed.

Lemma stores_same id e1 e2 fs : stores s id e1 fs -> stores s id e2 fs -> e1 = e2.
Proof.
  intros (H1 & Hw1 & _) (H2 & Hw2 & _). rewrite H1 in H2.
  assert (envelope_text e1 = envelope_text e2) as E by congruence.
  apply (f_equal parse_envelope) in E. rewrite !envelope_roundtrip in E by done. congruence.
Qed.

Lemma enqueue_stores id e rounds now free random o fs fs' :
  yields reads_work (Enqueue s rounds now free random) fs o fs' -> backlog s fs -> stores s id e fs ->
  live s now (envelope_text e) -> (forall bytes, random = Some bytes -> newID now bytes <> id) -> stores s id e fs'.
Proof.
  intros Hrun Hb Hst Hlive Hfresh. pose proof Hst as (Hl & He & Hlen).
  destruct (yields_wp _ _ _ _ _ _ Hrun (enqueue_room_spec s Hwf reads_work rounds now free random
    (fun fs => backlog s fs /\ fs !! item_path s id = Some (NFile (envelope_text e) 384))
    fs (keeps_conj _ _ _ _ (keeps_cleanup_backlog s Hwf reads_work now)
      (keeps_cleanup_here s Hwf now _ _ _ (item_path_json s id) Hlive))
    (fun fs1 H => backlog_roomy s Hwf Hroom fs1 (proj1 H)) (conj Hb Hl))) as (fs1 & [_ Hl1] & Henq).
  split; [|done]. destruct Henq as [[-> _]|(body & bytes & _ & Hr & _ & _ & _ & Hleft & _)]; [done|].
  rewrite <- Hl1. apply (leftover_others s _ _ _ _ Hleft); [done|apply item_path_json|].
  intros E%item_path_inj. by apply (Hfresh bytes Hr).
Qed.

Lemma next_stores id e now o fs fs' : yields reads_work (Next s now) fs o fs' -> stores s id e fs ->
  live s now (envelope_text e) -> stores s id e fs'.
Proof.
  intros Hrun (Hl & He & Hlen) Hlive. split; [|done].
  exact (yields_wp _ _ _ _ _ _ Hrun (keeps_next_here s Hwf now _ _ _ (item_path_json s id) Hlive fs Hl)).
Qed.

(** The batch an [Enqueue] accepts is stored. *)
Lemma enqueue_accepts id e rounds now free random o fs fs' l :
  yields reads_work (Enqueue s rounds now free random) fs o fs' -> backlog s fs -> Forall round_wf rounds ->
  0 < now <= maxInt64 -> (id, e) ∈ accept_batch rounds now o l ->
  (id, e) ∈ l \/ stores s id e fs' /\ id_ok id /\ o = Done id /\ exists bytes, random = Some bytes /\ id = newID now bytes.
Proof.
  intros Hrun Hb Hr Hnow Hin.
  destruct (yields_wp _ _ _ _ _ _ Hrun (enqueue_room_spec s Hwf reads_work rounds now free random (backlog s)
    fs (keeps_cleanup_backlog s Hwf reads_work now) (backlog_roomy s Hwf Hroom) Hb)) as (fs1 & _ & Henq).
  unfold accept_batch in Hin. destruct o as [id'|err|]; try (by left).
  destruct Henq as [[_ Hno]|(body & bytes & Hm & Hrand & Hlen & _ & _ & _ & Hdone)]; [by destruct (Hno id')|].
  rewrite Hm in Hin. apply elem_of_cons in Hin as [E|Hin]; [|by left]. destruct (Hdone id' eq_refl) as [-> ->].
  simplify_eq. right. split; [|split; [apply id_ok_newID|by eauto]].
  split; [apply lookup_insert_eq|]. split; [by eapply enqueue_envelope_wf|done].
Qed.

Lemma traced_enqueue st rounds now free random o fs' : sound st -> traced st ->
  Forall round_wf rounds -> 0 < now <= clock st ->
  (forall bytes, random = Some bytes -> never_drawn st (newID now bytes)) ->
  yields reads_work (Enqueue s rounds now free random) (disk st) o fs' ->
  traced (mkPipeline fs' (clock st) (alive o (uploader st)) (accept_batch rounds now o (enqueued st)) (exchanges st)).
Proof.
  intros [[Hb Hq] Hclock _ _] [Hids Hans] Hr Hnow Hfresh Hrun. pose proof latest_time_range as Hlatest. split.
  2: { intros item n posted Hu. simpl in Hu. apply (Hans item n posted). by destruct o. }
  intros id e Hin. cbn [enqueued] in Hin.
  eapply enqueue_accepts in Hin as [Hin|(Hst & Hid & -> & bytes & Hrand & ->)]; try done; [| |lia].
  - destruct (Hids id e Hin) as [Hid [Hexp|[Hdec|(e1 & Hst & Hbe & Hce & Hheld)]]].
    { split; [done|]. by left. } { split; [done|]. by right; left. }
    split; [done|]. destruct (expired s (clock st) e) eqn:Hexp; [by left|]. right; right. exists e1. split.
    + eapply enqueue_stores; try done.
      * eapply stored_live; [exact Hst|by rewrite (expired_created _ e e1 Hce)|lia].
      * intros bytes Hrand E. destruct (Hfresh bytes Hrand) as (Hno & _). apply Hno.
        apply list_elem_of_fmap. by exists (id, e).
    + split; [done|]. split; [done|]. intros item Hi%holds_alive. by apply Hheld.
  - split; [done|]. right; right. exists e. split; [done|]. split; [done|]. split; [done|].
    intros item Hi Hne. simpl in Hi. destruct (Hfresh bytes Hrand) as (_ & _ & Hno). by destruct (Hno item Hi).
Qed.

Lemma traced_next st now o fs' : sound st -> traced st -> uploader st = Idle -> 0 < now <= clock st ->
  yields reads_work (Next s now) (disk st) o fs' ->
  traced (mkPipeline fs' (clock st) (picked now o) (enqueued st) (exchanges st)).
Proof.
  intros [[Hb Hq] _ _ _] [Hids Hans] Hidle Hnow Hrun. split.
  2: { intros item n posted Hu. simpl in Hu. by destruct o as [[i|]|e|]. }
  intros id e Hin. destruct (Hids id e Hin) as [Hid [Hexp|[Hdec|(e1 & Hst & Hbe & Hce & _)]]].
  { split; [done|]. by left. } { split; [done|]. by right; left. }
  split; [done|]. destruct (expired s (clock st) e) eqn:Hexp; [by left|]. right; right. exists e1.
  assert (stores s id e1 fs') as Hst'.
  { eapply next_stores; [done|done|]. eapply stored_live; [exact Hst|by rewrite (expired_created _ e e1 Hce)|lia]. }
  split; [done|]. split; [done|]. split; [done|]. intros item Hi Hitem. simpl in Hi.
  destruct o as [[i|]|err|]; try done. simpl in Hi. injection Hi as ->.
  destruct (yields_wp _ _ _ _ _ _ Hrun (next_hands_out s Hwf reads_work now _ Hb Hq)) as (_ & _ & Hout).
  destruct (Hout item eq_refl) as (id2 & e2 & -> & _ & Hst2 & _). simpl in Hitem. subst id2.
  by rewrite (stores_same id e1 e2 fs' Hst' Hst2).
Qed.

Lemma traced_post st item now send : traced st -> uploader st = Picked item now ->
  traced (mkPipeline (disk st) (clock st)
    (Answered item now (snd (client_postBody Parse c transport send (item_Body item))))
    (enqueued st) (exchange_of Parse c transport item send ++ exchanges st)).
Proof.
  intros [Hids Hans] Hu. split.
  - intros id e Hin. destruct (Hids id e Hin) as [Hid Hok]. split; [done|].
    destruct Hok as [Hexp|[(x & Hx & Hdec)|(e1 & Hst & Hbe & Hce & Hheld)]]; [by left| |].
    + right; left. exists x. split; [|done]. apply elem_of_app. by right.
    + right; right. exists e1. split; [done|]. split; [done|]. split; [done|]. intros i Hi. apply Hheld.
      by rewrite Hu.
  - intros i n posted [= <- <- <-]. unfold client_postBody, exchange_of. cbn [exchanges].
    destruct (upload_request Parse c transport (item_Body item)) as [q|] eqn:Eq; [|by left]. right.
    exists (mkExchange (item_ID item) q (send q)). split; [constructor|]. split; [|done]. split; [done|].
    pose proof (upload_request_own _ _ _ _ _ Eq) as Hq. split; [done|].
    exact (own_body _ _ _ _ _ _ Hq _ eq_refl).
Qed.

Lemma settle_stores id e1 item now posted ctxAfter o fs fs' : backlog s fs -> quarantine_within s fs ->
  item_ID item <> id -> yields reads_work (settle s ParseTime jitter item now posted ctxAfter) fs o fs' ->
  stores s id e1 fs -> stores s id e1 fs'.
Proof.
  intros Hb Hq Hne Hrun Hst. eapply stores_file; [|exact Hst].
  apply (yields_wp _ _ _ _ _ _ Hrun (settle_others s ParseTime jitter reads_work Hwf item now posted ctxAfter fs Hq));
    [done|apply item_path_json|]. intros E%item_path_inj. by apply Hne.
Qed.

Lemma traced_settle st item now posted ctxAfter o fs' : sound st -> traced st ->
  uploader st = Answered item now posted ->
  yields reads_work (settle s ParseTime jitter item now posted ctxAfter) (disk st) o fs' ->
  traced (mkPipeline fs' (clock st) Idle (enqueued st) (exchanges st)).
Proof.
  intros [[Hb Hq] Hclock Hheld Htime] [Hids Hans] Hu Hrun. split; [|done].
  rewrite Hu in Htime. pose proof (Htime now eq_refl) as Hnow. unfold latest_time in Hclock.
  intros id e Hin. destruct (Hids id e Hin) as [Hid [Hexp|[Hdec|(e1 & Hst & Hbe & Hce & Hsame)]]].
  { split; [done|]. by left. } { split; [done|]. by right; left. }
  split; [done|]. right. destruct (decide (item_ID item = id)) as [Hitem|Hne].
  2: { right. exists e1. split; [by eapply settle_stores|]. done. }
  rewrite Hu in Hsame. pose proof (Hsame item eq_refl Hitem) as ->.
  assert (forall posted', posted' = posted -> accepted posted' \/ (exists status code, terminal posted' status code) ->
    decided st id e) as Hdec.
  { intros ? -> Hp. destruct (Hans _ _ _ Hu) as [->|(x & Hx & Hs & <-)].
    - by destruct Hp as [(? & ? & ? & [=] & _)|(? & ? & ? & [=] & _)].
    - exists x. split; [done|]. rewrite <- Hbe. split; [exact Hs|done]. }
  pose proof (yields_wp _ _ _ _ _ _ Hrun (settle_spec s ParseTime jitter reads_work Hwf Hevidence id e1 now posted ctxAfter
    (disk st) (id_ok_path s id Hid) Hst Hq ltac:(lia))) as [[(e2 & Hst2 & Hb2 & Hc2)|[[Hacc _]|(status & code & Hterm & _)]] _].
  - right. exists e2. split; [done|]. split; [congruence|]. split; [congruence|]. done.
  - left. eapply Hdec; [done|]. by left.
  - left. eapply Hdec; [done|]. right. by exists status, code.
Qed.

Lemma traced_reachable st : reachable reads_work st -> traced st.
Proof.
  induction 1 as [st (_ & _ & _ & Hu & He & Hx)|st st' Hreach IH Hstep].
  { split; [by rewrite He; intros id e ?%elem_of_nil|]. intros item now posted. by rewrite Hu. }
  pose proof (sound_reachable _ _ Hreach) as Hs.
  destruct Hstep as [st rounds now free random o fs' Hr Hnow Hfresh Hrun|st st' died H];
    [|destruct H as [st now o fs' Hidle Hnow Hrun|st item now send Hu
    |st item now posted ctxAfter o fs' Hu Hrun|st _|st t Ht]].
  - by eapply traced_enqueue.
  - by apply traced_next.
  - by apply traced_post.
  - by eapply traced_settle.
  - destruct IH as [Hids Hans]. split; [|done]. intros id e Hin. destruct (Hids id e Hin) as [Hid Hok].
    split; [done|]. destruct Hok as [Hexp|[Hdec|(e1 & Hst & Hbe & Hce & Hheld)]]; [by left|by right; left|].
    right; right. by exists e1.
  - destruct IH as [Hids Hans]. split; [|done]. intros id e Hin. destruct (Hids id e Hin) as [Hid Hok].
    split; [done|]. destruct Hok as [Hexp|[Hdec|Hhand]]; [left|by right; left|by right; right].
    eapply expired_mono_true; [|exact Hexp]. apply Ht.
Qed.

(** ** How often a batch is accepted when nothing fails *)
Definition is_accepted (posted : post_result) : bool :=
  match posted with Posted status _ _ => (StatusOK <=? status) && (status <? StatusMultipleChoices) | _ => false end.

(** The accepted requests for an item: those whose 2xx answer could be read.  An
    answer whose body cannot be read counts as a failed request, whatever its status. *)
Definition acceptances (id : string) (l : list exchange) : nat :=
  length (filter (fun x => ex_id x = id /\ is_accepted (postBody (ex_answer x)) = true) l).

(** Nothing was sent for an item after a request for it was accepted; [l] has the last request first. *)
Definition accepted_last (id : string) (l : list exchange) : Prop :=
  forall newer x older, l = newer ++ x :: older -> ex_id x = id -> is_accepted (postBody (ex_answer x)) = true ->
    id ∉ map ex_id newer.

(** The item is gone, and the uploader does not hold it. *)
Definition finished (st : pipeline) (id : string) : Prop :=
  disk st !! item_path s id = None /\ forall item, holds (uploader st) = Some item -> item_ID item <> id.

Definition at_most_once (st : pipeline) (id : string) : Prop :=
  acceptances id (exchanges st) = O \/
  acceptances id (exchanges st) = 1%nat /\
    (finished st id \/ exists item now posted, uploader st = Answered item now posted /\ item_ID item = id /\
      is_accepted posted = true).

Lemma gone_tolerant id : tolerant s (fun fs => fs !! item_path s id = None).
Proof.
  split.
  - intros fs p H _. rewrite lookup_delete_None. by right.
  - intros fs name n H. rewrite lookup_insert_ne; [done|]. intros E. apply (wf_dirs s Hwf).
    injection E as E _. done.
Qed.

Lemma next_gone F id now o fs fs' : yields F (Next s now) fs o fs' ->
  fs !! item_path s id = None -> fs' !! item_path s id = None.
Proof. intros Hrun H. exact (yields_wp _ _ _ _ _ _ Hrun (keeps_next s F _ now (gone_tolerant id) fs H)). Qed.

Lemma enqueue_gone F id rounds now free random o fs fs' : yields F (Enqueue s rounds now free random) fs o fs' ->
  backlog s fs -> (forall bytes, random = Some bytes -> newID now bytes <> id) ->
  fs !! item_path s id = None -> fs' !! item_path s id = None.
Proof.
  intros Hrun Hb Hfresh H.
  destruct (yields_wp _ _ _ _ _ _ Hrun (enqueue_room_spec s Hwf F rounds now free random
    (fun fs => backlog s fs /\ fs !! item_path s id = None)
    fs (keeps_conj _ _ _ _ (keeps_cleanup_backlog s Hwf F now) (keeps_cleanup s F _ now (gone_tolerant id)))
    (fun fs1 H => backlog_roomy s Hwf Hroom fs1 (proj1 H)) (conj Hb H))) as (fs1 & [_ Hl1] & Henq).
  destruct Henq as [[-> _]|(body & bytes & _ & Hr & _ & _ & _ & Hleft & _)]; [done|].
  rewrite <- Hl1. apply (leftover_others s _ _ _ _ Hleft); [done|apply item_path_json|].
  intros E%item_path_inj. by apply (Hfresh bytes Hr).
Qed.

(** Without faults an accepted item is removed. *)
Lemma settle_accepted item now posted ctxAfter fs : backlog s fs -> id_ok (item_ID item) -> is_accepted posted = true ->
  wp no_fault (settle s ParseTime jitter item now posted ctxAfter)
    (fun _ fs' => fs' !! item_path s (item_ID item) = None) fs.
Proof.
  intros Hb Hid Hacc. destruct posted as [|status ra code]; [done|]. unfold settle. unfold is_accepted in Hacc.
  rewrite Hacc. apply wp_bind, wp_attempt. unfold Ack. rewrite id_ok_path by done. apply wp_bind, wp_ret, wp_lift_error.
  unfold removeFileAndSync. apply wp_bind, wp_attempt. set (p := item_path s (item_ID item)).
  assert (forall fs1, fs1 !! p = None -> wp no_fault syncDirectory (fun (o : outcome os_error ()) fs' => match o with
    | Done a => wp no_fault (mret (match Ok a with Err e => Some (AckError e) | Ok _ => None end))
        (fun (_ : outcome spool_error (option upload_error)) fs' => fs' !! p = None) fs'
    | Fail e => wp no_fault (mret (match Err (SpoolOS e) : result spool_error () with Err e => Some (AckError e) | Ok _ => None end))
        (fun (_ : outcome spool_error (option upload_error)) fs' => fs' !! p = None) fs'
    | Crashed => fs' !! p = None end) fs1) as Hsync.
  { intros fs1 H1. apply wp_sync; [by apply wp_ret|by intros [n [Hn|Hn]]|by intros [n Hn]]. }
  apply wp_os_call; [|by intros [n [Hn|Hn]]|by intros [n Hn]]. destruct (fs !! p) as [n|] eqn:El; [|by apply Hsync].
  destruct (canonical_item s fs (item_ID item) n (proj1 Hb) El) as [_ [e (Hl & _)]]. fold p in Hl.
  rewrite El in Hl. simplify_eq. apply Hsync. apply lookup_delete_eq.
Qed.

Lemma settle_gone F id item now posted ctxAfter o fs fs' : quarantine_within s fs -> item_ID item <> id ->
  yields F (settle s ParseTime jitter item now posted ctxAfter) fs o fs' ->
  fs !! item_path s id = None -> fs' !! item_path s id = None.
Proof.
  intros Hq Hne Hrun <-.
  apply (yields_wp _ _ _ _ _ _ Hrun (settle_others s ParseTime jitter F Hwf item now posted ctxAfter fs Hq));
    [done|apply item_path_json|]. intros E%item_path_inj. by apply Hne.
Qed.

Lemma acceptances_in id l : acceptances id l <> O -> id ∈ map ex_id l.
Proof.
  unfold acceptances. intros H. destruct (filter _ l) as [|x r] eqn:E; [done|].
  assert (x ∈ filter (fun x => ex_id x = id /\ is_accepted (postBody (ex_answer x)) = true) l) as Hx
    by (rewrite E; constructor).
  apply list_elem_of_filter in Hx as [[<- _] Hx]. by apply list_elem_of_fmap_2.
Qed.

Lemma once_enqueue st rounds now free random o fs' id : sound st -> at_most_once st id ->
  (forall bytes, random = Some bytes -> never_drawn st (newID now bytes)) ->
  yields no_fault (Enqueue s rounds now free random) (disk st) o fs' ->
  at_most_once (mkPipeline fs' (clock st) (alive o (uploader st)) (accept_batch rounds now o (enqueued st)) (exchanges st)) id.
Proof.
  intros [[Hb _] _ _ _] [H0|[H1 Hdone]] Hfresh Hrun; [by left|]. right. split; [done|].
  assert (alive o (uploader st) = uploader st) as Ha.
  { assert (o <> Crashed) as Ho by (by apply (yields_wp _ _ _ _ _ _ Hrun (survives_enqueue s no_fault ltac:(done) _ _ _ _ _))).
    by destruct o. }
  destruct Hdone as [[Hgone Hheld]|Hans]; [left|right; by rewrite Ha]. split; simpl; [|by rewrite Ha].
  eapply enqueue_gone; try done. intros bytes Hrand E. destruct (Hfresh bytes Hrand) as (_ & Hno & _).
  apply Hno. rewrite E. apply acceptances_in. by rewrite H1.
Qed.

Lemma once_next st now o fs' id : sound st -> at_most_once st id -> uploader st = Idle ->
  yields no_fault (Next s now) (disk st) o fs' ->
  at_most_once (mkPipeline fs' (clock st) (picked now o) (enqueued st) (exchanges st)) id.
Proof.
  intros [[Hb Hq] _ _ _] [H0|[H1 Hdone]] Hidle Hrun; [by left|]. right. split; [done|]. left.
  destruct Hdone as [[Hgone _]|(? & ? & ? & Hu & _)]; [|by rewrite Hu in Hidle].
  pose proof (next_gone _ id _ _ _ _ Hrun Hgone) as Hgone'. split; [done|]. simpl. intros item Hi Hid.
  destruct o as [[i|]|err|]; try done. simpl in Hi. injection Hi as ->.
  destruct (yields_wp _ _ _ _ _ _ Hrun (next_hands_out s Hwf no_fault now _ Hb Hq)) as (_ & _ & Hout).
  destruct (Hout item eq_refl) as (id2 & e2 & -> & _ & (Hl & _) & _). simpl in Hid. subst id2.
  by rewrite Hl in Hgone'.
Qed.

Lemma once_post st item now send id : at_most_once st id -> uploader st = Picked item now ->
  at_most_once (mkPipeline (disk st) (clock st)
    (Answered item now (snd (client_postBody Parse c transport send (item_Body item))))
    (enqueued st) (exchange_of Parse c transport item send ++ exchanges st)) id.
Proof.
  intros Honce Hu. unfold client_postBody, exchange_of.
  destruct (upload_request Parse c transport (item_Body item)) as [q|].
  2: { destruct Honce as [H0|[H1 [[Hgone Hheld]|(? & ? & ? & Hu' & _)]]]; [by left| |by rewrite Hu in Hu'].
       right. split; [done|]. left. split; [done|]. simpl. rewrite Hu in Hheld. done. }
  cbn [snd app]. set (x := mkExchange (item_ID item) q (send q)).
  destruct (decide (ex_id x = id /\ is_accepted (postBody (ex_answer x)) = true)) as [[Hid Hacc]|Hno].
  - destruct Honce as [H0|[H1 [[Hgone Hheld]|(? & ? & ? & Hu' & _)]]]; [|exfalso|by rewrite Hu in Hu'].
    + right. unfold acceptances. cbn [exchanges]. rewrite filter_cons, decide_True by done. split.
      * unfold acceptances in H0. rewrite length_cons. by rewrite H0.
      * right. exists item, now, (postBody (send q)). done.
    + rewrite Hu in Hheld. by apply (Hheld item eq_refl).
  - assert (acceptances id (x :: exchanges st) = acceptances id (exchanges st)) as E
      by (unfold acceptances; by rewrite filter_cons, decide_False).
    destruct Honce as [H0|[H1 [[Hgone Hheld]|(? & ? & ? & Hu' & _)]]]; [left; by rewrite <- E in H0| |by rewrite Hu in Hu'].
    right. split; [by rewrite <- E in H1|]. left. split; [done|]. simpl. rewrite Hu in Hheld. done.
Qed.

Lemma once_settle st item now posted ctxAfter o fs' id : sound st -> at_most_once st id ->
  uploader st = Answered item now posted ->
  yields no_fault (settle s ParseTime jitter item now posted ctxAfter) (disk st) o fs' ->
  at_most_once (mkPipeline fs' (clock st) Idle (enqueued st) (exchanges st)) id.
Proof.
  intros [[Hb Hq] _ Hheld _] [H0|[H1 Hdone]] Hu Hrun; [by left|]. right. split; [done|]. left. split; [|done].
  cbn [disk]. rewrite Hu in Hheld. destruct (Hheld item eq_refl) as [Hid _].
  destruct Hdone as [[Hgone Hh]|(item' & now' & posted' & Hu' & Heq & Hacc)].
  - rewrite Hu in Hh. eapply settle_gone; [exact Hq| |exact Hrun|done]. by apply Hh.
  - rewrite Hu in Hu'. simplify_eq. by apply (yields_wp _ _ _ _ _ _ Hrun (settle_accepted _ _ _ _ _ Hb Hid Hacc)).
Qed.

Lemma once_reachable st id : reachable no_fault st -> at_most_once st id.
Proof.
  induction 1 as [st (_ & _ & _ & _ & _ & Hx)|st st' Hreach IH Hstep]; [left; by rewrite Hx|].
  pose proof (sound_reachable _ _ Hreach) as Hs.
  destruct Hstep as [st rounds now free random o fs' Hr Hnow Hfresh Hrun|st st' died H];
    [|destruct H as [st now o fs' Hidle Hnow Hrun|st item now send Hu
    |st item now posted ctxAfter o fs' Hu Hrun|st [n Hn]|st t Ht]].
  - by eapply once_enqueue.
  - by apply once_next.
  - by apply once_post.
  - by eapply once_settle.
  - done.
  - destruct IH as [H0|[H1 Hd]]; [by left|by right].
Qed.

Lemma acceptances_some id l x : x ∈ l -> ex_id x = id -> is_accepted (postBody (ex_answer x)) = true ->
  acceptances id l <> O.
Proof.
  intros Hx Hid Hacc H0. unfold acceptances in H0. apply nil_length_inv in H0.
  assert (x ∈ filter (fun x => ex_id x = id /\ is_accepted (postBody (ex_answer x)) = true) l) as Hin
    by (by apply list_elem_of_filter).
  rewrite H0 in Hin. by apply elem_of_nil in Hin.
Qed.

Lemma accepted_last_post st item now send id : at_most_once st id -> uploader st = Picked item now ->
  accepted_last id (exchanges st) -> accepted_last id (exchange_of Parse c transport item send ++ exchanges st).
Proof.
  intros Honce Hu Hlast. unfold exchange_of. destruct (upload_request Parse c transport (item_Body item)) as [q|]; [|done].
  intros [|y newer] x older E Hid Hacc; [by intros ?%elem_of_nil|]. cbn [app] in E. injection E as <- E.
  cbn [map]. rewrite elem_of_cons. intros [Hsame|Hin]; [|by apply (Hlast newer x older E Hid Hacc)].
  cbn [ex_id] in Hsame.
  assert (acceptances id (exchanges st) <> O) as Hsome.
  { eapply acceptances_some; [|exact Hid|exact Hacc]. rewrite E. apply elem_of_app. right. constructor. }
  destruct Honce as [H0|[_ [[_ Hheld]|(? & ? & ? & Hu' & _)]]]; [done| |by rewrite Hu in Hu'].
  rewrite Hu in Hheld. by apply (Hheld item eq_refl).
Qed.

Lemma last_reachable st id : reachable no_fault st -> accepted_last id (exchanges st).
Proof.
  induction 1 as [st (_ & _ & _ & _ & _ & Hx)|st st' Hreach IH Hstep].
  { rewrite Hx. by intros [|] x older E. }
  destruct Hstep as [st rounds now free random o fs' Hr Hnow Hfresh Hrun|st st' died H]; [done|].
  destruct H as [st now o fs' Hidle Hnow Hrun|st item now send Hu
    |st item now posted ctxAfter o fs' Hu Hrun|st [n Hn]|st t Ht]; try done.
  apply (accepted_last_post st item now); [by apply once_reachable|done|done].
Qed.
End Invariant.

(** ** A Controller that accepts drains the queue *)
Section Drain.
Context (s : ProbeSpool) (ParseTime : string -> option Z) (jitter : Z -> Z) (Hwf : spool_wf s).

(** Only items that are due and not expired at [now] are pending. *)
Definition all_due (now : Z) (fs : store) : Prop :=
  forall name n, fs !! (pendingDir s, name) = Some n ->
    exists id e, name = id +:+ ".json" /\ id_ok id /\ stores s id e fs /\ expired s now e = false /\ NextAt e <= now.

Lemma all_due_read now fs name n Q : all_due now fs -> fs !! (pendingDir s, name) = Some n ->
  (forall id e, name = id +:+ ".json" -> id_ok id -> stores s id e fs -> expired s now e = false -> NextAt e <= now ->
    Q (Done e) fs) -> wp no_fault (readEnvelopeLocked s (pendingDir s, name)) Q fs.
Proof.
  intros Hall Hn HQ. destruct (Hall name n Hn) as (id & e & -> & Hid & Hst & Hexp & Hdue).
  eapply (read_stored s no_fault id); [exact Hst|by eapply HQ|by intros [k Hk]..].
Qed.

Lemma all_due_item now fs name n : all_due now fs -> fs !! (pendingDir s, name) = Some n -> is_item (name, n) = true.
Proof.
  intros Hall Hn. destruct (Hall name n Hn) as (id & e & -> & _ & (Hl & _) & _). unfold item_path in Hl.
  rewrite Hl in Hn. simplify_eq. apply (item_path_json s id).
Qed.

Lemma cleanup_all_due now fs : all_due now fs ->
  wp no_fault (cleanupPendingLocked s now) (fun o fs' => o = Done () /\ fs' = fs) fs.
Proof.
  intros Hall. unfold cleanupPendingLocked. apply wp_bind, wp_lift_error, wp_ReadDir; [|by intros [k Hk]..].
  assert (forall x, x ∈ dir_entries fs (pendingDir s) -> fs !! (pendingDir s, x.1) = Some x.2) as Hin.
  { intros [x n]. by rewrite elem_of_dir_entries. }
  induction (dir_entries fs (pendingDir s)) as [|[name n] entries IH]; [by apply wp_ret|].
  cbn [cleanup_loop]. pose proof (Hin (name, n) ltac:(constructor)) as Hn. cbn [fst snd] in Hn.
  apply wp_bind. unfold cleanup_entry. cbn [fst]. rewrite (all_due_item now fs name n) by done.
  apply wp_bind, wp_attempt. eapply all_due_read; [done|exact Hn|]. intros id e _ _ _ -> _.
  apply wp_ret. apply IH. intros x Hx. apply Hin. by constructor.
Qed.

Lemma next_all_due now fs : all_due now fs ->
  wp no_fault (Next s now) (fun o fs' => fs' = fs /\ (o = Done None /\ pending_items s fs = [] \/
    exists id e, o = Done (Some (as_stored id e)) /\ id_ok id /\ stores s id e fs)) fs.
Proof.
  intros Hall. unfold Next. apply wp_bind. eapply wp_conseq; [by apply cleanup_all_due|]. intros o fs1 [-> ->].
  apply wp_bind, wp_lift_error, wp_ReadDir; [|by intros [k Hk]..]. unfold pending_items.
  destruct (dir_entries fs (pendingDir s)) as [|[name n] entries] eqn:Ed; [apply wp_ret; split; [done|by left]|].
  assert (fs !! (pendingDir s, name) = Some n) as Hn by (apply elem_of_dir_entries; rewrite Ed; constructor).
  cbn [next_loop fst]. rewrite (all_due_item now fs name n) by done.
  apply wp_bind, wp_attempt. eapply all_due_read; [done|exact Hn|]. intros id e -> Hid Hst Hexp Hdue.
  rewrite Hexp. destruct (Z.ltb_spec now (NextAt e)); [lia|]. apply wp_ret. split; [done|]. right.
  exists id, e. by rewrite TrimSuffix_app.
Qed.

Lemma settle_delivers id e now posted ctxAfter fs : id_ok id -> stores s id e fs -> is_accepted posted = true ->
  wp no_fault (settle s ParseTime jitter (as_stored id e) now posted ctxAfter)
    (fun o fs' => o = Done None /\ fs' = delete (item_path s id) fs) fs.
Proof.
  intros Hid (Hl & _) Hacc. destruct posted as [|status ra code]; [done|]. unfold settle. unfold is_accepted in Hacc.
  rewrite Hacc. apply wp_bind, wp_attempt. unfold Ack. cbn [item_ID as_stored]. rewrite id_ok_path by done.
  apply wp_bind, wp_ret, wp_lift_error. unfold removeFileAndSync.
  apply wp_bind, wp_attempt, wp_os_call; [|by intros [k [Hk|Hk]]|by intros [k Hk]]. rewrite Hl.
  apply wp_sync; [by apply wp_ret|by intros [k [Hk|Hk]]|by intros [k Hk]].
Qed.

Lemma all_due_delete now fs id : all_due now fs -> all_due now (delete (item_path s id) fs).
Proof.
  intros Hall name n [Hne Hn]%lookup_delete_Some. destruct (Hall name n Hn) as (id' & e & -> & Hid & (Hl & H) & Hr).
  exists id', e. split; [done|]. split; [done|]. split; [|done]. split; [|done]. by rewrite lookup_delete_ne.
Qed.

(** A turn with a live context and a Controller that accepts what it gets. *)
Definition accepting (t : turn) : Prop :=
  t_ctx0 t = None /\ t_ctx1 t = None /\ t_ctxAfter t = None /\
  (forall body, is_accepted (postBody (t_answer t body)) = true) /\ (forall e, t_wake t <> WakeCancelled e).

(** One turn delivers one item, or finds none. *)
Lemma upload_all_due t fs : accepting t -> all_due (t_now t) fs ->
  wp no_fault (uploadOne s ParseTime jitter (t_ctx0 t) (t_ctx1 t) (t_now t) (t_answer t) (t_ctxPost t))
    (fun o fs' => o = Done (false, None) /\ fs' = fs /\ pending_items s fs = [] \/
      o = Done (true, None) /\ exists id e, stores s id e fs /\ fs' = delete (item_path s id) fs) fs.
Proof.
  intros (-> & -> & _ & Hacc & _) Hall. unfold uploadOne. apply wp_bind, wp_attempt.
  eapply wp_conseq; [by apply next_all_due|].
  intros o fs1 [-> [[-> Hnone]|(id & e & -> & Hid & Hst)]]; [apply wp_ret; by left|].
  apply wp_bind. eapply wp_conseq; [by apply settle_delivers|].
  intros o fs2 [-> ->]. apply wp_ret. right. split; [done|]. by exists id, e.
Qed.

Lemma run_drains turns : forall fs, Forall accepting turns -> Forall (fun t => all_due (t_now t) fs) turns ->
  pending_count s fs <= Z.of_nat (length turns) ->
  wp no_fault (Run s ParseTime jitter turns) (fun o fs' => o = Done (None, []) /\ pending_items s fs' = []) fs.
Proof.
  induction turns as [|t turns IH]; intros fs Hacc Hdue Hcount.
  { apply wp_ret. split; [done|]. unfold pending_count in Hcount. simpl in Hcount.
    destruct (pending_items s fs); [done|]. simpl in Hcount. lia. }
  apply Forall_cons in Hacc as [Ht Hacc]. apply Forall_cons in Hdue as [Hd Hdue].
  assert (forall fs1, Forall (fun t => all_due (t_now t) fs1) turns -> pending_count s fs1 <= Z.of_nat (length turns) ->
    wp no_fault ('(res, l) ← Run s ParseTime jitter turns; mret (res, add_rejected None l))
      (fun o fs' => o = Done (None, []) /\ pending_items s fs' = []) fs1) as Hrest.
  { intros fs1 H1 H2. apply wp_bind. eapply wp_conseq; [by apply IH|]. intros o fs2 [-> H]. by apply wp_ret. }
  cbn [Run]. apply wp_bind. eapply wp_conseq; [by apply upload_all_due|].
  destruct Ht as (_ & _ & Hctx & _ & Hwake).
  intros o fs1 [(-> & -> & Hnone)|(-> & id & e & Hst & ->)]; rewrite Hctx; cbn [decide_turn].
  - assert (pending_count s fs <= Z.of_nat (length turns)) as Hc by (unfold pending_count; rewrite Hnone; simpl; lia).
    destruct (t_wake t) as [c| |] eqn:Ew; [by destruct (Hwake c)| |by apply Hrest].
    apply wp_bind. intros w <- Hf. split; [exact Hf|]. by apply Hrest.
  - apply Hrest.
    + eapply Forall_impl; [exact Hdue|]. intros t' H. by apply all_due_delete.
    + pose proof (submseteq_length _ _ (pending_items_take s fs id e Hst)) as Hl. rewrite length_cons in Hl.
      unfold pending_count in *. simpl length in Hcount. lia.
Qed.
End Drain.

(** ** Properties *)

(** C2. The pipeline loses no batch as long as the spool can be read.  In every state that probe runs, an uploader,
    crashes and restarts can reach, in any interleaving, with any answers of the Controller and with any errors of the
    operations that write (creating, writing, flushing, renaming and removing files; only operations that read must not
    fail): a batch whose [Enqueue] returned an identifier and that has not expired is still queued under it, or a request
    with exactly its bytes and the node's credentials was sent to an accepted controller and answered with a 2xx or a
    terminal status.  Assumed: an identifier drawn by [Enqueue] (time and 16 random bytes) was not in use before; the
    queue holds only the agent's own files at the first start; and the limits leave room (twice the pending bytes and
    the retry metadata fit an int64, and an item fits the quarantine), as the defaults do. *)
Theorem pipeline_loses_no_batch (s : ProbeSpool) ParseTime jitter Parse c transport st id e :
  spool_wf s -> 2 * MaxPendingBytes (limits s) + retry_growth * MaxPendingItems (limits s) <= maxInt64 ->
  MaxItemBytes (limits s) <= MaxQuarantineBytes (limits s) ->
  reachable s ParseTime jitter Parse c transport reads_work st ->
  (id, e) ∈ enqueued st -> expired s (clock st) e = false ->
  queued s id e (disk st) \/
  exists x, x ∈ exchanges st /\ ex_id x = id /\
    own_request Parse c "POST" probeResultsPath (Some (Some (Batch e))) (ex_request x) /\
    req_Body (ex_request x) = Some (Batch e) /\
    (accepted (postBody (ex_answer x)) \/ exists status code, terminal (postBody (ex_answer x)) status code).
Proof.
  intros Hwf Hroom Hev Hreach Hin Hexp.
  destruct (traced_reachable s ParseTime jitter Parse c transport Hwf Hroom Hev st Hreach) as [Hids _].
  destruct (Hids id e Hin) as [_ [H|[(x & Hx & (? & ? & ?) & Hdec)|(e1 & Hst & Hbe & Hce & _)]]].
  - by rewrite Hexp in H.
  - right. by exists x.
  - left. by exists e1.
Qed.

(** C5. The spool stays bounded over its whole life.  In every state reachable under any I/O errors
    and crashes, at most [MaxPendingItems] batches and [MaxPendingBytes] bytes, plus 27 bytes for the
    retry metadata of each batch, are pending, and the quarantine is within its own bounds. *)
Theorem backlog_bounded_always (s : ProbeSpool) ParseTime jitter Parse c transport st :
  spool_wf s -> 2 * MaxPendingBytes (limits s) + retry_growth * MaxPendingItems (limits s) <= maxInt64 ->
  reachable s ParseTime jitter Parse c transport any_fault st ->
  pending_count s (disk st) <= MaxPendingItems (limits s) /\
  pending_bytes s (disk st) <= MaxPendingBytes (limits s) + retry_growth * pending_count s (disk st) /\
  quarantine_within s (disk st).
Proof.
  intros Hwf Hroom Hreach.
  destruct (sound_reachable s ParseTime jitter Parse c transport Hwf Hroom _ st Hreach) as [[(Hc & H1 & H2) Hq] _ _ _].
  pose proof (base_bytes_le s _ Hc). split; [done|]. split; [lia|done].
Qed.

(** C3. An accepted batch is never sent again unless something fails.  In every state reachable without I/O errors and
    crashes, and with identifiers that were not in use before: once a request for a batch was answered with a 2xx status
    whose body could be read, no request for that batch is sent any more, so at most one such answer is ever received for
    it.  A 2xx answer whose body cannot be read is a failed request to the uploader and does not count: the batch is sent
    again. *)
Theorem accepted_at_most_once (s : ProbeSpool) ParseTime jitter Parse c transport st id :
  spool_wf s -> 2 * MaxPendingBytes (limits s) + retry_growth * MaxPendingItems (limits s) <= maxInt64 ->
  reachable s ParseTime jitter Parse c transport no_fault st ->
  accepted_last id (exchanges st) /\ (acceptances id (exchanges st) <= 1)%nat.
Proof.
  intros Hwf Hroom Hreach. split; [by eapply last_reachable|].
  destruct (once_reachable s ParseTime jitter Parse c transport Hwf Hroom st id Hreach) as [->|[-> _]]; lia.
Qed.

(** C4. A Controller that accepts drains the queue.  When no I/O operation fails and the process does not die, every
    pending batch is due and not expired, the context stays live and the Controller answers each request with a 2xx
    status and a body that can be read, [Run] empties the queue within as many turns as there are batches, reports no
    error and calls [OnRejected] never. *)
Theorem queue_drains (s : ProbeSpool) ParseTime jitter turns (fs : store) :
  Forall accepting turns -> Forall (fun t => all_due s (t_now t) fs) turns ->
  pending_count s fs <= Z.of_nat (length turns) ->
  wp no_fault (Run s ParseTime jitter turns) (fun o fs' => o = Done (None, []) /\ pending_items s fs' = []) fs.
Proof. apply run_drains. Qed.

(** ** Witnesses *)
Definition demo_client : Client := NewClient "https://c.test" "n" "t".
Definition demo_accepts (q : api_request) : http_result := Answer 204 "" (Ok "").
Definition demo_enqueue := Enqueue demo_spool [demo_round] demo_now (Ok 1000000000) (Some demo_random).
Definition demo_world (fs : store) : world := mkWorld fs [] ["1"] false.
Definition demo_item : ProbeSpoolItem := as_stored demo_id demo_envelope.
Definition demo_posted : post_result :=
  snd (client_postBody demo_parse demo_client true demo_accepts (item_Body demo_item)).

(** Accepted by the spool, picked, answered with 204, removed. *)
Definition demo_settle := settle demo_spool no_dates full_jitter demo_item demo_now demo_posted None.
Definition demo_st0 : pipeline := mkPipeline ∅ demo_now Idle [] [].
Definition demo_st1 : pipeline := mkPipeline (files (demo_enqueue (demo_world ∅)).1) demo_now Idle [(demo_id, demo_envelope)] [].
Definition demo_st2 : pipeline := mkPipeline (files (Next demo_spool demo_now (demo_world (disk demo_st1))).1) demo_now
  (Picked demo_item demo_now) [(demo_id, demo_envelope)] [].
Definition demo_st3 : pipeline := mkPipeline (disk demo_st2) demo_now (Answered demo_item demo_now demo_posted)
  [(demo_id, demo_envelope)] (exchange_of demo_parse demo_client true demo_item demo_accepts ++ []).
Definition demo_st4 : pipeline := mkPipeline (files (demo_settle (demo_world (disk demo_st3))).1) demo_now Idle
  [(demo_id, demo_envelope)] (exchanges demo_st3).

Lemma yields_intro {E A : Type} F (m : M E A) w : Forall F (faults w) -> yields F m (files w) (m w).2 (files (m w).1).
Proof. intros H. by exists w. Qed.

(** The steps of an undisturbed run, from what the operations return. *)
Section Undisturbed.
Context (s : ProbeSpool) (ParseTime : string -> option Z) (jitter : Z -> Z)
  (Parse : string -> result go_error url) (c : Client) (transport : bool) (F : fault -> Prop).
Notation step := (step s ParseTime jitter Parse c transport F).

Lemma enqueue_done st rounds now free random id body w : Forall F (faults w) -> files w = disk st ->
  Forall round_wf rounds -> 0 < now <= clock st -> (forall bytes, random = Some bytes -> never_drawn st (newID now bytes)) ->
  (Enqueue s rounds now free random w).2 = Done id -> marshalProbeResults rounds = Ok body ->
  step st (mkPipeline (files (Enqueue s rounds now free random w).1) (clock st) (uploader st)
    ((id, enqueue_envelope now body) :: enqueued st) (exchanges st)).
Proof.
  intros Hf Hw Hr Hnow Hfresh Ho Hm.
  assert (accept_batch rounds now (Done id) (enqueued st) = (id, enqueue_envelope now body) :: enqueued st) as <-
    by (unfold accept_batch; by rewrite Hm).
  apply (step_enqueue s ParseTime jitter Parse c transport F st rounds now free random (Done id)); try done.
  exists w. by rewrite Hw.
Qed.

Lemma next_done st now item w : Forall F (faults w) -> files w = disk st -> uploader st = Idle -> 0 < now <= clock st ->
  (Next s now w).2 = Done (Some item) ->
  step st (mkPipeline (files (Next s now w).1) (clock st) (Picked item now) (enqueued st) (exchanges st)).
Proof.
  intros Hf Hw Hidle Hnow Ho.
  apply (step_upload s ParseTime jitter Parse c transport F st _ false).
  apply (step_next s ParseTime jitter Parse c transport F st now (Done (Some item))); try done.
  exists w. by rewrite Hw.
Qed.

Lemma settle_done st item now posted ctxAfter w : Forall F (faults w) -> files w = disk st ->
  uploader st = Answered item now posted ->
  step st (mkPipeline (files (settle s ParseTime jitter item now posted ctxAfter w).1) (clock st) Idle
    (enqueued st) (exchanges st)).
Proof.
  intros Hf Hw Hu.
  eapply step_upload.
  apply (step_settle s ParseTime jitter Parse c transport F st item now posted ctxAfter
    (settle s ParseTime jitter item now posted ctxAfter w).2); [done|]. exists w. by rewrite Hw.
Qed.
End Undisturbed.

Lemma demo_initial : initial demo_spool demo_st0.
Proof.
  split; [split; [intros name n Hn; done|by vm_compute]|]. split; [by vm_compute|]. split; [by vm_compute|done].
Qed.

Lemma demo_fresh bytes : never_drawn demo_st0 (newID demo_now bytes).
Proof. split; [by intros ?%elem_of_nil|]. split; [by intros ?%elem_of_nil|done]. Qed.

Lemma demo_enqueued : (demo_enqueue (demo_world ∅)).2 = Done demo_id.
Proof. by vm_compute. Qed.
Lemma demo_picked : (Next demo_spool demo_now (demo_world (disk demo_st1))).2 = Done (Some demo_item).
Proof. by vm_compute. Qed.

Lemma demo_steps F : reachable demo_spool no_dates full_jitter demo_parse demo_client true F demo_st1 /\
  reachable demo_spool no_dates full_jitter demo_parse demo_client true F demo_st4.
Proof.
  assert (reachable demo_spool no_dates full_jitter demo_parse demo_client true F demo_st1) as H1.
  { apply (reach_step _ _ _ _ _ _ _ demo_st0); [apply reach_initial, demo_initial|].
    change demo_st1 with (mkPipeline (files (Enqueue demo_spool [demo_round] demo_now (Ok 1000000000) (Some demo_random)
      (demo_world ∅)).1) (clock demo_st0) (uploader demo_st0)
      ((demo_id, enqueue_envelope demo_now demo_body) :: enqueued demo_st0) (exchanges demo_st0)).
    apply (enqueue_done demo_spool no_dates full_jitter demo_parse demo_client true F demo_st0 [demo_round] demo_now
      (Ok 1000000000) (Some demo_random) demo_id demo_body (demo_world ∅));
      [constructor|done|apply demo_rounds|by vm_compute|intros bytes _; apply demo_fresh|apply demo_enqueued
      |apply demo_marshal]. }
  split; [done|]. apply (reach_step _ _ _ _ _ _ _ demo_st3).
  - apply (reach_step _ _ _ _ _ _ _ demo_st2); [apply (reach_step _ _ _ _ _ _ _ demo_st1); [done|]|].
    + apply (next_done demo_spool no_dates full_jitter demo_parse demo_client true F demo_st1 demo_now demo_item
        (demo_world (disk demo_st1))); [constructor|done|done|by vm_compute|apply demo_picked].
    + eapply step_upload. apply (step_post demo_spool no_dates full_jitter demo_parse demo_client true F demo_st2 demo_item demo_now
        demo_accepts). done.
  - apply (settle_done demo_spool no_dates full_jitter demo_parse demo_client true F demo_st3 demo_item demo_now
      demo_posted None (demo_world (disk demo_st3))); [constructor|done|done].
Qed.

Lemma pipeline_loses_no_batch_witness :
  expired demo_spool (clock demo_st4) demo_envelope = false /\
  (queued demo_spool demo_id demo_envelope (disk demo_st4) \/
   exists x, x ∈ exchanges demo_st4 /\ ex_id x = demo_id /\
    own_request demo_parse demo_client "POST" probeResultsPath (Some (Some (Batch demo_envelope))) (ex_request x) /\
    req_Body (ex_request x) = Some (Batch demo_envelope) /\
    (accepted (postBody (ex_answer x)) \/ exists status code, terminal (postBody (ex_answer x)) status code)).
Proof.
  split; [apply demo_not_expired|].
  apply (pipeline_loses_no_batch demo_spool no_dates full_jitter demo_parse demo_client true);
    [apply demo_wf|by vm_compute|by vm_compute|apply demo_steps|constructor|apply demo_not_expired].
Defined.

Lemma backlog_bounded_always_witness :
  pending_count demo_spool (disk demo_st1) <= 16384 /\
  pending_bytes demo_spool (disk demo_st1) <= 268435456 + retry_growth * pending_count demo_spool (disk demo_st1) /\
  quarantine_within demo_spool (disk demo_st1).
Proof.
  apply (backlog_bounded_always demo_spool no_dates full_jitter demo_parse demo_client true);
    [apply demo_wf|by vm_compute|apply demo_steps].
Defined.

Lemma accepted_at_most_once_witness :
  acceptances demo_id (exchanges demo_st4) = 1%nat /\
  accepted_last demo_id (exchanges demo_st4) /\ (acceptances demo_id (exchanges demo_st4) <= 1)%nat.
Proof.
  split; [by vm_compute|].
  apply (accepted_at_most_once demo_spool no_dates full_jitter demo_parse demo_client true);
    [apply demo_wf|by vm_compute|apply demo_steps].
Defined.

Definition demo_turn : turn := mkTurn None None demo_now (fun _ => Answer 204 "" (Ok "")) None None WakeTimer.

Lemma queue_drains_witness :
  pending_count demo_spool demo_store = 1 /\
  wp no_fault (Run demo_spool no_dates full_jitter [demo_turn; demo_turn])
    (fun o fs' => o = Done (None, []) /\ pending_items demo_spool fs' = []) demo_store.
Proof.
  assert (accepting demo_turn) as Ha by (by split_and!).
  assert (all_due demo_spool demo_now demo_store) as Hd.
  { intros name n Hn. unfold demo_store in Hn. apply lookup_singleton_Some in Hn as [E <-].
    exists demo_id, demo_envelope. unfold item_path in E. injection E as <-.
    split; [done|]. split; [apply id_ok_newID|]. split; [apply demo_stores|]. split; [apply demo_not_expired|by vm_compute]. }
  split; [by vm_compute|]. apply queue_drains; [| |by vm_compute].
  - by rewrite !Forall_cons.
  - by rewrite !Forall_cons.
Defined.
