(* ===== verification/AgentHttp.v ===== *)
(** * The HTTP client of the Controller calls (client.go, newAgentHTTPClient)

    What [client.http.Do] does with a request: [net/http]'s redirect loop with
    the redirect policy and the time limit that [newAgentHTTPClient] sets.  The
    round trip of one request, [URL.Parse] of a Location header and the headers
    of a redirected request are arguments.  Composed with [doJSON] and
    [postBody], it gives what reaches the network. *)

From S2P Require Export UploadRequest.

(** What one round trip yields; a failure, of the round trip or of reading the
    body, says whether it wraps a deadline. *)
Record http_response : Type := mkResponse {
  resp_Status : Z; resp_Location : string; resp_RetryAfter : string; resp_Body : result bool string
}.

Inductive redirect_verdict : Type := FollowRedirect | ErrUseLastResponse | RefuseRedirect.
Record http_client : Type := mkHttpClient {
  Timeout : Z;
  CheckRedirect : api_request -> list api_request -> redirect_verdict
}.

Definition newAgentHTTPClient : http_client := mkHttpClient (30 * Second) (fun _ _ => ErrUseLastResponse).

(** [redirectBehavior]: the method of the next request, whether there is one, and
    whether it keeps the body (which the client's requests can read again). *)
Definition redirectBehavior (method : string) (status : Z) : string * bool * bool :=
  if existsb (Z.eqb status) [301; 302; 303] then
    (if bool_decide (method = "GET") || bool_decide (method = "HEAD") then method else "GET", true, false)
  else if existsb (Z.eqb status) [307; 308] then (method, true, true)
  else (method, false, false).

Section Do.
Context (roundTrip : api_request -> result bool http_response) (URL_Parse : string -> string -> option string)
  (redirect_headers : api_request -> string -> list (string * string)).

(** The loop of [http.Client.do]: the requests sent, and the response or the error;
    [via] are the requests sent before. *)
Fixpoint client_do (fuel : nat) (hc : http_client) (via : list api_request) (req : api_request)
  : list api_request * result bool http_response :=
  match fuel with
  | O => ([], Err false)
  | S fuel =>
      match roundTrip req with
      | Err deadline => ([req], Err deadline)
      | Ok resp =>
          let '(method, shouldRedirect, includeBody) := redirectBehavior (req_Method req) (resp_Status resp) in
          if negb shouldRedirect || bool_decide (resp_Location resp = "") then ([req], Ok resp)
          else
            match URL_Parse (req_URL req) (resp_Location resp) with
            | None => ([req], Err false)
            | Some u =>
                let next := mkApiRequest method u (redirect_headers req u) (if includeBody then req_Body req else None) in
                match CheckRedirect hc next (via ++ [req]) with
                | ErrUseLastResponse => ([req], Ok resp)
                | RefuseRedirect => ([req], Err false)
                | FollowRedirect => let '(sent, r) := client_do fuel hc (via ++ [req]) next in (req :: sent, r)
                end
            end
      end
  end.

(** [client.http.Do]: one round of the loop is enough for a client that never follows. *)
Definition agent_Do (req : api_request) : list api_request * result bool http_response :=
  client_do 1 newAgentHTTPClient [] req.

(** The answer as [doJSON] and as [postBody] see it. *)
Definition api_send (req : api_request) : api_answer :=
  match snd (agent_Do req) with Err _ => ApiFailed | Ok r => ApiAnswer (resp_Status r) (match resp_Body r with Ok body => Some body | Err _ => None end) end.
Definition upload_send (req : api_request) : http_result :=
  match snd (agent_Do req) with
  | Err deadline => DoFailed deadline
  | Ok r => Answer (resp_Status r) (resp_RetryAfter r) (resp_Body r)
  end.

(** The requests on the network when the client was asked to send [l]. *)
Definition on_network (l : list api_request) : list api_request := concat (map (fun q => fst (agent_Do q)) l).

Lemma do_never_follows fuel via req :
  client_do (S fuel) newAgentHTTPClient via req = client_do 1 newAgentHTTPClient via req.
Proof.
  cbn [client_do]. destruct (roundTrip req) as [resp|]; [|done].
  destruct (redirectBehavior _ _) as [[method should] body]. destruct (_ || _); [done|].
  by destruct (URL_Parse _ _).
Qed.

Lemma agent_Do_once req : fst (agent_Do req) = [req].
Proof.
  unfold agent_Do. cbn [client_do]. destruct (roundTrip req) as [resp|]; [|done].
  destruct (redirectBehavior _ _) as [[method should] body]. destruct (_ || _); [done|].
  by destruct (URL_Parse _ _).
Qed.

Lemma on_network_same l : on_network l = l.
Proof. induction l as [|q l IH]; [done|]. unfold on_network in *. cbn [map concat]. by rewrite agent_Do_once, IH. Qed.

(** A redirect comes back as the answer, unless its Location cannot be parsed. *)
Lemma agent_Do_response req resp : roundTrip req = Ok resp ->
  snd (agent_Do req) = Ok resp \/
  snd (agent_Do req) = Err false /\ URL_Parse (req_URL req) (resp_Location resp) = None.
Proof.
  intros E. unfold agent_Do. cbn [client_do]. rewrite E.
  destruct (redirectBehavior _ _) as [[method should] body]. destruct (_ || _); [by left|].
  destruct (URL_Parse _ _) eqn:Eu; [by left|by right].
Qed.

Lemma redirect_status req resp : roundTrip req = Ok resp -> 300 <= resp_Status resp < 400 ->
  api_send req = ApiFailed \/ exists body, api_send req = ApiAnswer (resp_Status resp) body.
Proof.
  intros E Hs. unfold api_send. destruct (agent_Do_response req resp E) as [->|[-> _]]; [right; by eexists|by left].
Qed.
End Do.

(** ** Properties *)

(** C8. The node's token never follows a redirect.  Whatever the network answers, a call of the client puts at most one
    request on it, the call's own one to the accepted controller, and so does an upload; however long the redirect loop
    may run it sends nothing more, and a call that is answered with a redirect fails. *)
Theorem token_never_follows_redirects {A} Parse c roundTrip URL_Parse headers method path request
  (response : option (string -> option A)) transport body fuel via :
  let '(sent, r) := doJSON Parse c (api_send roundTrip URL_Parse headers) method path request response in
  let upload := fst (client_postBody Parse c transport (upload_send roundTrip URL_Parse headers) body) in
  (length (on_network roundTrip URL_Parse headers sent) <= 1)%nat /\
  Forall (own_request Parse c method path request) (on_network roundTrip URL_Parse headers sent) /\
  Forall (fun q => fst (client_do roundTrip URL_Parse headers (S fuel) newAgentHTTPClient via q) = [q] /\
    forall resp, roundTrip q = Ok resp -> 300 <= resp_Status resp < 400 -> exists e, r = Err e) sent /\
  (length (on_network roundTrip URL_Parse headers upload) <= 1)%nat /\
  Forall (own_request Parse c "POST" probeResultsPath (Some (Some body))) (on_network roundTrip URL_Parse headers upload).
Proof.
  pose proof (doJSON_safe Parse c (api_send roundTrip URL_Parse headers) method path request response) as Hsafe.
  destruct (doJSON Parse c (api_send roundTrip URL_Parse headers) method path request response) as [sent r] eqn:Ed.
  destruct Hsafe as (Hlen & _ & Hown). cbv zeta. rewrite !on_network_same. split; [done|]. split; [done|]. split; [|split].
  - apply Forall_forall. intros q Hq. split.
    { rewrite do_never_follows. pose proof (agent_Do_once roundTrip URL_Parse headers q) as H. revert H. unfold agent_Do.
      cbn [client_do]. destruct (roundTrip q) as [resp|]; [|done].
      destruct (redirectBehavior _ _) as [[m sh] b]. destruct (_ || _); [done|]. by destruct (URL_Parse _ _). }
    intros resp E Hs. destruct r as [a|e]; [|by eexists]. exfalso.
    apply doJSON_ok in Ed as (q' & status & body' & -> & Hsend & Hstatus).
    apply list_elem_of_singleton in Hq as ->.
    destruct (redirect_status roundTrip URL_Parse headers q' resp E Hs) as [E'|[b E']]; rewrite Hsend in E'; [done|].
    injection E' as -> _. lia.
  - unfold client_postBody. destruct (upload_request Parse c transport body); cbn; lia.
  - unfold client_postBody. destruct (upload_request Parse c transport body) as [q|] eqn:Eq; [|constructor].
    constructor; [|constructor]. by eapply upload_request_own.
Qed.

(** A 302 with a Location does not move the request, and is the answer. *)
Example redirect_is_the_answer :
  let leak (q : api_request) := Ok (mkResponse 302 "https://evil.test/" "" (Err false)) in
  doJSON demo_parse (NewClient "https://c.test" "n" "t") (api_send leak (fun _ l => Some l) (fun _ _ => [])) "GET" "/x"
    None (Some (fun b => Some b))
  = ([mkApiRequest "GET" "https://c.test/x" [("X-Node-ID", "n"); ("Authorization", "Bearer t")] None],
     Err (Client.AgentAPIStatusError "GET" "/x" 302)).
Proof. vm_compute. reflexivity. Qed.
