(* ===== verification/FloatOps.v ===== *)
(** * Conversions and ranges of 64-bit floating-point numbers

    [strconv.ParseFloat] on the plain decimals the agent hands it, conversion
    to integers, and the facts on rounding the components share: an operation
    on numbers never makes a NaN out of nothing and its mantissa has 53 bits. *)

From S2P Require Export GoFloat JsonFacts ProbeTypes.

(** ** Reading a plain decimal *)

(** The quotient of two positive integers, rounded to nearest even. *)
Definition f64_of_ratio (a b : positive) : spec_float :=
  let '(q, e, loc) := SFdiv_core_binary prec64 emax64 (Z.pos a) 0 (Z.pos b) 0 in
  binary_round_aux prec64 emax64 false q e loc.

(** Digits with at most one point and at least one digit; the value is the
    integer of the digits over [10 ^ k], [k] the digits after the point. *)
Definition dot_byte : ascii := chr 46.

Fixpoint scan_decimal (s : string) (point : bool) (d k n : Z) : option (Z * Z * Z) :=
  match s with
  | EmptyString => Some (d, k, n)
  | String c s =>
      if is_digit c then scan_decimal s point (d * 10 + digit_val c) (if point then k + 1 else k) (n + 1)
      else if Ascii.eqb c dot_byte then if point then None else scan_decimal s true d k n
      else None
  end.

(** [strconv.ParseFloat(s, 64)] for a string of digits and points: [None] is a
    syntax error or a value beyond the largest finite number. *)
Definition ParseFloat (s : string) : option spec_float :=
  match scan_decimal s false 0 0 0 with
  | Some (d, k, n) =>
      if n =? 0 then None
      else
        match d with
        | Z.pos d =>
            match f64_of_ratio d (Z.to_pos (10 ^ k)) with
            | S754_infinity _ => None
            | f => Some f
            end
        | _ => Some f64_zero
        end
  | None => None
  end.

Example ParseFloat_1 :
  map (fun s => ParseFloat s ≫= float_text) ["12.5"; "0.045"; "1.2.3"; "."; ".5"; "007"; "5."; "0.1"; ""] =
  [Some "12.5"; Some "0.045"; None; None; Some "0.5"; Some "7"; Some "5"; Some "0.1"; None].
Proof. vm_compute. reflexivity. Qed.

(** ** Conversion to integers *)

(** Rounding towards zero. *)
Definition f64_trunc (f : spec_float) : option Z :=
  match f with
  | S754_zero _ => Some 0
  | S754_finite s m e =>
      let v := if 0 <=? e then Z.pos m * 2 ^ e else Z.pos m / 2 ^ (- e) in
      Some (if s then - v else v)
  | _ => None
  end.

(** [int64(f)]: outside the range of [int64] Go leaves the result to the
    machine, which [out_of_range] stands for. *)
Definition f64_to_i64 (out_of_range : spec_float -> Z) (f : spec_float) : Z :=
  match f64_trunc f with
  | Some z => if (minInt64 <=? z) && (z <=? maxInt64) then z else out_of_range f
  | None => out_of_range f
  end.

(** ** Facts on rounding *)

(** A number: not a NaN, and with a mantissa of at most 53 bits. *)
Definition f64_num (f : spec_float) : Prop :=
  match f with
  | S754_nan => False
  | S754_finite _ m _ => Z.pos m < 2 ^ 53
  | _ => True
  end.

Lemma digits2_bound m : Z.pos m < 2 ^ Z.pos (digits2_pos m).
Proof.
  induction m as [m IH|m IH|]; cbn [digits2_pos]; [| |done];
    rewrite Pos2Z.inj_succ, Z.pow_succ_r by lia; lia.
Qed.

Lemma shr_1_m mrs : 0 <= shr_m mrs -> shr_m (shr_1 mrs) = shr_m mrs / 2.
Proof.
  destruct mrs as [[|[p|p|]|p] r s]; cbn; intros H; try lia; try done.
  - apply Z.div_unique with 1; lia.
  - apply Z.div_unique with 0; lia.
Qed.

Lemma iter_shr_m p : forall mrs, 0 <= shr_m mrs ->
  shr_m (SpecFloat.iter_pos shr_1 p mrs) = shr_m mrs / 2 ^ Z.pos p.
Proof.
  induction p as [p IH|p IH|]; intros mrs H; cbn [SpecFloat.iter_pos].
  - assert (0 <= shr_m mrs / 2) by (apply Z.div_pos; lia).
    assert (0 <= shr_m mrs / 2 / 2 ^ Z.pos p) by (apply Z.div_pos; lia).
    rewrite !IH by (rewrite ?IH; rewrite shr_1_m by done; done). rewrite shr_1_m by done.
    rewrite !Z.div_div by lia. f_equal. replace (Z.pos p~1) with (1 + Z.pos p + Z.pos p) by lia.
    rewrite !Z.pow_add_r by lia. lia.
  - assert (0 <= shr_m mrs / 2 ^ Z.pos p) by (apply Z.div_pos; lia).
    rewrite !IH by (rewrite ?IH; done).
    rewrite Z.div_div by lia. f_equal. replace (Z.pos p~0) with (Z.pos p + Z.pos p) by lia.
    by rewrite Z.pow_add_r by lia.
  - by apply shr_1_m.
Qed.

Lemma shr_fexp_m m e l mrs e' : 0 <= m -> shr_fexp prec64 emax64 m e l = (mrs, e') ->
  0 <= shr_m mrs < 2 ^ 53.
Proof.
  intros Hm. unfold shr_fexp, shr.
  assert (forall l, shr_m (shr_record_of_loc m l) = m) as Hl by (by intros [|[]]).
  assert (m < 2 ^ Zdigits2 m) as Hd.
  { destruct m; [done|apply digits2_bound|lia]. }
  assert (0 <= Zdigits2 m) by (by destruct m).
  assert (Zdigits2 m - 53 <= fexp prec64 emax64 (Zdigits2 m + e) - e) as Hn.
  { unfold fexp, prec64. lia. }
  destruct (fexp prec64 emax64 (Zdigits2 m + e) - e) as [|p|p] eqn:En; intros [= <- <-]; rewrite ?Hl.
  - assert (2 ^ Zdigits2 m <= 2 ^ 53) by (apply Z.pow_le_mono_r; lia). lia.
  - rewrite iter_shr_m by by rewrite Hl. rewrite Hl. split; [apply Z.div_pos; lia|].
    apply Z.div_lt_upper_bound; [lia|]. eapply Z.lt_le_trans; [exact Hd|].
    rewrite <- Z.pow_add_r by lia. apply Z.pow_le_mono_r; lia.
  - assert (2 ^ Zdigits2 m <= 2 ^ 53) by (apply Z.pow_le_mono_r; lia). lia.
Qed.

Lemma round_aux_num sx m e l : 0 <= m -> f64_num (binary_round_aux prec64 emax64 sx m e l).
Proof.
  intros Hm. unfold binary_round_aux.
  destruct (shr_fexp prec64 emax64 m e l) as [mrs e1] eqn:E1. apply shr_fexp_m in E1; [|done].
  destruct (shr_fexp prec64 emax64 (round_nearest_even (shr_m mrs) (loc_of_shr_record mrs)) e1 loc_Exact)
    as [mrs2 e2] eqn:E2.
  apply shr_fexp_m in E2.
  - destruct (shr_m mrs2) as [|p|p]; [done| |lia]. destruct (_ <=? _); [|done]. by destruct E2.
  - unfold round_nearest_even. destruct (loc_of_shr_record mrs) as [|[]]; [lia| |lia..].
    destruct (Z.even _); lia.
Qed.

Lemma f64_of_Z_num z : f64_num (f64_of_Z z).
Proof.
  unfold f64_of_Z, binary_normalize, binary_round.
  destruct z as [|p|p]; [done| |]; destruct (shl_align _ _ _); by apply round_aux_num.
Qed.

Lemma div_core_nonneg a b e1 e2 q e l :
  SFdiv_core_binary prec64 emax64 (Z.pos a) e1 (Z.pos b) e2 = (q, e, l) -> 0 <= q.
Proof.
  unfold SFdiv_core_binary. set (s := e1 - e2 - _). 
  set (m := match s with 0 => Z.pos a | Z.pos _ => Z.shiftl (Z.pos a) s | Z.neg _ => 0 end).
  assert (0 <= m) by (unfold m; destruct s; [lia|by apply Z.shiftl_nonneg|lia]).
  pose proof (Z_div_mod m (Z.pos b) ltac:(lia)) as Hd. destruct (Z.div_eucl m (Z.pos b)) as [q' r].
  intros [= <- _ _]. nia.
Qed.

Lemma f64_of_ratio_num a b : f64_num (f64_of_ratio a b).
Proof.
  unfold f64_of_ratio. destruct (SFdiv_core_binary _ _ _ _ _ _) as [[q e] l] eqn:E.
  by eapply round_aux_num, div_core_nonneg.
Qed.

(** Dividing a number by a finite one. *)
Lemma f64_div_num f s m e : f64_num f -> f64_num (f64_div f (S754_finite s m e)).
Proof.
  unfold f64_div, SFdiv. destruct f as [sf|sf| |sf mf ef]; try done. intros _.
  destruct (SFdiv_core_binary _ _ _ _ _ _) as [[q e'] l] eqn:E.
  by eapply round_aux_num, div_core_nonneg.
Qed.

Lemma ParseFloat_num s f : ParseFloat s = Some f -> f64_num f.
Proof.
  unfold ParseFloat. destruct (scan_decimal s false 0 0 0) as [[[d k] n]|]; [|done].
  destruct (n =? 0); [done|]. destruct d as [|d|d]; [by intros [= <-]| |by intros [= <-]].
  pose proof (f64_of_ratio_num d (Z.to_pos (10 ^ k))) as H.
  destruct (f64_of_ratio _ _); try done; by intros [= <-].
Qed.
(** Subtracting a number from a finite one, and multiplying by a finite one. *)
Lemma normalize_num m e s : f64_num (binary_normalize prec64 emax64 m e s).
Proof.
  unfold binary_normalize, binary_round.
  destruct m as [|p|p]; [done| |]; destruct (shl_align _ _ _); by apply round_aux_num.
Qed.

Lemma f64_sub_num s m e f : Z.pos m < 2 ^ 53 -> f64_num f -> f64_num (f64_sub (S754_finite s m e) f).
Proof.
  intros Hm. unfold f64_sub, SFsub. destruct f as [sf|sf| |sf mf ef]; try done. intros _. apply normalize_num.
Qed.

Lemma f64_mul_num f s m e : f64_num f -> f64_num (f64_mul f (S754_finite s m e)).
Proof. unfold f64_mul, SFmul. destruct f as [sf|sf| |sf mf ef]; try done. intros _. by apply round_aux_num. Qed.

(** Rounding a positive mantissa of ordinary magnitude gives a finite number. *)
Lemma digits2_low m : 2 ^ (Z.pos (digits2_pos m) - 1) <= Z.pos m.
Proof.
  induction m as [m IH|m IH|]; cbn [digits2_pos]; [| |done];
    rewrite Pos2Z.inj_succ; replace (Z.succ (Z.pos (digits2_pos m)) - 1) with (Z.succ (Z.pos (digits2_pos m) - 1)) by lia;
    rewrite Z.pow_succ_r by lia; lia.
Qed.

Lemma shr_fexp_pos m e l mrs e' : 0 < m -> -1074 <= e -> shr_fexp prec64 emax64 m e l = (mrs, e') ->
  0 < shr_m mrs /\ e <= e' <= Z.max e (Zdigits2 m + e - 53).
Proof.
  intros Hm He. unfold shr_fexp, shr.
  assert (forall l, shr_m (shr_record_of_loc m l) = m) as Hl by (by intros [|[]]).
  assert (1 <= Zdigits2 m /\ 2 ^ (Zdigits2 m - 1) <= m) as [Hd1 Hd].
  { destruct m as [|p|]; [done| |lia]. split; [cbn; lia|apply digits2_low]. }
  assert (fexp prec64 emax64 (Zdigits2 m + e) - e = Z.max (Zdigits2 m - 53) (-1074 - e)) as Hn.
  { unfold fexp, prec64, SpecFloat.emin, emax64, prec64. lia. }
  rewrite Hn. destruct (Z.max _ _) as [|p|p] eqn:En; intros [= <- <-]; rewrite ?Hl; [lia| |lia].
  rewrite iter_shr_m by (rewrite Hl; lia). rewrite Hl. split; [|lia].
  assert (2 ^ Z.pos p <= 2 ^ (Zdigits2 m - 1)) by (apply Z.pow_le_mono_r; lia).
  apply Z.div_str_pos. lia.
Qed.

Lemma Zdigits2_le m k : 0 <= k -> 0 <= m < 2 ^ k -> Zdigits2 m <= k.
Proof.
  intros Hk [H0 H]. destruct m as [|p|p]; cbn [Zdigits2]; [lia| |lia].
  pose proof (digits2_low p) as Hl. destruct (Z.le_gt_cases (Z.pos (digits2_pos p)) k) as [|Hg]; [done|].
  assert (2 ^ k <= 2 ^ (Z.pos (digits2_pos p) - 1)) by (apply Z.pow_le_mono_r; lia). lia.
Qed.

Lemma round_aux_finite sx m e l : 0 < m -> -1074 <= e <= 900 -> Zdigits2 m + e <= 900 ->
  exists m' e', binary_round_aux prec64 emax64 sx m e l = S754_finite sx m' e' /\ Z.pos m' < 2 ^ 53.
Proof.
  intros Hm He Hd. unfold binary_round_aux.
  destruct (shr_fexp prec64 emax64 m e l) as [mrs e1] eqn:E1.
  pose proof E1 as E1'. apply shr_fexp_m in E1'; [|lia]. apply shr_fexp_pos in E1 as [Hp He1]; [|lia..].
  set (r := round_nearest_even (shr_m mrs) (loc_of_shr_record mrs)).
  assert (0 < r <= 2 ^ 53) as Hr.
  { unfold r, round_nearest_even. destruct (loc_of_shr_record mrs) as [|[]]; [lia| |lia..].
    destruct (Z.even _); lia. }
  destruct (shr_fexp prec64 emax64 r e1 loc_Exact) as [mrs2 e2] eqn:E2.
  pose proof E2 as E2'. apply shr_fexp_m in E2'; [|lia]. apply shr_fexp_pos in E2 as [Hp2 He2]; [|lia..].
  assert (Zdigits2 r <= 54) by (apply Zdigits2_le; [lia|]; change (2 ^ 54) with (2 * 2 ^ 53); lia).
  destruct (shr_m mrs2) as [|p|p]; [lia| |lia].
  destruct (Z.leb_spec e2 (emax64 - prec64)) as [Hle|Hgt]; [exists p, e2; split; [done|lia]|unfold emax64, prec64 in Hgt; lia].
Qed.

Lemma f64_of_Z_finite z : 0 < z < 2 ^ 64 -> exists m e, f64_of_Z z = S754_finite false m e /\ Z.pos m < 2 ^ 53.
Proof.
  intros Hz. unfold f64_of_Z, binary_normalize, binary_round. destruct z as [|p|p]; [lia| |lia].
  pose proof (Zdigits2_le (Z.pos p) 64 ltac:(lia) ltac:(lia)) as Hd. cbn [Zdigits2] in Hd.
  unfold shl_align.
  assert (fexp prec64 emax64 (Z.pos (digits2_pos p) + 0) - 0 = Z.pos (digits2_pos p) - 53) as ->.
  { unfold fexp, SpecFloat.emin, prec64, emax64. lia. }
  destruct (Z.pos (digits2_pos p) - 53) as [|q|q] eqn:Eq.
  - apply round_aux_finite; cbn [Zdigits2]; lia.
  - apply round_aux_finite; cbn [Zdigits2]; lia.
  - assert (Zdigits2 (Z.pos (shift_pos q p)) <= 64 + Z.pos q) as H.
    { apply Zdigits2_le; [lia|]. split; [lia|]. rewrite shift_pos_correct.
      rewrite Z.pow_add_r by lia. change (Z.pow_pos 2 q) with (2 ^ Z.pos q).
      assert (0 < 2 ^ Z.pos q) by lia. revert Hz H. generalize (2 ^ 64), (2 ^ Z.pos q).
      clear. intros; nia. }
    unfold fexp, SpecFloat.emin, prec64, emax64 in *.
    apply round_aux_finite; [lia|lia|]. change (PosDef.Pos.iter xO p q) with (shift_pos q p). lia.
Qed.
(** ** Ranges of exponents: what keeps a result finite *)
Definition in_range (lo hi : Z) (f : spec_float) : Prop :=
  match f with
  | S754_zero _ => True
  | S754_finite _ m e => Z.pos m < 2 ^ 53 /\ lo <= e <= hi
  | _ => False
  end.

Definition f64_sign (f : spec_float) : bool :=
  match f with S754_zero s | S754_infinity s | S754_finite s _ _ => s | S754_nan => false end.

Lemma in_range_weaken lo hi lo' hi' f : in_range lo hi f -> lo' <= lo -> hi <= hi' -> in_range lo' hi' f.
Proof. destruct f; cbn; try done. intros [H1 H2] Hl Hh. split; [done|lia]. Qed.

Lemma in_range_num lo hi f : in_range lo hi f -> f64_num f.
Proof. destruct f; cbn; try done. tauto. Qed.

Lemma shr_fexp_exponent m e l mrs e' : -1074 <= e -> shr_fexp prec64 emax64 m e l = (mrs, e') ->
  e <= e' <= Z.max e (Zdigits2 m + e - 53).
Proof.
  intros He. unfold shr_fexp, shr.
  assert (fexp prec64 emax64 (Zdigits2 m + e) - e = Z.max (Zdigits2 m - 53) (-1074 - e)) as ->.
  { unfold fexp, prec64, SpecFloat.emin, emax64, prec64. lia. }
  destruct (Z.max _ _) as [|p|p] eqn:En; intros [= <- <-]; lia.
Qed.

Lemma round_aux_range sx m e l lo hi d : 0 <= m -> -1074 <= lo -> lo <= e <= hi -> 0 <= d -> Zdigits2 m <= d ->
  hi + d <= 900 ->
  in_range lo (hi + Z.max 0 (d - 53) + 1) (binary_round_aux prec64 emax64 sx m e l) /\
  f64_sign (binary_round_aux prec64 emax64 sx m e l) = sx.
Proof.
  intros Hm Hlo He Hd0 Hd Hh. unfold binary_round_aux.
  destruct (shr_fexp prec64 emax64 m e l) as [mrs e1] eqn:E1.
  pose proof (shr_fexp_m _ _ _ _ _ Hm E1) as Hm1. apply shr_fexp_exponent in E1; [|lia].
  set (r := round_nearest_even (shr_m mrs) (loc_of_shr_record mrs)).
  assert (0 <= r <= 2 ^ 53) as Hr.
  { unfold r, round_nearest_even. destruct (loc_of_shr_record mrs) as [|[]]; [lia| |lia..].
    destruct (Z.even _); lia. }
  assert (Zdigits2 r <= 54) by (apply Zdigits2_le; [lia|]; change (2 ^ 54) with (2 * 2 ^ 53); lia).
  destruct (shr_fexp prec64 emax64 r e1 loc_Exact) as [mrs2 e2] eqn:E2.
  pose proof (shr_fexp_m _ _ _ _ _ (proj1 Hr) E2) as Hm2. apply shr_fexp_exponent in E2; [|lia].
  destruct (shr_m mrs2) as [|p|p]; [done| |lia].
  destruct (Z.leb_spec e2 (emax64 - prec64)) as [Hle|Hgt]; [|unfold emax64, prec64 in Hgt; lia].
  split; [|done]. cbn. lia.
Qed.

Lemma normalize_range m e s lo hi d : -1074 <= lo - 53 -> lo <= e <= hi -> 0 <= d -> Z.abs m < 2 ^ d -> hi + d <= 800 ->
  in_range (lo - 53) (hi + d + 1) (binary_normalize prec64 emax64 m e s).
Proof.
  intros Hlo He Hd Hm Hh.
  assert (forall sx p, Z.pos p < 2 ^ d -> in_range (lo - 53) (hi + d + 1) (binary_round prec64 emax64 sx p e)) as Hround.
  { intros sx p Hp. unfold binary_round, shl_align.
    pose proof (Zdigits2_le (Z.pos p) d Hd ltac:(lia)) as Hdp. cbn [Zdigits2] in Hdp.
    assert (fexp prec64 emax64 (Z.pos (digits2_pos p) + e) - e =
      Z.max (Z.pos (digits2_pos p) - 53) (-1074 - e)) as Hf.
    { unfold fexp, SpecFloat.emin, prec64, emax64. lia. }
    rewrite Hf. destruct (Z.max _ _) as [|q|q] eqn:Eq.
    1, 2: eapply in_range_weaken; [apply (round_aux_range _ _ _ _ lo hi d)|..]; cbn [Zdigits2]; lia.
    assert (Zdigits2 (Z.pos (shift_pos q p)) <= d + 53) as H.
    { apply Zdigits2_le; [lia|]. split; [lia|]. rewrite shift_pos_correct.
      rewrite Z.pow_add_r by lia. change (Z.pow_pos 2 q) with (2 ^ Z.pos q).
      assert (2 ^ Z.pos q <= 2 ^ 53) as H53 by (apply Z.pow_le_mono_r; lia).
      revert Hp H53. assert (0 < 2 ^ Z.pos q) as H0 by lia. revert H0.
      generalize (2 ^ d), (2 ^ Z.pos q), (2 ^ 53). clear. intros; nia. }
    replace (fexp prec64 emax64 (Z.pos (digits2_pos p) + e)) with (e - Z.pos q) by lia.
    eapply in_range_weaken; [apply (round_aux_range _ _ _ _ (lo - 53) hi (d + 53))|..]; try lia.
    exact H. }
  unfold binary_normalize. destruct m as [|p|p]; [done|apply Hround; lia..].
Qed.

Lemma f64_of_Z_range z : Z.abs z < 2 ^ 64 -> in_range (-53) 65 (f64_of_Z z).
Proof. intros Hz. apply (normalize_range z 0 false 0 0 64); lia || done. Qed.

Lemma f64_div_range lo1 hi1 lo2 hi2 f g : in_range lo1 hi1 f -> in_range lo2 hi2 g ->
  (forall s, g <> S754_zero s) -> -900 <= lo1 - hi2 - 106 -> hi1 - lo2 <= 500 -> lo1 <= hi1 -> lo2 <= hi2 ->
  in_range (lo1 - hi2 - 106) (hi1 - lo2 + 108) (f64_div f g) /\ f64_sign (f64_div f g) = xorb (f64_sign f) (f64_sign g).
Proof.
  intros Hf Hg Hz Hlo Hhi. unfold f64_div, SFdiv.
  destruct f as [sf|sf| |sf mf ef], g as [sg|sg| |sg mg eg]; try done; try (by exfalso; eapply Hz).
  destruct Hf as [Hmf Hef], Hg as [Hmg Heg]. intros H1 H2.
  destruct (SFdiv_core_binary prec64 emax64 (Z.pos mf) ef (Z.pos mg) eg) as [[q e'] l] eqn:E.
  pose proof (div_core_nonneg _ _ _ _ _ _ _ E) as Hq. revert E. unfold SFdiv_core_binary.
  pose proof (Zdigits2_le (Z.pos mf) 53 ltac:(lia) ltac:(lia)) as Hdf.
  pose proof (Zdigits2_le (Z.pos mg) 53 ltac:(lia) ltac:(lia)) as Hdg.
  cbn [Zdigits2] in *.
  set (x := fexp prec64 emax64 _).
  assert (x = Z.max (Z.pos (digits2_pos mf) + ef - (Z.pos (digits2_pos mg) + eg) - 53) (-1074)) as Hx.
  { unfold x, fexp, SpecFloat.emin, prec64, emax64. lia. }
  clearbody x. set (s := ef - eg - Z.min x (ef - eg)).
  assert (0 <= s <= 106) as Hs by lia.
  assert (match s with 0 => Z.pos mf | Z.pos _ => Z.shiftl (Z.pos mf) s | Z.neg _ => 0 end = Z.pos mf * 2 ^ s) as ->.
  { destruct s; [lia| |lia]. by rewrite Z.shiftl_mul_pow2. }
  pose proof (Z_div_mod (Z.pos mf * 2 ^ s) (Z.pos mg) ltac:(lia)) as Hd.
  destruct (Z.div_eucl (Z.pos mf * 2 ^ s) (Z.pos mg)) as [q' r]. intros [= -> <- _].
  assert (Zdigits2 q <= 160).
  { apply Zdigits2_le; [lia|]. split; [done|]. replace 160 with (53 + 106 + 1) by lia.
    rewrite !Z.pow_add_r by lia. assert (2 ^ s <= 2 ^ 106) as Hp by (apply Z.pow_le_mono_r; lia).
    assert (0 < 2 ^ s) as Hp0 by lia. revert Hd Hp Hp0 Hmf. generalize (2 ^ s), (2 ^ 106), (2 ^ 53). clear - Hq.
    intros a b c [Hd Hr] Hab Ha Hm. assert (q <= Z.pos mf * a) by nia. assert (Z.pos mf * a <= c * b) by nia. lia. }
  replace (hi1 - lo2 + 108) with (hi1 - lo2 + Z.max 0 (160 - 53) + 1) by lia.
  apply (round_aux_range _ _ _ _ (lo1 - hi2 - 106) (hi1 - lo2) 160); lia.
Qed.

Lemma f64_add_range lo hi f g : in_range lo hi f -> in_range lo hi g -> -900 <= lo -> hi + (hi - lo) <= 700 -> lo <= hi ->
  in_range (lo - 53) (hi + (hi - lo + 54) + 1) (f64_add f g).
Proof.
  intros Hf Hg Hlo Hhi Hl. unfold f64_add, SFadd.
  destruct f as [sf|sf| |sf mf ef], g as [sg|sg| |sg mg eg]; try done.
  - destruct sf, sg; exact I.
  - eapply in_range_weaken; [exact Hg|lia..].
  - eapply in_range_weaken; [exact Hf|lia..].
  - destruct Hf as [Hmf Hef], Hg as [Hmg Heg].
    assert (forall m e, Z.pos m < 2 ^ 53 -> lo <= e <= hi ->
      Z.abs (Z.pos (fst (shl_align m e (Z.min ef eg)))) < 2 ^ 53 * 2 ^ (hi - lo)) as Ha.
    { intros m e Hm He. unfold shl_align. assert (2 ^ 0 <= 2 ^ (hi - lo)) as H1 by (apply Z.pow_le_mono_r; lia).
      destruct (Z.min ef eg - e) as [|q|q] eqn:Eq; cbn [fst].
      1, 2: revert H1 Hm; generalize (2 ^ (hi - lo)), (2 ^ 53); clear; intros; nia.
      change (Z.abs (Z.pos (shift_pos q m)) < 2 ^ 53 * 2 ^ (hi - lo)). rewrite shift_pos_correct. change (Z.pow_pos 2 q) with (2 ^ Z.pos q).
      assert (2 ^ Z.pos q <= 2 ^ (hi - lo)) as H2 by (apply Z.pow_le_mono_r; lia).
      assert (0 < 2 ^ Z.pos q) as H3 by lia.
      revert Hm H2 H3. generalize (2 ^ (hi - lo)), (2 ^ Z.pos q), (2 ^ 53). clear. intros; nia. }
    pose proof (Ha mf ef Hmf Hef) as Ha1. pose proof (Ha mg eg Hmg Heg) as Ha2.
    apply normalize_range; [lia|lia|lia| |lia].
    replace (hi - lo + 54) with (1 + 53 + (hi - lo)) by lia.
    rewrite !Z.pow_add_r, <- (Z.mul_assoc (2 ^ 1)) by lia. revert Ha1 Ha2. generalize (2 ^ 53 * 2 ^ (hi - lo)) as a.
    generalize (fst (shl_align mf ef (Z.min ef eg))), (fst (shl_align mg eg (Z.min ef eg))).
    intros p q a. destruct sf, sg; cbn [cond_Zopp]; lia.
Qed.
