(* ===== verification/HostText.v ===== *)
(** * Texts of the host system

    What the collectors use to take apart the texts of /proc and of system
    commands: [bufio.Scanner] over lines, [strconv.ParseFloat] in full, and
    [parseKeyValueLines] (probe.go, lines 919 to 934). *)

From S2P Require Export FloatOps.

(** ** [bufio.Scanner] with [ScanLines] *)

(** Everything up to the first newline, and what follows it. *)
Definition newline : ascii := chr 10.
Fixpoint next_line (s : string) : string * option string :=
  match s with
  | EmptyString => ("", None)
  | String c r =>
      if Ascii.eqb c newline then ("", Some r)
      else let '(l, rest) := next_line r in (String c l, rest)
  end.

Definition drop_cr (l : string) : string := TrimSuffix l (bytes [13]).

(** The lines [Scan] delivers and whether it stopped with [ErrTooLong]: a line
    of [max] bytes or more does not fit the buffer with its newline. *)
Fixpoint scan_lines_fuel (n : nat) (max : Z) (s : string) : list string * bool :=
  match n with
  | O => ([], false)
  | S n =>
      match s with
      | EmptyString => ([], false)
      | _ =>
          let '(l, rest) := next_line s in
          if max <=? str_len l then ([], true)
          else
            match rest with
            | None => ([drop_cr l], false)
            | Some rest => let '(ls, err) := scan_lines_fuel n max rest in (drop_cr l :: ls, err)
            end
      end
  end.
Definition scan_lines (max : Z) (s : string) : list string * bool := scan_lines_fuel (String.length s) max s.

(** [bufio.MaxScanTokenSize] *)
Definition MaxScanTokenSize : Z := 64 * 1024.
Definition ScanLines (s : string) : list string * bool := scan_lines MaxScanTokenSize s.

Definition nl (l : list string) : string := GoStrings.Join l (bytes [10]).

Example ScanLines_1 :
  map ScanLines [nl ["a"; "b"]; nl ["a" +:+ bytes [13]; ""; "b"; ""]; ""; bytes [10]] =
  [(["a"; "b"], false); (["a"; ""; "b"], false); ([], false); ([""], false)].
Proof. vm_compute. reflexivity. Qed.

(** ** [parseKeyValueLines] *)
Definition quote : string := bytes [34].

Definition key_value (line : string) : option (string * string) :=
  let line := TrimSpace line in
  if bool_decide (line = "") || HasPrefix line "#" then None
  else
    match Cut line "=" with
    | None => None
    | Some (key, value) => Some (key, Trim (TrimSpace value) quote)
    end.

Definition parseKeyValueLines (content : string) : gmap string string :=
  fold_left (fun values line =>
    match key_value line with
    | Some (key, value) => <[key := value]> values
    | None => values
    end) (fst (ScanLines content)) ∅.

(** ** [strconv.ParseFloat(s, 64)] *)
Definition lower (c : ascii) : ascii := lower_byte c.
Definition is_char (b : Z) (c : ascii) : bool := byte_val c =? b.

(** The digits: value of the mantissa, its digits after the point, whether a
    digit was seen, whether an underscore was; then the rest. *)
Record mantissa : Type := mkMant { m_value : Z; m_frac : Z; m_digits : bool; m_underscore : bool }.

Fixpoint scan_mantissa (base : Z) (s : string) (dot : bool) (m : mantissa) : mantissa * string :=
  match s with
  | EmptyString => (m, "")
  | String c rest =>
      if is_char 95 c then scan_mantissa base rest dot (mkMant (m_value m) (m_frac m) (m_digits m) true)
      else if is_char 46 c then if dot then (m, s) else scan_mantissa base rest true m
      else
        let digit d :=
          scan_mantissa base rest dot
            (mkMant (m_value m * base + d) (if dot then m_frac m + 1 else m_frac m) true (m_underscore m)) in
        if is_digit c then digit (digit_val c)
        else if (base =? 16) && ((97 <=? byte_val (lower c)) && (byte_val (lower c) <=? 102))
        then digit (byte_val (lower c) - 87)
        else (m, s)
  end.

(** The digits of an exponent; it stops growing at 10000. *)
Fixpoint scan_exponent (s : string) (e : Z) (underscore : bool) : Z * bool * string :=
  match s with
  | EmptyString => (e, underscore, "")
  | String c rest =>
      if is_char 95 c then scan_exponent rest e true
      else if is_digit c then scan_exponent rest (if e <? 10000 then e * 10 + digit_val c else e) underscore
      else (e, underscore, s)
  end.

(** [underscoreOK] *)
Inductive saw := SawStart | SawDigit | SawUnderscore | SawOther.
Fixpoint underscores_from (hex : bool) (s : string) (last : saw) : bool :=
  match s with
  | EmptyString => match last with SawUnderscore => false | _ => true end
  | String c rest =>
      if is_digit c || hex && ((97 <=? byte_val (lower c)) && (byte_val (lower c) <=? 102))
      then underscores_from hex rest SawDigit
      else if is_char 95 c then
        match last with SawDigit => underscores_from hex rest SawUnderscore | _ => false end
      else match last with SawUnderscore => false | _ => underscores_from hex rest SawOther end
  end.
Definition underscoreOK (s : string) : bool :=
  let s := snd (split_sign s) in
  match s with
  | String z (String x rest) =>
      if is_char 48 z && (is_char 98 (lower x) || is_char 111 (lower x) || is_char 120 (lower x))
      then underscores_from (is_char 120 (lower x)) rest SawDigit
      else underscores_from false s SawStart
  | _ => underscores_from false s SawStart
  end.

(** [d * base10 or base2 ^ x], rounded to nearest even. *)
Definition f64_of_decimal (d x : Z) : spec_float :=
  match d with
  | Z.pos p =>
      if 0 <=? x then f64_of_ratio (p * Z.to_pos (10 ^ x)) 1 else f64_of_ratio p (Z.to_pos (10 ^ (- x)))
  | _ => f64_zero
  end.
Definition f64_of_binary (d x : Z) : spec_float := binary_normalize prec64 emax64 d x false.

Definition f64_neg (neg : bool) (f : spec_float) : spec_float := if neg then SFopp f else f.

(** [special]: inf, infinity and nan in any case. *)
Definition special_float (s : string) : option spec_float :=
  let '(neg, body) := split_sign s in
  let l := ToLower body in
  if bool_decide (l = "inf") || bool_decide (l = "infinity") then Some (S754_infinity neg)
  else if bool_decide (l = "nan") && bool_decide (body = s) then Some S754_nan
  else None.

(** The number and the error, as Go returns both: out of range gives an infinity
    and [ErrRange], a syntax error gives zero. *)
Definition ParseFloat64 (s : string) : spec_float * option num_error :=
  match special_float s with
  | Some f => (f, None)
  | None =>
      let bad := (f64_zero, Some ErrSyntax) in
      let '(neg, body) := split_sign s in
      let hex := match body with
                 | String z (String x (String _ _)) => is_char 48 z && is_char 120 (lower x)
                 | _ => false
                 end in
      let digits := if hex then Stdlib.Strings.String.substring 2 (String.length body) body else body in
      let '(m, rest) := scan_mantissa (if hex then 16 else 10) digits false (mkMant 0 0 false false) in
      if negb (m_digits m) then bad
      else
        let exponent :=
          match rest with
          | String c rest' =>
              if is_char (if hex then 112 else 101) (lower c) then
                let '(eneg, ebody) := split_sign rest' in
                match ebody with
                | String d _ =>
                    if is_digit d then
                      let '(e, u, rest'') := scan_exponent ebody 0 false in
                      Some (if eneg then - e else e, u, rest'')
                    else None
                | EmptyString => None
                end
              else if hex then None else Some (0, false, rest)
          | EmptyString => if hex then None else Some (0, false, rest)
          end in
        match exponent with
        | None => bad
        | Some (e, u, rest) =>
            if negb (bool_decide (rest = "")) then bad
            else if (m_underscore m || u) && negb (underscoreOK s) then bad
            else
              let f := if hex then f64_of_binary (m_value m) (e - 4 * m_frac m)
                       else f64_of_decimal (m_value m) (e - m_frac m) in
              (f64_neg neg f, match f with S754_infinity _ => Some ErrRange | _ => None end)
        end
  end.

Example ParseFloat64_1 :
  map (fun s => let '(f, e) := ParseFloat64 s in (float_text f, e))
    ["0.52"; "-1e3"; "1e999"; "0x1p-2"; "1_000"; "_1"; "1__0"; "abc"; "1e"; "+Inf"; "-nan"; "1.5.2"; "1E-7"; "0x1"] =
  [(Some "0.52", None); (Some "-1000", None); (None, Some ErrRange); (Some "0.25", None); (Some "1000", None);
   (Some "0", Some ErrSyntax); (Some "0", Some ErrSyntax); (Some "0", Some ErrSyntax); (Some "0", Some ErrSyntax);
   (None, None); (Some "0", Some ErrSyntax); (Some "0", Some ErrSyntax); (Some "1e-7", None); (Some "0", Some ErrSyntax)].
Proof. vm_compute. reflexivity. Qed.
