(* ===== verification/Metrics.v ===== *)
(** * Host and state metrics (metrics.go, memory_unix.go)

    The parsers of the Linux host texts, the interface selection, and the
    collector with the values it carries from one sample to the next.  What the
    other platforms measure enters as the same record of readings. *)

From S2P Require Export Fs HostText StateSample.

(** ** CPU times *)
Record cpuTimes : Type := mkCpu { Total : Z; Idle : Z }.

Fixpoint sum_cpu_fields (index : Z) (fields : list string) (total idle : Z) : option cpuTimes :=
  match fields with
  | [] => Some (mkCpu total idle)
  | field :: fields =>
      match ParseUint field with
      | Err _ => None
      | Ok value =>
          sum_cpu_fields (index + 1) fields (u64 (total + value))
            (if (index =? 3) || (index =? 4) then u64 (idle + value) else idle)
      end
  end.

(** [readCPUTimes] on Linux: the first line of /proc/stat. *)
Definition readCPUTimes (content : result os_error string) : option cpuTimes :=
  match content with
  | Err _ => None
  | Ok content =>
      match fst (ScanLines content) with
      | [] => None
      | line :: _ =>
          match Fields line with
          | label :: fields =>
              if (length fields <? 4)%nat || negb (bool_decide (label = "cpu")) then None
              else sum_cpu_fields 0 fields 0 0
          | [] => None
          end
      end
  end.

(** ** Memory *)
Record memoryStats : Type := mkMem { memTotal : Z; memAvailable : Z; swapTotal : Z; swapFree : Z }.

Definition memory_line (stats : memoryStats) (line : string) : memoryStats :=
  match Fields line with
  | name :: value :: _ =>
      match ParseInt value with
      | Err _ => stats
      | Ok valueKB =>
          let name := TrimSuffix name ":" in
          let bytes := i64 (valueKB * 1024) in
          if bool_decide (name = "MemTotal")
          then mkMem bytes (memAvailable stats) (swapTotal stats) (swapFree stats)
          else if bool_decide (name = "MemAvailable")
          then mkMem (memTotal stats) bytes (swapTotal stats) (swapFree stats)
          else if bool_decide (name = "SwapTotal")
          then mkMem (memTotal stats) (memAvailable stats) bytes (swapFree stats)
          else if bool_decide (name = "SwapFree")
          then mkMem (memTotal stats) (memAvailable stats) (swapTotal stats) bytes
          else stats
      end
  | _ => stats
  end.

Definition parseMemoryStats (content : string) : memoryStats :=
  fold_left memory_line (fst (ScanLines content)) (mkMem 0 0 0 0).

Definition platformMemoryTotals (content : result os_error string) : Z * Z :=
  match content with
  | Err _ => (0, 0)
  | Ok content => let stats := parseMemoryStats content in (memTotal stats, memAvailable stats)
  end.
Definition platformSwapTotals (content : result os_error string) : Z * Z :=
  match content with
  | Err _ => (0, 0)
  | Ok content => let stats := parseMemoryStats content in (swapTotal stats, swapFree stats)
  end.

(** ** Load, processes, connections *)
Definition readLoadAverages (content : result os_error string) : spec_float * spec_float * spec_float :=
  match content with
  | Err _ => (f64_zero, f64_zero, f64_zero)
  | Ok content =>
      match Fields content with
      | a :: b :: c :: _ => (fst (ParseFloat64 a), fst (ParseFloat64 b), fst (ParseFloat64 c))
      | _ => (f64_zero, f64_zero, f64_zero)
      end
  end.

(** The entries of /proc with whether each is a directory. *)
Definition processCount (entries : result os_error (list (string * bool))) : Z :=
  match entries with
  | Err _ => 0
  | Ok entries => Z.of_nat (length (List.filter (fun '(name, dir) => dir && all_digits name) entries))
  end.

Inductive table_error : Type := TableRead (e : os_error) | TableEmpty | TableHeader | TableRow.

Definition row_ok (line : string) : bool :=
  match Fields line with
  | first :: _ => negb (length (Fields line) <? 10)%nat && HasSuffix first ":"
  | [] => false
  end.

Definition header_ok (line : string) : bool :=
  match Fields line with
  | sl :: local :: remote :: _ =>
      bool_decide (sl = "sl") && bool_decide (local = "local_address") &&
      (bool_decide (remote = "rem_address") || bool_decide (remote = "remote_address"))
  | _ => false
  end.

Definition tcpConnectionCountFromFileResult (content : result os_error string) : result table_error Z :=
  match content with
  | Err e => Err (TableRead e)
  | Ok content =>
      let trimmed := TrimSpace content in
      if bool_decide (trimmed = "") then Err TableEmpty
      else
        match Split trimmed (bytes [10]) with
        | [] => Err TableHeader
        | header :: rows =>
            if negb (header_ok header) then Err TableHeader
            else if forallb row_ok rows then Ok (Z.of_nat (length rows)) else Err TableRow
        end
  end.

Definition optionalConnectionCountFromFile (content : result os_error string) : result table_error Z :=
  match tcpConnectionCountFromFileResult content with
  | Err (TableRead ErrNotExist) => Ok 0
  | r => r
  end.

Definition connectionCounts (read : string -> result os_error string) : result table_error (Z * Z) :=
  tcp4 ← tcpConnectionCountFromFileResult (read "/proc/net/tcp");
  tcp6 ← optionalConnectionCountFromFile (read "/proc/net/tcp6");
  udp4 ← tcpConnectionCountFromFileResult (read "/proc/net/udp");
  udp6 ← optionalConnectionCountFromFile (read "/proc/net/udp6");
  Ok (tcp4 + tcp6, udp4 + udp6).

(** ** Interfaces *)
Definition normalize_step (acc : gset string * list string) (value : string) : gset string * list string :=
  let trimmed := TrimSpace value in
  if bool_decide (trimmed = "") || bool_decide (trimmed ∈ fst acc) then acc
  else ({[trimmed]} ∪ fst acc, snd acc ++ [trimmed]).
Definition normalizeAllowlist (values : list string) : list string :=
  snd (fold_left normalize_step values (∅, [])).

(** An empty set stands for Go's nil map: its length is 0 either way. *)
Definition allowlistSet (values : list string) : gset string := list_to_set (normalizeAllowlist values).

Definition defaultExcludedInterfacePrefixes : list string :=
  ["lo"; "docker"; "veth"; "br-"; "tun"; "utun"; "tailscale"; "kube"; "vmbr"; "tap"; "cni"; "flannel"; "cali";
   "weave"; "virbr"; "vnet"; "vethernet"; "virtualbox"; "vmware"; "hyper-v"; "loopback"; "isatap"; "teredo";
   "npcap"; "bluetooth"; "zt"].

Definition includeNetworkInterface (name : string) (allowlist : gset string) : bool :=
  let trimmed := TrimSpace name in
  if bool_decide (trimmed = "") then false
  else if negb (bool_decide (allowlist = ∅)) then bool_decide (trimmed ∈ allowlist)
  else
    let lower := ToLower trimmed in
    negb (existsb (fun prefix => bool_decide (lower = prefix) || HasPrefix lower prefix)
            defaultExcludedInterfacePrefixes).

(** ** Network totals *)
Record networkTotals : Type := mkNet { InBytes : Z; OutBytes : Z; SourceNames : list string }.
Definition noTotals : networkTotals := mkNet 0 0 [].

Inductive network_error : Type :=
| NetRead (e : os_error)
| NetFields (iface : string)
| NetCounter (iface : string)
| NetOverflow
| NetScan
| NetHeader
| NetCommand
| NetAPI (code : Z).

Definition parseNetworkCounter (value : string) : option Z :=
  match ParseUint value with
  | Ok parsed => if maxInt64 <? parsed then None else Some parsed
  | Err _ => None
  end.

(** The addition every platform's totals share. *)
Definition add_totals (totals : networkTotals) (inBytes outBytes : Z) (name : string)
  : result network_error networkTotals :=
  if (i64 (maxInt64 - InBytes totals) <? inBytes) || (i64 (maxInt64 - OutBytes totals) <? outBytes)
  then Err NetOverflow
  else Ok (mkNet (i64 (InBytes totals + inBytes)) (i64 (OutBytes totals + outBytes)) (SourceNames totals ++ [name])).

(** One line of /proc/net/dev. *)
Definition linux_line (allowlist : gset string) (totals : networkTotals) (line : string)
  : result network_error networkTotals :=
  match Cut line ":" with
  | None => Ok totals
  | Some (iface, rest) =>
      let iface := TrimSpace iface in
      if negb (includeNetworkInterface iface allowlist) then Ok totals
      else
        let fields := Fields rest in
        if (length fields <? 16)%nat then Err (NetFields iface)
        else
          match parseNetworkCounter (nth 0 fields ""), parseNetworkCounter (nth 8 fields "") with
          | Some inBytes, Some outBytes => add_totals totals inBytes outBytes iface
          | _, _ => Err (NetCounter iface)
          end
  end.

Fixpoint linux_loop (allowlist : gset string) (lines : list string) (totals : networkTotals) (foundHeader : bool)
  : result network_error (networkTotals * bool) :=
  match lines with
  | [] => Ok (totals, foundHeader)
  | line :: lines =>
      let line := TrimSpace line in
      if HasPrefix line "Inter-|" then linux_loop allowlist lines totals true
      else
        match linux_line allowlist totals line with
        | Err e => Err e
        | Ok totals => linux_loop allowlist lines totals foundHeader
        end
  end.

Definition parseLinuxNetworkTotals (content : string) (allowlist : gset string)
  : result network_error networkTotals :=
  let '(lines, tooLong) := ScanLines content in
  match linux_loop allowlist lines noTotals false with
  | Err e => Err e
  | Ok (totals, foundHeader) =>
      if tooLong then Err NetScan else if negb foundHeader then Err NetHeader else Ok totals
  end.

Definition readNetworkTotals (content : result os_error string) (allowlist : gset string)
  : result network_error networkTotals :=
  match content with
  | Err e => Err (NetRead e)
  | Ok content => parseLinuxNetworkTotals content allowlist
  end.

(** The identity of a set of counters; [sort.Strings] is the byte order. *)
Definition networkCounterSourceID (goos : string) (names : list string) : string :=
  match names with
  | [] => ""
  | _ =>
      let stable := merge_sort String.le names in
      hex_encode (Sum256 (goos +:+ bytes [0] +:+ GoStrings.Join stable (bytes [0])))
  end.

(** ** Static host facts *)
Definition osRelease (content : result os_error string) : string * string :=
  match content with
  | Err _ => ("linux", "")
  | Ok content =>
      let values := parseKeyValueLines content in
      let id := default "" (values !! "ID") in
      (if bool_decide (id = "") then "linux" else id, default "" (values !! "VERSION_ID"))
  end.

Definition trimmed_file (content : result os_error string) : string :=
  match content with Err _ => "" | Ok content => TrimSpace content end.
Definition kernelRelease (read : string -> result os_error string) : string :=
  trimmed_file (read "/proc/sys/kernel/osrelease").

Definition first_nonempty (l : list string) : string :=
  match List.filter (fun s => negb (bool_decide (s = ""))) l with [] => "" | s :: _ => s end.
Definition virtualizationName (read : string -> result os_error string) : string :=
  first_nonempty (map (fun p => trimmed_file (read p)) ["/sys/class/dmi/id/product_name"; "/sys/class/dmi/id/sys_vendor"]).

Fixpoint model_line (lines : list string) : string :=
  match lines with
  | [] => ""
  | line :: lines =>
      match Cut line ":" with
      | Some (key, value) => if bool_decide (TrimSpace key = "model name") then TrimSpace value else model_line lines
      | None => model_line lines
      end
  end.
Definition cpuModel (content : result os_error string) : string :=
  match content with Err _ => "" | Ok content => model_line (fst (ScanLines content)) end.

(** [value, _ := strconv.ParseInt(s, 10, 64)]: the value of a failed call. *)
Definition parse_int_value (s : string) : Z :=
  match ParseInt s with
  | Ok v => v
  | Err ErrSyntax => 0
  | Err ErrRange => if fst (split_sign s) then minInt64 else maxInt64
  end.

Fixpoint btime_line (lines : list string) : Z :=
  match lines with
  | [] => 0
  | line :: lines =>
      match Fields line with
      | [name; value] => if bool_decide (name = "btime") then parse_int_value value else btime_line lines
      | _ => btime_line lines
      end
  end.
Definition bootTime (content : result os_error string) : Z :=
  match content with Err _ => 0 | Ok content => btime_line (fst (ScanLines content)) end.

Definition uptimeSeconds (out_of_range : spec_float -> Z) (content : result os_error string) : Z :=
  match content with
  | Err _ => 0
  | Ok content =>
      match Fields content with
      | [] => 0
      | field :: _ =>
          match ParseFloat64 field with
          | (value, None) => f64_to_i64 out_of_range value
          | (_, Some _) => 0
          end
      end
  end.

Definition normalizedArch (arch : string) : string :=
  if bool_decide (arch = "amd64") then "x86_64" else if bool_decide (arch = "arm64") then "aarch64" else arch.

(** ** What one platform reads at one moment *)
Record readings : Type := mkReadings {
  r_cpu : option cpuTimes;
  r_memory : Z * Z;
  r_swap : Z * Z;
  r_load : spec_float -> Z -> spec_float * spec_float * spec_float;  (* from the processor share and the cores *)
  r_disk : list string -> Z * Z;
  r_network : gset string -> result network_error networkTotals;
  r_connections : option (Z * Z);
  r_processes : Z;
  r_uptime : Z;
  r_boot : Z;
  r_os : string * string;
  r_kernel : string;
  r_virtualization : string;
  r_cpu_model : string;
  r_hostname : string;
  r_cores : Z
}.

Definition present {A} (o : option A) : bool := match o with Some _ => true | None => false end.
Definition result_option {E A} (r : result E A) : option A := match r with Ok a => Some a | Err _ => None end.

(** Linux: everything comes from files, the entries of /proc and the disks. *)
Definition linux_readings (out_of_range : spec_float -> Z) (read : string -> result os_error string)
  (proc : result os_error (list (string * bool))) (disk : list string -> Z * Z) (hostname : string) (cores : Z)
  : readings :=
  mkReadings (readCPUTimes (read "/proc/stat")) (platformMemoryTotals (read "/proc/meminfo"))
    (platformSwapTotals (read "/proc/meminfo")) (fun _ _ => readLoadAverages (read "/proc/loadavg")) disk
    (readNetworkTotals (read "/proc/net/dev")) (result_option (connectionCounts read)) (processCount proc)
    (uptimeSeconds out_of_range (read "/proc/uptime")) (bootTime (read "/proc/stat"))
    (osRelease (read "/etc/os-release")) (kernelRelease read) (virtualizationName read)
    (cpuModel (read "/proc/cpuinfo")) hostname cores.

(** ** The collector *)
Record MetricsCollector : Type := mkCollector {
  previousCPU : option cpuTimes;  (* [hasCPU] is the constructor *)
  previousNet : networkTotals;
  previousNetSource : string;
  previousNetAt : Z;
  hasNet : bool;
  previousTCP : Z;
  previousUDP : Z;
  hasConnections : bool;
  networkAllowlist : gset string;
  diskAllowlist : list string
}.

Definition NewMetricsCollector (interfaces mounts : list string) : MetricsCollector :=
  mkCollector None noTotals "" time_zero false 0 0 false (allowlistSet interfaces) (normalizeAllowlist mounts).

Definition CollectHost (c : MetricsCollector) (r : readings) (goarch version : string) : HostInfo :=
  mkHost (r_hostname r) (fst (r_os r)) (snd (r_os r)) (r_kernel r) (normalizedArch goarch) (r_virtualization r)
    (r_cpu_model r) (r_cores r) (fst (r_memory r)) (snd (r_disk r (diskAllowlist c))) (r_boot r) version "" "" "".

(** [100 * (1 - idle / total)] over the interval, clamped. *)
Definition f64_100 : spec_float := f64_of_Z 100.
Definition cpu_usage (previous current : cpuTimes) : spec_float :=
  let totalDelta := u64 (Total current - Total previous) in
  let idleDelta := u64 (Idle current - Idle previous) in
  if totalDelta <=? 0 then f64_zero
  else
    let value := f64_mul (f64_sub (f64_of_Z 1) (f64_div (f64_of_Z idleDelta) (f64_of_Z totalDelta))) f64_100 in
    if f64_lt value f64_zero then f64_zero else if f64_lt f64_100 value then f64_100 else value.

Definition cpuPercent (previous current : option cpuTimes) : spec_float * option cpuTimes :=
  match current with
  | None => (f64_zero, previous)
  | Some times =>
      (match previous with None => f64_zero | Some previous => cpu_usage previous times end, Some times)
  end.

(** [d.Seconds()] *)
Definition Seconds (d : Z) : spec_float :=
  f64_add (f64_of_Z (d ÷ Second)) (f64_div (f64_of_Z (Z.rem d Second)) (f64_of_Z Second)).

Definition byte_rate (previous current : Z) (elapsed : spec_float) : spec_float :=
  f64_div (f64_of_Z (nonNegativeInt64 (i64 (current - previous)))) elapsed.

(** The network part of [CollectState]: rates, totals and source reported, and
    the collector after it. *)
Definition collect_network (goos : string) (c : MetricsCollector) (read : result network_error networkTotals) (now : Z)
  : spec_float * spec_float * networkTotals * string * MetricsCollector :=
  match read with
  | Ok totals =>
      let source := networkCounterSourceID goos (SourceNames totals) in
      let comparable := hasNet c && (bool_decide (source = "") || bool_decide (previousNetSource c = "") ||
                                     bool_decide (source = previousNetSource c)) in
      let elapsed := Seconds (time_sub now (previousNetAt c)) in
      let '(inSpeed, outSpeed) :=
        if comparable && f64_lt f64_zero elapsed
        then (byte_rate (InBytes (previousNet c)) (InBytes totals) elapsed,
              byte_rate (OutBytes (previousNet c)) (OutBytes totals) elapsed)
        else (f64_zero, f64_zero) in
      (inSpeed, outSpeed, totals, source,
       mkCollector (previousCPU c) totals source now true (previousTCP c) (previousUDP c) (hasConnections c)
         (networkAllowlist c) (diskAllowlist c))
  | Err _ =>
      if hasNet c then (f64_zero, f64_zero, previousNet c, previousNetSource c, c)
      else (f64_zero, f64_zero, noTotals, "", c)
  end.

Definition collect_connections (c : MetricsCollector) (read : option (Z * Z)) : Z * Z * MetricsCollector :=
  match read with
  | Some (tcp, udp) =>
      (tcp, udp,
       mkCollector (previousCPU c) (previousNet c) (previousNetSource c) (previousNetAt c) (hasNet c) tcp udp true
         (networkAllowlist c) (diskAllowlist c))
  | None => if hasConnections c then (previousTCP c, previousUDP c, c) else (0, 0, c)
  end.

Definition with_previousCPU (cpu : option cpuTimes) (c : MetricsCollector) : MetricsCollector :=
  mkCollector cpu (previousNet c) (previousNetSource c) (previousNetAt c) (hasNet c) (previousTCP c) (previousUDP c)
    (hasConnections c) (networkAllowlist c) (diskAllowlist c).

Definition CollectState (goos : string) (c : MetricsCollector) (r : readings) (now : Z) (random : option string)
  (sequence : Z) : StateSample * MetricsCollector * Z :=
  let '(cpu, times) := cpuPercent (previousCPU c) (r_cpu r) in
  let c := with_previousCPU times c in
  let '(load1, load5, load15) := r_load r cpu (r_cores r) in
  let '(diskUsed, diskTotal) := r_disk r (diskAllowlist c) in
  let netRead := r_network r (networkAllowlist c) in
  let '(inSpeed, outSpeed, netTotals, netCounterSource, c) := collect_network goos c netRead now in
  let '(tcp, udp, c) := collect_connections c (r_connections r) in
  let m :=
    mkMeasurement (Unix now) cpu load1 load5 load15
      (nonNegativeInt64 (i64 (fst (r_memory r) - snd (r_memory r)))) (fst (r_memory r))
      (nonNegativeInt64 (i64 (fst (r_swap r) - snd (r_swap r)))) (fst (r_swap r))
      diskUsed diskTotal (InBytes netTotals) (OutBytes netTotals) inSpeed outSpeed
      (Some (present (result_option netRead))) netCounterSource (r_processes r) tcp udp
      (Some (present (r_connections r))) (r_uptime r) in
  let '(sample, sequence) := withNewStateSampleIdentifiers (mkState "" "" m) now random sequence in
  (sample, c, sequence).
