(* ===== verification/MetricsFacts.v ===== *)
(** * What a state report says (metrics.go)

    The processor share stays within its range; every report of a run says what
    the latest successful readings say; the Linux counters are the sum over the
    selected interfaces; the identity of the counters forgets their order. *)

From S2P Require Export Metrics.

(** ** Words between single spaces *)
Definition graphic (c : ascii) : bool := (33 <=? byte_val c) && (byte_val c <=? 126).
Definition word (w : string) : Prop := w <> "" /\ str_forall graphic w = true.

Lemma space_rune_head p : p ∈ space_runes -> exists c r, p = String c r /\ graphic c = false.
Proof.
  assert (Forall (fun p => match p with String c _ => negb (graphic c) = true | "" => False end) space_runes) as H.
  { unfold space_runes. repeat constructor. }
  intros Hp. rewrite Forall_forall in H. apply H in Hp. destruct p as [|c r]; [done|].
  exists c, r. split; [done|]. by apply negb_true_iff.
Qed.

Lemma strip_space_graphic c s : graphic c = true -> strip_any space_runes (String c s) = None.
Proof.
  intros Hc. apply strip_any_None. intros p r Hp He. apply space_rune_head in Hp as (d & q & -> & Hd).
  rewrite app_cons_str in He. injection He as -> _. congruence.
Qed.

Lemma fields_word w : str_forall graphic w = true -> forall n s cur,
  fields_fuel (String.length w + n) (w +:+ s) cur = fields_fuel n s (str_rev w +:+ cur).
Proof.
  induction w as [|c w IH]; intros Hw n s cur; [done|]. cbn [str_forall] in Hw. apply andb_true_iff in Hw as [Hc Hw].
  cbn [String.length Nat.add fields_fuel]. rewrite app_cons_str, (strip_space_graphic c) by done.
  rewrite IH by done. f_equal. change (String c w) with (String c "" +:+ w).
  by rewrite str_rev_app, app_assoc_str.
Qed.

Lemma flush_word w rest : word w -> flush_field (str_rev w +:+ "") rest = w :: rest.
Proof.
  intros [Hn _]. rewrite app_nil_r_str. unfold flush_field. destruct (str_rev w) eqn:E.
  - exfalso. apply Hn. by rewrite <- (str_rev_involutive w), E.
  - by rewrite <- E, str_rev_involutive.
Qed.

Lemma Fields_Join ws : Forall word ws -> Fields (GoStrings.Join ws " ") = ws.
Proof.
  intros Hw. unfold Fields. induction Hw as [|w ws H Hw IH]; [done|]. destruct ws as [|v ws].
  - cbn [GoStrings.Join]. replace (S (String.length w)) with (String.length w + 1)%nat by lia.
    rewrite <- (app_nil_r_str w) at 2. rewrite (fields_word w (proj2 H)). cbn [fields_fuel]. 
    change (strip_any space_runes "") with (@None string). cbn match. by rewrite flush_word.
  - change (GoStrings.Join (w :: v :: ws) " ") with (w +:+ " " +:+ GoStrings.Join (v :: ws) " ").
    set (rest := GoStrings.Join (v :: ws) " ") in *. rewrite !length_app_str. cbn [String.length].
    replace (S (String.length w + (1 + String.length rest))) with (String.length w + S (S (String.length rest)))%nat by lia.
    rewrite (fields_word w (proj2 H)). rewrite <- IH. generalize (S (String.length rest)) as n. intros n.
    cbn [fields_fuel]. change (strip_any space_runes (" " +:+ rest)) with (Some rest). cbn match. by rewrite flush_word.
Qed.

(** ** A run of the collector *)
Record observation : Type := mkObservation {
  o_readings : readings; o_now : Z; o_random : option string
}.

Fixpoint collect_states (goos : string) (c : MetricsCollector) (sequence : Z) (h : list observation)
  : list StateSample :=
  match h with
  | [] => []
  | o :: h =>
      let '(s, c, sequence) := CollectState goos c (o_readings o) (o_now o) (o_random o) sequence in
      s :: collect_states goos c sequence h
  end.

(** ** What a report should say, from the readings alone *)
Section Expected.
Context (goos : string) (allow : gset string) (disks : list string).

(** The latest successful reading. *)
Definition latest {A} (f : observation -> option A) (h : list observation) : option A := last (omap f h).

Definition network_reading (o : observation) : option (networkTotals * Z) :=
  totals ← result_option (r_network (o_readings o) allow); Some (totals, o_now o).
Definition cpu_reading (o : observation) : option cpuTimes := r_cpu (o_readings o).
Definition connection_reading (o : observation) : option (Z * Z) := r_connections (o_readings o).

Definition source_of (t : networkTotals) : string := networkCounterSourceID goos (SourceNames t).
Definition same_source (a b : networkTotals) : bool :=
  bool_decide (source_of a = "") || bool_decide (source_of b = "") || bool_decide (source_of a = source_of b).

(** Rates need two readings of the same counters at increasing times. *)
Definition expected_rate (field : networkTotals -> Z) (before : list observation) (o : observation) : spec_float :=
  match latest network_reading before, network_reading o with
  | Some (old, at_), Some (new, now) =>
      let elapsed := Seconds (time_sub now at_) in
      if same_source new old && f64_lt f64_zero elapsed then byte_rate (field old) (field new) elapsed else f64_zero
  | _, _ => f64_zero
  end.

Definition expected_cpu (before : list observation) (o : observation) : spec_float :=
  match latest cpu_reading before, cpu_reading o with
  | Some old, Some new => cpu_usage old new
  | _, _ => f64_zero
  end.

Definition used (reading : Z * Z) : Z := nonNegativeInt64 (i64 (fst reading - snd reading)).

Definition expected (before : list observation) (o : observation) : Measurement :=
  let r := o_readings o in
  let totals := default noTotals (fst <$> latest network_reading (before ++ [o])) in
  let connections := default (0, 0) (latest connection_reading (before ++ [o])) in
  let disk := r_disk r disks in
  let cpu := expected_cpu before o in
  let '(l1, l5, l15) := r_load r cpu (r_cores r) in
  mkMeasurement (Unix (o_now o)) cpu l1 l5 l15
    (used (r_memory r)) (fst (r_memory r)) (used (r_swap r)) (fst (r_swap r)) (fst disk) (snd disk)
    (InBytes totals) (OutBytes totals) (expected_rate InBytes before o) (expected_rate OutBytes before o)
    (Some (present (network_reading o))) (source_of totals)
    (r_processes r) (fst connections) (snd connections)
    (Some (present (connection_reading o))) (r_uptime r).

(** The collector is the memory of the latest successful readings. *)
Definition collector_after (before : list observation) : MetricsCollector :=
  let net := latest network_reading before in
  let connections := default (0, 0) (latest connection_reading before) in
  mkCollector (latest cpu_reading before) (default noTotals (fst <$> net))
    (source_of (default noTotals (fst <$> net))) (default time_zero (snd <$> net)) (present net)
    (fst connections) (snd connections) (present (latest connection_reading before)) allow disks.

Lemma latest_snoc {A} (f : observation -> option A) h o :
  latest f (h ++ [o]) = match f o with Some a => Some a | None => latest f h end.
Proof.
  unfold latest. rewrite omap_app. cbn. destruct (f o); [apply last_snoc|]. by rewrite app_nil_r.
Qed.

Definition identified (s : StateSample) (m : Measurement) : Prop := exists id, id <> "" /\ s = mkState id id m.

Lemma withNew_identified s ts random sequence :
  identified (withNewStateSampleIdentifiers s ts random sequence).1 (Measured s).
Proof.
  unfold withNewStateSampleIdentifiers, newStateSampleID. destruct random as [r|]; (eexists; split; [|reflexivity]); done.
Qed.

Lemma CollectState_step before o sequence :
  let '(s, c, _) := CollectState goos (collector_after before) (o_readings o) (o_now o) (o_random o) sequence in
  identified s (expected before o) /\ c = collector_after (before ++ [o]).
Proof.
  destruct o as [r now random]. unfold CollectState, cpuPercent, collect_network, collect_connections, collector_after,
    expected, expected_rate, expected_cpu, with_previousCPU, used.
  rewrite !latest_snoc. unfold network_reading, cpu_reading, connection_reading.
  cbn [o_readings o_now o_random previousCPU previousNet previousNetSource previousNetAt hasNet previousTCP previousUDP
    hasConnections networkAllowlist diskAllowlist].
  destruct (r_disk r disks) as [du dt].
  destruct (latest _ before) as [cpu0|]; destruct (latest _ before) as [[t0 at0]|];
    destruct (latest _ before) as [[tcp0 udp0]|];
    destruct (r_cpu r) as [cpu|]; destruct (r_network r allow) as [e|t]; destruct (r_connections r) as [[tcp udp]|];
    cbn -[source_of networkCounterSourceID withNewStateSampleIdentifiers cpu_usage byte_rate Seconds f64_lt bool_decide
      nonNegativeInt64 i64 Unix time_sub f64_zero];
    match goal with |- context [r_load r ?x ?y] => destruct (r_load r x y) as [[l1 l5] l15] end;
    unfold same_source, source_of; cbn [SourceNames noTotals fst snd];
    try (destruct (_ && f64_lt _ _); cbn -[withNewStateSampleIdentifiers bool_decide nonNegativeInt64 i64 f64_zero]);
    match goal with |- context [withNewStateSampleIdentifiers ?s ?a ?b ?c] =>
      pose proof (withNew_identified s a b c) as Hm;
      destruct (withNewStateSampleIdentifiers s a b c) as [sample sequence'] end; by split.
Qed.

Lemma collect_states_identified h : forall before sequence,
  Forall2 identified (collect_states goos (collector_after before) sequence h)
    (imap (fun i o => expected (before ++ take i h) o) h).
Proof.
  induction h as [|o h IH]; intros before sequence; [constructor|]. cbn [collect_states].
  pose proof (CollectState_step before o sequence) as Hs.
  destruct (CollectState _ _ _ _ _ _) as [[s c] sequence']. destruct Hs as [Hm ->].
  rewrite imap_cons. cbn [take]. rewrite app_nil_r. constructor; [exact Hm|].
  erewrite imap_ext; [apply IH|]. intros i x _. cbn. by rewrite <- (assoc_L (++)).
Qed.

Lemma collect_states_expected h before sequence :
  map Measured (collect_states goos (collector_after before) sequence h) =
  imap (fun i o => expected (before ++ take i h) o) h.
Proof.
  pose proof (collect_states_identified h before sequence) as H. revert H. generalize (imap
    (fun i o => expected (before ++ take i h) o) h) as ms.
  generalize (collect_states goos (collector_after before) sequence h) as ss. intros ss ms H.
  induction H as [|s m ss ms (id & _ & ->) _ IH]; [done|]. cbn. by rewrite IH.
Qed.
End Expected.

(** C10. Along any run of a fresh collector every report carries exactly what the readings made so far say: the
    totals, counter identity and connection counts of the latest successful reading (zero before the first), the
    validity flags of the reading made now, and rates and processor share computed from the two latest successful
    readings, zero when the reading made now fails, the counters are not the same or no time has passed. *)
Theorem reports_follow_latest_readings goos interfaces mounts sequence h :
  map Measured (collect_states goos (NewMetricsCollector interfaces mounts) sequence h) =
  imap (fun i o => expected goos (allowlistSet interfaces) (normalizeAllowlist mounts) (take i h) o) h.
Proof. exact (collect_states_expected goos (allowlistSet interfaces) (normalizeAllowlist mounts) h [] sequence). Qed.

(** ** The processor share *)
Lemma f64_1_value : f64_of_Z 1 = S754_finite false 4503599627370496 (-52).
Proof. vm_compute. reflexivity. Qed.
Lemma f64_100_value : f64_100 = S754_finite false 7036874417766400 (-46).
Proof. vm_compute. reflexivity. Qed.

Lemma cpu_value_num idle total : 0 < total < two64 ->
  f64_num (f64_mul (f64_sub (f64_of_Z 1) (f64_div (f64_of_Z idle) (f64_of_Z total))) f64_100).
Proof.
  intros Ht. destruct (f64_of_Z_finite total Ht) as (m & e & -> & _).
  rewrite f64_100_value, f64_1_value. apply f64_mul_num, f64_sub_num; [lia|]. apply f64_div_num, f64_of_Z_num.
Qed.

Lemma num_not_lt f g : f64_num f -> f64_num g -> f64_lt f g = false -> f64_le g f = true.
Proof.
  unfold f64_lt, f64_le, SFltb, SFleb. destruct f as [sf|sf| |sf mf ef], g as [sg|sg| |sg mg eg]; try done; intros _ _;
    unfold SFcompare; try (destruct sf; done); try (destruct sg; done); try (destruct sf, sg; done).
  pose proof (Pos.compare_cont_antisym mf mg Eq) as Ha. cbn [CompOpp] in Ha.
  rewrite (Z.compare_antisym ef eg), <- Ha.
  destruct sf, sg; try done; destruct (ef ?= eg); try done; cbn; by destruct (Pos.compare_cont Eq mf mg).
Qed.

Lemma cpu_share_range previous current : let share := fst (cpuPercent previous current) in
  f64_num share /\ f64_le f64_zero share = true /\ f64_le share f64_100 = true.
Proof.
  assert (f64_num f64_zero /\ f64_le f64_zero f64_zero = true /\ f64_le f64_zero f64_100 = true) as Hz by by vm_compute.
  unfold cpuPercent. destruct current as [current|]; [|exact Hz]. destruct previous as [previous|]; [|exact Hz].
  cbn [fst]. unfold cpu_usage. pose proof (u64_range (Total current - Total previous)) as Hr.
  destruct (Z.leb_spec (u64 (Total current - Total previous)) 0) as [|Ht]; [exact Hz|].
  pose proof (cpu_value_num (u64 (Idle current - Idle previous)) _ (conj Ht (proj2 Hr))) as Hn.
  revert Hn. generalize (f64_mul (f64_sub (f64_of_Z 1) (f64_div (f64_of_Z (u64 (Idle current - Idle previous)))
    (f64_of_Z (u64 (Total current - Total previous))))) f64_100) as v. intros v Hv.
  assert (f64_num f64_100) as H100 by by vm_compute.
  destruct (f64_lt v f64_zero) eqn:E0; [exact Hz|]. destruct (f64_lt f64_100 v) eqn:E1.
  - split; [done|]. by vm_compute.
  - split; [done|]. split; by apply num_not_lt.
Qed.

(** The processor share reported is a number between 0 and 100, whatever the counters did: also when they went
    backwards or wrapped. *)
Theorem cpu_percent_bounded previous current : let share := fst (cpuPercent previous current) in
  f64_num share /\ f64_le f64_zero share = true /\ f64_le share f64_100 = true.
Proof. exact (cpu_share_range previous current). Qed.

(** A counter that goes back reads as full load: the difference wraps. *)
Example cpu_backwards : cpu_usage (mkCpu 1000 500) (mkCpu 900 510) = f64_100 /\
  cpu_usage (mkCpu 1000 500) (mkCpu 1010 490) = f64_zero.
Proof. vm_compute. done. Qed.

(** ** The Linux counters *)
Definition header_line (line : string) : bool := HasPrefix line "Inter-|".

(** The interface a line is about, when it is selected. *)
Definition selected_line (allow : gset string) (line : string) : bool :=
  negb (header_line line) &&
  match Cut line ":" with
  | Some (iface, _) => includeNetworkInterface (TrimSpace iface) allow
  | None => false
  end.

Definition line_counters (line : string) : option (string * (Z * Z)) :=
  match Cut line ":" with
  | Some (iface, rest) =>
      if (length (Fields rest) <? 16)%nat then None
      else
        inBytes ← parseNetworkCounter (nth 0 (Fields rest) "");
        outBytes ← parseNetworkCounter (nth 8 (Fields rest) "");
        Some (TrimSpace iface, (inBytes, outBytes))
  | None => None
  end.

(** The totals as one sum: every selected line must have its two counters, and
    the two sums must be within [int64]. *)
Definition sum_rows (base : networkTotals) (rows : list (string * (Z * Z))) : option networkTotals :=
  let inSum := InBytes base + Zsum (map (fun r => r.2.1) rows) in
  let outSum := OutBytes base + Zsum (map (fun r => r.2.2) rows) in
  if (inSum <=? maxInt64) && (outSum <=? maxInt64)
  then Some (mkNet inSum outSum (SourceNames base ++ map fst rows)) else None.

Definition reference_totals (allow : gset string) (content : string) : option networkTotals :=
  let '(lines, tooLong) := ScanLines content in
  let lines := map TrimSpace lines in
  rows ← mapM line_counters (List.filter (selected_line allow) lines);
  totals ← sum_rows noTotals rows;
  if negb tooLong && existsb header_line lines then Some totals else None.

Lemma digits_value_nonneg s : forall acc, str_forall is_digit s = true -> 0 <= acc -> 0 <= digits_value s acc.
Proof.
  induction s as [|c s IH]; intros acc H Ha; [done|]. cbn [str_forall digits_value] in *.
  apply andb_true_iff in H as [Hc H]. apply IH; [done|].
  unfold digit_val. apply andb_true_iff in Hc as [Hc _]. lia.
Qed.

Lemma parseNetworkCounter_range v z : parseNetworkCounter v = Some z -> 0 <= z <= maxInt64.
Proof.
  unfold parseNetworkCounter, ParseUint. destruct (all_digits v) eqn:Ed; [|done].
  destruct (_ <? two64); [|done]. destruct (Z.ltb_spec maxInt64 (digits_value v 0)); [done|].
  intros [= <-]. split; [|done]. apply digits_value_nonneg; [|lia].
  unfold all_digits in Ed. by destruct v.
Qed.

Definition totals_wf (t : networkTotals) : Prop := 0 <= InBytes t <= maxInt64 /\ 0 <= OutBytes t <= maxInt64.

Lemma i64_nonneg z : 0 <= z <= maxInt64 -> i64 z = z.
Proof. intros [H0 H]. apply i64_id. split; [by trans 0|done]. Qed.

Lemma add_totals_spec t i o name : totals_wf t -> 0 <= i -> 0 <= o ->
  add_totals t i o name =
    (if (InBytes t + i <=? maxInt64) && (OutBytes t + o <=? maxInt64)
     then Ok (mkNet (InBytes t + i) (OutBytes t + o) (SourceNames t ++ [name])) else Err NetOverflow).
Proof.
  unfold totals_wf. intros [[Hi0 Hi] [Ho0 Ho]] Hi' Ho'. unfold add_totals.
  rewrite !(i64_nonneg (maxInt64 - _)) by (revert Hi Ho; generalize maxInt64; lia).
  destruct (Z.ltb_spec (maxInt64 - InBytes t) i), (Z.leb_spec (InBytes t + i) maxInt64); try lia; [done|].
  destruct (Z.ltb_spec (maxInt64 - OutBytes t) o), (Z.leb_spec (OutBytes t + o) maxInt64); try lia; [done|].
  cbn [orb andb]. by rewrite !i64_nonneg by lia.
Qed.

Lemma linux_line_spec allow t line : totals_wf t -> header_line line = false ->
  result_option (linux_line allow t line) =
    (if selected_line allow line then row ← line_counters line; sum_rows t [row] else Some t).
Proof.
  intros Ht Hh. unfold selected_line, linux_line, line_counters. rewrite Hh. cbn [negb andb].
  destruct (Cut line ":") as [[iface rest]|]; [|done].
  destruct (includeNetworkInterface (TrimSpace iface) allow); [|done]. cbn [negb].
  destruct (length (Fields rest) <? 16)%nat; [done|].
  destruct (parseNetworkCounter (nth 0 (Fields rest) "")) as [i|] eqn:Ei; [|done].
  destruct (parseNetworkCounter (nth 8 (Fields rest) "")) as [o|] eqn:Eo; [|done].
  apply parseNetworkCounter_range in Ei, Eo. cbn. rewrite add_totals_spec by lia || done.
  unfold sum_rows. cbn. rewrite !Z.add_0_r. by destruct (_ && _).
Qed.

Lemma line_counters_range line row : line_counters line = Some row -> 0 <= row.2.1 /\ 0 <= row.2.2.
Proof.
  unfold line_counters. destruct (Cut line ":") as [[iface rest]|]; [|done].
  destruct (length (Fields rest) <? 16)%nat; [done|].
  destruct (parseNetworkCounter (nth 0 _ _)) as [i|] eqn:Ei; cbn [mbind option_bind]; [|done].
  destruct (parseNetworkCounter (nth 8 _ _)) as [o|] eqn:Eo; cbn [mbind option_bind]; [|done].
  apply parseNetworkCounter_range in Ei, Eo. cbn. intros [= <-]. cbn. lia.
Qed.

(** Adding one row and then the others is adding them all. *)
Lemma sum_rows_cons t row rows : 0 <= row.2.1 -> 0 <= row.2.2 ->
  Forall (fun r => 0 <= r.2.1 /\ 0 <= r.2.2) rows ->
  (t' ← sum_rows t [row]; sum_rows t' rows) = sum_rows t (row :: rows).
Proof.
  intros Hi Ho Hr. unfold sum_rows. cbn [map Zsum]. rewrite !Z.add_0_r.
  assert (0 <= Zsum (map (fun r => r.2.1) rows) /\ 0 <= Zsum (map (fun r => r.2.2) rows)) as [Hsi Hso].
  { clear -Hr. induction Hr as [|r rows [H1 H2] _ IH]; cbn [map Zsum]; lia. }
  revert Hsi Hso. generalize (Zsum (map (fun r => r.2.1) rows)), (Zsum (map (fun r => r.2.2) rows)). intros si so Hsi Hso.
  destruct (Z.leb_spec (InBytes t + row.2.1) maxInt64), (Z.leb_spec (OutBytes t + row.2.2) maxInt64);
    cbn -[maxInt64]; rewrite ?Z.add_assoc, <- ?(assoc_L (++)); [done| | |];
    destruct (Z.leb_spec (InBytes t + row.2.1 + si) maxInt64), (Z.leb_spec (OutBytes t + row.2.2 + so) maxInt64); (done || lia).
Qed.

Lemma noTotals_wf : totals_wf noTotals.
Proof. by repeat split. Qed.

Lemma sum_rows_wf t row t' : totals_wf t -> 0 <= row.2.1 -> 0 <= row.2.2 -> Some t' = sum_rows t [row] -> totals_wf t'.
Proof.
  unfold totals_wf, sum_rows. cbn -[maxInt64]. rewrite !Z.add_0_r. intros Ht Hi Ho.
  destruct (Z.leb_spec (InBytes t + row.2.1) maxInt64), (Z.leb_spec (OutBytes t + row.2.2) maxInt64);
    try done. intros [= ->]. cbn -[maxInt64]. lia.
Qed.

Lemma mapM_counters_range lines rows : mapM line_counters lines = Some rows ->
  Forall (fun r => 0 <= r.2.1 /\ 0 <= r.2.2) rows.
Proof.
  intros Hm%mapM_Some. induction Hm as [|line row lines rows Hr _ IH]; constructor; [|done].
  by eapply line_counters_range.
Qed.

Lemma linux_loop_spec allow lines : forall t found, totals_wf t ->
  result_option (linux_loop allow lines t found) =
  (let lines := map TrimSpace lines in
   rows ← mapM line_counters (List.filter (selected_line allow) lines);
   t ← sum_rows t rows;
   Some (t, found || existsb header_line lines)).
Proof.
  induction lines as [|line lines IH]; intros t found Ht; cbn [linux_loop map].
  - cbn. unfold sum_rows. cbn. rewrite !Z.add_0_r, orb_false_r, app_nil_r.
    destruct Ht as [[_ Hi] [_ Ho]]. apply Z.leb_le in Hi, Ho. rewrite Hi, Ho. by destruct t.
  - cbn [List.filter existsb]. fold (header_line (TrimSpace line)). destruct (header_line (TrimSpace line)) eqn:Eh.
    + rewrite IH by done. unfold selected_line at 2. rewrite Eh. cbn. by rewrite orb_true_r.
    + pose proof (linux_line_spec allow t (TrimSpace line) Ht Eh) as Hl.
      destruct (linux_line allow t (TrimSpace line)) as [t1|e]; cbn in Hl;
        destruct (selected_line allow (TrimSpace line)); cbn [mapM].
      * destruct (line_counters (TrimSpace line)) as [row|] eqn:Er; [|done].
        apply line_counters_range in Er as [Hi Ho]. cbn in Hl |- *.
        rewrite IH by by eapply sum_rows_wf. cbn.
        destruct (mapM line_counters _) as [rows|] eqn:Em; [|done]. cbn. rewrite <- sum_rows_cons, <- Hl; [done..|].
        by eapply mapM_counters_range.
      * injection Hl as ->. by rewrite IH.
      * destruct (line_counters (TrimSpace line)) as [row|] eqn:Er; [|done].
        apply line_counters_range in Er as [Hi Ho]. cbn in Hl |- *.
        destruct (mapM line_counters _) as [rows|] eqn:Em; [|done]. cbn. rewrite <- sum_rows_cons, <- Hl; [done..|].
        by eapply mapM_counters_range.
      * done.
Qed.

(** C35. The totals read from /proc/net/dev are the exact sums, over the lines of the selected interfaces, of the
    bytes received and sent: the accumulation never wraps, and it fails as soon as a selected line has no valid
    counters, a sum leaves [int64], a line is too long or the header is missing. *)
Theorem linux_totals_are_sums allow content :
  result_option (parseLinuxNetworkTotals content allow) = reference_totals allow content.
Proof.
  unfold parseLinuxNetworkTotals, reference_totals. destruct (ScanLines content) as [lines tooLong].
  pose proof (linux_loop_spec allow lines noTotals false noTotals_wf) as Hl. cbn [orb] in Hl.
  destruct (linux_loop allow lines noTotals false) as [[t found]|e]; cbn in Hl |- *.
  - destruct (mapM line_counters _) as [rows|]; [|done]. cbn in Hl |- *.
    destruct (sum_rows noTotals rows) as [t'|]; [|done]. cbn in Hl |- *. injection Hl as -> ->.
    destruct tooLong; [done|]. by destruct (existsb header_line _).
  - destruct (mapM line_counters _) as [rows|]; [|done]. cbn in Hl |- *. by destruct (sum_rows noTotals rows).
Qed.

(** ** The identity of the counters *)

(** The identity of the counters is that of the set of interfaces with their multiplicities: it does not depend
    on the order in which the system lists them, and is empty only when there are none. *)
Theorem counter_identity_ignores_order goos names names' : names ≡ₚ names' ->
  networkCounterSourceID goos names = networkCounterSourceID goos names' /\
  (networkCounterSourceID goos names = "" <-> names = []).
Proof.
  intros Hp. unfold networkCounterSourceID. split.
  - assert (merge_sort String.le names = merge_sort String.le names') as ->.
    { apply (Sorted_unique String.le); [apply (Sorted_merge_sort _)..|]. by rewrite !merge_sort_Permutation. }
    destruct names as [|n names]; [by apply Permutation_nil in Hp as ->|].
    destruct names'; [by apply Permutation_sym, Permutation_nil in Hp|done].
  - destruct names as [|n names]; [done|]. split; [|done]. intros H. exfalso. apply (f_equal String.length) in H.
    by rewrite hex_encode_length, Sum256_length in H.
Qed.
Lemma counter_identity_ignores_order_witness :
  networkCounterSourceID "linux" ["eth0"; "wlan0"] = networkCounterSourceID "linux" ["wlan0"; "eth0"].
Proof. apply counter_identity_ignores_order. apply perm_swap. Defined.

(** ** Every report is well formed *)
Definition finite (f : spec_float) : Prop :=
  match f with S754_zero _ | S754_finite _ _ _ => True | _ => False end.

Record sample_wf (s : StateSample) : Prop := {
  wf_cpu : f64_le f64_zero (CPUPercent (Measured s)) = true /\ f64_le (CPUPercent (Measured s)) f64_100 = true;
  wf_in_rate : finite (NetInSpeedBps (Measured s)) /\ f64_sign (NetInSpeedBps (Measured s)) = false;
  wf_out_rate : finite (NetOutSpeedBps (Measured s)) /\ f64_sign (NetOutSpeedBps (Measured s)) = false;
  wf_memory : 0 <= MemoryUsedBytes (Measured s) <= maxInt64;
  wf_swap : 0 <= SwapUsedBytes (Measured s) <= maxInt64;
  wf_flags : is_Some (NetTotalsValid (Measured s)) /\ is_Some (ConnectionCountsValid (Measured s));
  wf_id : SampleID s = IdempotencyKey s /\ SampleID s <> "";
  wf_text : is_Some (state_text s) <->
    finite (Load1 (Measured s)) /\ finite (Load5 (Measured s)) /\ finite (Load15 (Measured s))
}.

Lemma float_text_finite f : is_Some (float_text f) <-> finite f.
Proof.
  destruct f as [s|s| |s m e]; cbn [finite float_text]; split; try done; try (by intros [? [=]]).
  intros _. by destruct (shortest_decimal _ _).
Qed.

(** A report has an encoding when each of its floating-point fields has one. *)
Lemma state_text_some s : is_Some (state_text s) <->
  Forall finite [CPUPercent (Measured s); Load1 (Measured s); Load5 (Measured s); Load15 (Measured s);
    NetInSpeedBps (Measured s); NetOutSpeedBps (Measured s)].
Proof.
  rewrite !Forall_cons, Forall_nil, <- !float_text_finite. unfold state_text. split.
  - intros [t H]. repeat (apply bind_Some in H as (? & -> & H)). by split_and!.
  - intros ([? ->] & [? ->] & [? ->] & [? ->] & [? ->] & [? ->] & _). by eexists.
Qed.

Lemma in_range_finite lo hi f : in_range lo hi f -> finite f.
Proof. by destruct f. Qed.

Lemma time_sub_range t u : in_i64 (time_sub t u).
Proof.
  unfold time_sub, in_i64. assert (minInt64 <= maxInt64) by done.
  destruct (Z.ltb_spec (t - u) minInt64); [lia|]. destruct (Z.ltb_spec maxInt64 (t - u)); lia.
Qed.

Lemma Second_value : f64_of_Z Second = S754_finite false 8388608000000000 (-23).
Proof. vm_compute. reflexivity. Qed.

Lemma Seconds_range d : in_i64 d -> in_range (-272) 700 (Seconds d).
Proof.
  intros Hd. unfold Seconds.
  assert (Z.abs (d ÷ Second) < 2 ^ 64 /\ Z.abs (Z.rem d Second) < 2 ^ 64) as [Hq Hr].
  { assert (Z.abs d < 2 ^ 64) as Hd' by (revert Hd; unfold in_i64, minInt64, maxInt64, two63; lia).
    split; (eapply Z.le_lt_trans; [|exact Hd']).
    - rewrite <- Z.quot_abs by done. apply Z.quot_le_upper_bound; [done|]. unfold Second. lia.
    - rewrite <- Z.rem_abs by done. apply Z.rem_le; [lia|done]. }
  assert (in_range (-23) (-23) (f64_of_Z Second)) as Hs by by rewrite Second_value.
  assert (forall s, f64_of_Z Second <> S754_zero s) as Hz by by rewrite Second_value.
  destruct (f64_div_range (-53) 65 (-23) (-23) _ _ (f64_of_Z_range _ Hr) Hs Hz) as [Hb _]; [lia..|].
  eapply in_range_weaken; [apply (f64_add_range (-136) 196)| |]; try lia.
  - eapply in_range_weaken; [by apply f64_of_Z_range|lia..].
  - eapply in_range_weaken; [exact Hb|lia..].
Qed.

Lemma nonNegative_i64_range z : 0 <= nonNegativeInt64 (i64 z) <= maxInt64.
Proof.
  pose proof (i64_range z) as [_ H]. unfold nonNegativeInt64.
  destruct (Z.ltb_spec (i64 z) 0); [by split|by split].
Qed.

Lemma byte_rate_wf old new d : in_i64 d -> f64_lt f64_zero (Seconds d) = true ->
  finite (byte_rate old new (Seconds d)) /\ f64_sign (byte_rate old new (Seconds d)) = false.
Proof.
  intros Hd Hlt. unfold byte_rate. pose proof (Seconds_range d Hd) as Hr.
  pose proof (nonNegative_i64_range (new - old)) as Hn. revert Hn.
  generalize (nonNegativeInt64 (i64 (new - old))) as z. intros z Hz.
  assert (Z.abs z < 2 ^ 64) as Hz' by (revert Hz; unfold maxInt64, two63; lia).
  assert (f64_sign (f64_of_Z z) = false) as Hs.
  { destruct (Z.eq_dec z 0) as [->|Hne]; [done|].
    destruct (f64_of_Z_finite z) as (m & e & -> & _); [lia|done]. }
  assert (f64_sign (Seconds d) = false /\ forall s, Seconds d <> S754_zero s) as [Hsd Hnz].
  { revert Hlt. destruct (Seconds d) as [s|s| |s m e]; try done. by destruct s. }
  destruct (f64_div_range (-53) 65 (-272) 700 _ _ (f64_of_Z_range z Hz') Hr Hnz) as [Hd1 Hd2]; [lia..|].
  split; [by eapply in_range_finite|]. by rewrite Hd2, Hs, Hsd.
Qed.

Lemma expected_wf goos allow disks before o id : id <> "" ->
  sample_wf (mkState id id (expected goos allow disks before o)).
Proof.
  intros Hid. unfold expected.
  assert (forall field, finite (expected_rate goos allow field before o) /\
    f64_sign (expected_rate goos allow field before o) = false) as Hrate.
  { intros field. unfold expected_rate. destruct (latest _ before) as [[old at_]|]; [|done].
    destruct (network_reading allow o) as [[new now]|]; [|done].
    destruct (same_source goos new old); [|done]. cbn [andb].
    destruct (f64_lt f64_zero _) eqn:E; [|done]. apply byte_rate_wf; [apply time_sub_range|done]. }
  assert (f64_num (expected_cpu before o) /\ f64_le f64_zero (expected_cpu before o) = true /\
    f64_le (expected_cpu before o) f64_100 = true) as (Hn & Hc).
  { pose proof (cpu_share_range (latest cpu_reading before) (cpu_reading o)) as Hc. revert Hc.
    unfold expected_cpu, cpuPercent.
    destruct (latest cpu_reading before), (cpu_reading o); exact (fun H => H). }
  assert (finite (expected_cpu before o)) as Hcf.
  { revert Hn Hc. generalize (expected_cpu before o) as v. intros v Hn [H0 H1].
    destruct v as [s|s| |s m e]; try done. revert H0 H1. rewrite f64_100_value. by destruct s. }
  destruct (r_load _ _ _) as [[l1 l5] l15].
  split; cbn -[state_text]; try done; try apply nonNegative_i64_range; try apply Hrate.
  rewrite state_text_some, !Forall_cons, Forall_nil. cbn -[f64_zero].
  pose proof (proj1 (Hrate InBytes)). pose proof (proj1 (Hrate OutBytes)). tauto.
Qed.

(** C26. Every state report of a run is well formed: the processor share is between 0 and 100, the rates are finite and
    not negative, the memory and swap in use are [int64] magnitudes, both validity flags are present, and the two
    identifiers are the same non-empty text, whatever was read.  The report has a JSON encoding exactly when its three
    load averages are finite, which the parser of /proc/loadavg does not check. *)
Theorem state_reports_well_formed goos interfaces mounts sequence h :
  Forall sample_wf (collect_states goos (NewMetricsCollector interfaces mounts) sequence h).
Proof.
  pose proof (collect_states_identified goos (allowlistSet interfaces) (normalizeAllowlist mounts) h []
    sequence) as H. change (collector_after goos _ _ []) with (NewMetricsCollector interfaces mounts) in H.
  apply Forall_lookup. intros i s Hs. eapply Forall2_lookup_l in H as (m & Hm & id & Hid & ->); [|exact Hs].
  rewrite list_lookup_imap in Hm. destruct (h !! i) as [o|] eqn:Ho; [|done]. injection Hm as <-.
  by apply expected_wf.
Qed.
(** The load averages are parsed as any floating-point numbers, infinities included;
    such a report has no JSON encoding and cannot be sent. *)
Example infinite_load_has_no_encoding :
  map state_text (collect_states "linux" (NewMetricsCollector [] []) 0
    [mkObservation (linux_readings (fun _ => 0)
       (fun name => if bool_decide (name = "/proc/loadavg") then Ok "inf 0.10 0.20 1/100 4242" else Err ErrNotExist)
       (Err ErrNotExist) (fun _ => (0, 0)) "h" 1) time_zero None]) = [None].
Proof. vm_compute. reflexivity. Qed.

(** ** Allowlists *)
Definition trimmed_item (s : string) : Prop := s <> "" /\ TrimSpace s = s.

Lemma normalize_fold values : forall acc, Forall trimmed_item (snd acc) -> NoDup (snd acc) -> fst acc = list_to_set (snd acc) ->
  let res := fold_left normalize_step values acc in
  Forall trimmed_item (snd res) /\ NoDup (snd res) /\
  forall x, x ∈ snd res <-> x ∈ snd acc \/ x <> "" /\ x ∈ map TrimSpace values.
Proof.
  induction values as [|v values IH]; intros acc Ha Hn Hs; cbn [fold_left map].
  { split; [done|]. split; [done|]. intros x. rewrite elem_of_nil. tauto. }
  unfold normalize_step at 2 4 6. cbv zeta.
  destruct (bool_decide_reflect (TrimSpace v = "")) as [He|He]; cbn [orb].
  - destruct (IH acc Ha Hn Hs) as (H1 & H2 & H3). split; [done|]. split; [done|]. intros x. rewrite H3, elem_of_cons.
    rewrite He. naive_solver.
  - destruct (bool_decide_reflect (TrimSpace v ∈ fst acc)) as [Hin|Hin]; rewrite Hs, elem_of_list_to_set in Hin.
    + destruct (IH acc Ha Hn Hs) as (H1 & H2 & H3). split; [done|]. split; [done|]. intros x. rewrite H3, elem_of_cons.
      naive_solver.
    + destruct (IH ({[TrimSpace v]} ∪ fst acc, snd acc ++ [TrimSpace v])) as (H1 & H2 & H3); cbn [fst snd].
      * apply Forall_app. split; [done|]. constructor; [|constructor]. split; [done|apply TrimSpace_idem].
      * apply NoDup_app. split; [done|]. split; [|apply NoDup_singleton]. intros x Hx ->%list_elem_of_singleton. done.
      * rewrite Hs, list_to_set_app_L. cbn. set_solver.
      * split; [done|]. split; [done|]. intros x. rewrite H3. cbn [snd].
        rewrite elem_of_app, list_elem_of_singleton, elem_of_cons. naive_solver.
Qed.

(** A list without repetitions of the trimmed, non-empty entries. *)
Lemma normalizeAllowlist_spec values :
  Forall trimmed_item (normalizeAllowlist values) /\ NoDup (normalizeAllowlist values) /\
  forall x, x ∈ normalizeAllowlist values <-> x <> "" /\ x ∈ map TrimSpace values.
Proof.
  destruct (normalize_fold values (∅, [])) as (H1 & H2 & H3); [constructor|constructor|done|].
  split; [done|]. split; [done|]. intros x. unfold normalizeAllowlist. rewrite H3. cbn [snd]. rewrite elem_of_nil. tauto.
Qed.
Lemma normalizeAllowlist_items values : Forall trimmed_item (normalizeAllowlist values).
Proof. apply normalizeAllowlist_spec. Qed.
