(* ===== verification/DiskUsage.v ===== *)
(** * Disk usage (disk_usage_unix.go, disk_usage_darwin.go, disk_usage_windows.go)

    Which mounts count and how their sizes are added.  [statfs], [stat] and the
    Windows volume calls are the system's: they enter as functions.  The state
    that makes the sums right is the set of devices already counted. *)

From S2P Require Export HostText MetricsFacts.

(** ** Mount table lines *)
Definition backslash : ascii := chr 92.

(** The four sequences the replacer knows. *)
Definition mount_escape (a b c d : ascii) : option ascii :=
  if negb (Ascii.eqb a backslash) then None
  else
    let code := String b (String c (String d "")) in
    if bool_decide (code = "040") then Some (chr 32)
    else if bool_decide (code = "011") then Some (chr 9)
    else if bool_decide (code = "012") then Some (chr 10)
    else if bool_decide (code = "134") then Some backslash
    else None.

Fixpoint decodeMountInfoField (value : string) : string :=
  match value with
  | EmptyString => ""
  | String a tail =>
      match tail with
      | String b (String c (String d rest)) =>
          match mount_escape a b c d with
          | Some x => String x (decodeMountInfoField rest)
          | None => String a (decodeMountInfoField tail)
          end
      | _ => String a (decodeMountInfoField tail)
      end
  end.

Record mountInfoEntry : Type := mkMount { device : string; mountPoint : string; fsType : string; mountSource : string }.

Definition parseMountInfoLine (line : string) : option mountInfoEntry :=
  match Cut line " - " with
  | None => None
  | Some (left_, right_) =>
      let leftFields := Fields left_ in
      let rightFields := Fields right_ in
      if (length leftFields <? 5)%nat || (length rightFields <? 2)%nat then None
      else Some (mkMount (nth 2 leftFields "") (decodeMountInfoField (nth 4 leftFields ""))
                   (ToLower (nth 0 rightFields "")) (decodeMountInfoField (nth 1 rightFields "")))
  end.

Definition defaultExcludedDiskFSTypes : list string :=
  ["autofs"; "binfmt_misc"; "bpf"; "cgroup"; "cgroup2"; "configfs"; "debugfs"; "devpts"; "devtmpfs"; "fusectl";
   "hugetlbfs"; "mqueue"; "nsfs"; "overlay"; "proc"; "pstore"; "ramfs"; "rpc_pipefs"; "securityfs"; "squashfs";
   "sysfs"; "tmpfs"; "tracefs"].
Definition defaultExcludedDiskMountPrefixes : list string :=
  ["/dev"; "/proc"; "/run"; "/sys"; "/var/lib/docker"; "/var/lib/containerd"; "/var/lib/kubelet";
   "/var/lib/containers/storage"; "/snap"].

Definition includeDiskMount (mountPoint fsType source : string) : bool :=
  let mountPoint := TrimSpace mountPoint in
  if bool_decide (mountPoint = "") then false
  else if bool_decide (ToLower fsType ∈ defaultExcludedDiskFSTypes) then false
  else
    let lowerMount := ToLower mountPoint in
    if existsb (fun prefix => bool_decide (lowerMount = prefix) || HasPrefix lowerMount (prefix +:+ "/"))
         defaultExcludedDiskMountPrefixes
    then false
    else
      let lowerSource := ToLower (TrimSpace source) in
      negb (bool_decide (lowerSource = "") || bool_decide (lowerSource = "none") || HasPrefix lowerSource "overlay").

(** ** Sizes *)
Record Statfs_t : Type := mkStatfs { Blocks : Z; Bfree : Z; Bsize : Z }.

Section Usage.
(** [syscall.Statfs], and [os.Stat] for the device of a path. *)
Context (statfs : string -> option Statfs_t) (statDeviceKey : string -> option Z).

Definition diskUsageForPath (path : string) : Z * Z :=
  match statfs path with
  | None => (0, 0)
  | Some stat =>
      let total := i64 (i64 (Blocks stat) * i64 (Bsize stat)) in
      let free := i64 (i64 (Bfree stat) * i64 (Bsize stat)) in
      (nonNegativeInt64 (i64 (total - free)), total)
  end.

Definition add_usage (sum usage : Z * Z) : Z * Z := (i64 (fst sum + fst usage), i64 (snd sum + snd usage)).

(** One line of the mount table; the state is the devices seen and the sums. *)
Definition mount_step (state : gset string * (Z * Z)) (line : string) : gset string * (Z * Z) :=
  match parseMountInfoLine line with
  | None => state
  | Some mount =>
      if negb (includeDiskMount (mountPoint mount) (fsType mount) (mountSource mount)) then state
      else if bool_decide (device mount ∈ fst state) then state
      else
        let seen := {[device mount]} ∪ fst state in
        let usage := diskUsageForPath (mountPoint mount) in
        if snd usage <=? 0 then (seen, snd state) else (seen, add_usage (snd state) usage)
  end.

Definition diskUsageFromMountInfo (mountinfo : option string) : Z * Z :=
  match mountinfo with
  | None => diskUsageForPath "/"
  | Some content =>
      let '(_, (used, total)) := fold_left mount_step (fst (ScanLines content)) (∅, (0, 0)) in
      if total =? 0 then diskUsageForPath "/" else (used, total)
  end.

Definition allowlist_step (state : gset Z * (Z * Z)) (path : string) : gset Z * (Z * Z) :=
  match statDeviceKey path with
  | Some key =>
      if bool_decide (key ∈ fst state) then state
      else ({[key]} ∪ fst state, add_usage (snd state) (diskUsageForPath path))
  | None => (fst state, add_usage (snd state) (diskUsageForPath path))
  end.
Definition diskUsageForAllowlist (paths : list string) : Z * Z :=
  snd (fold_left allowlist_step (normalizeAllowlist paths) (∅, (0, 0))).

(** Linux. *)
Definition diskUsage (mountinfo : option string) (allowlist : list string) : Z * Z :=
  match allowlist with
  | [] => diskUsageFromMountInfo mountinfo
  | _ => diskUsageForAllowlist allowlist
  end.

(** macOS: the paths of the allowlist, else the first of two volumes. *)
Definition darwin_diskUsage (allowlist : list string) : Z * Z :=
  match allowlist with
  | [] =>
      let data := diskUsageForPath "/System/Volumes/Data" in
      if 0 <? snd data then data
      else let root := diskUsageForPath "/" in if 0 <? snd root then root else (0, 0)
  | _ => fold_left (fun sum path => add_usage sum (diskUsageForPath path)) (normalizeAllowlist allowlist) (0, 0)
  end.
End Usage.

(** ** Windows volumes *)
Section Volumes.
(** [GetDiskFreeSpaceExW] gives the total and free bytes, [GetDriveTypeW] the
    kind of drive, [GetLogicalDrives] the mask; the environment is read. *)
Context (free_space : string -> option (Z * Z)) (drive_type : string -> Z) (drives : Z) (systemDrive : string).

Definition drive_of (path : string) : option string :=
  match path with
  | String c (String d _) => if Ascii.eqb d (chr 58) then Some (ToUpper (String c "") +:+ ":\") else None
  | _ => None
  end.

Definition windowsVolumeRoot (path : string) : string :=
  match drive_of (TrimSpace path) with
  | Some root => root
  | None => match drive_of (TrimSpace systemDrive) with Some root => root | None => "C:\" end
  end.

Definition diskUsageForRoot (root : string) : Z * Z :=
  match free_space root with
  | None => (0, 0)
  | Some (totalBytes, totalFree) => (nonNegativeInt64 (i64 (u64 (totalBytes - totalFree))), i64 totalBytes)
  end.

Definition driveFixed : Z := 3.
Definition drive_root (index : nat) : string := String (chr (65 + Z.of_nat index)) ":\".
Definition fixed_step (sum : Z * Z) (index : nat) : Z * Z :=
  if negb (Z.testbit drives (Z.of_nat index)) then sum
  else if negb (drive_type (drive_root index) =? driveFixed) then sum
  else add_usage sum (diskUsageForRoot (drive_root index)).
Definition fixedDiskUsage : Z * Z :=
  let sum := fold_left fixed_step (seq 0 26) (0, 0) in
  if 0 <? snd sum then sum else diskUsageForRoot (windowsVolumeRoot systemDrive).

Definition volume_step (state : gset string * (Z * Z)) (path : string) : gset string * (Z * Z) :=
  let root := windowsVolumeRoot path in
  if bool_decide (root ∈ fst state) then state
  else ({[root]} ∪ fst state, add_usage (snd state) (diskUsageForRoot root)).
Definition windows_diskUsage (allowlist : list string) : Z * Z :=
  match allowlist with
  | [] => fixedDiskUsage
  | _ => snd (fold_left volume_step (normalizeAllowlist allowlist) (∅, (0, 0)))
  end.
End Volumes.

(** ** Examples *)
Example parseMountInfoLine_1 :
  parseMountInfoLine "36 35 98:0 / /mnt/a\040b rw,noatime master:1 - EXT4 /dev/sda1 rw" =
  Some (mkMount "98:0" "/mnt/a b" "ext4" "/dev/sda1").
Proof. vm_compute. reflexivity. Qed.

(** ** Counting every key once *)
Lemma i64_mod a b : (a - b) mod two64 = 0 -> i64 a = i64 b.
Proof.
  intros H. unfold i64. f_equal. apply Z.mod_divide in H as [k Hk]; [|done].
  replace (a + two63) with (b + two63 + k * two64) by lia. by rewrite Z.mod_add.
Qed.

Lemma i64_add_l a b : i64 (i64 a + b) = i64 (a + b).
Proof.
  apply i64_mod. unfold i64. pose proof (Z.div_mod (a + two63) two64 ltac:(done)) as H. revert H.
  generalize ((a + two63) / two64) as q, ((a + two63) mod two64) as r. intros q r H.
  replace (r - two63 + b - (a + b)) with (- q * two64) by lia. by apply Z.mod_mul.
Qed.

Lemma i64_mul a b : i64 (i64 a * i64 b) = i64 (a * b).
Proof.
  apply i64_mod. unfold i64. pose proof (Z.div_mod (a + two63) two64 ltac:(done)) as Ha.
  pose proof (Z.div_mod (b + two63) two64 ltac:(done)) as Hb. revert Ha Hb.
  generalize ((a + two63) / two64) as q, ((a + two63) mod two64) as r. intros q r Ha.
  generalize ((b + two63) / two64) as p, ((b + two63) mod two64) as t. intros p t Hb.
  replace r with (a + two63 - two64 * q) by lia. replace t with (b + two63 - two64 * p) by lia.
  replace ((a + two63 - two64 * q - two63) * (b + two63 - two64 * p - two63) - a * b)
    with ((two64 * q * p - q * b - p * a) * two64) by ring. by apply Z.mod_mul.
Qed.

Definition wrap_sums (l : list (Z * Z)) : Z * Z := (i64 (Zsum (map fst l)), i64 (Zsum (map snd l))).

Lemma wrap_sums_snoc l u : wrap_sums (l ++ [u]) = add_usage (wrap_sums l) u.
Proof.
  unfold wrap_sums, add_usage. cbn [fst snd]. rewrite !map_app, !Zsum_app. cbn [map Zsum].
  by rewrite !Z.add_0_r, !i64_add_l.
Qed.

Section Once.
Context {K A : Type} `{Countable K} (key : A -> option K) (usage : A -> Z * Z).

(** The elements with no key, and the first of those with the same key. *)
Definition same_key (a b : A) : bool := bool_decide (key a = key b) && match key a with Some _ => true | None => false end.
Fixpoint firsts_after (before l : list A) : list A :=
  match l with
  | [] => []
  | a :: l =>
      (if existsb (same_key a) before then [] else [a]) ++ firsts_after (before ++ [a]) l
  end.
Definition firsts (l : list A) : list A := firsts_after [] l.

Definition once_step (state : gset K * (Z * Z)) (a : A) : gset K * (Z * Z) :=
  match key a with
  | Some k =>
      if bool_decide (k ∈ fst state) then state else ({[k]} ∪ fst state, add_usage (snd state) (usage a))
  | None => (fst state, add_usage (snd state) (usage a))
  end.

Lemma existsb_same_key a k before : key a = Some k ->
  existsb (same_key a) before = true <-> k ∈ omap key before.
Proof.
  intros Hk. rewrite existsb_exists, list_elem_of_omap. split.
  - intros (b & Hb & Hs). apply andb_true_iff in Hs as [Hs _]. apply bool_decide_eq_true in Hs.
    exists b. split; [by apply list_elem_of_In|congruence].
  - intros (b & Hb & He). exists b. split; [by apply list_elem_of_In|]. unfold same_key.
    rewrite Hk, He, bool_decide_true; done.
Qed.

Lemma once_fold l : forall before done_,
  fold_left once_step l (list_to_set (omap key before), wrap_sums (map usage done_)) =
  (list_to_set (omap key (before ++ l)), wrap_sums (map usage (done_ ++ firsts_after before l))).
Proof.
  induction l as [|a l IH]; intros before done_; cbn [fold_left firsts_after]; [by rewrite !app_nil_r|].
  unfold once_step at 2. cbn [fst snd].
  destruct (key a) as [k|] eqn:Hk.
  - case_bool_decide as Hin; rewrite elem_of_list_to_set, <- (existsb_same_key a) in Hin by done.
    + rewrite Hin. cbn [app]. replace (before ++ a :: l) with ((before ++ [a]) ++ l) by by rewrite <- (assoc_L (++)).
      rewrite <- IH. f_equal. f_equal. rewrite omap_app, list_to_set_app_L. cbn. rewrite Hk. cbn.
      apply (existsb_same_key a k) in Hin; [|done]. set_solver.
    + apply not_true_is_false in Hin. rewrite Hin. cbn [app].
      replace (before ++ a :: l) with ((before ++ [a]) ++ l) by by rewrite <- (assoc_L (++)).
      replace (done_ ++ a :: firsts_after (before ++ [a]) l) with ((done_ ++ [a]) ++ firsts_after (before ++ [a]) l)
        by by rewrite <- (assoc_L (++)).
      rewrite <- IH. f_equal. f_equal.
      * rewrite omap_app, list_to_set_app_L. cbn. rewrite Hk. cbn. set_solver.
      * rewrite map_app. cbn [map]. by rewrite wrap_sums_snoc.
  - assert (existsb (same_key a) before = false) as ->.
    { apply not_true_is_false. rewrite existsb_exists. intros (b & _ & Hs). revert Hs. unfold same_key. rewrite Hk.
      by rewrite andb_false_r. }
    cbn [app]. replace (before ++ a :: l) with ((before ++ [a]) ++ l) by by rewrite <- (assoc_L (++)).
    replace (done_ ++ a :: firsts_after (before ++ [a]) l) with ((done_ ++ [a]) ++ firsts_after (before ++ [a]) l)
      by by rewrite <- (assoc_L (++)).
    rewrite <- IH. f_equal. f_equal.
    + rewrite omap_app, list_to_set_app_L. cbn. rewrite Hk. cbn. set_solver.
    + rewrite map_app. cbn [map]. by rewrite wrap_sums_snoc.
Qed.

Lemma firsts_after_sublist l : forall before, firsts_after before l `sublist_of` l.
Proof.
  induction l as [|a l IH]; intros before; cbn [firsts_after]; [constructor|].
  destruct (existsb _ _); cbn [app]; [by apply sublist_cons|by apply sublist_skip].
Qed.

Lemma firsts_after_covers l : forall before k, k ∈ omap key l ->
  k ∈ omap key before \/ k ∈ omap key (firsts_after before l).
Proof.
  induction l as [|a l IH]; intros before k Hk; [by apply elem_of_nil in Hk|]. cbn [firsts_after].
  rewrite omap_app, elem_of_app. cbn in Hk. destruct (key a) as [k'|] eqn:Ha.
  - destruct (decide (k = k')) as [->|Hne].
    + destruct (existsb (same_key a) before) eqn:E; [apply (existsb_same_key a k') in E; auto|].
      right. left. cbn. rewrite Ha. by constructor.
    + apply elem_of_cons in Hk as [?|Hk]; [done|]. apply (IH (before ++ [a])) in Hk as [Hk|Hk]; [|auto].
      rewrite omap_app, elem_of_app in Hk. cbn in Hk. rewrite Ha in Hk. cbn in Hk.
      destruct Hk as [Hk|Hk]; [auto|]. by apply list_elem_of_singleton in Hk.
  - apply (IH (before ++ [a])) in Hk as [Hk|Hk]; [|auto].
    rewrite omap_app, elem_of_app in Hk. cbn in Hk. rewrite Ha in Hk. cbn in Hk.
    destruct Hk as [Hk|Hk]; [auto|]. by apply elem_of_nil in Hk.
Qed.

Lemma firsts_after_nodup l : forall before, NoDup (omap key (firsts_after before l)) /\
  forall k, k ∈ omap key (firsts_after before l) -> k ∉ omap key before.
Proof.
  induction l as [|a l IH]; intros before; cbn [firsts_after].
  { split; [constructor|]. intros k Hk. by apply elem_of_nil in Hk. }
  destruct (IH (before ++ [a])) as [Hn Hd]. rewrite omap_app in Hd |- *. cbn in Hd.
  destruct (existsb (same_key a) before) eqn:E; cbn [omap list_omap app]; [|cbn; destruct (key a) as [k'|] eqn:Ha].
  - split; [done|]. intros k Hk Hb. apply (Hd k Hk). apply elem_of_app. by left.
  - split.
    + cbn. constructor; [|done]. intros Hk. apply (Hd k' Hk). apply elem_of_app. right. by constructor.
    + cbn. intros k Hk. apply elem_of_cons in Hk as [->|Hk].
      * intros Hb. apply (existsb_same_key a k') in Hb; [congruence|done].
      * intros Hb. apply (Hd k Hk). apply elem_of_app. by left.
  - cbn. split; [done|]. intros k Hk Hb. apply (Hd k Hk). apply elem_of_app. by left.
Qed.

(** Every key is counted, and counted once. *)
Lemma firsts_spec l : firsts l `sublist_of` l /\ NoDup (omap key (firsts l)) /\
  forall k, k ∈ omap key l <-> k ∈ omap key (firsts l).
Proof.
  split; [apply firsts_after_sublist|]. split; [apply firsts_after_nodup|]. intros k. split.
  - intros Hk. apply (firsts_after_covers l []) in Hk as [Hk|Hk]; [by apply elem_of_nil in Hk|done].
  - rewrite !list_elem_of_omap. intros (a & Ha & He). exists a. split; [|done].
    eapply elem_of_sublist; [exact Ha|apply firsts_after_sublist].
Qed.

Lemma once_sums l : snd (fold_left once_step l (∅, (0, 0))) = wrap_sums (map usage (firsts l)).
Proof. pose proof (once_fold l [] []) as E. cbn in E. change (wrap_sums []) with (0, 0) in E. by rewrite E. Qed.
End Once.

(** ** The mounts that count *)
Definition included_mount (line : string) : option mountInfoEntry :=
  mount ← parseMountInfoLine line;
  if includeDiskMount (mountPoint mount) (fsType mount) (mountSource mount) then Some mount else None.

Section MountSums.
Context (statfs : string -> option Statfs_t).

Definition mount_usage (mount : mountInfoEntry) : Z * Z :=
  let usage := diskUsageForPath statfs (mountPoint mount) in if snd usage <=? 0 then (0, 0) else usage.
Definition mount_key (mount : mountInfoEntry) : option string := Some (device mount).

Lemma mount_step_once seen l line :
  mount_step statfs (seen, wrap_sums l) line =
  match included_mount line with
  | Some m => once_step mount_key mount_usage (seen, wrap_sums l) m
  | None => (seen, wrap_sums l)
  end.
Proof.
  unfold included_mount, mount_step. destruct (parseMountInfoLine line) as [m|]; cbn; [|done].
  destruct (includeDiskMount _ _ _); cbn; [|done]. unfold once_step, mount_key. cbn [fst snd].
  case_bool_decide; [done|]. unfold mount_usage. destruct (_ <=? 0); [|done].
  f_equal. unfold wrap_sums, add_usage. cbn [fst snd]. by rewrite !i64_add_l, !Z.add_0_r.
Qed.

Lemma once_step_sums seen l m : exists seen' l', once_step mount_key mount_usage (seen, wrap_sums l) m = (seen', wrap_sums l').
Proof.
  unfold once_step. cbn [fst snd]. destruct (mount_key m) as [k|]; [case_bool_decide|]; [by eauto| |];
    rewrite <- wrap_sums_snoc; eauto.
Qed.

Lemma mount_fold lines : forall seen l,
  fold_left (mount_step statfs) lines (seen, wrap_sums l) =
  fold_left (once_step mount_key mount_usage) (omap included_mount lines) (seen, wrap_sums l).
Proof.
  induction lines as [|line lines IH]; intros seen l; [done|]. cbn [fold_left]. rewrite mount_step_once.
  cbn [omap list_omap]. destruct (included_mount line) as [m|]; [|apply IH]. cbn [fold_left].
  destruct (once_step_sums seen l m) as (seen' & l' & ->). apply IH.
Qed.

Definition counted_mounts (content : string) : list mountInfoEntry :=
  firsts mount_key (omap included_mount (fst (ScanLines content))).
End MountSums.

(** C21. The disk usage of the mount table is the sum over the first included mount of every device: each device with
    an included mount is counted exactly once, no excluded mount is ever counted, and the sizes add up modulo the
    width of [int64]; when the sum is zero the root file system is reported instead. *)
Theorem mounted_devices_counted_once statfs content : let counted := counted_mounts content in
  let '(used, total) := wrap_sums (map (mount_usage statfs) counted) in
  diskUsageFromMountInfo statfs (Some content) = (if total =? 0 then diskUsageForPath statfs "/" else (used, total)) /\
  NoDup (map device counted) /\
  (forall mount, mount ∈ counted -> includeDiskMount (mountPoint mount) (fsType mount) (mountSource mount) = true) /\
  (forall line mount, line ∈ fst (ScanLines content) -> included_mount line = Some mount -> device mount ∈ map device counted).
Proof.
  cbv zeta. set (mounts := omap included_mount (fst (ScanLines content))).
  destruct (firsts_spec mount_key mounts) as (Hs & Hn & Hc). fold (counted_mounts content) in *.
  assert (forall l, omap mount_key l = map device l) as Hk by (intros l; induction l as [|m l IH]; cbn; [done|by rewrite IH]).
  pose proof (mount_fold statfs (fst (ScanLines content)) ∅ []) as Hf.
  change (wrap_sums []) with (0, 0) in Hf.
  pose proof (once_sums mount_key (mount_usage statfs) mounts) as Ho. fold mounts in Hf. rewrite <- Hf in Ho.
  change (firsts mount_key mounts) with (counted_mounts content) in *.
  destruct (wrap_sums _) as [used total]. unfold diskUsageFromMountInfo.
  destruct (fold_left _ _ _) as [seen sums]. cbn in Ho. subst sums. rewrite !Hk in Hc, Hn. split; [done|].
  split; [done|]. split.
  - intros mount Hm. eapply elem_of_sublist in Hm; [|exact Hs].
    apply list_elem_of_omap in Hm as (line & _ & Hl). revert Hl. unfold included_mount.
    destruct (parseMountInfoLine line) as [m|]; cbn; [|done]. destruct (includeDiskMount _ _ _) eqn:E; [|done].
    by intros [= <-].
  - intros line mount Hl Hm. apply Hc, list_elem_of_fmap. exists mount. split; [done|].
    apply list_elem_of_omap. by exists line.
Qed.

(** ** The kernel's escapes *)

(** [seq_escape(m, s, " \t\n\\")]: three octal digits after a backslash. *)
Definition escape_of (c : ascii) : string :=
  if byte_val c =? 32 then "\040" else if byte_val c =? 9 then "\011" else if byte_val c =? 10 then "\012"
  else if byte_val c =? 92 then "\134" else String c "".
Fixpoint mangle (s : string) : string :=
  match s with EmptyString => "" | String c s => escape_of c +:+ mangle s end.

Lemma decode_cons a tail : a <> backslash -> decodeMountInfoField (String a tail) = String a (decodeMountInfoField tail).
Proof.
  intros Ha. cbn [decodeMountInfoField]. destruct tail as [|b [|c [|d rest]]]; try done.
  unfold mount_escape. destruct (Ascii.eqb_spec a backslash); done.
Qed.

Lemma decode_escape t : decodeMountInfoField ("\040" +:+ t) = String (chr 32) (decodeMountInfoField t) /\
  decodeMountInfoField ("\011" +:+ t) = String (chr 9) (decodeMountInfoField t) /\
  decodeMountInfoField ("\012" +:+ t) = String (chr 10) (decodeMountInfoField t) /\
  decodeMountInfoField ("\134" +:+ t) = String (chr 92) (decodeMountInfoField t).
Proof. by repeat split. Qed.

Lemma decode_mangle s : decodeMountInfoField (mangle s) = s.
Proof.
  induction s as [|c s IH]; [done|]. cbn [mangle]. unfold escape_of.
  destruct (decode_escape (mangle s)) as (E1 & E2 & E3 & E4).
  assert (forall n, 0 <= n < 256 -> byte_val c = n -> c = chr n) as Hc.
  { intros n Hn <-. symmetry. apply chr_byte_val. }
  destruct (Z.eqb_spec (byte_val c) 32) as [E|_]; [apply Hc in E as ->; [by rewrite E1, IH|lia]|].
  destruct (Z.eqb_spec (byte_val c) 9) as [E|_]; [apply Hc in E as ->; [by rewrite E2, IH|lia]|].
  destruct (Z.eqb_spec (byte_val c) 10) as [E|_]; [apply Hc in E as ->; [by rewrite E3, IH|lia]|].
  destruct (Z.eqb_spec (byte_val c) 92) as [E|E]; [apply Hc in E as ->; [by rewrite E4, IH|lia]|].
  change (String c "" +:+ mangle s) with (String c (mangle s)).
  rewrite decode_cons; [by rewrite IH|]. intros ->. by apply E.
Qed.

(** ** The separator of the two halves of a line *)
Lemma Cut_graphic w sep_tail s : str_forall graphic w = true ->
  Cut (w +:+ s) (String (chr 32) sep_tail) =
  ('(b, a) ← Cut s (String (chr 32) sep_tail); Some (w +:+ b, a)).
Proof.
  induction w as [|c w IH]; intros Hw.
  { rewrite app_nil_l_str. by destruct (Cut s (String (chr 32) sep_tail)) as [[b a]|]. }
  cbn [str_forall] in Hw. apply andb_true_iff in Hw as [Hc Hw]. rewrite app_cons_str. cbn [Cut].
  assert (strip_prefix (String (chr 32) sep_tail) (String c (w +:+ s)) = None) as ->.
  { destruct (strip_prefix _ _) as [r|] eqn:E; [|done]. apply strip_prefix_Some in E. rewrite app_cons_str in E.
    injection E as -> _. by vm_compute in Hc. }
  rewrite IH by done. by destruct (Cut s _) as [[]|].
Qed.

Definition mount_sep : string := " - ".

Lemma Cut_space v t : word v -> v <> "-" ->
  Cut (String (chr 32) (v +:+ String (chr 32) t)) mount_sep =
  ('(b, a) ← Cut (v +:+ String (chr 32) t) mount_sep; Some (String (chr 32) b, a)).
Proof.
  intros [Hn Hg] Hd.
  assert (strip_prefix mount_sep (String (chr 32) (v +:+ String (chr 32) t)) = None) as Hs.
  { destruct (strip_prefix _ _) as [q|] eqn:E; [exfalso|done]. apply strip_prefix_Some in E. unfold mount_sep in E.
    rewrite !app_cons_str, app_nil_l_str in E. injection E as E.
    destruct v as [|a [|b v]]; [done| |]; rewrite !app_cons_str in E; injection E; intros; subst; [done|].
    cbn [str_forall] in Hg. apply andb_true_iff in Hg as [_ Hg].
    apply andb_true_iff in Hg as [Hg _]. by vm_compute in Hg. }
  cbn [Cut]. rewrite Hs. by destruct (Cut _ _) as [[]|].
Qed.

Lemma Join_cons2 w v ws : GoStrings.Join (w :: v :: ws) " " = w +:+ String (chr 32) (GoStrings.Join (v :: ws) " ").
Proof. done. Qed.

Lemma Cut_separator ws r : Forall (fun w => word w /\ w <> "-") ws -> ws <> [] ->
  Cut (GoStrings.Join ws " " +:+ mount_sep +:+ r) mount_sep = Some (GoStrings.Join ws " ", r).
Proof.
  intros Hw. induction Hw as [|w ws [Hw Hd] Hws IH]; [done|]. intros _. destruct ws as [|v ws].
  - cbn [GoStrings.Join]. change mount_sep with (String (chr 32) "- ") at 2. rewrite (Cut_graphic w) by apply Hw.
    change (Cut (mount_sep +:+ r) (String (chr 32) "- ")) with (Some ("", r)). cbn [mbind option_bind].
    by rewrite app_nil_r_str.
  - specialize (IH ltac:(done)). inversion Hws as [|? ? [Hv Hvd] _]; subst.
    rewrite Join_cons2, app_assoc_str, app_cons_str.
    change mount_sep with (String (chr 32) "- ") at 2. rewrite (Cut_graphic w) by apply Hw.
    change (String (chr 32) "- ") with mount_sep.
    assert (exists t, GoStrings.Join (v :: ws) " " +:+ mount_sep +:+ r = v +:+ String (chr 32) t) as [t Ht].
    { destruct ws as [|u ws]; [by eexists|]. rewrite Join_cons2, app_assoc_str, app_cons_str. by eexists. }
    rewrite Ht in IH |- *. rewrite (Cut_space v t Hv Hvd), IH. done.
Qed.

(** ** A line of the mount table *)
Record mount_record : Type := mkRecord {
  mr_id : string; mr_parent : string; mr_device : string; mr_root : string; mr_point : string;
  mr_options : list string; mr_type : string; mr_source : string; mr_super : string
}.

(** As the kernel prints it (Documentation/filesystems/proc, section 3.5). *)
Definition mountinfo_line (m : mount_record) : string :=
  GoStrings.Join ([mr_id m; mr_parent m; mr_device m; mangle (mr_root m); mangle (mr_point m)] ++ mr_options m) " " +:+
  mount_sep +:+ GoStrings.Join [mangle (mr_type m); mangle (mr_source m); mr_super m] " ".

(** Names of graphic characters and of those the kernel escapes. *)
Definition name_char (c : ascii) : bool :=
  graphic c || (byte_val c =? 32) || (byte_val c =? 9) || (byte_val c =? 10).
Definition name_ok (s : string) : Prop := s <> "" /\ s <> "-" /\ str_forall name_char s = true.
Definition token_ok (s : string) : Prop := word s /\ s <> "-".

Lemma mangle_token s : name_ok s -> token_ok (mangle s).
Proof.
  intros (Hn & Hd & Hc). assert (str_forall graphic (mangle s) = true) as Hg.
  { clear Hn Hd. induction s as [|c s IH]; [done|]. cbn [str_forall mangle] in *.
    apply andb_true_iff in Hc as [Hc Hs]. rewrite str_forall_app, (IH Hs), andb_true_r. unfold escape_of.
    revert Hc. unfold name_char.
    destruct (byte_val c =? 32); [done|]. destruct (byte_val c =? 9); [done|]. destruct (byte_val c =? 10); [done|].
    rewrite !orb_false_r. intros Hc. destruct (byte_val c =? 92); [done|]. cbn [str_forall]. by rewrite Hc. }
  assert (forall t, mangle s = t -> decodeMountInfoField t = s) as Hinv by (intros t <-; apply decode_mangle).
  split; [split; [|done]|]; intros E; apply Hinv in E; cbn in E; congruence.
Qed.

(** Parsing a line of the mount table the way the kernel writes it gives back the mount: device, mount point and
    source with the escaped spaces, tabs, newlines and backslashes restored, and the type in lower case, whatever the
    optional fields. *)
Theorem mountinfo_round_trip m :
  token_ok (mr_id m) -> token_ok (mr_parent m) -> token_ok (mr_device m) -> name_ok (mr_root m) -> name_ok (mr_point m) ->
  Forall token_ok (mr_options m) -> name_ok (mr_type m) -> name_ok (mr_source m) -> token_ok (mr_super m) ->
  parseMountInfoLine (mountinfo_line m) =
  Some (mkMount (mr_device m) (mr_point m) (ToLower (mangle (mr_type m))) (mr_source m)).
Proof.
  intros H1 H2 H3 Hroot Hpoint Hopt Htype Hsource Hsuper. unfold parseMountInfoLine, mountinfo_line.
  apply mangle_token in Hroot, Hpoint, Htype, Hsource.
  set (ws := [mr_id m; mr_parent m; mr_device m; mangle (mr_root m); mangle (mr_point m)] ++ mr_options m).
  assert (Forall token_ok ws) as Hws by (unfold ws; repeat (constructor; [done|]); done).
  change " - " with mount_sep. rewrite Cut_separator by done.
  rewrite Fields_Join by (eapply Forall_impl; [exact Hws|by intros w []]).
  rewrite Fields_Join by (repeat constructor; apply Htype || apply Hsource || apply Hsuper).
  unfold ws. cbn [app length nth Nat.ltb Nat.leb orb]. by rewrite !decode_mangle.
Qed.
Definition demo_mount : mount_record :=
  mkRecord "36" "35" "98:0" "/" "/mnt/my disk" ["rw"; "master:1"] "ext4" "/dev/sda1" "rw".
Lemma mountinfo_round_trip_witness :
  parseMountInfoLine (mountinfo_line demo_mount) =
  Some (mkMount "98:0" "/mnt/my disk" (ToLower (mangle "ext4")) "/dev/sda1").
Proof. apply (mountinfo_round_trip demo_mount); repeat constructor; done. Defined.

(** ** The size of one file system *)

(** The space in use is never negative; it is at most the total when the file system reports no more free blocks
    than blocks and its size fits [int64]. *)
Theorem used_within_total statfs path : let usage := diskUsageForPath statfs path in
  0 <= fst usage <= maxInt64 /\
  (forall stat, statfs path = Some stat -> 0 <= Bfree stat <= Blocks stat -> 0 < Bsize stat ->
   Blocks stat * Bsize stat <= maxInt64 ->
   usage = ((Blocks stat - Bfree stat) * Bsize stat, Blocks stat * Bsize stat)).
Proof.
  cbv zeta. split.
  - unfold diskUsageForPath. destruct (statfs path) as [stat|]; [apply nonNegative_i64_range|done].
  - intros stat Hs Hf Hb Ht. unfold diskUsageForPath. rewrite Hs.
    assert (0 <= Bfree stat * Bsize stat <= Blocks stat * Bsize stat) as Hm by nia.
    set (size := Blocks stat * Bsize stat) in *. set (free := Bfree stat * Bsize stat) in *.
    assert (i64 (i64 (Blocks stat) * i64 (Bsize stat)) = size) as ->.
    { rewrite <- (i64_nonneg size) by lia. apply i64_mul. }
    assert (i64 (i64 (Bfree stat) * i64 (Bsize stat)) = free) as ->.
    { rewrite <- (i64_nonneg free) by lia. apply i64_mul. }
    rewrite i64_nonneg by lia. unfold nonNegativeInt64. destruct (Z.ltb_spec (size - free) 0); [lia|].
    f_equal. unfold size, free. lia.
Qed.
Lemma used_within_total_witness : let usage := diskUsageForPath (fun _ => Some (mkStatfs 1000 300 4096)) "/" in
  0 <= fst usage <= maxInt64 /\ usage = (700 * 4096, 1000 * 4096).
Proof.
  destruct (used_within_total (fun _ => Some (mkStatfs 1000 300 4096)) "/") as [H1 H2]. split; [exact H1|].
  apply (H2 (mkStatfs 1000 300 4096)); [done|..]; cbn -[maxInt64]; done || lia.
Defined.

(** A mount point with a no-break space, which the kernel leaves as it is, is cut at it: [strings.Fields] splits at
    every Unicode space. *)
Example mount_point_no_break_space :
  mountPoint <$> parseMountInfoLine (mountinfo_line (mkRecord "36" "35" "98:0" "/" ("/mnt/a" +:+ bytes [194; 160] +:+ "b")
    ["rw"] "ext4" "/dev/sda1" "rw")) = Some "/mnt/a".
Proof. vm_compute. reflexivity. Qed.

(** Two mounts of one device: the first included one is measured. *)
Definition demo_statfs (path : string) : option Statfs_t :=
  if bool_decide (path = "/") then Some (mkStatfs 100 40 4096)
  else if bool_decide (path = "/data") then Some (mkStatfs 1000 300 4096) else None.
Example disk_usage_1 :
  diskUsageFromMountInfo demo_statfs (Some (nl ["1 0 8:1 / / rw - ext4 /dev/sda1 rw"; "2 0 8:1 / /data rw - ext4 /dev/sda1 rw";
    "3 0 8:2 / /data rw - xfs /dev/sdb1 rw"; "4 0 0:5 / /proc rw - proc proc rw"])) =
  ((60 + 700) * 4096, 1100 * 4096).
Proof. vm_compute. reflexivity. Qed.
