(* ===== verification/DarwinMetrics.v ===== *)
(** * macOS metrics (darwin_metrics_parse.go, darwin_command.go,
      platform_darwin_metrics.go, memory_darwin.go)

    The bounded runs of system commands, the parsers of their output, one line
    at a time or whole, and what the collector reads from them. *)

From S2P Require Export MetricsFacts.

(** ** Commands with bounded output *)
Definition darwinMetricsMaxOutputBytes : Z := Z.shiftl 64 10.
Definition darwinMetricsMaxLines : nat := Z.to_nat (Z.shiftl 1 20).
Definition darwinMetricsMaxLineBytes : Z := Z.shiftl 1 20.

Record boundedCommandOutput : Type := mkOutput { buffer : string; maxBytes : Z; exceeded : bool }.

(** [Write]: the bytes taken, and whether the limit error is returned. *)
Definition output_Write (w : boundedCommandOutput) (payload : string) : boundedCommandOutput * (Z * bool) :=
  if exceeded w then (w, (0, true))
  else
    let remaining := maxBytes w - str_len (buffer w) in
    if remaining <? str_len payload then
      let taken := if 0 <? remaining then Stdlib.Strings.String.substring 0 (Z.to_nat remaining) payload else "" in
      (mkOutput (buffer w +:+ taken) (maxBytes w) true, (str_len taken, true))
    else (mkOutput (buffer w +:+ payload) (maxBytes w) false, (str_len payload, false)).

Inductive command_error : Type :=
| InvalidLimits
| OutputLimit
| LineLimit
| TooLongLine
| NotFinished
| CommandFailed
| VisitFailed (e : network_error).

(** What a command did under [exec]: the pieces it wrote to its output, whether
    the context ended first, and whether its run failed. *)
Record command_run : Type := mkRun { run_writes : list string; run_ctxErr : bool; run_failed : bool }.

Definition write_all (w : boundedCommandOutput) (payloads : list string) : boundedCommandOutput :=
  fold_left (fun w payload => fst (output_Write w payload)) payloads w.

Definition darwinCommandOutputWithLimits (timeout maxOutputBytes : Z) (run : command_run) : result command_error string :=
  if timeout <=? 0 then Err InvalidLimits
  else if maxOutputBytes <? 0 then Err InvalidLimits
  else
    let output := write_all (mkOutput "" maxOutputBytes false) (run_writes run) in
    if exceeded output then Err OutputLimit
    else if run_ctxErr run then Err NotFinished
    else if run_failed run then Err CommandFailed
    else Ok (buffer output).

(** The lines are handed to a visitor with its own state. *)
Section Scan.
Context {S : Type} (visit : S -> string -> S * option network_error).

Fixpoint visit_lines (left_ : nat) (lines : list string) (s : S) : S * option command_error :=
  match lines with
  | [] => (s, None)
  | line :: lines =>
      match left_ with
      | O => (s, Some LineLimit)
      | Datatypes.S left_ =>
          match visit s line with
          | (s, Some e) => (s, Some (VisitFailed e))
          | (s, None) => visit_lines left_ lines s
          end
      end
  end.

Definition darwinCommandScanLinesWithLimits (timeout : Z) (maxLines : nat) (maxLineBytes : Z) (run : command_run) (s : S)
  : S * option command_error :=
  if (timeout <=? 0) || (maxLines =? 0)%nat || (maxLineBytes <=? 0) then (s, Some InvalidLimits)
  else
    let '(lines, tooLong) := scan_lines maxLineBytes (String.concat "" (run_writes run)) in
    match visit_lines maxLines lines s with
    | (s, Some e) => (s, Some e)
    | (s, None) =>
        if tooLong then (s, Some TooLongLine)
        else if run_ctxErr run then (s, Some NotFinished)
        else if run_failed run then (s, Some CommandFailed)
        else (s, None)
    end.
End Scan.

Definition darwinMetricsCommandTimeout : Z := 2 * Second.
Definition darwinCommandOutput (run : command_run) : result command_error string :=
  darwinCommandOutputWithLimits darwinMetricsCommandTimeout darwinMetricsMaxOutputBytes run.

(** ** Processor times *)
Definition darwin_fields (output cut : string) : list string :=
  List.filter (fun f => negb (bool_decide (f = ""))) (map (fun f => Trim f cut) (Fields output)).

Fixpoint darwin_cpu_loop (perCPU : bool) (index : Z) (fields : list string) (total idle : Z) : option cpuTimes :=
  match fields with
  | [] => Some (mkCpu total idle)
  | field :: fields =>
      match ParseUint field with
      | Err _ => None
      | Ok value =>
          darwin_cpu_loop perCPU (index + 1) fields (u64 (total + value))
            (if perCPU && (index mod 5 =? 3) then u64 (idle + value)
             else if negb perCPU && (index =? 3) then value else idle)
      end
  end.

Definition parseDarwinCPUTimes (output : string) : option cpuTimes :=
  let fields := darwin_fields output "{}," in
  if (length fields <? 4)%nat then None
  else
    let perCPU := (5 <? length fields)%nat && (length fields mod 5 =? 0)%nat in
    match darwin_cpu_loop perCPU 0 fields 0 0 with
    | Some t => if 0 <? Total t then Some t else None
    | None => None
    end.

(** ** Load averages *)
Fixpoint darwin_load_loop (fields : list string) (values : list spec_float) : spec_float * spec_float * spec_float :=
  match fields with
  | [] => (f64_zero, f64_zero, f64_zero)
  | field :: fields =>
      let values := match ParseFloat64 (Trim field "{}") with
                    | (value, None) => values ++ [value]
                    | (_, Some _) => values
                    end in
      match values with
      | [a; b; c] => (a, b, c)
      | _ => darwin_load_loop fields values
      end
  end.
Definition parseDarwinLoadAverages (output : string) : spec_float * spec_float * spec_float :=
  darwin_load_loop (Fields output) [].

(** ** Connections *)
Record darwinConnectionParser : Type := mkConnParser { cp_tcp : Z; cp_udp : Z; cp_foundHeader : bool }.
Definition conn_consume (p : darwinConnectionParser) (line : string) : darwinConnectionParser :=
  match Fields line with
  | [] => p
  | first :: _ =>
      if bool_decide (first = "Proto") then mkConnParser (cp_tcp p) (cp_udp p) true
      else
        let protocol := ToLower first in
        if HasPrefix protocol "tcp" then mkConnParser (i64 (cp_tcp p + 1)) (cp_udp p) (cp_foundHeader p)
        else if HasPrefix protocol "udp" then mkConnParser (cp_tcp p) (i64 (cp_udp p + 1)) (cp_foundHeader p)
        else p
  end.
Definition conn_result (p : darwinConnectionParser) : option (Z * Z) :=
  if cp_foundHeader p then Some (cp_tcp p, cp_udp p) else None.
Definition parseDarwinConnectionCountsResult (output : string) : option (Z * Z) :=
  let '(lines, tooLong) := ScanLines output in
  let p := fold_left conn_consume lines (mkConnParser 0 0 false) in
  if tooLong then None else conn_result p.

(** ** Network totals *)
Record darwinNetworkParser : Type := mkNetParser {
  np_allowlist : gset string; np_indexes : gmap string nat; np_seen : gset string;
  np_totals : networkTotals; np_foundHeader : bool
}.
Definition newDarwinNetworkParser (allowlist : gset string) : darwinNetworkParser :=
  mkNetParser allowlist ∅ ∅ noTotals false.

Fixpoint header_indexes (index : nat) (fields : list string) (m : gmap string nat) : gmap string nat :=
  match fields with
  | [] => m
  | field :: fields => header_indexes (Datatypes.S index) fields (<[field := index]> m)
  end.

(** The interface a row counts for, when it does. *)
Definition link_row (p : darwinNetworkParser) (fields : list string) : option string :=
  match np_indexes p !! "Name", np_indexes p !! "Network", np_indexes p !! "Ibytes", np_indexes p !! "Obytes" with
  | Some nameIndex, Some networkIndex, Some _, Some _ =>
      if (length fields <=? nameIndex)%nat || (length fields <=? networkIndex)%nat || (length fields <? 7)%nat then None
      else
        let name := nth nameIndex fields "" in
        if negb (HasPrefix (nth networkIndex fields "") "<Link#") || negb (includeNetworkInterface name (np_allowlist p))
        then None else Some name
  | _, _, _, _ => None
  end.

Definition net_consume (p : darwinNetworkParser) (line : string) : darwinNetworkParser * option network_error :=
  match Fields line with
  | [] => (p, None)
  | first :: _ =>
      let fields := Fields line in
      if bool_decide (first = "Name") then
        (mkNetParser (np_allowlist p) (header_indexes 0 fields ∅) (np_seen p) (np_totals p) true, None)
      else
        match link_row p fields with
        | None => (p, None)
        | Some name =>
            if bool_decide (name ∈ np_seen p) then (p, None)
            else
              let p := mkNetParser (np_allowlist p) (np_indexes p) ({[name]} ∪ np_seen p) (np_totals p) (np_foundHeader p) in
              match parseNetworkCounter (nth (length fields - 5) fields ""), parseNetworkCounter (nth (length fields - 2) fields "") with
              | Some inBytes, Some outBytes =>
                  match add_totals (np_totals p) inBytes outBytes name with
                  | Err e => (p, Some e)
                  | Ok totals =>
                      (mkNetParser (np_allowlist p) (np_indexes p) (np_seen p) totals (np_foundHeader p), None)
                  end
              | _, _ => (p, Some (NetCounter name))
              end
        end
  end.

Definition net_result (p : darwinNetworkParser) : result network_error networkTotals :=
  if np_foundHeader p then Ok (np_totals p) else Err NetHeader.

Fixpoint net_consume_all (p : darwinNetworkParser) (lines : list string) : darwinNetworkParser * option network_error :=
  match lines with
  | [] => (p, None)
  | line :: lines =>
      match net_consume p line with
      | (p, Some e) => (p, Some e)
      | (p, None) => net_consume_all p lines
      end
  end.

Definition parseDarwinNetworkTotalsResult (output : string) (allowlist : gset string) : result network_error networkTotals :=
  let '(lines, tooLong) := ScanLines output in
  match net_consume_all (newDarwinNetworkParser allowlist) lines with
  | (_, Some e) => Err e
  | (p, None) => if tooLong then Err NetScan else net_result p
  end.

(** ** What the collector reads *)
Fixpoint darwinReadCPUTimes (runs : list command_run) : option cpuTimes :=
  match runs with
  | [] => None
  | run :: runs =>
      match darwinCommandOutput run with
      | Err _ => darwinReadCPUTimes runs
      | Ok output => match parseDarwinCPUTimes output with Some values => Some values | None => darwinReadCPUTimes runs end
      end
  end.

Definition darwinLoadAverages (run : command_run) : spec_float * spec_float * spec_float :=
  match darwinCommandOutput run with
  | Err _ => (f64_zero, f64_zero, f64_zero)
  | Ok output => parseDarwinLoadAverages output
  end.

Definition darwinConnectionCounts (run : command_run) : option (Z * Z) :=
  match darwinCommandScanLinesWithLimits (fun p line => (conn_consume p line, None)) darwinMetricsCommandTimeout
          darwinMetricsMaxLines darwinMetricsMaxLineBytes run (mkConnParser 0 0 false) with
  | (_, Some _) => None
  | (p, None) => conn_result p
  end.

Definition darwinNetworkTotals (run : command_run) (allowlist : gset string) : result network_error networkTotals :=
  match darwinCommandScanLinesWithLimits net_consume darwinMetricsCommandTimeout darwinMetricsMaxLines
          darwinMetricsMaxLineBytes run (newDarwinNetworkParser allowlist) with
  | (_, Some (VisitFailed e)) => Err e
  | (_, Some _) => Err NetCommand
  | (p, None) => net_result p
  end.

Definition darwinOSRelease (run : command_run) : string * string :=
  match darwinCommandOutput run with Err _ => ("macos", "") | Ok output => ("macos", TrimSpace output) end.

(** [unix.Sysctl] by name. *)
Definition sysctl_text (value : option string) : string := match value with None => "" | Some v => TrimSpace v end.
Definition darwinCPUModel (sysctl : string -> option string) : string :=
  first_nonempty (map (fun name => sysctl_text (sysctl name)) ["machdep.cpu.brand_string"; "hw.model"]).
Definition darwinKernelRelease (sysctl : string -> option string) : string := sysctl_text (sysctl "kern.osrelease").
Definition darwinVirtualizationName (sysctl : string -> option string) : string := sysctl_text (sysctl "hw.model").
Definition darwinProcessCount (processes : option (list ())) : Z :=
  match processes with None => 0 | Some l => i64 (Z.of_nat (length l)) end.
Definition darwinBootTime (timeval : option Z) : Z := default 0 timeval.
Definition darwinUptimeSeconds (boot now : Z) : Z :=
  if boot <=? 0 then 0 else nonNegativeInt64 (i64 (Unix now - boot)).

(** ** Memory *)
Definition vm_page_line (pages : Z) (line : string) : Z :=
  match Cut line ":" with
  | None => pages
  | Some (name, value) =>
      let name := TrimSpace name in
      if negb (bool_decide (name = "Pages free") || bool_decide (name = "Pages inactive") ||
               bool_decide (name = "Pages speculative")) then pages
      else
        let value := GoStrings.Join (Split (Trim (TrimSpace value) ".") ".") "" in
        match ParseInt value with
        | Ok count => if 0 <? count then i64 (pages + count) else pages
        | Err _ => pages
        end
  end.
(** The two regular expressions.  A repeated class is followed by something the
    class does not contain, so the longest run is the only one that can match. *)
Fixpoint run_of (class : ascii -> bool) (s : string) : string * string :=
  match s with
  | EmptyString => ("", "")
  | String c r => if class c then let '(run, rest) := run_of class r in (String c run, rest) else ("", s)
  end.
(** [\s] *)
Definition regexp_space (c : ascii) : bool := existsb (Z.eqb (byte_val c)) [9; 10; 12; 13; 32].

Section Find.
Context {A : Type} (match_here : string -> option (A * string)).

(** [FindAllStringSubmatch]: the leftmost match, then the matches after it. *)
Fixpoint find_all (fuel : nat) (s : string) : list A :=
  match fuel, s with
  | S fuel, String _ rest =>
      match match_here s with
      | Some (a, rest) => a :: find_all fuel rest
      | None => find_all fuel rest
      end
  | _, _ => []
  end.
Definition FindAllStringSubmatch (s : string) : list A := find_all (String.length s) s.
End Find.

(** [page size of (\d+) bytes] *)
Definition page_size_here (s : string) : option (string * string) :=
  rest ← GoStrings.strip_prefix "page size of " s;
  let '(digits, rest) := run_of is_digit rest in
  if bool_decide (digits = "") then None
  else rest ← GoStrings.strip_prefix " bytes" rest; Some (digits, rest).
Definition pageSizeText (output : string) : option string := head (FindAllStringSubmatch page_size_here output).

Definition darwinAvailableMemoryFromVMStat (output : result command_error string) : Z :=
  match output with
  | Err _ => 0
  | Ok output =>
      let pageSize :=
        match pageSizeText output with
        | Some digits => match ParseInt digits with Ok v => if 0 <? v then v else 4096 | Err _ => 4096 end
        | None => 4096
        end in
      i64 (fold_left vm_page_line (Split output (bytes [10])) 0 * pageSize)
  end.

Definition darwinAvailableMemory (sysctl : string -> option Z) (fromVMStat : Z) : Z :=
  let pageSize := match sysctl "hw.pagesize" with Some v => if v =? 0 then 4096 else v | None => 4096 end in
  let free := sysctl "vm.page_free_count" in
  let inactive := sysctl "vm.page_inactive_count" in
  let speculative := sysctl "vm.page_speculative_count" in
  match free, inactive, speculative with
  | None, None, None => fromVMStat
  | _, _, _ =>
      i64 (u64 (u64 (u64 (default 0 free + default 0 inactive) + default 0 speculative) * pageSize))
  end.

Definition darwin_memory_totals (memsize : option Z) (available : Z) : Z * Z :=
  match memsize with
  | None => (0, 0)
  | Some totalBytes =>
      if totalBytes =? 0 then (0, 0)
      else
        let available := if available <? 0 then 0 else available in
        let available := if i64 totalBytes <? available then i64 totalBytes else available in
        (i64 totalBytes, available)
  end.

Definition unitMultiplier (unit : string) : Z :=
  let u := ToUpper unit in
  if bool_decide (u = "K") then 1024 else if bool_decide (u = "M") then 1024 * 1024
  else if bool_decide (u = "G") then 1024 * 1024 * 1024 else if bool_decide (u = "T") then 1024 * 1024 * 1024 * 1024
  else if bool_decide (u = "P") then 1024 * 1024 * 1024 * 1024 * 1024 else 1.

(** [(total|free)\s*=\s*([0-9.]+)([KMGTP])] *)
Definition swap_here (s : string) : option ((string * string * string) * string) :=
  let name := if HasPrefix s "total" then "total" else "free" in
  rest ← GoStrings.strip_prefix name s;
  rest ← GoStrings.strip_prefix "=" (snd (run_of regexp_space rest));
  let '(number, rest) := run_of (fun c => is_digit c || Ascii.eqb c (chr 46)) (snd (run_of regexp_space rest)) in
  if bool_decide (number = "") then None
  else
    match rest with
    | EmptyString => None
    | String unit rest =>
        if bool_decide (String unit "" ∈ ["K"; "M"; "G"; "T"; "P"]) then Some ((name, number, String unit ""), rest) else None
    end.

Definition swap_step (out_of_range : spec_float -> Z) (acc : Z * Z) (m : string * string * string) : Z * Z :=
  let '(name, number, unit) := m in
  match ParseFloat64 number with
  | (_, Some _) => acc
  | (value, None) =>
      let bytes := f64_to_i64 out_of_range (f64_mul value (f64_of_Z (unitMultiplier unit))) in
      if bool_decide (name = "total") then (bytes, snd acc) else (fst acc, bytes)
  end.
Definition parseDarwinSwapUsage (out_of_range : spec_float -> Z) (output : string) : Z * Z :=
  fold_left (swap_step out_of_range) (FindAllStringSubmatch swap_here output) (0, 0).

Definition darwin_swap_totals (out_of_range : spec_float -> Z) (run : command_run) : Z * Z :=
  match darwinCommandOutput run with Err _ => (0, 0) | Ok output => parseDarwinSwapUsage out_of_range output end.

Example parseDarwinSwapUsage_1 :
  parseDarwinSwapUsage (fun _ => 0) "total = 2048.00M  used = 1024.50M  free = 1023.50M  (encrypted)" =
  (2147483648, 1073217536).
Proof. vm_compute. reflexivity. Qed.

(** ** What the collector reads on macOS *)
Record darwin_commands : Type := mkDarwin {
  run_cpu : list command_run; run_load : command_run; run_connections : command_run; run_network : command_run;
  run_version : command_run; run_swap : command_run; run_vmstat : command_run;
  Sysctl : string -> option string; SysctlUint64 : string -> option Z; SysctlTimeval : option Z;
  SysctlKinfoProcSlice : option (list ())
}.

Definition darwin_readings (out_of_range : spec_float -> Z) (d : darwin_commands) (disk : list string -> Z * Z) (now : Z)
  (hostname : string) (cores : Z) : readings :=
  mkReadings (darwinReadCPUTimes (run_cpu d))
    (darwin_memory_totals (SysctlUint64 d "hw.memsize")
      (darwinAvailableMemory (SysctlUint64 d) (darwinAvailableMemoryFromVMStat (darwinCommandOutput (run_vmstat d)))))
    (darwin_swap_totals out_of_range (run_swap d))
    (fun _ _ => darwinLoadAverages (run_load d)) disk (darwinNetworkTotals (run_network d))
    (darwinConnectionCounts (run_connections d)) (darwinProcessCount (SysctlKinfoProcSlice d))
    (darwinUptimeSeconds (darwinBootTime (SysctlTimeval d)) now) (darwinBootTime (SysctlTimeval d))
    (darwinOSRelease (run_version d)) (darwinKernelRelease (Sysctl d)) (darwinVirtualizationName (Sysctl d))
    (darwinCPUModel (Sysctl d)) hostname cores.

(** ** Lemmas: bounded output *)

(** What the buffer holds of everything the command has written. *)
Definition output_inv (w : boundedCommandOutput) (all : string) : Prop :=
  0 <= maxBytes w /\ buffer w = Stdlib.Strings.String.substring 0 (Z.to_nat (maxBytes w)) all /\
  exceeded w = (maxBytes w <? str_len all).

Lemma output_step w all payload : output_inv w all -> output_inv (output_Write w payload).1 (all +:+ payload).
Proof.
  destruct w as [buf max exc]. intros (Hm & Hb & He). cbn in Hm, Hb, He. unfold output_Write, output_inv. cbn.
  assert (str_len (all +:+ payload) = str_len all + str_len payload) as Hlen
    by (unfold str_len; rewrite length_app_str; lia).
  assert (0 <= str_len payload /\ 0 <= str_len all) as [Hp Hall] by (unfold str_len; lia).
  rewrite Hlen. destruct exc; cbn.
  - symmetry in He. apply Z.ltb_lt in He. split; [done|]. split; [|symmetry; apply Z.ltb_lt; lia].
    rewrite Hb, substring_app_long; [done|]. revert He. unfold str_len. lia.
  - symmetry in He. apply Z.ltb_ge in He. assert (buf = all) as -> by (rewrite Hb; apply substring_short; unfold str_len in He; lia).
    assert (Stdlib.Strings.String.substring 0 (Z.to_nat max) (all +:+ payload) =
      all +:+ Stdlib.Strings.String.substring 0 (Z.to_nat (max - str_len all)) payload) as Hcut.
    { rewrite substring_app_short by (unfold str_len in He; lia). do 2 f_equal. unfold str_len. lia. }
    destruct (Z.ltb_spec (max - str_len all) (str_len payload)); cbn; rewrite Hcut.
    + split; [done|]. split; [|symmetry; apply Z.ltb_lt; lia].
      destruct (Z.ltb_spec 0 (max - str_len all)); [done|].
      replace (Z.to_nat (max - str_len all)) with 0%nat by lia. by destruct payload.
    + split; [done|]. split; [|symmetry; apply Z.ltb_ge; lia]. f_equal. symmetry. apply substring_short.
      revert H. unfold str_len. lia.
Qed.

Lemma output_run payloads : forall w all, output_inv w all ->
  output_inv (write_all w payloads) (all +:+ String.concat "" payloads) /\ maxBytes (write_all w payloads) = maxBytes w.
Proof.
  unfold write_all.
  assert (forall p ps, String.concat "" (p :: ps) = p +:+ String.concat "" ps) as Hc.
  { intros p [|q ps]; cbn; [by rewrite app_nil_r_str|done]. }
  induction payloads as [|p ps IH]; intros w all Hw; cbn [fold_left].
  { cbn. rewrite app_nil_r_str. by split. }
  rewrite Hc, <- app_assoc_str. destruct (IH _ _ (output_step w all p Hw)) as [H1 H2]. split; [done|].
  rewrite H2. unfold output_Write. destruct (exceeded w); [done|]. by destruct (_ <? _).
Qed.

(** A command's output is used only when it is complete: the result is everything the command wrote, at most the limit,
    and only if it ended well in time; more than the limit is an error, and never more than the limit is kept. *)
Theorem command_output_bounded timeout limit run : 0 < timeout -> 0 <= limit ->
  let all := String.concat "" (run_writes run) in
  darwinCommandOutputWithLimits timeout limit run =
    (if limit <? str_len all then Err OutputLimit
     else if run_ctxErr run then Err NotFinished else if run_failed run then Err CommandFailed else Ok all) /\
  str_len (buffer (write_all (mkOutput "" limit false) (run_writes run))) <= limit.
Proof.
  intros Ht Hl. cbv zeta. unfold darwinCommandOutputWithLimits.
  destruct (Z.leb_spec timeout 0); [lia|]. destruct (Z.ltb_spec limit 0); [lia|].
  assert (output_inv (mkOutput "" limit false) "") as Hi.
  { split; [done|]. split; [cbn; by destruct (Z.to_nat limit)|]. symmetry. apply Z.ltb_ge. done. }
  destruct (output_run (run_writes run) _ _ Hi) as [(_ & Hb & He) Hm]. rewrite Hm in Hb, He. cbn in Hb, He.
  rewrite app_nil_l_str in Hb, He. rewrite Hb, He. split.
  - destruct (Z.ltb_spec limit (str_len (String.concat "" (run_writes run)))) as [|Hle]; [done|].
    rewrite substring_short; [done|]. unfold str_len in Hle. lia.
  - unfold str_len. rewrite substring_length. clear -Hl. lia.
Qed.
Lemma command_output_bounded_witness : let run := mkRun ["ab"; "c"] false false in
  darwinCommandOutputWithLimits Second 3 run = Ok "abc" /\
  str_len (buffer (write_all (mkOutput "" 2 false) (run_writes run))) <= 2.
Proof.
  cbv zeta. split.
  - apply (command_output_bounded Second 3 (mkRun ["ab"; "c"] false false)); done.
  - apply (command_output_bounded Second 2 (mkRun ["ab"; "c"] false false)); done.
Defined.

(** ** Lemmas: streaming *)
Lemma scan_lines_larger n : forall m m' s ls, m <= m' -> scan_lines_fuel n m s = (ls, false) ->
  scan_lines_fuel n m' s = (ls, false).
Proof.
  induction n as [|n IH]; intros m m' s ls Hm; cbn [scan_lines_fuel]; [done|]. destruct s as [|c s]; [done|].
  destruct (next_line (String c s)) as [l rest].
  destruct (Z.leb_spec m (str_len l)); [done|]. destruct (Z.leb_spec m' (str_len l)); [lia|].
  destruct rest as [rest|]; [|done]. destruct (scan_lines_fuel n m rest) as [ls' err] eqn:E.
  intros [= <- ->]. by rewrite (IH m m' rest ls' Hm E).
Qed.

Lemma visit_net lines : forall n p, (length lines <= n)%nat ->
  visit_lines net_consume n lines p = (let '(p, e) := net_consume_all p lines in (p, VisitFailed <$> e)).
Proof.
  induction lines as [|line lines IH]; intros n p Hn; [by destruct n|]. destruct n as [|n]; [cbn in Hn; lia|].
  cbn [visit_lines net_consume_all]. destruct (net_consume p line) as [p' [e|]]; [done|]. apply IH. cbn in Hn. lia.
Qed.

(** Reading the interface table line by line while the command runs gives what parsing its whole output gives, the
    errors of the parser included, when the command ends well and its output fits the line limits of both. *)
Theorem streamed_totals_equal_parsed writes allowlist lines :
  let output := String.concat "" writes in
  ScanLines output = (lines, false) -> (length lines <= darwinMetricsMaxLines)%nat ->
  darwinNetworkTotals (mkRun writes false false) allowlist = parseDarwinNetworkTotalsResult output allowlist.
Proof.
  cbv zeta. intros Hs Hn. unfold parseDarwinNetworkTotalsResult. rewrite Hs.
  unfold darwinNetworkTotals, darwinCommandScanLinesWithLimits. cbn [run_writes run_ctxErr run_failed].
  assert ((darwinMetricsCommandTimeout <=? 0) || (darwinMetricsMaxLines =? 0)%nat || (darwinMetricsMaxLineBytes <=? 0) = false)
    as ->.
  { apply orb_false_iff. split; [|done]. apply orb_false_iff. split; [done|]. apply Nat.eqb_neq.
    unfold darwinMetricsMaxLines. change (Z.shiftl 1 20) with 1048576. lia. }
  unfold ScanLines, scan_lines in Hs. unfold scan_lines.
  rewrite (scan_lines_larger _ MaxScanTokenSize darwinMetricsMaxLineBytes _ lines) by done.
  rewrite visit_net by done. by destruct (net_consume_all _ lines) as [p [e|]].
Qed.
Lemma streamed_totals_equal_parsed_witness :
  darwinNetworkTotals (mkRun ["Name  Mtu Network"; ""] false false) ∅ =
  parseDarwinNetworkTotalsResult "Name  Mtu Network" ∅.
Proof.
  apply (streamed_totals_equal_parsed ["Name  Mtu Network"; ""] ∅ ["Name  Mtu Network"]); [done|].
  unfold darwinMetricsMaxLines. change (Z.shiftl 1 20) with 1048576. cbn [length]. lia.
Defined.

(** ** Lemmas: the interface table *)

(** The rows counted so far. *)
Record net_inv (allowlist : gset string) (p : darwinNetworkParser) (rows : list (string * (Z * Z))) : Prop := {
  ni_allowlist : np_allowlist p = allowlist;
  ni_totals : sum_rows noTotals rows = Some (np_totals p);
  ni_rows : Forall (fun r => includeNetworkInterface r.1 allowlist = true /\ 0 <= r.2.1 /\ 0 <= r.2.2) rows;
  ni_seen : forall r, r ∈ rows -> r.1 ∈ np_seen p;
  ni_nodup : NoDup (map fst rows)
}.

Lemma sum_rows_snoc rows row t : 0 <= row.2.1 -> 0 <= row.2.2 -> sum_rows noTotals rows = Some t ->
  sum_rows noTotals (rows ++ [row]) = sum_rows t [row].
Proof.
  intros Hi Ho. unfold sum_rows. cbn [InBytes OutBytes SourceNames noTotals].
  rewrite !map_app, !Zsum_app. cbn [map Zsum]. rewrite !Z.add_0_r, !Z.add_0_l.
  destruct (_ && _); [|done]. intros [= <-]. cbn [InBytes OutBytes SourceNames]. done.
Qed.

Lemma net_consume_inv allowlist p rows line : net_inv allowlist p rows -> totals_wf (np_totals p) ->
  match net_consume p line with
  | (p', None) => exists rows', net_inv allowlist p' rows' /\ totals_wf (np_totals p')
  | (_, Some _) => True
  end.
Proof.
  intros [Ha Ht Hr Hs Hn] Hwf. unfold net_consume. destruct (Fields line) as [|first rest]; [by exists rows|].
  set (fields := first :: rest). case_bool_decide; [by exists rows|].
  destruct (link_row p fields) as [name|] eqn:El; [|by exists rows].
  assert (includeNetworkInterface name allowlist = true) as Hinc.
  { revert El. unfold link_row. destruct (np_indexes p !! "Name"); [|done]. destruct (np_indexes p !! "Network"); [|done].
    destruct (np_indexes p !! "Ibytes"); [|done]. destruct (np_indexes p !! "Obytes"); [|done].
    destruct (_ || _ || _); [done|]. destruct (HasPrefix _ _); cbn [negb orb]; [|done]. rewrite Ha.
    destruct (includeNetworkInterface _ _) eqn:E; cbn [negb]; [|done]. by intros [= <-]. }
  case_bool_decide as Hseen; [by exists rows|]. cbn [np_totals].
  destruct (parseNetworkCounter (nth (length fields - 5) fields "")) as [i|] eqn:Ei; [|done].
  destruct (parseNetworkCounter (nth (length fields - 2) fields "")) as [o|] eqn:Eo; [|done].
  apply parseNetworkCounter_range in Ei, Eo. rewrite add_totals_spec by (done || lia).
  destruct (Z.leb_spec (InBytes (np_totals p) + i) maxInt64); cbn [andb]; [|done].
  destruct (Z.leb_spec (OutBytes (np_totals p) + o) maxInt64); [|done].
  exists (rows ++ [(name, (i, o))]). split; [|unfold totals_wf in *; cbn [np_totals InBytes OutBytes]; lia].
  split; cbn [np_allowlist np_totals np_seen]; [done| | | |].
  - rewrite (sum_rows_snoc _ _ (np_totals p)) by (done || (cbn; lia)). unfold sum_rows. cbn [map fst snd Zsum].
    rewrite !Z.add_0_r. rewrite !(proj2 (Z.leb_le _ _)) by done. done.
  - apply Forall_app. split; [done|]. constructor; [|constructor]. cbn. split; [done|lia].
  - intros r Hin. apply elem_of_app in Hin as [Hin|Hin]; [apply Hs in Hin; set_solver|].
    apply list_elem_of_singleton in Hin as ->. cbn. set_solver.
  - rewrite map_app. apply NoDup_app. split; [done|]. split; [|apply NoDup_singleton].
    intros x Hx ->%list_elem_of_singleton. apply Hseen. apply list_elem_of_fmap in Hx as (r & Hr1 & Hr2).
    cbn in Hr1. rewrite Hr1. by apply Hs.
Qed.

Lemma net_consume_all_inv allowlist lines : forall p rows, net_inv allowlist p rows -> totals_wf (np_totals p) ->
  match net_consume_all p lines with
  | (p', None) => exists rows', net_inv allowlist p' rows' /\ totals_wf (np_totals p')
  | (_, Some _) => True
  end.
Proof.
  induction lines as [|line lines IH]; intros p rows Hi Hw; cbn [net_consume_all]; [by exists rows|].
  pose proof (net_consume_inv allowlist p rows line Hi Hw) as Hs. destruct (net_consume p line) as [p' [e|]]; [done|].
  destruct Hs as (rows' & Hi' & Hw'). by eapply IH.
Qed.

(** The interface table of macOS counts every selected interface once: the totals are the exact sum, within [int64],
    of one row per name, and every name passes the selection. *)
Theorem darwin_interfaces_counted_once output allowlist totals :
  parseDarwinNetworkTotalsResult output allowlist = Ok totals ->
  exists rows, sum_rows noTotals rows = Some totals /\ NoDup (SourceNames totals) /\ SourceNames totals = map fst rows /\
    Forall (fun r => includeNetworkInterface r.1 allowlist = true /\ 0 <= r.2.1 /\ 0 <= r.2.2) rows /\
    0 <= InBytes totals <= maxInt64 /\ 0 <= OutBytes totals <= maxInt64.
Proof.
  unfold parseDarwinNetworkTotalsResult. destruct (ScanLines output) as [lines tooLong].
  assert (net_inv allowlist (newDarwinNetworkParser allowlist) []) as Hi.
  { split; [done|done|constructor|intros r Hr; exfalso; by apply elem_of_nil in Hr|constructor]. }
  pose proof (net_consume_all_inv allowlist lines _ [] Hi noTotals_wf) as Hs.
  destruct (net_consume_all _ lines) as [p [e|]]; [done|]. destruct Hs as (rows & [Ha Ht Hr Hs Hn] & Hw).
  destruct tooLong; [done|]. unfold net_result. destruct (np_foundHeader p); [|done]. intros [= <-].
  assert (SourceNames (np_totals p) = map fst rows) as Hnames.
  { revert Ht. unfold sum_rows. destruct (_ && _); [|done]. by intros [= <-]. }
  exists rows. rewrite Hnames. destruct Hw as (? & ?). split; [done|]. split; [done|]. split; [done|]. split; [done|]. split; lia.
Qed.

Definition demo_netstat : string := nl
  ["Name  Mtu   Network       Address            Ipkts Ierrs     Ibytes    Opkts Oerrs     Obytes  Coll";
   "en0   1500  <Link#4>      aa:bb:cc:dd:ee:ff  10    0         1000      20    0         2000    0";
   "en0   1500  10.0.0        10.0.0.2           10    0         1000      20    0         2000    0"].
Lemma darwin_interfaces_counted_once_witness : exists rows,
  sum_rows noTotals rows = Some (mkNet 1000 2000 ["en0"]) /\ NoDup (map fst rows).
Proof.
  destruct (darwin_interfaces_counted_once demo_netstat ∅ (mkNet 1000 2000 ["en0"])) as (rows & H1 & H2 & H3 & _).
  - vm_compute. reflexivity.
  - exists rows. by rewrite <- H3.
Defined.
