(* ===== verification/WindowsMetrics.v ===== *)
(** * Windows metrics (windows_metrics_common.go, platform_windows.go,
      memory_windows.go)

    The resize protocol of the connection tables, the counters of the
    interface table and of its older fallback, memory, times and the names the
    registry holds.  The calls of the Windows API and what [x/sys/windows]
    defines are the system's: they enter as functions. *)

From S2P Require Export HostText MetricsFacts.

(** ** Differences of unsigned counters *)
Definition uint64DifferenceAsInt64 (l r : Z) : Z :=
  if l <=? r then 0
  else
    let delta := u64 (l - r) in
    if maxInt64 <? delta then maxInt64 else i64 delta.

Definition windowsPagefileSwapTotals (totalPageFile availablePageFile totalPhys availablePhys : Z) : Z * Z :=
  (uint64DifferenceAsInt64 totalPageFile totalPhys, uint64DifferenceAsInt64 availablePageFile availablePhys).

Record memoryStatusEx : Type := mkMemoryStatus {
  TotalPhys : Z; AvailPhys : Z; TotalPageFile : Z; AvailPageFile : Z
}.

(** [status] is what [GlobalMemoryStatusEx] filled in, when it succeeded. *)
Definition windows_platformMemoryTotals (status : option memoryStatusEx) : Z * Z :=
  match status with None => (0, 0) | Some s => (i64 (TotalPhys s), i64 (AvailPhys s)) end.
Definition windows_platformSwapTotals (status : option memoryStatusEx) : Z * Z :=
  match status with
  | None => (0, 0)
  | Some s => windowsPagefileSwapTotals (TotalPageFile s) (AvailPageFile s) (TotalPhys s) (AvailPhys s)
  end.

(** ** Connection tables *)
Definition windowsErrorInsufficientBuffer : Z := 122.
Definition windowsErrorNotSupported : Z := 50.
Definition windowsErrorInvalidParameter : Z := 87.
Definition windowsIPTableMaxAttempts : nat := 5.
Definition windowsIPTableMaxBufferBytes : Z := Z.shiftl 64 20.

Inductive ip_table_error : Type :=
| NilQuery
| Undersized
| windowsIPTableAPIError (Code : Z)
| InvalidSize (size : Z)
| TooManyBytes (size : Z)
| KeptGrowing
| ProcMissing.

Definition windowsIPFamilyUnavailable (err : ip_table_error) : bool :=
  match err with
  | windowsIPTableAPIError code => (code =? windowsErrorNotSupported) || (code =? windowsErrorInvalidParameter)
  | _ => false
  end.

(** A call sees the buffer and the size variable; it returns its code, the
    bytes it wrote from the start of the buffer, and the size variable. *)
Definition windowsIPTableQuery (T : Type) : Type := T -> list ascii -> Z -> T * (Z * list ascii * Z).

(** Writing through a pointer to the buffer keeps its length. *)
Definition overwrite (buffer written : list ascii) : list ascii :=
  take (length buffer) written ++ drop (length written) buffer.
Definition make_bytes (n : Z) : list ascii := replicate (Z.to_nat n) (chr 0).
(** [binary.LittleEndian.Uint32] of the first four bytes. *)
Definition LittleEndian_Uint32 (b : list ascii) : Z :=
  match b with
  | b0 :: b1 :: b2 :: b3 :: _ =>
      Z.lor (Z.lor (byte_val b0) (Z.shiftl (byte_val b1) 8))
        (Z.lor (Z.shiftl (byte_val b2) 16) (Z.shiftl (byte_val b3) 24))
  | _ => 0
  end.

Section Query.
Context {T : Type} (query : windowsIPTableQuery T).

Fixpoint ip_table_loop (attempts : nat) (s : T) (buffer : list ascii) (size : Z) : T * result ip_table_error Z :=
  match attempts with
  | O => (s, Err KeptGrowing)
  | S attempts =>
      let '(s, (code, written, size)) := query s buffer size in
      let code := u32 code in
      let size := u32 size in
      let buffer := overwrite buffer written in
      if code =? 0 then
        (s, if (Z.of_nat (length buffer) <? 4) || (size <? 4) then Err Undersized
            else Ok (LittleEndian_Uint32 (take 4 buffer)))
      else if negb (code =? windowsErrorInsufficientBuffer) then (s, Err (windowsIPTableAPIError code))
      else if size <? 4 then (s, Err (InvalidSize size))
      else if windowsIPTableMaxBufferBytes <? size then (s, Err (TooManyBytes size))
      else ip_table_loop attempts s (make_bytes size) size
  end.
End Query.

Definition windowsIPTableCountWithQuery {T} (query : option (windowsIPTableQuery T)) (s : T)
  : T * result ip_table_error Z :=
  match query with
  | None => (s, Err NilQuery)
  | Some query => ip_table_loop query windowsIPTableMaxAttempts s [] 0
  end.

Inductive table_proc : Type := GetExtendedTcpTable | GetExtendedUdpTable.
Definition windowsAFInet : Z := 2.
Definition windowsAFInet6 : Z := 23.
Definition windowsTCPTableBasicAll : Z := 2.
Definition windowsUDPTableBasic : Z := 0.

(** The table functions of iphlpapi.dll: [Find] tells whether one is there. *)
Section Tables.
Context {T : Type} (Find : table_proc -> bool) (Call : table_proc -> Z -> Z -> windowsIPTableQuery T).

Definition windowsIPTableCount (proc : table_proc) (addressFamily tableClass : Z) (s : T) : T * result ip_table_error Z :=
  if Find proc then windowsIPTableCountWithQuery (Some (Call proc addressFamily tableClass)) s
  else (s, Err ProcMissing).

(** The count of an IPv6 table: an absent family counts for nothing. *)
Definition optional_family (r : result ip_table_error Z) : result ip_table_error Z :=
  match r with
  | Err e => if windowsIPFamilyUnavailable e then Ok 0 else Err e
  | Ok n => Ok n
  end.

(** The error carries the function and the family the text names. *)
Definition windowsConnectionCounts (s : T) : T * result (table_proc * Z * ip_table_error) (Z * Z) :=
  let '(s, tcp4) := windowsIPTableCount GetExtendedTcpTable windowsAFInet windowsTCPTableBasicAll s in
  match tcp4 with
  | Err e => (s, Err (GetExtendedTcpTable, windowsAFInet, e))
  | Ok tcp4 =>
      let '(s, tcp6) := windowsIPTableCount GetExtendedTcpTable windowsAFInet6 windowsTCPTableBasicAll s in
      match optional_family tcp6 with
      | Err e => (s, Err (GetExtendedTcpTable, windowsAFInet6, e))
      | Ok tcp6 =>
          let '(s, udp4) := windowsIPTableCount GetExtendedUdpTable windowsAFInet windowsUDPTableBasic s in
          match udp4 with
          | Err e => (s, Err (GetExtendedUdpTable, windowsAFInet, e))
          | Ok udp4 =>
              let '(s, udp6) := windowsIPTableCount GetExtendedUdpTable windowsAFInet6 windowsUDPTableBasic s in
              match optional_family udp6 with
              | Err e => (s, Err (GetExtendedUdpTable, windowsAFInet6, e))
              | Ok udp6 => (s, Ok (i64 (tcp4 + tcp6), i64 (udp4 + udp6)))
              end
          end
      end
  end.
End Tables.

(** ** Interface counters *)

(** The rows of [GetIfTable2Ex] and of [GetIfEntry], their UTF-16 names as code units. *)
Record MibIfRow2 : Type := mkRow2 {
  InterfaceIndex : Z; Alias : list Z; Description : list Z; row_Type : Z; OperStatus : Z;
  InterfaceAndOperStatusFlags : Z; PhysicalAddressLength : Z; InOctets : Z; OutOctets : Z
}.
Record MibIfRow : Type := mkRow {
  row_Index : Z; row_Name : list Z; legacy_Type : Z; legacy_OperStatus : Z; legacy_InOctets : Z; legacy_OutOctets : Z
}.

(** What [golang.org/x/sys/windows] defines. *)
Record windows_package : Type := mkWindows {
  UTF16ToString : list Z -> string;
  IF_TYPE_SOFTWARE_LOOPBACK : Z; IF_TYPE_ETHERNET_CSMACD : Z; IF_TYPE_IEEE80211 : Z; IF_TYPE_PPP : Z;
  IfOperStatusUp : Z; ERROR_BUFFER_OVERFLOW : Z
}.

Definition windowsIfHardwareInterface : Z := Z.shiftl 1 0.
Definition windowsIfFilterInterface : Z := Z.shiftl 1 1.
Definition windowsIfEndPointInterface : Z := Z.shiftl 1 7.

Definition addNetworkCounter (total value : Z) : option Z :=
  if (maxInt64 <? value) || (i64 (maxInt64 - total) <? i64 value) then None else Some (i64 (total + i64 value)).

(** Both counters of a row, then its name. *)
Definition add_row (totals : networkTotals) (inOctets outOctets index : Z) : result network_error networkTotals :=
  match addNetworkCounter (InBytes totals) inOctets with
  | None => Err NetOverflow
  | Some inBytes =>
      match addNetworkCounter (OutBytes totals) outOctets with
      | None => Err NetOverflow
      | Some outBytes => Ok (mkNet inBytes outBytes (SourceNames totals ++ ["if:" +:+ Itoa index]))
      end
  end.

Section Interfaces.
Context (W : windows_package).

Definition includeWindowsNetworkRow (row : MibIfRow2) (allowlist : gset string) : bool :=
  let alias := TrimSpace (UTF16ToString W (Alias row)) in
  let description := TrimSpace (UTF16ToString W (Description row)) in
  if (row_Type row =? IF_TYPE_SOFTWARE_LOOPBACK W) || negb (OperStatus row =? IfOperStatusUp W) then false
  else if negb (bool_decide (allowlist = ∅)) then bool_decide (alias ∈ allowlist) || bool_decide (description ∈ allowlist)
  else if negb (bool_decide (alias = "")) && negb (includeNetworkInterface alias ∅) then false
  else if negb (bool_decide (description = "")) && negb (includeNetworkInterface description ∅) then false
  else
    let flags := InterfaceAndOperStatusFlags row in
    if Z.land flags windowsIfHardwareInterface =? 0 then false
    else if negb (Z.land flags (Z.lor windowsIfFilterInterface windowsIfEndPointInterface) =? 0) then false
    else 0 <? PhysicalAddressLength row.

Definition includeWindowsLegacyNetworkRow (row : MibIfRow) (allowlist : gset string) : bool :=
  if negb (bool_decide (allowlist = ∅)) then bool_decide (TrimSpace (UTF16ToString W (row_Name row)) ∈ allowlist)
  else if (legacy_Type row =? IF_TYPE_SOFTWARE_LOOPBACK W) || negb (legacy_OperStatus row =? IfOperStatusUp W) then false
  else (legacy_Type row =? IF_TYPE_ETHERNET_CSMACD W) || (legacy_Type row =? IF_TYPE_IEEE80211 W) ||
       (legacy_Type row =? IF_TYPE_PPP W).

Fixpoint rows_loop (allowlist : gset string) (rows : list MibIfRow2) (totals : networkTotals)
  : result network_error networkTotals :=
  match rows with
  | [] => Ok totals
  | row :: rows =>
      if negb (includeWindowsNetworkRow row allowlist) then rows_loop allowlist rows totals
      else
        match add_row totals (InOctets row) (OutOctets row) (InterfaceIndex row) with
        | Err e => Err e
        | Ok totals => rows_loop allowlist rows totals
        end
  end.

Fixpoint adapters_loop (GetIfEntry : Z -> result Z MibIfRow) (allowlist : gset string) (adapters : list Z)
  (totals : networkTotals) : result network_error networkTotals :=
  match adapters with
  | [] => Ok totals
  | index :: adapters =>
      match GetIfEntry index with
      | Err code => Err (NetAPI code)
      | Ok row =>
          if negb (includeWindowsLegacyNetworkRow row allowlist) then adapters_loop GetIfEntry allowlist adapters totals
          else
            match add_row totals (legacy_InOctets row) (legacy_OutOctets row) (row_Index row) with
            | Err e => Err e
            | Ok totals => adapters_loop GetIfEntry allowlist adapters totals
            end
      end
  end.

(** [GetAdaptersInfo] is called with the size of the buffer; it answers its
    code, the size variable and the adapters it chained in the buffer. *)
Definition windowsNetworkTotalsLegacy (GetAdaptersInfo : Z -> Z * Z * list Z) (GetIfEntry : Z -> result Z MibIfRow)
  (allowlist : gset string) : result network_error networkTotals :=
  let finish code adapters :=
    if negb (code =? 0) then Err (NetAPI code) else adapters_loop GetIfEntry allowlist adapters noTotals in
  let '(code, size, adapters) := GetAdaptersInfo (15 * 1024) in
  if code =? ERROR_BUFFER_OVERFLOW W then
    if (size =? 0) || (windowsIPTableMaxBufferBytes <? size) then Err (NetAPI code)
    else let '(code, _, adapters) := GetAdaptersInfo size in finish code adapters
  else finish code adapters.

(** [table] is what [GetIfTable2Ex] returned: its code and the rows behind the
    pointer it stored, if it stored one. *)
Definition windowsNetworkTotals (table : Z * option (list MibIfRow2)) (legacy : gset string -> result network_error networkTotals)
  (allowlist : gset string) : result network_error networkTotals :=
  match table with
  | (0, Some rows) => rows_loop allowlist rows noTotals
  | _ => legacy allowlist
  end.
End Interfaces.

(** ** Times and load *)
Record filetime : Type := mkFiletime { LowDateTime : Z; HighDateTime : Z }.
Definition filetimeUint64 (value : filetime) : Z := Z.lor (u64 (Z.shiftl (HighDateTime value) 32)) (LowDateTime value).

(** Idle, kernel and user times, as [GetSystemTimes] stores them. *)
Definition windowsReadCPUTimes (times : option (filetime * filetime * filetime)) : option cpuTimes :=
  match times with
  | None => None
  | Some (idle, kernel, user) => Some (mkCpu (u64 (filetimeUint64 kernel + filetimeUint64 user)) (filetimeUint64 idle))
  end.

Definition windowsLoadAverages (cpuPercent : spec_float) (cpuCores : Z) : spec_float * spec_float * spec_float :=
  (f64_zero, f64_zero, f64_zero).

(** The snapshot of the processes: the first entry and the next ones. *)
Fixpoint count_processes (next : list ()) (count : Z) : Z :=
  let count := i64 (count + 1) in
  match next with [] => count | _ :: next => count_processes next count end.
Definition windowsProcessCount (snapshot : option (list ())) : Z :=
  match snapshot with
  | None | Some [] => 0
  | Some (_ :: next) => count_processes next 0
  end.

Definition windowsUptimeSeconds (milliseconds : Z) : Z := if milliseconds =? 0 then 0 else i64 (milliseconds / 1000).
Definition windowsBootTime (milliseconds now : Z) : Z :=
  let uptime := windowsUptimeSeconds milliseconds in
  if uptime <=? 0 then 0 else i64 (Unix now - uptime).

(** ** Names the registry holds *)
Record registry_key : Type := mkKey { GetStringValue : string -> option string; GetIntegerValue : string -> Z }.

Definition registryString (key : registry_key) (name : string) : string :=
  match GetStringValue key name with None => "" | Some value => TrimSpace value end.

Definition nonEmptyStrings (values : list string) : list string :=
  omap (fun value => if bool_decide (TrimSpace value = "") then None else Some (TrimSpace value)) values.

Definition windows_version_key : string := "SOFTWARE\Microsoft\Windows NT\CurrentVersion".
Definition windows_bios_key : string := "HARDWARE\DESCRIPTION\System\BIOS".
Definition windows_processor_key : string := "HARDWARE\DESCRIPTION\System\CentralProcessor\0".

Section Registry.
Context (OpenKey : string -> option registry_key).

Definition windowsOSRelease : string * string :=
  match OpenKey windows_version_key with
  | None => ("Windows", "")
  | Some key =>
      let product := registryString key "ProductName" in
      let product := if bool_decide (product = "") then "Windows" else product in
      let display := registryString key "DisplayVersion" in
      (product, if bool_decide (display = "") then registryString key "ReleaseId" else display)
  end.

Definition windowsKernelRelease : string :=
  match OpenKey windows_version_key with
  | None => ""
  | Some key =>
      let build := registryString key "CurrentBuildNumber" in
      if bool_decide (build = "") then ""
      else
        let ubr := GetIntegerValue key "UBR" in
        if 0 <? ubr then "build " +:+ build +:+ "." +:+ Itoa ubr else "build " +:+ build
  end.

Definition windowsVirtualizationName : string :=
  match OpenKey windows_bios_key with
  | None => ""
  | Some key =>
      TrimSpace (GoStrings.Join (nonEmptyStrings [registryString key "SystemManufacturer";
        registryString key "SystemProductName"]) " ")
  end.

Definition windowsCPUModel : string :=
  match OpenKey windows_processor_key with
  | None => ""
  | Some key => registryString key "ProcessorNameString"
  end.
End Registry.

(** ** What the collector reads on Windows *)
Definition windows_readings (times : option (filetime * filetime * filetime)) (status : option memoryStatusEx)
  (disk : list string -> Z * Z) (network : gset string -> result network_error networkTotals)
  (connections : result (table_proc * Z * ip_table_error) (Z * Z)) (snapshot : option (list ()))
  (milliseconds now : Z) (OpenKey : string -> option registry_key) (hostname : string) (cores : Z) : readings :=
  mkReadings (windowsReadCPUTimes times) (windows_platformMemoryTotals status) (windows_platformSwapTotals status)
    windowsLoadAverages disk network (result_option connections) (windowsProcessCount snapshot)
    (windowsUptimeSeconds milliseconds) (windowsBootTime milliseconds now) (windowsOSRelease OpenKey)
    (windowsKernelRelease OpenKey) (windowsVirtualizationName OpenKey) (windowsCPUModel OpenKey) hostname cores.

(** ** Examples *)
Example filetimeUint64_1 : filetimeUint64 (mkFiletime 5 1) = 4294967301.
Proof. reflexivity. Qed.
Example LittleEndian_1 : LittleEndian_Uint32 [chr 37; chr 1; chr 0; chr 0] = 293.
Proof. reflexivity. Qed.

(** ** The resize protocol *)

(** A query that also keeps a log of the buffers and sizes it was called with. *)
Definition logged {T} (query : windowsIPTableQuery T) : windowsIPTableQuery (T * list (Z * Z)) :=
  fun '(s, log) buffer size =>
    let '(s, answer) := query s buffer size in (s, log ++ [(Z.of_nat (length buffer), size)], answer).

(** Every call has a buffer of the size it announces, within the limit. *)
Definition call_ok (c : Z * Z) : Prop := fst c = snd c /\ 0 <= fst c <= windowsIPTableMaxBufferBytes.

Lemma ip_table_loop_logged {T} (query : windowsIPTableQuery T) attempts : forall s log buffer size,
  Forall call_ok log -> call_ok (Z.of_nat (length buffer), size) ->
  let '((_, log'), r) := ip_table_loop (logged query) attempts (s, log) buffer size in
  Forall call_ok log' /\ (length log' <= length log + attempts)%nat.
Proof.
  induction attempts as [|attempts IH]; intros s log buffer size Hl Hc; cbn [ip_table_loop]; [split; [done|lia]|].
  unfold logged at 1. destruct (query s buffer size) as [s' [[code written] size']].
  assert (Forall call_ok (log ++ [(Z.of_nat (length buffer), size)])) as Hl'
    by (apply Forall_app; split; [done|by constructor]).
  assert (length (log ++ [(Z.of_nat (length buffer), size)]) = S (length log)) as Hlen by (rewrite length_app; cbn; lia).
  destruct (u32 code =? 0); [split; [done|lia]|].
  destruct (negb (u32 code =? windowsErrorInsufficientBuffer)); [split; [done|lia]|].
  destruct (Z.ltb_spec (u32 size') 4); [split; [done|lia]|].
  destruct (Z.ltb_spec windowsIPTableMaxBufferBytes (u32 size')); [split; [done|lia]|].
  specialize (IH s' _ (make_bytes (u32 size')) (u32 size') Hl').
  destruct (ip_table_loop (logged query) attempts _ _ _) as [[s'' log''] r]. rewrite Hlen in IH.
  destruct IH as [H1 H2]; [|split; [done|lia]].
  unfold call_ok, make_bytes. cbn [fst snd]. rewrite length_replicate. lia.
Qed.

(** Whatever the system answers, reading a connection table stops after at most five calls, and each call gets a
    buffer of exactly the size it announces, at most 64 MiB: the table can grow between two calls, or the answers be
    nonsense, without a loop or an unbounded allocation. *)
Theorem table_calls_bounded {T} (query : windowsIPTableQuery T) s :
  let '((_, log), _) := windowsIPTableCountWithQuery (Some (logged query)) (s, []) in
  (length log <= 5)%nat /\ Forall call_ok log.
Proof.
  pose proof (ip_table_loop_logged query windowsIPTableMaxAttempts s [] [] 0) as H. cbn [length] in H.
  unfold windowsIPTableCountWithQuery. destruct (ip_table_loop _ _ _ _ _) as [[s' log] r].
  destruct H as [H1 H2]; [constructor|done|by split].
Qed.

(** A table that needs [need i] bytes and holds [count i] rows at call [i]. *)
Definition PutUint32 (n : Z) : list ascii :=
  map (fun i => chr (Z.land (Z.shiftr n (8 * i)) 255)) [0; 1; 2; 3].
Definition growing_table (need count : nat -> Z) : windowsIPTableQuery nat := fun i buffer size =>
  (S i, if need i <=? Z.of_nat (length buffer) then (0, PutUint32 (count i), need i)
        else (windowsErrorInsufficientBuffer, [], need i)).

(** The size of the buffer of a call is what the call before it asked for. *)
Definition asked (need : nat -> Z) (i : nat) : Z := match i with O => 0 | S i => need i end.

(** The first call at which the table fits, or at which it asks for more than the limit. *)
Definition first_settled (need : nat -> Z) (calls : list nat) : option nat :=
  List.find (fun i => (need i <=? asked need i) || (windowsIPTableMaxBufferBytes <? need i)) calls.

(** What reading a growing table gives. *)
Definition table_result (need count : nat -> Z) (calls : list nat) : result ip_table_error Z :=
  match first_settled need calls with
  | Some i => if need i <=? asked need i then Ok (count i) else Err (TooManyBytes (need i))
  | None => Err KeptGrowing
  end.

Lemma byte_bit n i k : 0 <= i -> 0 <= k ->
  Z.testbit (Z.shiftl (byte_val (chr (Z.land (Z.shiftr n i) 255))) i) k =
  Z.testbit n k && (i <=? k) && (k <? i + 8).
Proof.
  intros Hi Hk. change 255 with (Z.ones 8).
  rewrite byte_val_chr by (rewrite Z.land_ones by lia; apply Z.mod_pos_bound; lia).
  rewrite Z.shiftl_spec by done. destruct (Z.leb_spec i k); cycle 1.
  { rewrite Z.testbit_neg_r by lia. by rewrite andb_false_r. }
  rewrite Z.land_spec, Z.shiftr_spec, Z.testbit_ones by lia. replace (k - i + i) with k by lia.
  rewrite andb_true_r. f_equal. destruct (Z.leb_spec 0 (k - i)); [|lia]. cbn [andb].
  destruct (Z.ltb_spec (k - i) 8), (Z.ltb_spec k (i + 8)); lia || done.
Qed.

Lemma LittleEndian_PutUint32 n : 0 <= n < two32 -> LittleEndian_Uint32 (PutUint32 n) = n.
Proof.
  intros [H0 Hn]. apply Z.bits_inj'. intros k Hk. unfold LittleEndian_Uint32, PutUint32. cbn [map].
  change (byte_val (chr (Z.land (Z.shiftr n (8 * 0)) 255))) with
    (Z.shiftl (byte_val (chr (Z.land (Z.shiftr n (8 * 0)) 255))) (8 * 0)).
  rewrite !Z.lor_spec. rewrite !byte_bit by lia. change (8 * 0) with 0. change (8 * 1) with 8.
  change (8 * 2) with 16. change (8 * 3) with 24.
  destruct (Z.testbit n k) eqn:E; [cbn [andb]|done].
  assert (k < 32).
  { destruct (Z.lt_ge_cases k 32) as [|Hge]; [done|]. rewrite Z.testbit_eqb in E by done.
    rewrite Z.div_small in E; [done|]. split; [done|]. unfold two32 in Hn.
    eapply Z.lt_le_trans; [exact Hn|]. change 4294967296 with (2 ^ 32). apply Z.pow_le_mono_r; lia. }
  zcase; done || lia.
Qed.

Definition uint32_table (need count : nat -> Z) : Prop := forall i, 4 <= need i < two32 /\ 0 <= count i < two32.

Lemma growing_step need count i attempts buffer size : uint32_table need count ->
  snd (ip_table_loop (growing_table need count) (S attempts) i buffer size) =
    (if need i <=? Z.of_nat (length buffer) then Ok (count i)
     else if windowsIPTableMaxBufferBytes <? need i then Err (TooManyBytes (need i))
     else snd (ip_table_loop (growing_table need count) attempts (S i) (make_bytes (need i)) (need i))).
Proof.
  intros Hf. destruct (Hf i) as [[H4 Hm] Hc]. cbn [ip_table_loop]. unfold growing_table at 1.
  assert (u32 (need i) = need i) as Hu by (apply u32_id; lia).
  destruct (Z.leb_spec (need i) (Z.of_nat (length buffer))); rewrite Hu.
  - change (u32 0 =? 0) with true. cbn match. assert (4 <= length buffer)%nat as Hb by lia.
    unfold overwrite. rewrite length_app, length_take, length_drop.
    destruct (Z.ltb_spec (Z.of_nat (length buffer `min` length (PutUint32 (count i)) +
      (length buffer - length (PutUint32 (count i))))) 4) as [Hx|_]; [cbn [PutUint32 map length] in Hx; lia|].
    destruct (Z.ltb_spec (need i) 4); [lia|]. cbn [orb snd]. f_equal.
    rewrite (take_ge (PutUint32 _)) by (cbn [PutUint32 map length]; lia).
    rewrite take_app_le by (cbn [PutUint32 map length]; lia).
    rewrite take_ge by (cbn [PutUint32 map length]; lia). by apply LittleEndian_PutUint32.
  - change (u32 windowsErrorInsufficientBuffer) with 122. cbn [Z.eqb Pos.eqb negb windowsErrorInsufficientBuffer].
    destruct (Z.ltb_spec (need i) 4); [lia|].
    by destruct (Z.ltb_spec windowsIPTableMaxBufferBytes (need i)).
Qed.

Lemma growing_loop need count : uint32_table need count -> forall attempts i buffer size,
  Z.of_nat (length buffer) = asked need i ->
  snd (ip_table_loop (growing_table need count) attempts i buffer size) = table_result need count (seq i attempts).
Proof.
  intros Hf. induction attempts as [|attempts IH]; intros i buffer size Hb; [done|]. rewrite growing_step by done.
  unfold table_result, first_settled. cbn [seq List.find]. rewrite Hb.
  destruct (need i <=? asked need i) eqn:Efit; cbn [orb]; [by rewrite Efit|].
  destruct (windowsIPTableMaxBufferBytes <? need i); [by rewrite Efit|].
  apply (IH (S i)). unfold make_bytes. rewrite length_replicate. cbn [asked]. destruct (Hf i) as [[H4 _] _]. lia.
Qed.

(** C36. The resize protocol follows a table that grows.  For a table of any sizes and numbers of rows that are uint32
    values (and at least the four bytes of its count), reading it gives the number of rows of the first of the calls at
    which the table fits the size that the call before it asked for, the first call having no buffer; it fails with the
    size as the error when a call before that asks for more than 64 MiB, and otherwise only when the table outgrew
    every one of the five calls. *)
Theorem growing_table_counted need count : uint32_table need count ->
  snd (windowsIPTableCountWithQuery (Some (growing_table need count)) 0%nat) =
  table_result need count [0; 1; 2; 3; 4]%nat.
Proof. intros Hf. by apply (growing_loop need count Hf 5 0). Qed.
Lemma growing_table_counted_witness :
  snd (windowsIPTableCountWithQuery (Some (growing_table (fun i => 8 + 8 * Z.of_nat (min i 1)) (fun _ => 37))) 0%nat) = Ok 37 /\
  snd (windowsIPTableCountWithQuery (Some (growing_table (fun _ => 73400320) (fun _ => 1))) 0%nat) =
    Err (TooManyBytes 73400320).
Proof.
  split.
  - apply (growing_table_counted (fun i => 8 + 8 * Z.of_nat (min i 1)) (fun _ => 37)).
    intros i. unfold two32. lia.
  - apply (growing_table_counted (fun _ => 73400320) (fun _ => 1)). by vm_compute.
Defined.

(** ** Interface counters as sums *)
Lemma addNetworkCounter_spec total value : 0 <= total <= maxInt64 -> 0 <= value ->
  addNetworkCounter total value = if total + value <=? maxInt64 then Some (total + value) else None.
Proof.
  intros Ht Hv. unfold addNetworkCounter. destruct (Z.ltb_spec maxInt64 value) as [Hm|Hm]; cbn [orb].
  { destruct (Z.leb_spec (total + value) maxInt64); [lia|done]. }
  rewrite !(i64_nonneg value), (i64_nonneg (maxInt64 - total)) by lia.
  destruct (Z.ltb_spec (maxInt64 - total) value), (Z.leb_spec (total + value) maxInt64); try lia; [done|].
  by rewrite i64_nonneg by lia.
Qed.

Lemma add_row_spec t inOctets outOctets index : totals_wf t -> 0 <= inOctets -> 0 <= outOctets ->
  result_option (add_row t inOctets outOctets index) =
  sum_rows t [("if:" +:+ Itoa index, (inOctets, outOctets))].
Proof.
  intros [Hi Ho] H1 H2. unfold add_row, sum_rows. cbn [map Zsum fst snd]. rewrite !Z.add_0_r.
  rewrite (addNetworkCounter_spec _ _ Hi H1). destruct (Z.leb_spec (InBytes t + inOctets) maxInt64); cbn [andb]; [|done].
  rewrite (addNetworkCounter_spec _ _ Ho H2). by destruct (_ <=? _).
Qed.

Definition row_counters (row : MibIfRow2) : string * (Z * Z) :=
  ("if:" +:+ Itoa (InterfaceIndex row), (InOctets row, OutOctets row)).
Definition octets_ok (row : MibIfRow2) : Prop := 0 <= InOctets row < two64 /\ 0 <= OutOctets row < two64.

Lemma rows_loop_spec W allow rows : forall t, totals_wf t -> Forall octets_ok rows ->
  result_option (rows_loop W allow rows t) =
  sum_rows t (map row_counters (List.filter (fun row => includeWindowsNetworkRow W row allow) rows)).
Proof.
  induction rows as [|row rows IH]; intros t Ht Hr; cbn [rows_loop List.filter].
  - cbn. unfold sum_rows. cbn. rewrite !Z.add_0_r, app_nil_r. destruct Ht as [[_ Hi] [_ Ho]].
    apply Z.leb_le in Hi, Ho. rewrite Hi, Ho. by destruct t.
  - apply Forall_cons in Hr as [[Hi Ho] Hr]. destruct (includeWindowsNetworkRow W row allow); cbn [negb]; [|by apply IH].
    cbn [map]. rewrite <- sum_rows_cons; [|apply Hi|apply Ho|]; cycle 1.
    { apply Forall_map, Forall_forall. intros r Hin. apply list_elem_of_In, filter_In in Hin as [Hin _].
      apply list_elem_of_In in Hin. rewrite Forall_forall in Hr. destruct (Hr r Hin). cbn. lia. }
    pose proof (add_row_spec t (InOctets row) (OutOctets row) (InterfaceIndex row) Ht (proj1 Hi) (proj1 Ho)) as Ha.
    fold (row_counters row) in Ha. destruct (add_row _ _ _ _) as [t'|e]; cbn in Ha |- *; rewrite <- Ha; [|done].
    cbn. apply IH; [|done]. eapply sum_rows_wf; [exact Ht| | |exact Ha]; cbn; lia.
Qed.

(** The totals read from the interface table are the exact sums over the rows
    that are included; they fail exactly when a sum leaves [int64]. *)
Theorem windows_totals_are_sums W rows legacy allow : Forall octets_ok rows ->
  result_option (windowsNetworkTotals W (0, Some rows) legacy allow) =
  sum_rows noTotals (map row_counters (List.filter (fun row => includeWindowsNetworkRow W row allow) rows)).
Proof. intros Hr. cbn [windowsNetworkTotals]. apply rows_loop_spec; [apply noTotals_wf|done]. Qed.

(** ** Connections *)
Lemma lor_below k a b : 0 <= k -> 0 <= a < 2 ^ k -> 0 <= b < 2 ^ k -> 0 <= Z.lor a b < 2 ^ k.
Proof.
  intros Hk Ha Hb. replace (Z.lor a b) with (Z.land (Z.lor a b) (Z.ones k)).
  - rewrite Z.land_ones by done. apply Z.mod_pos_bound. lia.
  - by rewrite Z.land_lor_distr_l, !Z.land_ones, !Z.mod_small by done.
Qed.

Lemma LittleEndian_range b : 0 <= LittleEndian_Uint32 b < two32.
Proof.
  unfold LittleEndian_Uint32. destruct b as [|b0 [|b1 [|b2 [|b3 b]]]]; try done.
  pose proof (byte_val_range b0) as H0. pose proof (byte_val_range b1) as H1.
  pose proof (byte_val_range b2) as H2. pose proof (byte_val_range b3) as H3.
  change two32 with (2 ^ 32).
  assert (forall a n, 0 <= a < 256 -> 0 <= n <= 24 -> 0 <= Z.shiftl a n < 2 ^ 32) as Hs.
  { intros a n Ha Hn. rewrite Z.shiftl_mul_pow2 by lia. split; [apply Z.mul_nonneg_nonneg; lia|].
    eapply Z.lt_le_trans; [apply Z.mul_lt_mono_pos_r; [apply Z.pow_pos_nonneg; lia|apply Ha]|].
    change 256 with (2 ^ 8). rewrite <- Z.pow_add_r by lia. apply Z.pow_le_mono_r; lia. }
  repeat apply lor_below; try (by apply Hs); lia.
Qed.

Section Counts.
Context {T : Type} (Find : table_proc -> bool) (Call : table_proc -> Z -> Z -> windowsIPTableQuery T).

Lemma ip_table_loop_range (query : windowsIPTableQuery T) attempts : forall s buffer size s' n,
  ip_table_loop query attempts s buffer size = (s', Ok n) -> 0 <= n < two32.
Proof.
  induction attempts as [|attempts IH]; intros s buffer size s' n; cbn [ip_table_loop]; [done|].
  destruct (query s buffer size) as [s1 [[code written] size1]].
  destruct (u32 code =? 0).
  { destruct (_ || _); [done|]. intros [= _ <-]. apply LittleEndian_range. }
  destruct (negb _); [done|]. destruct (u32 size1 <? 4); [done|]. destruct (_ <? u32 size1); [done|]. apply IH.
Qed.

Lemma windowsIPTableCount_range proc family class s s' n :
  windowsIPTableCount Find Call proc family class s = (s', Ok n) -> 0 <= n < two32.
Proof. unfold windowsIPTableCount. destruct (Find proc); [apply ip_table_loop_range|done]. Qed.

(** Both sums are exact: four counts below 2^32 never wrap. *)
Lemma connection_counts_exact s s' tcp udp : windowsConnectionCounts Find Call s = (s', Ok (tcp, udp)) ->
  exists tcp4 tcp6 udp4 udp6, tcp = tcp4 + tcp6 /\ udp = udp4 + udp6 /\
    Forall (fun n => 0 <= n < two32) [tcp4; tcp6; udp4; udp6].
Proof.
  unfold windowsConnectionCounts.
  assert (forall proc family class s s' r n, windowsIPTableCount Find Call proc family class s = (s', r) ->
    optional_family r = Ok n -> 0 <= n < two32) as Hopt.
  { intros proc family class s0 s1 [n0|e] n Hc; cbn [optional_family].
    - intros [= <-]. by eapply windowsIPTableCount_range.
    - destruct (windowsIPFamilyUnavailable e); [|done]. by intros [= <-]. }
  destruct (windowsIPTableCount Find Call GetExtendedTcpTable windowsAFInet windowsTCPTableBasicAll s) as [s1 [tcp4|]] eqn:E1; [|done].
  destruct (windowsIPTableCount Find Call GetExtendedTcpTable windowsAFInet6 windowsTCPTableBasicAll s1) as [s2 r6] eqn:E2.
  destruct (optional_family r6) as [tcp6|] eqn:O2; [|done].
  destruct (windowsIPTableCount Find Call GetExtendedUdpTable windowsAFInet windowsUDPTableBasic s2) as [s3 [udp4|]] eqn:E3; [|done].
  destruct (windowsIPTableCount Find Call GetExtendedUdpTable windowsAFInet6 windowsUDPTableBasic s3) as [s4 ru6] eqn:E4.
  destruct (optional_family ru6) as [udp6|] eqn:O4; [|done].
  apply windowsIPTableCount_range in E1, E3. apply (Hopt _ _ _ _ _ _ _ E2) in O2. apply (Hopt _ _ _ _ _ _ _ E4) in O4.
  intros [= _ <- <-]. exists tcp4, tcp6, udp4, udp6. assert (two32 + two32 <= maxInt64) as Hm by done.
  assert (forall a b, 0 <= a < two32 -> 0 <= b < two32 -> i64 (a + b) = a + b) as Hsum.
  { intros a b Ha Hb. apply i64_nonneg. revert Hm Ha Hb. generalize two32, maxInt64. lia. }
  rewrite !Hsum by done. split; [done|]. split; [done|]. rewrite !Forall_cons. done.
Qed.
End Counts.

(** ** Memory and load *)
Lemma uint64Difference_spec l r : 0 <= l < two64 -> 0 <= r ->
  uint64DifferenceAsInt64 l r = Z.min maxInt64 (Z.max 0 (l - r)).
Proof.
  intros Hl Hr. unfold uint64DifferenceAsInt64. assert (0 <= maxInt64) as Hm by done.
  destruct (Z.leb_spec l r); [lia|]. rewrite u64_id by lia.
  destruct (Z.ltb_spec maxInt64 (l - r)); [lia|]. rewrite i64_nonneg by lia. lia.
Qed.

(** Windows has no load averages, so its reports always have a JSON encoding. *)
Lemma windows_loads times status disk network connections snapshot ms now OpenKey hostname cores cpu n :
  r_load (windows_readings times status disk network connections snapshot ms now OpenKey hostname cores) cpu n =
    (f64_zero, f64_zero, f64_zero).
Proof. reflexivity. Qed.
