(* ===== verification/ProbeSafety.v ===== *)
(** * Where a probe may connect (probe.go lines 394 to 584)

    The HTTP probe's URL rules, its redirect policy, the resolver that pins a
    name to the addresses first checked, and the dialler.  [url.ParseRequestURI]
    and [URL.String], whose grammar changes between Go releases, the DNS and the
    network are arguments; the concurrent calls of one resolver are steps of a
    transition system. *)

From S2P Require Export GoUrl.

(** ** URL rules of the HTTP probe *)
Definition allowedPlainHTTPProbeURL (parsed : option url) : bool :=
  match parsed with
  | None => false
  | Some parsed =>
      let host := normalizeProbeHost (Hostname parsed) in
      if EqualFold host "localhost" then true
      else
        match ParseAddr host with
        | None => false
        | Some address =>
            let address := Unmap address in
            IsLoopback address || negb (bool_decide (url_Port parsed = ""))
        end
  end.

Definition effectiveHTTPProbePort (value : option url) : string :=
  match value with
  | None => ""
  | Some value =>
      let port := url_Port value in
      if negb (bool_decide (port = "")) then port
      else if EqualFold (Scheme value) "http" then "80"
      else if EqualFold (Scheme value) "https" then "443"
      else ""
  end.

Definition sameHTTPProbeOrigin (a b : option url) : bool :=
  match a, b with
  | Some l, Some r =>
      EqualFold (Scheme l) (Scheme r) && EqualFold (Hostname l) (Hostname r) &&
      bool_decide (effectiveHTTPProbePort a = effectiveHTTPProbePort b)
  | _, _ => false
  end.

Section URLs.
Context (ParseRequestURI : string -> result go_error url).

Definition port_acceptable (u : url) : bool :=
  if negb (bool_decide (url_Port u = "")) then
    match ParseInt (url_Port u) with Ok port => validProbePort port | Err _ => false end
  else true.

Definition parseHTTPProbeURL (address : string) : result go_error url :=
  match ParseRequestURI address with
  | Err _ => Err errInvalidProbeTarget
  | Ok parsed =>
      if bool_decide (Host parsed = "") || bool_decide (Hostname parsed = "") || bool_decide (is_Some (User parsed))
      then Err errInvalidProbeTarget
      else if negb (bool_decide (Scheme parsed = "http")) && negb (bool_decide (Scheme parsed = "https"))
      then Err errInvalidProbeTarget
      else if negb (port_acceptable parsed) then Err errInvalidProbeTarget
      else if bool_decide (Scheme parsed = "http") && negb (allowedPlainHTTPProbeURL (Some parsed))
      then Err errInvalidProbeTarget
      else Ok parsed
  end.
End URLs.

(** ** The resolver of one probe *)

(** What the environment does during one call: [ctx.Err()] before and after the
    lookup, and the answers of the DNS at that moment. *)
Record network : Type := mkNetwork {
  ctx_before : option go_error;
  ctx_after : option go_error;
  dns : string -> result go_error (list addr)
}.

Definition network_wf (net : network) : Prop :=
  forall h l, dns net h = Ok l -> Forall addr_wf l.

Notation answers := (gmap string (list addr)).

Inductive resolve_pc : Type :=
| RStart
| RLookup
| RInsert (addresses : list addr)
| RDone (r : result go_error (list addr)).

Definition cacheKey (host : string) : string := ToLower (normalizeProbeHost host).

(** [safeProbeResolver.resolve]: one step per critical section, the lookup in
    between without the lock. *)
Definition resolve_next (net : network) (host : string) (allow : bool) (cache : answers) (pc : resolve_pc)
  : answers * resolve_pc :=
  let normalizedHost := normalizeProbeHost host in
  let lookup := resolveSafeProbeHostWithLookup normalizedHost allow (ctx_before net) (ctx_after net) (dns net) in
  match pc with
  | RStart =>
      if bool_decide (normalizedHost = "") || HasPrefix normalizedHost "-"
      then (cache, RDone (Err errInvalidProbeTarget))
      else
        match ParseAddr normalizedHost with
        | Some _ => (cache, RDone lookup)
        | None =>
            match cache !! cacheKey host with
            | Some cached => (cache, RDone (Ok cached))
            | None => (cache, RLookup)
            end
        end
  | RLookup =>
      match lookup with
      | Err e => (cache, RDone (Err e))
      | Ok addresses => (cache, RInsert addresses)
      end
  | RInsert addresses =>
      match cache !! cacheKey host with
      | Some cached => (cache, RDone (Ok cached))
      | None => (<[cacheKey host := addresses]> cache, RDone (Ok addresses))
      end
  | RDone r => (cache, RDone r)
  end.

(** A call that no other call of the same resolver overlaps. *)
Definition resolve (net : network) (host : string) (allow : bool) (cache : answers)
  : answers * result go_error (list addr) :=
  let '(cache, pc) := resolve_next net host allow cache RStart in
  let '(cache, pc) := resolve_next net host allow cache pc in
  let '(cache, pc) := resolve_next net host allow cache pc in
  (cache, match pc with RDone r => r | _ => Err errInvalidProbeTarget end).

(** Overlapping calls. *)
Record call : Type := mkCall { call_host : string; call_allow : bool; call_pc : resolve_pc }.
Record resolver_state : Type := mkResolver { cache : answers; calls : list call }.
Definition newSafeProbeResolver : resolver_state := mkResolver ∅ [].

Inductive resolver_step : resolver_state -> resolver_state -> Prop :=
| step_call c cs host allow :
    resolver_step (mkResolver c cs) (mkResolver c (cs ++ [mkCall host allow RStart]))
| step_advance c cs i host allow pc net c' pc' :
    cs !! i = Some (mkCall host allow pc) -> network_wf net ->
    resolve_next net host allow c pc = (c', pc') ->
    resolver_step (mkResolver c cs) (mkResolver c' (<[i := mkCall host allow pc']> cs)).

Definition resolver_reachable : resolver_state -> Prop := rtc resolver_step newSafeProbeResolver.

(** ** Dialling *)
Section Dial.
Context (dial : string -> string -> result go_error unit).

(** The loop over the addresses, with the addresses tried so far. *)
Fixpoint dial_loop (net_name : string) (addresses : list addr) (port : Z) (lastErr : option go_error)
  (tried : list addr) : list addr * result go_error addr :=
  match addresses with
  | [] => (tried, match lastErr with Some e => Err e | None => Err errInvalidProbeTarget end)
  | address :: rest =>
      if bool_decide (net_name = "tcp4") && negb (Is4 address) then dial_loop net_name rest port lastErr tried
      else if bool_decide (net_name = "tcp6") && negb (Is6 address) then dial_loop net_name rest port lastErr tried
      else
        match dial net_name (JoinHostPort (Addr_String address) (Itoa port)) with
        | Ok _ => (tried ++ [address], Ok address)
        | Err e => dial_loop net_name rest port (Some e) (tried ++ [address])
        end
  end.

Definition dialResolvedProbeAddress (net_name : string) (addresses : list addr) (port : Z)
  : list addr * result go_error addr :=
  if negb (validProbePort port) || bool_decide (addresses = []) then ([], Err errInvalidProbeTarget)
  else dial_loop net_name addresses port None [].

Definition dialSafeProbeNetworkAddressWithResolver (net : network) (net_name address : string) (cache : answers)
  : answers * (list addr * result go_error addr) :=
  match SplitHostPort address with
  | Err e => (cache, ([], Err (wrap_error errInvalidProbeTarget e)))
  | Ok (host, portText) =>
      match ParseInt portText with
      | Err _ => (cache, ([], Err errInvalidProbeTarget))
      | Ok port =>
          if negb (validProbePort port) then (cache, ([], Err errInvalidProbeTarget))
          else
            match resolve net host true cache with
            | (cache, Err e) => (cache, ([], Err e))
            | (cache, Ok addresses) => (cache, dialResolvedProbeAddress net_name addresses port)
            end
      end
  end.
End Dial.

(** ** The invariant of the resolver *)

(** What a resolution of [host] may return. *)
Definition safe_list (host : string) (l : list addr) : Prop :=
  let name := normalizeProbeHost (normalizeProbeHost host) in
  l <> [] /\ NoDup l /\
  exists allow, Forall (safe_answer name (bool_decide (is_Some (ParseAddr name))) allow) l.

Definition is_literal (host : string) : Prop := is_Some (ParseAddr (normalizeProbeHost host)).

(** A cache entry is the safe answer to a lookup of a name with that key. *)
Definition cache_ok (c : answers) : Prop :=
  forall k l, c !! k = Some l ->
    exists host, cacheKey host = k /\ ~ is_literal host /\ safe_list host l.

Definition call_ok (c : answers) (cl : call) : Prop :=
  let host := call_host cl in
  match call_pc cl with
  | RStart | RDone (Err _) => True
  | RLookup => ~ is_literal host
  | RInsert l => ~ is_literal host /\ safe_list host l
  | RDone (Ok l) =>
      is_literal host /\ safe_list host l \/ ~ is_literal host /\ c !! cacheKey host = Some l
  end.

(** ** Redirects *)
Record request : Type := mkRequest {
  Method : string;
  URL : url;
  Header : list (string * string)
}.

Definition maxHTTPProbeRedirects : nat := 10.
Definition fresh_header : list (string * string) := [("User-Agent", "Zeno-Agent")].

Section Redirect.
Context (ParseRequestURI : string -> result go_error url) (URL_String : url -> string).

(** [CheckRedirect(req, via)] with [via] being [earlier ++ [previous]], which
    net/http never leaves empty. *)
Definition CheckRedirect (net : network) (cache : answers) (req : request)
  (earlier : list request) (previous : request) : answers * request * option go_error :=
  if (maxHTTPProbeRedirects <=? length earlier + 1)%nat then (cache, req, Some errUnsafeProbeRedirect)
  else if negb (bool_decide (Method req = "GET")) then (cache, req, Some errUnsafeProbeRedirect)
  else
    match parseHTTPProbeURL ParseRequestURI (URL_String (URL req)) with
    | Err e => (cache, req, Some (wrap_error errUnsafeProbeRedirect e))
    | Ok _ =>
        if bool_decide (Scheme (URL previous) = "https") && negb (bool_decide (Scheme (URL req) = "https"))
        then (cache, req, Some errUnsafeProbeRedirect)
        else
          let req :=
            if negb (sameHTTPProbeOrigin (Some (URL previous)) (Some (URL req)))
            then mkRequest (Method req) (URL req) fresh_header else req in
          match resolve net (Hostname (URL req)) true cache with
          | (cache, Err e) =>
              if negb (bool_decide (classifyContextError (Some e) = "")) then (cache, req, Some e)
              else (cache, req, Some (wrap_error errUnsafeProbeRedirect e))
          | (cache, Ok _) => (cache, req, None)
          end
    end.

(** The requests one [client.Do] sends, first to last, and the cache after it:
    net/http sends a redirected request only when [CheckRedirect] returns nil,
    and the dials in between only add safe entries to the cache. *)
Inductive sent : answers -> list request -> Prop :=
| sent_first c req u :
    cache_ok c -> parseHTTPProbeURL ParseRequestURI (URL_String (URL req)) = Ok u -> Method req = "GET" ->
    sent c [req]
| sent_grown c c' reqs : sent c reqs -> c ⊆ c' -> cache_ok c' -> sent c' reqs
| sent_redirect c earlier previous net req c' req' :
    sent c (earlier ++ [previous]) -> network_wf net ->
    CheckRedirect net c req earlier previous = (c', req', None) ->
    sent c' (earlier ++ [previous; req']).
End Redirect.

(** ** Lemmas *)
Lemma call_ok_mono c c' cl : c ⊆ c' -> call_ok c cl -> call_ok c' cl.
Proof.
  intros Hc. unfold call_ok. destruct (call_pc cl) as [| |l|[l|e]]; try done.
  intros [H|[Hn H]]; [by constructor|right]. split; [done|]. by eapply lookup_weaken.
Qed.

Lemma resolve_safe_list net host allow l : network_wf net ->
  resolveSafeProbeHostWithLookup (normalizeProbeHost host) allow (ctx_before net) (ctx_after net) (dns net) = Ok l ->
  safe_list host l.
Proof.
  intros Hn H. apply resolve_spec in H as (Hne & Hnd & Hall & _); [|intros; by eapply Hn].
  split; [done|]. split; [done|]. by exists allow.
Qed.

Lemma not_literal host : ParseAddr (normalizeProbeHost host) = None -> ~ is_literal host.
Proof. unfold is_literal. intros ->. by intros [? [=]]. Qed.

Lemma resolve_next_ok net host allow c pc c' pc' :
  network_wf net -> cache_ok c -> call_ok c (mkCall host allow pc) ->
  resolve_next net host allow c pc = (c', pc') ->
  c ⊆ c' /\ cache_ok c' /\ call_ok c' (mkCall host allow pc').
Proof.
  intros Hn Hc Hcall. unfold resolve_next. destruct pc as [| |l|r].
  - destruct (_ || _); [by intros [= <- <-]|].
    destruct (ParseAddr (normalizeProbeHost host)) as [a|] eqn:Ep.
    + intros [= <- <-]. split; [done|]. split; [done|]. unfold call_ok. cbn [call_pc call_host].
      destruct (resolveSafeProbeHostWithLookup _ _ _ _ _) as [l|e] eqn:El; [|done].
      apply resolve_safe_list in El; [|done]. left. split; [by eexists|done].
    + apply not_literal in Ep.
      destruct (c !! cacheKey host) as [l|] eqn:El; intros [= <- <-]; (split; [done|]); (split; [done|]);
        [|done]. right. by split.
  - destruct (resolveSafeProbeHostWithLookup _ _ _ _ _) as [l|e] eqn:El; intros [= <- <-];
      (split; [done|]); (split; [done|]); [|done].
    apply resolve_safe_list in El; [|done]. by split.
  - destruct Hcall as [Hl Hs]. cbn [call_host] in *.
    destruct (c !! cacheKey host) as [k|] eqn:El; intros [= <- <-].
    { split; [done|]. split; [done|]. right. by split. }
    split; [by apply insert_subseteq|]. split.
    + intros k' l'. destruct (decide (cacheKey host = k')) as [<-|Hne].
      * rewrite lookup_insert_eq. intros [= <-]. by exists host.
      * rewrite lookup_insert_ne by done. apply Hc.
    + right. split; [done|]. apply lookup_insert_eq.
  - intros [= <- <-]. by split.
Qed.

Lemma resolve_ok net host allow c c' r :
  network_wf net -> cache_ok c -> resolve net host allow c = (c', r) ->
  c ⊆ c' /\ cache_ok c' /\ call_ok c' (mkCall host allow (RDone r)).
Proof.
  intros Hn Hc. unfold resolve.
  destruct (resolve_next net host allow c RStart) as [c1 pc1] eqn:E1.
  destruct (resolve_next net host allow c1 pc1) as [c2 pc2] eqn:E2.
  destruct (resolve_next net host allow c2 pc2) as [c3 pc3] eqn:E3. intros [= <- <-].
  apply resolve_next_ok in E1 as (S1 & C1 & O1); [|done..].
  apply resolve_next_ok in E2 as (S2 & C2 & O2); [|done..].
  apply resolve_next_ok in E3 as (S3 & C3 & O3); [|done..].
  split; [by do 2 (etrans; [done|])|]. split; [done|]. by destruct pc3.
Qed.

Lemma cache_ok_empty : cache_ok ∅.
Proof. intros k l. by rewrite lookup_empty. Qed.

Lemma reachable_ok s : resolver_reachable s -> cache_ok (cache s) /\ Forall (call_ok (cache s)) (calls s).
Proof.
  revert s. apply rtc_ind_r; [split; [apply cache_ok_empty|constructor]|].
  intros s s' _ Hs IH. destruct IH as [Hc Hcalls]. destruct Hs as [c cs host allow|c cs i host allow pc net c' pc' Hi Hn E]; cbn in *.
  - split; [done|]. apply Forall_app. split; [done|]. by repeat constructor.
  - rewrite Forall_lookup in Hcalls. pose proof (Hcalls _ _ Hi) as Hcall.
    apply resolve_next_ok in E as (S1 & C1 & O1); [|done..]. split; [done|].
    apply Forall_insert; [|done]. rewrite Forall_lookup. intros j cl Hj.
    eapply call_ok_mono; [done|]. by eapply Hcalls.
Qed.

(** The addresses of a safe list are all fit to connect to. *)
Lemma safe_list_not_forbidden host l : safe_list host l -> Forall (fun a => forbidden a -> zoned_exception a) l.
Proof. intros (_ & _ & allow & H). eapply Forall_impl; [exact H|]. by intros a []. Qed.

Lemma call_ok_safe c host allow l : cache_ok c -> call_ok c (mkCall host allow (RDone (Ok l))) ->
  exists host', cacheKey host' = cacheKey host /\ safe_list host' l.
Proof.
  intros Hc [[_ Hs]|[_ Hk]]; [by exists host|]. destruct (Hc _ _ Hk) as (h & ? & _ & ?). by exists h.
Qed.

Lemma guards_Ok {E A} (b1 b2 b3 http https port plain : bool) (x y : A) (e1 e2 e3 e4 : E) :
  (http = true -> https = false) ->
  (if b1 || b2 || b3 then Err e1
   else if negb http && negb https then Err e2
   else if negb port then Err e3
   else if http && negb plain then Err e4 else Ok x) = Ok y <->
  x = y /\ b1 = false /\ b2 = false /\ b3 = false /\ port = true /\
  (https = true \/ http = true /\ plain = true).
Proof.
  intros Hx. destruct b1, b2, b3, http, https, port, plain; cbn [orb andb negb];
    try discriminate (Hx eq_refl); intuition congruence.
Qed.

Lemma port_acceptable_spec u :
  port_acceptable u = true <->
  url_Port u = "" \/ exists port, ParseInt (url_Port u) = Ok port /\ 1 <= port <= 65535.
Proof.
  unfold port_acceptable. destruct (decide (url_Port u = "")) as [Hp|Hp].
  - rewrite bool_decide_eq_true_2 by exact Hp. split; [by constructor|done].
  - rewrite bool_decide_eq_false_2 by exact Hp. cbn [negb].
    destruct (ParseInt (url_Port u)) as [port|e].
    + unfold validProbePort. rewrite andb_true_iff, Z.ltb_lt, Z.leb_le. split.
      * intros H. right. exists port. split; [reflexivity|lia].
      * intros [?|(q & [= <-] & Hq)]; [contradiction|lia].
    + split; [discriminate|]. intros [?|(q & [=] & Hq)]. contradiction.
Qed.

Lemma allowedPlain_spec u :
  allowedPlainHTTPProbeURL (Some u) = true <->
  EqualFold (normalizeProbeHost (Hostname u)) "localhost" = true \/
  exists a, ParseAddr (normalizeProbeHost (Hostname u)) = Some a /\
    (loopback (Unmap a) \/ url_Port u <> "").
Proof.
  unfold allowedPlainHTTPProbeURL.
  destruct (EqualFold (normalizeProbeHost (Hostname u)) "localhost"); [split; [by constructor|reflexivity]|].
  destruct (ParseAddr (normalizeProbeHost (Hostname u))) as [a|].
  - rewrite orb_true_iff, loopback_spec, negb_true_iff, bool_decide_eq_false. split.
    + intros H. right. by exists a.
    + intros [?|(b & [= <-] & H)]; [discriminate|exact H].
  - split; [discriminate|]. intros [?|(b & [=] & H)]. discriminate.
Qed.

(** ** Properties of the URL rules *)

(** parseHTTPProbeURL accepts exactly the URLs the agent means to probe: a
    host and no user information, scheme http or https, an explicit port within
    1 to 65535, and plain http only towards the name localhost, a loopback
    literal, or an address literal with an explicit port. *)
Theorem accepted_urls ParseRequestURI address u :
  parseHTTPProbeURL ParseRequestURI address = Ok u <->
  ParseRequestURI address = Ok u /\ Host u <> "" /\ Hostname u <> "" /\ User u = None /\
  (url_Port u = "" \/ exists port, ParseInt (url_Port u) = Ok port /\ 1 <= port <= 65535) /\
  (Scheme u = "https" \/
   Scheme u = "http" /\
   (EqualFold (normalizeProbeHost (Hostname u)) "localhost" = true \/
    exists a, ParseAddr (normalizeProbeHost (Hostname u)) = Some a /\
      (loopback (Unmap a) \/ url_Port u <> ""))).
Proof.
  unfold parseHTTPProbeURL. destruct (ParseRequestURI address) as [p|e].
  2:{ split; [discriminate|]. by intros [[=] _]. }
  rewrite guards_Ok; [|rewrite bool_decide_eq_true, bool_decide_eq_false; congruence].
  rewrite !bool_decide_eq_false, !bool_decide_eq_true, port_acceptable_spec, allowedPlain_spec.
  split.
  - intros (-> & H1 & H2 & H3 & H4 & H5). apply eq_None_not_Some in H3. tauto.
  - intros ([= <-] & H1 & H2 & H3 & H4 & H5). apply eq_None_not_Some in H3. tauto.
Qed.

(** ** Properties of the resolver and the dialler *)

(** C13. Calls of one resolver may overlap in any way and the DNS may answer
    differently each time: two calls for the same name (up to case and brackets)
    that return addresses return the same ones, and every address any call
    returns passed the safety check, which rejects all forbidden addresses but the zoned exceptions. A name cannot be rebound to another address
    between the redirect check and the connection. *)
Theorem resolver_pins_names s i j h1 a1 l1 h2 a2 l2 :
  resolver_reachable s ->
  calls s !! i = Some (mkCall h1 a1 (RDone (Ok l1))) ->
  calls s !! j = Some (mkCall h2 a2 (RDone (Ok l2))) ->
  Forall (fun a => forbidden a -> zoned_exception a) l1 /\
  (exists h, cacheKey h = cacheKey h1 /\ safe_list h l1) /\
  (cacheKey h1 = cacheKey h2 -> ~ is_literal h1 -> ~ is_literal h2 -> l1 = l2).
Proof.
  intros Hr Hi Hj. apply reachable_ok in Hr as [Hc Hcalls]. rewrite Forall_lookup in Hcalls.
  pose proof (Hcalls _ _ Hi) as Oi. pose proof (Hcalls _ _ Hj) as Oj.
  pose proof (call_ok_safe _ _ _ _ Hc Oi) as (h & Hk & Hs).
  split; [by eapply safe_list_not_forbidden|]. split; [by exists h|].
  intros He Hn1 Hn2. destruct Oi as [[? _]|[_ Ki]]; [done|]. destruct Oj as [[? _]|[_ Kj]]; [done|].
  cbn [call_host] in *. rewrite He in Ki. congruence.
Qed.

Definition demo_net (a : addr) : network := mkNetwork None None (fun _ => Ok [a]).

Lemma demo_net_wf a : addr_wf a -> network_wf (demo_net a).
Proof. intros Ha h l [= <-]. by constructor. Qed.

(** The name is looked up twice, the second answer being another address. *)
Lemma resolver_pins_names_witness :
  [A4 (ip4 93 184 216 34)] = [A4 (ip4 93 184 216 34)] /\
  Forall (fun a => forbidden a -> zoned_exception a) [A4 (ip4 93 184 216 34)].
Proof.
  set (safe := A4 (ip4 93 184 216 34)). set (evil := A4 (ip4 10 0 0 1)).
  set (h := "Example.test"). set (h' := "example.test").
  set (s := mkResolver (<["example.test" := [safe]]> ∅)
    [mkCall h true (RDone (Ok [safe])); mkCall h' true (RDone (Ok [safe]))]).
  assert (network_wf (demo_net safe)) by (apply demo_net_wf; unfold safe, addr_wf, ip4; lia).
  assert (network_wf (demo_net evil)) by (apply demo_net_wf; unfold evil, addr_wf, ip4; lia).
  assert (resolver_reachable s) as Hr.
  { unfold resolver_reachable, newSafeProbeResolver.
    eapply rtc_l; [apply (step_call ∅ [] h true)|].
    eapply rtc_l; [apply (step_call ∅ [_] h' true)|]. cbn [app].
    eapply rtc_l; [apply (step_advance _ _ 0 h true RStart (demo_net safe) ∅ RLookup);
      [reflexivity|assumption|vm_compute; reflexivity]|]. cbn [insert list_insert].
    eapply rtc_l; [apply (step_advance _ _ 1 h' true RStart (demo_net evil) ∅ RLookup);
      [reflexivity|assumption|vm_compute; reflexivity]|]. cbn [insert list_insert].
    eapply rtc_l; [apply (step_advance _ _ 1 h' true RLookup (demo_net evil) ∅ (RInsert [evil]));
      [reflexivity|assumption|vm_compute; reflexivity]|]. cbn [insert list_insert].
    eapply rtc_l; [apply (step_advance _ _ 0 h true RLookup (demo_net safe) ∅ (RInsert [safe]));
      [reflexivity|assumption|vm_compute; reflexivity]|]. cbn [insert list_insert].
    eapply rtc_l; [apply (step_advance _ _ 0 h true (RInsert [safe]) (demo_net safe)
      (<["example.test" := [safe]]> ∅) (RDone (Ok [safe])));
      [reflexivity|assumption|vm_compute; reflexivity]|]. cbn [insert list_insert].
    eapply rtc_l; [apply (step_advance _ _ 1 h' true (RInsert [evil]) (demo_net evil)
      (<["example.test" := [safe]]> ∅) (RDone (Ok [safe])));
      [reflexivity|assumption|vm_compute; reflexivity]|].
    apply rtc_refl. }
  pose proof (resolver_pins_names s 0 1 h true [safe] h' true [safe] Hr eq_refl eq_refl) as (Hf & _ & He).
  split; [|exact Hf]. apply He; [vm_compute; reflexivity|..]; apply not_literal; vm_compute; reflexivity.
Defined.

(** The addresses of a family a dial is restricted to. *)
Definition fits (net_name : string) (a : addr) : bool :=
  negb (bool_decide (net_name = "tcp4") && negb (Is4 a)) && negb (bool_decide (net_name = "tcp6") && negb (Is6 a)).

Definition endpoint (port : Z) (a : addr) : string := JoinHostPort (Addr_String a) (Itoa port).

Lemma dial_loop_spec dial net_name port addresses : forall lastErr tried tried' r,
  dial_loop dial net_name addresses port lastErr tried = (tried', r) ->
  exists k, tried' = tried ++ k /\
  match r with
  | Ok a => exists k' rest, k = k' ++ [a] /\ filter (fun a => fits net_name a) addresses = k ++ rest /\
      dial net_name (endpoint port a) = Ok () /\
      Forall (fun b => exists e, dial net_name (endpoint port b) = Err e) k'
  | Err e => k = filter (fun a => fits net_name a) addresses /\
      Forall (fun b => exists e, dial net_name (endpoint port b) = Err e) k /\
      match last k with
      | Some b => dial net_name (endpoint port b) = Err e
      | None => e = default errInvalidProbeTarget lastErr
      end
  end.
Proof.
  induction addresses as [|a addresses IH]; intros lastErr tried tried' r; cbn [dial_loop].
  { intros [= <- <-]. exists []. rewrite app_nil_r. split; [done|]. destruct lastErr; (split; [done|]; split; [constructor|done]). }
  rewrite filter_cons. fold (endpoint port a).
  destruct (bool_decide (net_name = "tcp4") && negb (Is4 a)) eqn:E4.
  { intros H. apply IH in H. rewrite decide_False; [exact H|]. unfold fits. rewrite E4. by intros []. }
  destruct (bool_decide (net_name = "tcp6") && negb (Is6 a)) eqn:E6.
  { intros H. apply IH in H. rewrite decide_False; [exact H|]. unfold fits. rewrite E4, E6. by intros []. }
  rewrite decide_True by (unfold fits; by rewrite E4, E6).
  destruct (dial net_name (endpoint port a)) as [[]|e] eqn:Ed.
  - intros [= <- <-]. exists [a]. split; [done|]. exists [], (filter (fun a => fits net_name a) addresses).
    by repeat split.
  - intros H. apply IH in H as (k & -> & H). exists (a :: k). rewrite <- app_assoc. split; [done|].
    destruct r as [b|e'].
    + destruct H as (k' & rest & -> & Hf & Hok & Hk). exists (a :: k'), rest. split; [done|].
      split; [by rewrite Hf|]. split; [done|]. constructor; [by exists e|done].
    + destruct H as (-> & Hk & Hl). split; [done|]. split; [constructor; [by exists e|done]|].
      destruct (filter _ addresses) as [|b bs]; [by simpl in *; subst|].
      change (last (a :: b :: bs)) with (last (b :: bs)).
      destruct (last (b :: bs)) eqn:E; [done|by apply last_None in E].
Qed.

(** C15. A connection of the HTTP probe is attempted only to a valid port and to
    addresses the resolver checked and pinned, in their order and restricted to
    the requested family, each once; the first that answers is used, and a
    failure means that all of them failed and reports the last error. *)
Theorem dial_reaches_only_checked_addresses dial net net_name address c c' tried r :
  network_wf net -> cache_ok c ->
  dialSafeProbeNetworkAddressWithResolver dial net net_name address c = (c', (tried, r)) ->
  c ⊆ c' /\ cache_ok c' /\
  (tried = [] /\ (exists e, r = Err e) \/
   exists host portText port l h,
     SplitHostPort address = Ok (host, portText) /\ ParseInt portText = Ok port /\ 1 <= port <= 65535 /\
     cacheKey h = cacheKey host /\ safe_list h l /\ (~ is_literal host -> c' !! cacheKey host = Some l) /\
     match r with
     | Ok a => exists failed rest, tried = failed ++ [a] /\
         filter (fun a => fits net_name a) l = tried ++ rest /\
         dial net_name (endpoint port a) = Ok () /\
         Forall (fun b => exists e, dial net_name (endpoint port b) = Err e) failed
     | Err e => tried = filter (fun a => fits net_name a) l /\
         Forall (fun b => exists e, dial net_name (endpoint port b) = Err e) tried /\
         (forall b, last tried = Some b -> dial net_name (endpoint port b) = Err e)
     end).
Proof.
  intros Hn Hc. unfold dialSafeProbeNetworkAddressWithResolver.
  destruct (SplitHostPort address) as [[host portText]|e].
  2:{ intros [= <- <- <-]. split; [done|]. split; [done|]. left. eauto. }
  destruct (ParseInt portText) as [port|e] eqn:Ep.
  2:{ intros [= <- <- <-]. split; [done|]. split; [done|]. left. eauto. }
  destruct (validProbePort port) eqn:Ev; cbn [negb].
  2:{ intros [= <- <- <-]. split; [done|]. split; [done|]. left. eauto. }
  destruct (resolve net host true c) as [c1 [l|e]] eqn:Er;
    apply resolve_ok in Er as (Hsub & Hc1 & Hcall); try done.
  2:{ intros [= <- <- <-]. split; [done|]. split; [done|]. left. eauto. }
  pose proof (call_ok_safe _ _ _ _ Hc1 Hcall) as (h & Hk & Hs).
  unfold dialResolvedProbeAddress. rewrite Ev. cbn [negb orb].
  case_bool_decide as Hl; [by destruct Hs as [? _]|].
  intros [= <- Hd]. split; [done|]. split; [done|]. right.
  exists host, portText, port, l, h. split; [done|]. split; [done|].
  split. { unfold validProbePort in Ev. rewrite andb_true_iff, Z.ltb_lt, Z.leb_le in Ev. lia. }
  split; [done|]. split; [done|]. split. { intros Hnl. by destruct Hcall as [[? _]|[_ ?]]. }
  apply dial_loop_spec in Hd as (k & -> & Hr). cbn [app]. destruct r as [a|e].
  - destruct Hr as (k' & rest & ? & ? & ? & ?). by exists k', rest.
  - destruct Hr as (? & ? & Hlast). split; [done|]. split; [done|]. intros b Hb. by rewrite Hb in Hlast.
Qed.

Definition demo_dial (net_name ep : string) : result go_error unit :=
  if bool_decide (ep = "93.184.216.34:443") then Ok () else Err (plain_error "connection refused").

Lemma dial_reaches_only_checked_addresses_witness :
  let net := mkNetwork None None (fun _ => Ok [A6 1234 ""; A4 (ip4 93 184 216 34)]) in
  let c' := <["example.test" := [A6 1234 ""; A4 (ip4 93 184 216 34)]]> ∅ in
  dialSafeProbeNetworkAddressWithResolver demo_dial net "tcp" "Example.test:443" ∅ =
    (c', ([A6 1234 ""; A4 (ip4 93 184 216 34)], Ok (A4 (ip4 93 184 216 34)))) /\
  cache_ok c'.
Proof.
  set (net := mkNetwork None None (fun _ => Ok [A6 1234 ""; A4 (ip4 93 184 216 34)])).
  intros net' c'. split; [vm_compute; reflexivity|].
  assert (network_wf net) as Hn.
  { intros h l [= <-]. repeat constructor; vm_compute; (reflexivity || discriminate). }
  eapply (dial_reaches_only_checked_addresses demo_dial net "tcp" "Example.test:443" ∅ c');
    [exact Hn|exact cache_ok_empty|vm_compute; reflexivity].
Defined.

(** ** Properties of the redirect policy *)

(** What holds between two consecutive requests of one probe attempt. *)
Record hop_ok (c : answers) (r r' : request) : Prop := {
  hop_https : Scheme (URL r) = "https" -> Scheme (URL r') = "https";
  hop_header : sameHTTPProbeOrigin (Some (URL r)) (Some (URL r')) = false -> Header r' = fresh_header;
  hop_pinned : exists h l, cacheKey h = cacheKey (Hostname (URL r')) /\ safe_list h l /\
    (~ is_literal (Hostname (URL r')) -> c !! cacheKey (Hostname (URL r')) = Some l)
}.

Lemma hop_ok_mono c c' r r' : c ⊆ c' -> hop_ok c r r' -> hop_ok c' r r'.
Proof.
  intros Hc [H1 H2 (h & l & Hk & Hs & Hl)]. split; [done|done|]. exists h, l.
  split; [done|]. split; [done|]. intros Hn. eapply lookup_weaken; [by apply Hl|done].
Qed.

Lemma CheckRedirect_spec pru us net c req earlier previous c' req' :
  network_wf net -> cache_ok c ->
  CheckRedirect pru us net c req earlier previous = (c', req', None) ->
  (length earlier + 2 <= maxHTTPProbeRedirects)%nat /\ Method req' = "GET" /\
  (exists u, parseHTTPProbeURL pru (us (URL req')) = Ok u) /\
  hop_ok c' previous req' /\ c ⊆ c' /\ cache_ok c'.
Proof.
  intros Hn Hc. unfold CheckRedirect. destruct (Nat.leb_spec maxHTTPProbeRedirects (length earlier + 1)); [done|].
  case_bool_decide as Hm; [|done]. cbn [negb].
  destruct (parseHTTPProbeURL pru (us (URL req))) as [u|e] eqn:Eu; [|done].
  destruct (bool_decide (Scheme (URL previous) = "https") && negb (bool_decide (Scheme (URL req) = "https"))) eqn:Es;
    [done|].
  set (req0 := if negb (sameHTTPProbeOrigin (Some (URL previous)) (Some (URL req)))
    then mkRequest (Method req) (URL req) fresh_header else req).
  assert (URL req0 = URL req /\ Method req0 = Method req /\
    (sameHTTPProbeOrigin (Some (URL previous)) (Some (URL req)) = false -> Header req0 = fresh_header))
    as (Hu & Hme & Hh) by (unfold req0; by destruct (sameHTTPProbeOrigin _ _)).
  cbv zeta. fold req0. clearbody req0.
  destruct (resolve net (Hostname (URL req0)) true c) as [c1 [l|e]] eqn:Er; [|intros H1; by repeat case_match].
  intros [= <- <-]. apply resolve_ok in Er as (Hsub & Hc1 & Hcall); [|done..].
  split; [lia|]. split; [by rewrite Hme|]. split; [exists u; by rewrite Hu|]. split; [|done].
  split.
  - intros Hp. rewrite Hp in Es. rewrite bool_decide_eq_true_2 in Es by done. cbn [andb] in Es.
    apply negb_false_iff, bool_decide_eq_true in Es. by rewrite Hu.
  - by rewrite Hu.
  - pose proof (call_ok_safe _ _ _ _ Hc1 Hcall) as (h & Hk & Hs). exists h, l.
    split; [done|]. split; [done|]. intros Hnl. by destruct Hcall as [[? _]|[_ ?]].
Qed.

Lemma sent_spec pru us c reqs : sent pru us c reqs ->
  cache_ok c /\ (length reqs <= maxHTTPProbeRedirects)%nat /\
  Forall (fun r => Method r = "GET" /\ exists u, parseHTTPProbeURL pru (us (URL r)) = Ok u) reqs /\
  (forall i r r', reqs !! i = Some r -> reqs !! S i = Some r' -> hop_ok c r r').
Proof.
  induction 1 as [c req u Hc Hu Hm|c c' reqs H IH Hsub Hc'|c earlier previous net req c' req' H IH Hn E].
  - split; [done|]. split; [cbn; unfold maxHTTPProbeRedirects; lia|]. split.
    + repeat constructor; [done|by exists u].
    + intros i r r' _ Hr. by destruct i.
  - destruct IH as (_ & Hlen & Hall & Hhop). split; [done|]. split; [done|]. split; [done|].
    intros i r r' Hr Hr'. eapply hop_ok_mono; [done|by eapply Hhop].
  - destruct IH as (Hc & Hlen & Hall & Hhop).
    apply CheckRedirect_spec in E as (Hl & Hm & Hu & Hok & Hsub & Hc'); [|done..].
    split; [done|]. split; [rewrite length_app; cbn [length]; lia|].
    replace (earlier ++ [previous; req']) with ((earlier ++ [previous]) ++ [req']) by by rewrite <- app_assoc.
    split; [apply Forall_app; split; [done|by repeat constructor]|].
    intros i r r' Hr Hr'. apply lookup_app_Some in Hr' as [Hr'|[Hi Hr']].
    + assert (S i < length (earlier ++ [previous]))%nat by by eapply lookup_lt_Some.
      rewrite lookup_app_l in Hr by lia. eapply hop_ok_mono; [done|by eapply Hhop].
    + rewrite length_app in Hi, Hr'. cbn [length] in Hi, Hr'.
      assert (i = length earlier) as ->.
      { assert (S i - (length earlier + 1) < 1)%nat by by apply lookup_lt_Some in Hr'. lia. }
      replace (S (length earlier) - (length earlier + 1))%nat with 0%nat in Hr' by lia.
      cbn in Hr'. simplify_eq.
      rewrite <- app_assoc, lookup_app_r, Nat.sub_diag in Hr by done. cbn in Hr. by simplify_eq.
Qed.

(** C12. However servers redirect a probe, it sends at most ten GET requests,
    each to a URL parseHTTPProbeURL accepts; once a request went over https all
    later ones do; a request to another origin carries the agent's own header
    only; and the host of every redirect target was resolved to safe addresses
    that stay pinned for the connection. *)
Theorem redirects_stay_safe pru us c reqs :
  sent pru us c reqs ->
  (length reqs <= 10)%nat /\
  Forall (fun r => Method r = "GET" /\ exists u, parseHTTPProbeURL pru (us (URL r)) = Ok u) reqs /\
  (forall i r r', reqs !! i = Some r -> reqs !! S i = Some r' -> hop_ok c r r') /\
  (forall i j r r', (i <= j)%nat -> reqs !! i = Some r -> reqs !! j = Some r' ->
    Scheme (URL r) = "https" -> Scheme (URL r') = "https").
Proof.
  intros H. apply sent_spec in H as (_ & Hlen & Hall & Hhop).
  split; [done|]. split; [done|]. split; [done|].
  intros i j r r' Hij Hr. revert r'. induction Hij as [|j Hij IH]; intros r' Hr' Hs; [by simplify_eq|].
  destruct (reqs !! j) as [rj|] eqn:Ej.
  - pose proof (Hhop j rj r' Ej Hr') as Hh. by apply (hop_https _ _ _ Hh), (IH rj).
  - apply lookup_ge_None in Ej. apply lookup_lt_Some in Hr'. lia.
Qed.

(** Two origins reached over https, with a redirect from one to the other. *)
Definition demo_url (host : string) : url := mkURL "https" host None "/" "" "" "".
Definition demo_uri (u : url) : string := Scheme u +:+ "://" +:+ Host u +:+ Path u.
Definition demo_ParseRequestURI (s : string) : result go_error url :=
  if bool_decide (s = "https://a.test/") then Ok (demo_url "a.test")
  else if bool_decide (s = "https://b.test/") then Ok (demo_url "b.test")
  else Err (plain_error "invalid URI for request").

Lemma redirects_stay_safe_witness :
  exists c reqs, sent demo_ParseRequestURI demo_uri c reqs /\ (length reqs <= 10)%nat /\
    map (fun r => Host (URL r)) reqs = ["a.test"; "b.test"] /\ map Header reqs = [[("Cookie", "x")]; fresh_header].
Proof.
  set (safe := A4 (ip4 93 184 216 34)).
  assert (network_wf (demo_net safe)) as Hn by (apply demo_net_wf; unfold safe, addr_wf, ip4; lia).
  assert (sent demo_ParseRequestURI demo_uri (<["b.test" := [safe]]> ∅)
    ([] ++ [mkRequest "GET" (demo_url "a.test") [("Cookie", "x")];
            mkRequest "GET" (demo_url "b.test") fresh_header])) as H.
  { eapply (sent_redirect _ _ ∅ [] _ (demo_net safe) (mkRequest "GET" (demo_url "b.test") [("Cookie", "x")]));
      [|exact Hn|vm_compute; reflexivity].
    apply (sent_first _ _ ∅ _ (demo_url "a.test")); [exact cache_ok_empty|vm_compute; reflexivity|reflexivity]. }
  eexists _, _. split; [exact H|]. split; [exact (proj1 (redirects_stay_safe _ _ _ _ H))|].
  split; vm_compute; reflexivity.
Defined.

(** [https] is never left for [http], and the eleventh request is refused. *)
Example downgrade_refused :
  snd (CheckRedirect (fun s => Ok (mkURL "http" "localhost" None "/" "" "" "")) demo_uri (demo_net (A4 1)) ∅
    (mkRequest "GET" (mkURL "http" "localhost" None "/" "" "" "") []) [] (mkRequest "GET" (demo_url "a.test") []))
  = Some errUnsafeProbeRedirect.
Proof. vm_compute. reflexivity. Qed.
