(* ===== verification/ProbeRun.v ===== *)
(** * Running the probes (probe.go lines 131 to 301, 371 to 392 and 681 to 917)

    The three kinds of probe, their samples and error labels, the ping command
    line and the reading of its output, and [ProbeTargets] with its goroutines
    and semaphore as a transition system.  The clock, the context, the DNS, the
    connections, the HTTP exchange and the ping process are the environment. *)

From S2P Require Export ProbeBudget ProbeSafety FloatOps Sha256 ProbeCodec TargetManager.

(** ** Samples *)
Definition latency_cap_ms : spec_float := f64_of_Z (drawableLatencyCap ÷ Millisecond).

Definition cappedDrawableLatencyMS (elapsedMS : spec_float) : spec_float :=
  if f64_lt elapsedMS f64_zero then f64_zero
  else if f64_lt latency_cap_ms elapsedMS then latency_cap_ms
  else elapsedMS.

Definition failedMeasuredProbeSample (seq : Z) (errText : string) : ProbeSample :=
  mkProbeSample seq false None errText.

(** [out_of_range] is the machine's conversion of a float that no [int64] holds. *)
Definition measuredProbeSample (out_of_range : spec_float -> Z) (seq : Z) (elapsedMS : spec_float) (timeout : Z)
  : ProbeSample :=
  let latency := cappedDrawableLatencyMS elapsedMS in
  if timeout <? f64_to_i64 out_of_range (f64_mul elapsedMS (f64_of_Z Millisecond))
  then mkProbeSample seq false None "timeout"
  else mkProbeSample seq true (Some latency) "".

(** [float64(time.Since(start).Microseconds()) / 1000] *)
Definition elapsed_ms (elapsed_us : Z) : spec_float := f64_div (f64_of_Z elapsed_us) (f64_of_Z 1000).

Fixpoint failed_from (n : nat) (seq : Z) (errText : string) : list ProbeSample :=
  match n with
  | O => []
  | S n => mkProbeSample seq false None errText :: failed_from n (seq + 1) errText
  end.

Definition failedProbeSamples (count : Z) (errText : string) : list ProbeSample :=
  failed_from (Z.to_nat (normalizedProbeCount count)) 1 errText.

(** ** Error labels *)
Definition classifyProbeSetupError (err : go_error) : string :=
  let label := classifyContextError (Some err) in
  if negb (bool_decide (label = "")) then label
  else if is_unsafe err then "unsafe_target"
  else if is_dns err then "dns_error"
  else "invalid_address".

Definition classifyProbeError (err : option go_error) : string :=
  match err with
  | None => ""
  | Some e =>
      let label := classifyContextError err in
      if negb (bool_decide (label = "")) then label
      else if net_timeout e then "timeout"
      else
        let text := ToLower (message e) in
        if Contains text "timeout" || Contains text "deadline" || Contains text "i/o timeout" then "timeout"
        else if Contains text "no such host" then "dns_error"
        else "connect_error"
  end.

Definition classifyPingError (err : go_error) (output : string) (ctxErr : option go_error) : string :=
  let label := classifyContextError ctxErr in
  if negb (bool_decide (label = "")) then label
  else
    let label := classifyContextError (Some err) in
    if negb (bool_decide (label = "")) then label
    else
      let text := ToLower (output +:+ " " +:+ message err) in
      if Contains text "executable file not found" || Contains text "no such file" then "ping_unavailable"
      else if Contains text "name or service not known" || Contains text "temporary failure" ||
              Contains text "unknown host" || Contains text "no such host" then "dns_error"
      else if Contains text "operation not permitted" || Contains text "permission denied" then "permission_denied"
      else if Contains text "100% packet loss" || Contains text "0 received" || Contains text "timeout" then "timeout"
      else "ping_error".

Definition classifyHTTPProbeError (err : go_error) (ctxErr : option go_error) : string :=
  let label := classifyContextError ctxErr in
  if negb (bool_decide (label = "")) then label
  else
    let label := classifyContextError (Some err) in
    if negb (bool_decide (label = "")) then label
    else if is_unsafe_redirect err then "unsafe_redirect"
    else if is_unsafe err then "unsafe_target"
    else if is_invalid err then "invalid_url"
    else if is_dns err then "dns_error"
    else
      let text := ToLower (message err) in
      if Contains text "no such host" then "dns_error"
      else if Contains text "certificate" || Contains text "tls" then "tls_error"
      else if Contains text "timeout" || Contains text "deadline" || Contains text "i/o timeout" then "timeout"
      else "http_error".

(** ** The ping command *)
Definition pingTimeoutSeconds (timeout : Z) : Z :=
  let seconds := i64 (i64 (timeout + Second) - 1) ÷ Second in
  if seconds <? 1 then 1 else seconds.

Definition pingTimeoutMilliseconds (timeout : Z) : Z :=
  let milliseconds := i64 (i64 (timeout + Millisecond) - 1) ÷ Millisecond in
  if milliseconds <? 1 then 1 else milliseconds.

Definition pingCommandForAddress (goos address : string) (ipv6 : bool) (timeout : Z) : string * list string :=
  if bool_decide (goos = "windows") then
    let args := ["-n"; "1"; "-w"; Itoa (pingTimeoutMilliseconds timeout)] in
    let args := if ipv6 then ["-6"] ++ args else args in
    ("ping", args ++ [address])
  else if bool_decide (goos = "darwin") then
    if ipv6 then ("ping6", ["-n"; "-c"; "1"; address])
    else ("ping", ["-n"; "-c"; "1"; "-W"; Itoa (pingTimeoutMilliseconds timeout); address])
  else
    (if ipv6 then "ping6" else "ping", ["-n"; "-c"; "1"; "-W"; Itoa (pingTimeoutSeconds timeout); address]).

Definition pingCommandForAddr (goos : string) (address : addr) (timeout : Z) : string * list string :=
  pingCommandForAddress goos (Addr_String address) (Is6 address) timeout.

Definition pingCommand (goos address : string) (timeout : Z) : string * list string :=
  match ParseAddr (normalizeProbeHost address) with
  | Some parsed => pingCommandForAddr goos (Unmap parsed) timeout
  | None => pingCommandForAddress goos address false timeout
  end.

(** The first match of [time[=<]([0-9.]+)\s*ms]: the digits cannot be followed
    by a shorter match, so the greedy run is the only candidate. *)
Definition is_number_byte (c : ascii) : bool := is_digit c || Ascii.eqb c dot_byte.
Definition is_re_space (c : ascii) : bool := byte_in (bytes [9; 10; 12; 13; 32]) c.

Fixpoint take_while (f : ascii -> bool) (s : string) : string * string :=
  match s with
  | EmptyString => ("", "")
  | String c rest => if f c then let '(a, b) := take_while f rest in (String c a, b) else ("", s)
  end.

Definition match_latency_at (s : string) : option string :=
  match GoStrings.strip_prefix "time" s with
  | Some (String c rest) =>
      if byte_in "=<" c then
        let '(num, rest) := take_while is_number_byte rest in
        if bool_decide (num = "") then None
        else if HasPrefix (snd (take_while is_re_space rest)) "ms" then Some num else None
      else None
  | _ => None
  end.

Fixpoint find_latency (s : string) : option string :=
  match match_latency_at s with
  | Some num => Some num
  | None => match s with EmptyString => None | String _ rest => find_latency rest end
  end.

Definition parsePingLatencyMS (output : string) : option spec_float :=
  match find_latency output with
  | None => None
  | Some num =>
      match ParseFloat num with
      | None => None
      | Some value => if f64_lt value f64_zero then None else Some value
      end
  end.

Example parsePingLatencyMS_1 :
  map (fun s => parsePingLatencyMS s ≫= float_text)
    ["64 bytes from 1.1.1.1: icmp_seq=1 ttl=57 time=12.3 ms"; "time<1ms TTL=64"; "time=abc ms time=0.045 ms";
     "time=1.2.3 ms"; "no reply"] =
  [Some "12.3"; Some "1"; Some "0.045"; None; None].
Proof. vm_compute. reflexivity. Qed.

(** ** The environment of one run *)
Record http_response : Type := mkResponse { resp_request : option url; StatusCode : Z }.

(** What the outside world does during sample number [seq]. *)
Record attempt_env : Type := mkAttempt {
  ctx_done : option (option go_error);             (** [ctx.Done()] fired, with [ctx.Err()] *)
  dial : string -> string -> result go_error unit; (** [dialer.DialContext] *)
  exec : string -> list string -> string * option go_error * option go_error;
    (** [cmd.CombinedOutput()], and [attemptCtx.Err()] right after it *)
  new_request : string -> option go_error;         (** [http.NewRequestWithContext] *)
  client_do : string -> result go_error http_response;
  attempt_err : option go_error;                   (** [attemptCtx.Err()] at the end *)
  elapsed_us : Z
}.

Record probe_env : Type := mkEnv {
  env_network : network;
  env_attempt : Z -> attempt_env
}.

Definition done_label (err : option go_error) : string :=
  let label := classifyContextError err in
  if bool_decide (label = "") then "cancelled" else label.

(** The loop the three probes share: [n] samples are left, from number [seq]. *)
Fixpoint sample_loop (env : Z -> attempt_env) (attempt : Z -> attempt_env -> ProbeSample) (n : nat) (seq : Z)
  : list ProbeSample :=
  match n with
  | O => []
  | S k =>
      match ctx_done (env seq) with
      | Some err => failed_from n seq (done_label err)
      | None => attempt seq (env seq) :: sample_loop env attempt k (seq + 1)
      end
  end.

Definition resolveSafeProbeHost (net : network) (host : string) (allow : bool) : result go_error (list addr) :=
  resolveSafeProbeHostWithLookup host allow (ctx_before net) (ctx_after net) (dns net).

Section Probes.
Context (out_of_range : spec_float -> Z) (goos : string).
Context (ParseRequestURI : string -> result go_error url) (URL_String : url -> string).

Definition tcp_attempt (addresses : list addr) (port timeout : Z) (seq : Z) (env : attempt_env) : ProbeSample :=
  match snd (dialResolvedProbeAddress (dial env) "tcp" addresses port) with
  | Err e => failedMeasuredProbeSample seq (classifyProbeError (Some e))
  | Ok _ => measuredProbeSample out_of_range seq (elapsed_ms (elapsed_us env)) timeout
  end.

Definition RunTCPProbe (env : probe_env) (target : ProbeTarget) : list ProbeSample :=
  let count := normalizedProbeCount (Count target) in
  let timeout := normalizedProbeTimeout (TimeoutMS target) in
  match Port target with
  | None => failedProbeSamples count "missing_port"
  | Some port =>
      if negb (validProbePort port) then failedProbeSamples count "invalid_port"
      else
        match resolveSafeProbeHost (env_network env) (Address target) true with
        | Err e => failedProbeSamples count (classifyProbeSetupError e)
        | Ok addresses =>
            sample_loop (env_attempt env) (tcp_attempt addresses port timeout) (Z.to_nat count) 1
        end
  end.

(** One ping per address until one succeeds or the attempt is over. *)
Fixpoint ping_loop (env : attempt_env) (observationTimeout : Z) (addresses : list addr)
  (output : string) (err : option go_error) : string * option go_error :=
  match addresses with
  | [] => (output, err)
  | address :: rest =>
      let '(command, args) := pingCommandForAddr goos address observationTimeout in
      let '(output, err, over) := exec env command args in
      if bool_decide (err = None) || bool_decide (over <> None) then (output, err)
      else ping_loop env observationTimeout rest output err
  end.

Definition ping_attempt (addresses : list addr) (observationTimeout timeout : Z) (seq : Z) (env : attempt_env)
  : ProbeSample :=
  let orderedAddresses := rotatedProbeAddresses addresses (seq - 1) in
  let '(output, err) := ping_loop env observationTimeout orderedAddresses "" None in
  match err with
  | Some e => failedMeasuredProbeSample seq (classifyPingError e output (attempt_err env))
  | None =>
      let latency := match parsePingLatencyMS output with
                     | Some parsed => parsed
                     | None => elapsed_ms (elapsed_us env)
                     end in
      measuredProbeSample out_of_range seq latency timeout
  end.

Definition RunPingProbe (env : probe_env) (target : ProbeTarget) : list ProbeSample :=
  let count := normalizedProbeCount (Count target) in
  let timeout := normalizedProbeTimeout (TimeoutMS target) in
  let observationTimeout := latencyObservationTimeout timeout in
  let address := TrimSpace (Address target) in
  if bool_decide (address = "") || HasPrefix address "-" then failedProbeSamples count "invalid_address"
  else
    match resolveSafeProbeHost (env_network env) address true with
    | Err e => failedProbeSamples count (classifyProbeSetupError e)
    | Ok addresses =>
        sample_loop (env_attempt env) (ping_attempt addresses observationTimeout timeout) (Z.to_nat count) 1
    end.

Definition http_attempt (parsedURL : url) (timeout : Z) (seq : Z) (env : attempt_env) : ProbeSample :=
  let text := URL_String parsedURL in
  match new_request env text with
  | Some _ => mkProbeSample seq false None "invalid_url"
  | None =>
      match client_do env text with
      | Err e => failedMeasuredProbeSample seq (classifyHTTPProbeError e (attempt_err env))
      | Ok response =>
          match resp_request response with
          | None => mkProbeSample seq false None "unsafe_redirect"
          | Some u =>
              match parseHTTPProbeURL ParseRequestURI (URL_String u) with
              | Err _ => mkProbeSample seq false None "unsafe_redirect"
              | Ok _ =>
                  if (StatusCode response <? 200) || (400 <=? StatusCode response)
                  then mkProbeSample seq false None ("http_status_" +:+ Itoa (StatusCode response))
                  else measuredProbeSample out_of_range seq (elapsed_ms (elapsed_us env)) timeout
              end
          end
      end
  end.

Definition RunHTTPProbe (env : probe_env) (target : ProbeTarget) : list ProbeSample :=
  let count := normalizedProbeCount (Count target) in
  let timeout := normalizedProbeTimeout (TimeoutMS target) in
  match parseHTTPProbeURL ParseRequestURI (TrimSpace (Address target)) with
  | Err _ => failedProbeSamples count "invalid_url"
  | Ok parsedURL => sample_loop (env_attempt env) (http_attempt parsedURL timeout) (Z.to_nat count) 1
  end.

(** The dispatch on the raw type. *)
Definition run_target (env : probe_env) (target : ProbeTarget) : list ProbeSample :=
  let kind := Type_ target in
  if bool_decide (kind = "tcping") || bool_decide (kind = "tcp") then RunTCPProbe env target
  else if bool_decide (kind = "ping") || bool_decide (kind = "icmp") then RunPingProbe env target
  else if bool_decide (kind = "http_get") || bool_decide (kind = "http") || bool_decide (kind = "https")
  then RunHTTPProbe env target
  else failedProbeSamples (Count target) ("unsupported_" +:+ kind).
End Probes.

(** ** [ProbeTargets] *)

(** [newProbeRoundID]: 16 random bytes, or a digest when the source of
    randomness fails; the counter is the package's [probeRoundSequence]. *)
Definition newProbeRoundID (ts : Z) (targetID : string) (index : Z) (random : option string) (sequence : Z)
  : string * Z :=
  match random with
  | Some randomBytes => (hex_encode randomBytes, sequence)
  | None =>
      let sequence := u64 (sequence + 1) in
      let fallback := Itoa (UnixNano ts) +:+ ":" +:+ targetID +:+ ":" +:+ Itoa index +:+ ":" +:+ utoa sequence in
      (hex_encode (Stdlib.Strings.String.substring 0 16 (Sum256 fallback)), sequence)
  end.

(** One goroutine per target: waiting for the semaphore, probing, its round
    stored but the semaphore still held, done. *)
Inductive worker : Type := WWaiting | WProbing | WStored | WFinished.
#[export] Instance worker_eq_dec : EqDecision worker.
Proof. solve_decision. Defined.

Definition holding (w : worker) : Z := match w with WProbing | WStored => 1 | _ => 0 end.

Record run_state : Type := mkRun {
  workers : list worker;
  rounds : list ProbeRound;
  probeRoundSequence : Z
}.

Definition zero_round : ProbeRound := mkProbeRound "" 0 "" time_zero "" [].

Definition concurrency (limited : list ProbeTarget) : Z :=
  Z.of_nat (Nat.min maxConcurrentProbeTargets (length limited)).

Definition held (s : run_state) : Z := Zsum (map holding (workers s)).

Section Targets.
Context (run : probe_env -> ProbeTarget -> list ProbeSample).
Context (limited : list ProbeTarget) (ts : Z).

Definition initial_run (sequence : Z) : run_state :=
  mkRun (replicate (length limited) WWaiting) (replicate (length limited) zero_round) sequence.

Inductive run_step : run_state -> run_state -> Prop :=
| run_acquire ws rs q i :
    ws !! i = Some WWaiting -> Zsum (map holding ws) < concurrency limited ->
    run_step (mkRun ws rs q) (mkRun (<[i := WProbing]> ws) rs q)
| run_store ws rs q i target env random id q' :
    ws !! i = Some WProbing -> limited !! i = Some target ->
    newProbeRoundID ts (ID target) (Z.of_nat i) random q = (id, q') ->
    run_step (mkRun ws rs q)
      (mkRun (<[i := WStored]> ws)
         (<[i := mkProbeRound id 0 (ID target) ts (Type_ target) (run env target)]> rs) q')
| run_release ws rs q i :
    ws !! i = Some WStored ->
    run_step (mkRun ws rs q) (mkRun (<[i := WFinished]> ws) rs q).

(** [wg.Wait()] returns. *)
Definition run_complete (s : run_state) : Prop := Forall (fun w => w = WFinished) (workers s).
Definition run_reachable (s : run_state) : Prop := exists q, rtc run_step (initial_run q) s.
End Targets.

(** What [ProbeTargets(ctx, targets, ts)] may return. *)
Definition ProbeTargets (targets : list ProbeTarget) (ts : Z) (result : list ProbeRound) : Prop :=
  exists oor goos pru us s,
    run_reachable (run_target oor goos pru us) (LimitProbeTargetsForRun targets) ts s /\
    run_complete s /\ rounds s = result.

(** ** Lemmas: samples *)

(** A sample as the Controller expects it. *)
Record sample_good (seq : Z) (s : ProbeSample) : Prop := {
  good_seq : Seq s = seq;
  good_success : Success s = true -> Error s = "" /\ exists f, LatencyMS s = Some f /\
    f64_le f64_zero f = true /\ f64_le f latency_cap_ms = true /\ f64_moderate f = true;
  good_failure : Success s = false -> LatencyMS s = None /\ Error s <> ""
}.

Lemma failure_good seq text : text <> "" -> sample_good seq (mkProbeSample seq false None text).
Proof. by intros Ht; split. Qed.

Lemma moderate_below m e : e <= -40 -> Z.pos m < 2 ^ 53 -> f64_moderate (S754_finite false m e) = true.
Proof.
  intros He Hm. apply Z.leb_le. rewrite (Z.max_r e 0), (Z.max_l (- e) 0) by lia.
  assert (1 <= 2 ^ (- e)) by (apply (Z.pow_le_mono_r 2 0); lia).
  assert (2 ^ 53 <= 10 ^ 21) by (by vm_compute).
  generalize dependent (10 ^ 21). generalize dependent (2 ^ 53). generalize dependent (2 ^ (- e)).
  change (2 ^ 0) with 1. intros. nia.
Qed.

(** A number not above the cap, as the comparison of floats decides it. *)
Lemma not_above mc m e : f64_lt (S754_finite false mc (-40)) (S754_finite false m e) = false ->
  e <= -40 /\ f64_le (S754_finite false m e) (S754_finite false mc (-40)) = true.
Proof.
  unfold f64_lt, f64_le, SFltb, SFleb, SFcompare. rewrite (Z.compare_antisym (-40) e).
  destruct (Z.compare_spec (-40) e) as [<-|He|He]; cbn [CompOpp]; intros H; [|discriminate|by split; [lia|]].
  split; [lia|]. change (Pos.compare_cont Eq) with Pos.compare in *. rewrite (Pos.compare_antisym mc m).
  by destruct (Pos.compare mc m).
Qed.

Lemma capped_range f : f64_num f ->
  let g := cappedDrawableLatencyMS f in
  f64_le f64_zero g = true /\ f64_le g latency_cap_ms = true /\ f64_moderate g = true.
Proof.
  intros Hf. unfold cappedDrawableLatencyMS.
  destruct (f64_lt f f64_zero) eqn:E0; [by vm_compute|].
  destruct (f64_lt latency_cap_ms f) eqn:E1; [by vm_compute|].
  assert (latency_cap_ms = S754_finite false 5497558138880000 (-40)) as Hcap by (vm_compute; reflexivity).
  rewrite Hcap in E1 |- *. clear Hcap. generalize dependent 5497558138880000%positive. intros mc E1.
  destruct f as [s|[]| |[] m e]; try discriminate; try contradiction; try (by destruct s).
  apply not_above in E1 as [He Hle]. split; [reflexivity|]. split; [exact Hle|]. by apply moderate_below.
Qed.

Lemma measured_good oor seq f timeout : f64_num f -> sample_good seq (measuredProbeSample oor seq f timeout).
Proof.
  intros Hf. unfold measuredProbeSample. destruct (_ <? _); [by apply failure_good|].
  split; cbn; [done| |done]. intros _. split; [done|]. eexists. split; [done|]. by apply capped_range.
Qed.

Lemma elapsed_ms_num us : f64_num (elapsed_ms us).
Proof.
  unfold elapsed_ms. assert (f64_of_Z 1000 = S754_finite false 8796093022208000 (-43)) as -> by (vm_compute; reflexivity).
  apply f64_div_num, f64_of_Z_num.
Qed.

Lemma context_label_done err : done_label err <> "".
Proof. unfold done_label. by case_bool_decide. Qed.

(** Every classification ends in a label. *)
Lemma setup_label e : classifyProbeSetupError e <> "".
Proof. unfold classifyProbeSetupError. case_bool_decide; cbn [negb]; [|done]. by repeat case_match. Qed.
Lemma probe_label e : classifyProbeError (Some e) <> "".
Proof. unfold classifyProbeError. case_bool_decide; cbn [negb]; [|done]. by repeat case_match. Qed.
Lemma ping_label e out ctx : classifyPingError e out ctx <> "".
Proof.
  unfold classifyPingError. case_bool_decide; cbn [negb]; [|done]. case_bool_decide; cbn [negb]; [|done].
  by repeat case_match.
Qed.
Lemma http_label e ctx : classifyHTTPProbeError e ctx <> "".
Proof.
  unfold classifyHTTPProbeError. case_bool_decide; cbn [negb]; [|done]. case_bool_decide; cbn [negb]; [|done].
  by repeat case_match.
Qed.
#[export] Hint Resolve failure_good measured_good elapsed_ms_num context_label_done setup_label probe_label
  ping_label http_label : zeno.

Definition samples_good (n : nat) (seq : Z) (l : list ProbeSample) : Prop :=
  length l = n /\ forall i s, l !! i = Some s -> sample_good (seq + Z.of_nat i) s.

Lemma samples_good_cons n seq s l : sample_good seq s -> samples_good n (seq + 1) l ->
  samples_good (S n) seq (s :: l).
Proof.
  intros Hs [Hl Hg]. split; [cbn; lia|]. intros [|i] x Hx; cbn in Hx; simplify_eq.
  - by rewrite Z.add_0_r.
  - replace (seq + Z.of_nat (S i)) with (seq + 1 + Z.of_nat i) by lia. by apply Hg.
Qed.

Lemma failed_from_good text : text <> "" -> forall n seq, samples_good n seq (failed_from n seq text).
Proof.
  intros Ht. induction n as [|n IH]; intros seq; cbn [failed_from]; [by split|].
  apply samples_good_cons; [by apply failure_good|apply IH].
Qed.

Lemma failedProbeSamples_good count text : text <> "" ->
  samples_good (Z.to_nat (normalizedProbeCount count)) 1 (failedProbeSamples count text).
Proof. intros. by apply failed_from_good. Qed.

Lemma normalizedProbeCount_idem c : normalizedProbeCount (normalizedProbeCount c) = normalizedProbeCount c.
Proof. apply normalizedProbeCount_id, normalizedProbeCount_range. Qed.

Lemma sample_loop_good env attempt : (forall seq a, sample_good seq (attempt seq a)) ->
  forall n seq, samples_good n seq (sample_loop env attempt n seq).
Proof.
  intros Ha. induction n as [|n IH]; intros seq; cbn [sample_loop]; [by split|].
  destruct (ctx_done (env seq)) as [err|].
  - apply failed_from_good, context_label_done.
  - apply samples_good_cons; [apply Ha|apply IH].
Qed.

Lemma parsePing_num output f : parsePingLatencyMS output = Some f -> f64_num f.
Proof.
  unfold parsePingLatencyMS. destruct (find_latency output); [|done].
  destruct (ParseFloat s) eqn:E; [|done]. destruct (f64_lt _ _); [done|]. intros [= <-].
  by eapply ParseFloat_num.
Qed.

Lemma run_target_good oor goos pru us env t :
  samples_good (Z.to_nat (normalizedProbeCount (Count t))) 1 (run_target oor goos pru us env t).
Proof.
  assert (forall text, text <> "" -> samples_good (Z.to_nat (normalizedProbeCount (Count t))) 1
    (failedProbeSamples (normalizedProbeCount (Count t)) text)) as Hf.
  { intros text Ht. rewrite <- normalizedProbeCount_idem at 1. by apply failedProbeSamples_good. }
  unfold run_target. destruct (_ || _); [|destruct (_ || _); [|destruct (_ || _ || _)]].
  - unfold RunTCPProbe. destruct (Port t) as [port|]; [|by apply Hf].
    destruct (negb _); [by apply Hf|]. destruct (resolveSafeProbeHost _ _ _) as [l|e]; [|apply Hf, setup_label].
    apply sample_loop_good. intros seq a. unfold tcp_attempt.
    destruct (snd _); auto with zeno. apply failure_good, probe_label.
  - unfold RunPingProbe. destruct (_ || _); [by apply Hf|].
    destruct (resolveSafeProbeHost _ _ _) as [l|e]; [|apply Hf, setup_label].
    apply sample_loop_good. intros seq a. unfold ping_attempt.
    destruct (ping_loop _ _ _ _ _ _) as [output [e|]]; [apply failure_good, ping_label|].
    apply measured_good. destruct (parsePingLatencyMS output) eqn:E; auto with zeno. by eapply parsePing_num.
  - unfold RunHTTPProbe. destruct (parseHTTPProbeURL _ _) as [u|e]; [|by apply Hf].
    apply sample_loop_good. intros seq a. unfold http_attempt.
    destruct (new_request _ _); [by apply failure_good|].
    destruct (client_do _ _) as [r|e]; [|apply failure_good, http_label].
    destruct (resp_request r); [|by apply failure_good].
    destruct (parseHTTPProbeURL _ _); [|by apply failure_good].
    destruct (_ || _); auto with zeno.
  - by apply failedProbeSamples_good.
Qed.

(** ** Lemmas: the goroutines *)
Section TargetFacts.
Context (run : probe_env -> ProbeTarget -> list ProbeSample).
Context (limited : list ProbeTarget) (ts : Z).

Record run_inv (s : run_state) : Prop := {
  inv_workers : length (workers s) = length limited;
  inv_rounds : length (rounds s) = length limited;
  inv_held : held s <= concurrency limited;
  inv_done i t : limited !! i = Some t -> workers s !! i = Some WStored \/ workers s !! i = Some WFinished ->
    exists id env, rounds s !! i = Some (mkProbeRound id 0 (ID t) ts (Type_ t) (run env t))
}.

Lemma held_waiting n : Zsum (map holding (replicate n WWaiting)) = 0.
Proof. induction n; cbn; lia. Qed.

Lemma concurrency_nonneg : 0 <= concurrency limited.
Proof. unfold concurrency. lia. Qed.

Lemma workers_initial_inv q : run_inv (initial_run limited q).
Proof.
  split; cbn.
  - by rewrite length_replicate.
  - by rewrite length_replicate.
  - unfold held. cbn. rewrite held_waiting. apply concurrency_nonneg.
  - intros i t _ [H|H]; apply lookup_replicate in H as [[=] _].
Qed.

Lemma workers_step_inv s s' : run_inv s -> run_step run limited ts s s' -> run_inv s'.
Proof.
  intros [Hw Hr Hh Hd] Hs. unfold held in Hh.
  destruct Hs as [ws rs q i Hi Hlt|ws rs q i target env random id q' Hi Ht Hid|ws rs q i Hi];
    cbn [workers rounds] in *; split; cbn [workers rounds]; rewrite ?length_insert; try done; unfold held; cbn [workers];
    rewrite ?(Zsum_insert holding _ _ _ _ Hi); cbn [holding]; try lia.
  - intros j t Hj Hjw. apply (Hd j t Hj). destruct (decide (i = j)) as [->|Hne].
    + rewrite list_lookup_insert_eq in Hjw by by eapply lookup_lt_Some. by destruct Hjw.
    + by rewrite list_lookup_insert_ne in Hjw by done.
  - intros j t Hj Hjw. destruct (decide (i = j)) as [->|Hne].
    + assert (t = target) as -> by congruence. exists id, env. apply list_lookup_insert_eq.
      rewrite Hr, <- Hw. by eapply lookup_lt_Some.
    + rewrite list_lookup_insert_ne in Hjw by done. rewrite list_lookup_insert_ne by done. by apply Hd.
  - intros j t Hj Hjw. apply (Hd j t Hj). destruct (decide (i = j)) as [->|Hne]; [by constructor|].
    by rewrite list_lookup_insert_ne in Hjw by done.
Qed.

Lemma run_reachable_inv s : run_reachable run limited ts s -> run_inv s.
Proof.
  intros [q H]. revert s H. apply rtc_ind_r; [apply workers_initial_inv|]. intros y z _ Hs IH. by eapply workers_step_inv.
Qed.

(** The steps a worker has left. *)
Definition steps_left (w : worker) : Z :=
  match w with WWaiting => 3 | WProbing => 2 | WStored => 1 | WFinished => 0 end.

Lemma run_step_measure s s' : run_step run limited ts s s' ->
  Zsum (map steps_left (workers s')) = Zsum (map steps_left (workers s)) - 1.
Proof.
  intros Hs. destruct Hs; cbn [workers]; erewrite Zsum_insert by eassumption; cbn [steps_left]; lia.
Qed.

(** A worker that is not done can step, or waits for one that can. *)
Lemma workers_progress s : run_inv s -> run_complete s \/ exists s', run_step run limited ts s s'.
Proof.
  intros [Hw Hr Hh Hd]. destruct s as [ws rs q]. unfold run_complete. cbn [workers rounds] in *.
  assert (forall i, ws !! i = Some WProbing -> exists s', run_step run limited ts (mkRun ws rs q) s') as Hp.
  { intros i Hi. assert (exists t, limited !! i = Some t) as [t Ht].
    { apply lookup_lt_is_Some. rewrite <- Hw. by eapply lookup_lt_Some. }
    destruct (newProbeRoundID ts (ID t) (Z.of_nat i) (Some "") q) as [id q'] eqn:E. 
    eexists. eapply (run_store _ _ _ ws rs q i t (mkEnv (mkNetwork None None (fun _ => Err errProbeDNS)) (fun _ =>
      mkAttempt None (fun _ _ => Ok ()) (fun _ _ => ("", None, None)) (fun _ => None)
        (fun _ => Err errProbeDNS) None 0))); done. }
  destruct (Zsum_one holding ws) as [Hz|(i & w & Hi & Hone)].
  { intros []; cbn; auto. }
  - destruct (decide (Forall (fun w => w = WFinished) ws)) as [Hall|Hnot]; [by constructor|right].
    apply not_Forall_Exists, Exists_exists in Hnot as (w & (i & Hi)%list_elem_of_lookup & Hne); [|apply _].
    destruct w; [|by eapply Hp|eexists; by eapply run_release|by destruct Hne].
    eexists. apply run_acquire with (i := i); [done|]. rewrite Hz. unfold concurrency.
    assert (0 < length limited)%nat by (rewrite <- Hw; apply lookup_lt_Some in Hi; lia).
    unfold maxConcurrentProbeTargets. lia.
  - right. destruct w; try discriminate; [by eapply Hp|]. eexists. by eapply run_release.
Qed.

Lemma run_complete_rounds s : run_inv s -> run_complete s ->
  Forall2 (fun t r => exists id env, r = mkProbeRound id 0 (ID t) ts (Type_ t) (run env t)) limited (rounds s).
Proof.
  intros [Hw Hr Hh Hd] Hc. apply Forall2_same_length_lookup. split; [done|].
  intros i t r Ht Hri. unfold run_complete in Hc. rewrite Forall_lookup in Hc.
  assert (is_Some (workers s !! i)) as [w Hwi].
  { apply lookup_lt_is_Some. rewrite Hw. by eapply lookup_lt_Some. }
  pose proof (Hc _ _ Hwi) as ->. destruct (Hd i t Ht) as (id & env & He); [by constructor|].
  exists id, env. congruence.
Qed.
End TargetFacts.

Lemma ProbeTargets_rounds targets ts rs : ProbeTargets targets ts rs ->
  Forall2 (fun t r => exists oor goos pru us id env,
    r = mkProbeRound id 0 (ID t) ts (Type_ t) (run_target oor goos pru us env t))
    (LimitProbeTargetsForRun targets) rs.
Proof.
  intros (oor & goos & pru & us & s & Hr & Hc & <-).
  eapply Forall2_impl; [by apply run_complete_rounds; [eapply run_reachable_inv|]|].
  intros t r (id & env & ->). by exists oor, goos, pru, us, id, env.
Qed.

(** The probe runs the target manager relies on. *)
#[export] Program Instance probe_targets_runner : ProbeRunner := {| probe_outcome := ProbeTargets |}.
Next Obligation.
  intros ts now rs H. apply ProbeTargets_rounds in H.
  induction H as [|t r ts' rs' (oor & goos & pru & us & id & env & ->) _ IH]; cbn; [done|]. by rewrite IH.
Qed.

Lemma run_samples_wf oor goos pru us env t : Forall sample_wf (run_target oor goos pru us env t).
Proof.
  destruct (run_target_good oor goos pru us env t) as [Hl Hg]. apply Forall_lookup. intros i s Hs.
  pose proof (lookup_lt_Some _ _ _ Hs) as Hlt. rewrite Hl in Hlt.
  pose proof (normalizedProbeCount_range (Count t)) as Hr. unfold maxProbeCount in Hr.
  destruct (Hg i s Hs) as [Hseq Hsucc Hfail]. split.
  - rewrite Hseq. unfold in_i64, minInt64, maxInt64, two63. lia.
  - destruct (Success s).
    + destruct (Hsucc eq_refl) as (_ & f & -> & _ & _ & Hm). exact Hm.
    + by destruct (Hfail eq_refl) as [-> _].
Qed.

(** ** Lemmas: the ping command line *)

(** The text cannot be taken for an option. *)
Definition not_option (s : string) : Prop := match s with String c _ => c <> chr 45 | EmptyString => False end.

Lemma not_option_app s t : not_option s -> not_option (s +:+ t).
Proof. by destruct s. Qed.

Lemma hex_chr_not_dash d : 0 <= d < 16 -> hex_chr d <> chr 45.
Proof.
  intros Hd He. apply (f_equal byte_val) in He. unfold hex_chr in He.
  destruct (Z.ltb_spec d 10); rewrite !byte_val_chr in He by lia; lia.
Qed.

Lemma hex_group_not_option g : 0 <= g < 65536 -> not_option (hex_group g).
Proof.
  intros Hg. unfold hex_group. 
  destruct (4096 <=? g).
  { cbn. apply hex_chr_not_dash. rewrite Z.shiftr_div_pow2 by lia. change (2 ^ 12) with 4096.
    split; [apply Z.div_pos; lia|apply Z.div_lt_upper_bound; lia]. }
  destruct (256 <=? g); [cbn; apply hex_chr_not_dash, Z.mod_pos_bound; lia|].
  destruct (16 <=? g); cbn; apply hex_chr_not_dash, Z.mod_pos_bound; lia.
Qed.

Lemma utoa_not_option z : 0 <= z -> not_option (utoa z).
Proof.
  intros Hz. destruct (utoa_spec z Hz) as [Hd _].
  apply all_digits_head in Hd as (c & r & -> & Hc & _). cbn. intros ->. by vm_compute in Hc.
Qed.

Lemma Addr_String_not_option a : not_option (Addr_String a).
Proof.
  assert (forall v, not_option (ipv4_text v)) as H4.
  { intros v. unfold ipv4_text. cbn [Join]. apply not_option_app. unfold Itoa.
    pose proof (Z.mod_pos_bound (Z.shiftr v 24) 256 ltac:(lia)) as Hb.
    destruct (Z.ltb_spec (Z.shiftr v 24 mod 256) 0); [lia|]. by apply utoa_not_option. }
  destruct a as [|v|v zone]; [done|apply H4|]. cbn [Addr_String]. apply not_option_app.
  destruct (_ =? _); [done|]. unfold ipv6_text.
  destruct (longest_run 8 0 (groups_of v) (255, 255)%nat) as [zs ze]. cbn [hex_groups].
  cbn [Nat.leb]. destruct (0 =? zs)%nat; [done|]. cbn [Nat.ltb Nat.leb]. rewrite app_nil_l_str.
  apply not_option_app, hex_group_not_option. unfold groups_of. cbn [seq map nth].
  apply Z.mod_pos_bound. lia.
Qed.

(** [d] rounded up to units of [u]. *)
Lemma round_up_spec d u : 0 < d <= 5 * Second -> 0 < u <= Second ->
  let q := i64 (i64 (d + u) - 1) ÷ u in 1 <= q /\ d <= q * u < d + u.
Proof.
  intros Hd Hu q. unfold q. unfold Second in *.
  rewrite (i64_id (d + u)) by (unfold in_i64, minInt64, maxInt64, two63; lia).
  rewrite i64_id by (unfold in_i64, minInt64, maxInt64, two63; lia).
  rewrite Z.quot_div_nonneg by lia.
  pose proof (Z.div_mod (d + u - 1) u ltac:(lia)). pose proof (Z.mod_pos_bound (d + u - 1) u ltac:(lia)).
  assert (d <= (d + u - 1) / u * u < d + u) by lia. split; [nia|done].
Qed.

(** Every round can be stored in the spool. *)
Lemma ProbeTargets_wf targets ts rs : ProbeTargets targets ts rs -> Forall round_wf rs.
Proof.
  intros H%ProbeTargets_rounds. induction H as [|t r ts' rs' (oor & goos & pru & us & id & env & ->) _ IH]; [done|].
  constructor; [|done]. split; [by vm_compute|]. apply run_samples_wf.
Qed.

(** ** Properties *)

(** C30. Whatever the network, the clock, the context and the ping utility do, a
    probe of a target yields exactly the normalised number of samples, numbered
    1, 2, ... in order. A successful sample has a latency between 0 and 5000 ms
    that JSON can carry and no error; a failed one has a non-empty error label
    and no latency. *)
Theorem probe_samples_complete oor goos pru us env target :
  let samples := run_target oor goos pru us env target in
  length samples = Z.to_nat (normalizedProbeCount (Count target)) /\
  forall i s, samples !! i = Some s -> sample_good (1 + Z.of_nat i) s.
Proof. apply run_target_good. Qed.

(** C31. The goroutines of ProbeTargets, in every interleaving: at most 16
    targets, and at most as many as there are, are probed at the same time; as
    long as a target is not done some goroutine can take a step; and every step
    is progress, so wg.Wait returns after three steps per target. *)
Theorem probe_concurrency_bounded run limited ts s :
  run_reachable run limited ts s ->
  held s <= 16 /\ held s <= Z.of_nat (length limited) /\
  (run_complete s \/ exists s', run_step run limited ts s s') /\
  (forall s', run_step run limited ts s s' ->
    Zsum (map steps_left (workers s')) = Zsum (map steps_left (workers s)) - 1) /\
  0 <= Zsum (map steps_left (workers s)) <= 3 * Z.of_nat (length limited).
Proof.
  intros H. apply run_reachable_inv in H as Hinv. pose proof (inv_held _ _ _ _ Hinv) as Hh.
  unfold concurrency, maxConcurrentProbeTargets in Hh.
  split; [lia|]. split; [lia|]. split; [by apply workers_progress|]. split; [intros s'; apply run_step_measure|].
  rewrite <- (inv_workers _ _ _ _ Hinv). induction (workers s) as [|w ws IH]; cbn [map Zsum length]; [lia|].
  destruct w; cbn [steps_left]; lia.
Qed.

Definition demo_target : ProbeTarget := mkProbeTarget "t1" "gopher" "gopher" "example.test" None 2 500 60.
Definition demo_limited : list ProbeTarget := LimitProbeTargetsForRun [demo_target].
Definition demo_out (f : spec_float) : Z := minInt64.
Definition demo_run : probe_env -> ProbeTarget -> list ProbeSample :=
  run_target demo_out "linux" (fun _ => Err errInvalidProbeTarget) (fun _ => "").
Definition demo_env : probe_env :=
  mkEnv (mkNetwork None None (fun _ => Err errProbeDNS)) (fun _ =>
    mkAttempt None (fun _ _ => Ok ()) (fun _ _ => ("", None, None)) (fun _ => None) (fun _ => Err errProbeDNS) None 0).
Definition demo_round : ProbeRound :=
  mkProbeRound "00ff" 0 "t1" 0 "gopher"
    [mkProbeSample 1 false None "unsupported_gopher"; mkProbeSample 2 false None "unsupported_gopher"].

Lemma demo_run_reachable :
  run_reachable demo_run demo_limited 0 (mkRun [WFinished] [demo_round] 7).
Proof.
  exists 7. eapply rtc_l; [apply (run_acquire _ _ _ [WWaiting] [zero_round] 7 0); [reflexivity|vm_compute; reflexivity]|].
  eapply rtc_l; [apply (run_store _ _ _ [WProbing] [zero_round] 7 0 demo_target demo_env (Some (bytes [0; 255])) "00ff" 7);
    vm_compute; reflexivity|].
  eapply rtc_l; [apply (run_release _ _ _ [WStored] _ 7 0); reflexivity|]. apply rtc_refl.
Qed.

Lemma probe_concurrency_bounded_witness :
  held (mkRun [WFinished] [demo_round] 7) <= 16 /\ run_complete (mkRun [WFinished] [demo_round] 7).
Proof.
  split; [exact (proj1 (probe_concurrency_bounded _ _ _ _ demo_run_reachable))|]. by repeat constructor.
Defined.

(** C32. ProbeTargets returns one round per target of the run limit, in their
    order, with the target's ID and type, the given time, and exactly the
    samples of that target's probe; every round can be stored in the spool. *)
Theorem probe_targets_result targets ts rs :
  ProbeTargets targets ts rs ->
  length rs = length (LimitProbeTargetsForRun targets) /\
  map TargetID rs = map ID (LimitProbeTargetsForRun targets) /\
  Forall2 (fun t r => RoundType r = Type_ t /\ TS r = ts /\ ConfigVersion r = 0 /\
    (exists oor goos pru us env, Samples r = run_target oor goos pru us env t) /\
    length (Samples r) = Z.to_nat (Count t)) (LimitProbeTargetsForRun targets) rs /\
  Forall round_wf rs.
Proof.
  intros H. pose proof (probe_outcome_targets targets ts rs H) as Hid.
  pose proof (ProbeTargets_wf targets ts rs H) as Hwf.
  apply ProbeTargets_rounds in H. split; [symmetry; by eapply Forall2_length|]. split; [exact Hid|]. split; [|exact Hwf].
  pose proof (limit_wf targets) as Hc. clear Hid Hwf.
  induction H as [|t r ts' rs' (oor & goos & pru & us & id & env & ->) _ IH]; [done|].
  apply Forall_cons in Hc as [Ht Hts]. constructor; [|by apply IH].
  cbn. split; [done|]. split; [done|]. split; [done|]. split; [by exists oor, goos, pru, us, env|].
  destruct (run_target_good oor goos pru us env t) as [-> _].
  by rewrite normalizedProbeCount_id by apply (wf_count _ Ht).
Qed.

Lemma probe_targets_result_witness :
  exists rs, ProbeTargets [demo_target] 0 rs /\ map TargetID rs = ["t1"] /\ Forall round_wf rs.
Proof.
  assert (ProbeTargets [demo_target] 0 [demo_round]) as H.
  { exists demo_out, "linux", (fun _ => Err errInvalidProbeTarget), (fun _ => ""), (mkRun [WFinished] [demo_round] 7).
    split; [exact demo_run_reachable|]. split; [by repeat constructor|reflexivity]. }
  exists [demo_round]. split; [exact H|]. split; [reflexivity|].
  exact (proj2 (proj2 (proj2 (probe_targets_result [demo_target] 0 [demo_round] H)))).
Defined.

(** The flags give no reply timeout (Darwin's ping6), or the timeout rounded up
    to the unit of the flag. *)
Definition timed_flags (timeout : Z) (flags : list string) : Prop :=
  flags = ["-n"; "-c"; "1"] \/
  exists unit n flag, 1 <= n /\ timeout <= n * unit < timeout + unit /\
    (unit = Second /\ flag = "-W" \/ unit = Millisecond /\ (flag = "-W" \/ flag = "-w")) /\
    exists pre, flags = pre ++ [flag; Itoa n].

(** The ping command line for a resolved address: its last argument is the
    address, which the utility cannot take for an option; an IPv6 address never
    goes to the IPv4 utility; and a reply timeout on the command line is the
    probe's timeout rounded up to the unit of the flag, never zero. *)
Theorem ping_command_well_formed goos a timeout :
  0 < timeout <= 5 * Second ->
  let '(command, args) := pingCommandForAddr goos a timeout in
  (exists flags, args = flags ++ [Addr_String a] /\ not_option (Addr_String a) /\ timed_flags timeout flags) /\
  (Is6 a = true -> command = "ping6" \/ command = "ping" /\ exists rest, args = "-6" :: rest) /\
  (Is6 a = false -> command = "ping").
Proof.
  intros Ht. pose proof (Addr_String_not_option a) as Hno.
  pose proof (round_up_spec timeout Second Ht ltac:(unfold Second; lia)) as [Hs1 Hs2].
  pose proof (round_up_spec timeout Millisecond Ht ltac:(unfold Second, Millisecond; lia)) as [Hm1 Hm2].
  assert (pingTimeoutSeconds timeout = i64 (i64 (timeout + Second) - 1) ÷ Second) as Es.
  { unfold pingTimeoutSeconds. destruct (Z.ltb_spec (i64 (i64 (timeout + Second) - 1) ÷ Second) 1); [lia|done]. }
  assert (pingTimeoutMilliseconds timeout = i64 (i64 (timeout + Millisecond) - 1) ÷ Millisecond) as Em.
  { unfold pingTimeoutMilliseconds.
    destruct (Z.ltb_spec (i64 (i64 (timeout + Millisecond) - 1) ÷ Millisecond) 1); [lia|done]. }
  rewrite <- Es in Hs1, Hs2. rewrite <- Em in Hm1, Hm2. clear Es Em.
  unfold pingCommandForAddr, pingCommandForAddress.
  set (ms := pingTimeoutMilliseconds timeout) in *. set (s := pingTimeoutSeconds timeout) in *.
  assert (forall pre flag, (flag = "-W" \/ flag = "-w") -> timed_flags timeout (pre ++ [flag; Itoa ms])) as Hms.
  { intros pre flag Hf. right. exists Millisecond, ms, flag. split; [done|]. split; [done|].
    split; [right; by split|by exists pre]. }
  assert (forall pre, timed_flags timeout (pre ++ ["-W"; Itoa s])) as Hs.
  { intros pre. right. exists Second, s, "-W". split; [done|]. split; [done|]. split; [by constructor|by exists pre]. }
  destruct (bool_decide (goos = "windows")); [|destruct (bool_decide (goos = "darwin"))]; destruct (Is6 a);
    (split; [|split; [intros H6|intros H6]; try discriminate H6; auto]).
  - exists ["-6"; "-n"; "1"; "-w"; Itoa ms]. split; [done|]. split; [done|]. apply (Hms ["-6"; "-n"; "1"]). auto.
  - right. split; [done|]. by eexists.
  - exists ["-n"; "1"; "-w"; Itoa ms]. split; [done|]. split; [done|]. apply (Hms ["-n"; "1"]). auto.
  - exists ["-n"; "-c"; "1"]. split; [done|]. split; [done|]. by constructor.
  - exists ["-n"; "-c"; "1"; "-W"; Itoa ms]. split; [done|]. split; [done|]. apply (Hms ["-n"; "-c"; "1"]). auto.
  - exists ["-n"; "-c"; "1"; "-W"; Itoa s]. split; [done|]. split; [done|]. apply (Hs ["-n"; "-c"; "1"]).
  - exists ["-n"; "-c"; "1"; "-W"; Itoa s]. split; [done|]. split; [done|]. apply (Hs ["-n"; "-c"; "1"]).
Qed.

Lemma ping_command_well_formed_witness :
  0 < 1500 * Millisecond <= 5 * Second /\
  pingCommandForAddr "linux" (A6 1 "") (1500 * Millisecond) = ("ping6", ["-n"; "-c"; "1"; "-W"; "2"; "::1"]) /\
  not_option "::1".
Proof.
  assert (0 < 1500 * Millisecond <= 5 * Second) as H by (unfold Millisecond, Second; lia).
  split; [exact H|]. split; [vm_compute; reflexivity|].
  pose proof (ping_command_well_formed "linux" (A6 1 "") (1500 * Millisecond) H) as Hp.
  destruct Hp as [(flags & _ & Hn & _) _]. exact Hn.
Defined.

(** [int64] conversion of a float beyond its range is left to the machine: on a
    machine that returns the smallest integer a huge latency in the output of the
    ping utility counts as a success of 5000 ms, on one that saturates as a timeout. *)
Example huge_latency_depends_on_the_machine :
  let huge := parsePingLatencyMS "time=99999999999999999999 ms" in
  map (fun oor => option_map (fun f => Success (measuredProbeSample oor 1 f Second)) huge)
    [(fun _ => minInt64); (fun _ => maxInt64)] = [Some true; Some false].
Proof. vm_compute. reflexivity. Qed.
