(* ===== verification/AgentSystem.v ===== *)
(** * The agent from the probe to the Controller

    The probe target manager with its concurrent refreshes and probe runs, and
    the spool with its uploader, as one system: the [Enqueue] that ends a probe
    run (main.go, runDueProbes) is the one that changes the spool.  When the
    process dies at any point, the manager starts anew and the files stay. *)

From S2P Require Export Pipeline ProbeRun.

(** The manager and its calls, the spool and the uploader, and, to state what
    happened, the batches of targets that were marked completed. *)
Record agent : Type := mkAgent {
  a_system : system;
  a_pipe : pipeline;
  a_completed : list probeTargetBatch
}.

(** What the surroundings of the manager can do: probes are those of
    [ProbeTargets], and a version that was decoded is an [int64]. *)
Definition run_event_ok (pc : run_pc) (e : run_event) : Prop :=
  match pc, e with
  | PProbing batch now, PRounds rounds => probe_outcome (b_targets batch) now rounds
  | _, PEnqueue _ => False
  | _, _ => True
  end.
Definition refresh_event_ok (e : refresh_event) : Prop :=
  match e with RAnswer (Ok response) => in_i64 (Version response) | _ => True end.

(** The batch that a step marks completed. *)
Definition marked (m : probeTargetManager) (pc : run_pc) (e : run_event) (l : list probeTargetBatch) : list probeTargetBatch :=
  match pc, e with
  | PStored batch, PClock now => if snd (markCompleted m batch now) then batch :: l else l
  | _, _ => l
  end.

(** The manager's side of an [Enqueue] that ended with [o]; a process that dies starts anew. *)
Inductive persisted (i : nat) : outcome spool_error string -> system -> system -> Prop :=
| persisted_ok id sys pc m' sp' pc' :
    runners sys !! i = Some pc -> run_next (mgr sys) (spooled sys) pc (PEnqueue (Ok id)) = Some (m', sp', pc') ->
    persisted i (Done id) sys (mkSystem m' (refreshers sys) (<[i := pc']> (runners sys)) sp')
| persisted_fail e msg sys pc m' sp' pc' :
    runners sys !! i = Some pc -> run_next (mgr sys) (spooled sys) pc (PEnqueue (Err msg)) = Some (m', sp', pc') ->
    persisted i (Fail e) sys (mkSystem m' (refreshers sys) (<[i := pc']> (runners sys)) sp')
| persisted_dead sys requests n : persisted i Crashed sys (initial_system requests n).

Section Agent.
Context (s : ProbeSpool) (ParseTime : string -> option Z) (jitter : Z -> Z)
  (Parse : string -> result go_error url) (c : Client) (transport : bool).

Notation upload_step := (upload_step s ParseTime jitter Parse c transport).
Notation pipe_reachable := (Pipeline.reachable s ParseTime jitter Parse c transport).

Inductive agent_step (F : fault -> Prop) : agent -> agent -> Prop :=
| agent_refresh sys pipe done_ i pc e m' pc' :
    refreshers sys !! i = Some pc -> refresh_event_ok e -> refresh_next (mgr sys) pc e = Some (m', pc') ->
    agent_step F (mkAgent sys pipe done_)
      (mkAgent (mkSystem m' (<[i := pc']> (refreshers sys)) (runners sys) (spooled sys)) pipe done_)
| agent_run sys pipe done_ i pc e m' sp' pc' :
    runners sys !! i = Some pc -> run_event_ok pc e -> run_next (mgr sys) (spooled sys) pc e = Some (m', sp', pc') ->
    agent_step F (mkAgent sys pipe done_)
      (mkAgent (mkSystem m' (refreshers sys) (<[i := pc']> (runners sys)) sp') pipe (marked (mgr sys) pc e done_))
| agent_enqueue sys pipe done_ i batch rounds now free random o fs' sys' :
    runners sys !! i = Some (PCurrent batch rounds) -> 0 < now <= clock pipe ->
    (forall bytes, random = Some bytes -> never_drawn pipe (newID now bytes)) ->
    yields F (Enqueue s rounds now free random) (disk pipe) o fs' -> persisted i o sys sys' ->
    agent_step F (mkAgent sys pipe done_) (mkAgent sys' (after_enqueue pipe rounds now o fs') done_)
| agent_upload sys pipe done_ pipe' :
    upload_step F pipe pipe' false -> agent_step F (mkAgent sys pipe done_) (mkAgent sys pipe' done_)
| agent_dies sys pipe done_ pipe' requests n :
    upload_step F pipe pipe' true ->
    agent_step F (mkAgent sys pipe done_) (mkAgent (initial_system requests n) pipe' done_).

Inductive agent_reachable (F : fault -> Prop) : agent -> Prop :=
| agent_starts requests n pipe : initial s pipe -> agent_reachable F (mkAgent (initial_system requests n) pipe [])
| agent_steps a a' : agent_reachable F a -> agent_step F a a' -> agent_reachable F a'.

(** ** What a probe run carries *)

(** The results of a batch of targets, as an [Enqueue] of the history [l] accepted them before [t]: one round
    for each target, in their order and under their version, created when they were accepted. *)
Definition results_accepted (l : list (string * probeSpoolEnvelope)) (t : Z)
  (a : probeTargetBatch * (string * probeSpoolEnvelope)) : Prop :=
  a.2 ∈ l /\ exists rounds now, marshalProbeResults rounds = Ok (Batch a.2.2) /\
    a.2.2 = enqueue_envelope now (Batch a.2.2) /\ 0 < now <= t /\
    map TargetID rounds = map ID (b_targets a.1) /\ Forall (fun r => ConfigVersion r = b_version a.1) rounds.

(** The runs whose results were accepted and whose targets are not marked yet. *)
Definition accepted_batch (pc : run_pc) : option probeTargetBatch :=
  match pc with PStored batch => Some batch | _ => None end.

(** Every batch of [batches], each time it occurs, has results of its own in the history. *)
Definition all_accepted (l : list (string * probeSpoolEnvelope)) (t : Z) (batches : list probeTargetBatch) : Prop :=
  exists asg, batches ⊆+ asg.*1 /\ NoDup asg.*2.*1 /\ Forall (results_accepted l t) asg.

Definition batch_valid_targets (batch : probeTargetBatch) : Prop :=
  in_i64 (b_version batch) /\ LimitProbeTargetsForRun (b_targets batch) = b_targets batch.
Definition rounds_of (batch : probeTargetBatch) (rounds : list ProbeRound) : Prop :=
  Forall round_wf rounds /\ map TargetID rounds = map ID (b_targets batch) /\
  Forall (fun r => ConfigVersion r = b_version batch) rounds.

Definition carries (pc : run_pc) : Prop :=
  match pc with
  | PProbing batch _ => batch_valid_targets batch
  | PProbed batch rounds | PCurrent batch rounds => rounds_of batch rounds
  | _ => True
  end.
Definition fetched (pc : refresh_pc) : Prop :=
  match pc with RApply _ response => in_i64 (Version response) | _ => True end.

Record agent_inv (a : agent) : Prop := {
  ai_version : in_i64 (version (mgr (a_system a)));
  ai_fetched : Forall fetched (refreshers (a_system a));
  ai_carries : Forall carries (runners (a_system a));
  ai_accepted : all_accepted (enqueued (a_pipe a)) (clock (a_pipe a))
    (a_completed a ++ omap accepted_batch (runners (a_system a)))
}.

Lemma results_mono l l' t t' a : (forall x, x ∈ l -> x ∈ l') -> t <= t' -> results_accepted l t a -> results_accepted l' t' a.
Proof.
  intros Hl Ht (Hin & rounds & now & ? & ? & [? ?] & ? & ?). split; [by apply Hl|]. exists rounds, now.
  split_and!; try done. lia.
Qed.

Lemma accepted_mono l l' t t' bs bs' : (forall x, x ∈ l -> x ∈ l') -> t <= t' -> bs' ⊆+ bs ->
  all_accepted l t bs -> all_accepted l' t' bs'.
Proof.
  intros Hl Ht Hbs (asg & Hsub & Hnd & Hall). exists asg. split; [by etrans|]. split; [done|].
  eapply Forall_impl; [exact Hall|]. intros a. by apply results_mono.
Qed.

(** The accepted runs when one runner moves. *)
Lemma omap_insert (l : list run_pc) i pc pc' : l !! i = Some pc ->
  option_list (accepted_batch pc) ++ omap accepted_batch (<[i := pc']> l) ≡ₚ
    option_list (accepted_batch pc') ++ omap accepted_batch l.
Proof.
  intros Hi. rewrite <- (take_drop_middle l i pc Hi) at 2. rewrite insert_take_drop by (by eapply lookup_lt_Some).
  rewrite !omap_app. assert (forall q, omap accepted_batch (q :: drop (S i) l) =
    option_list (accepted_batch q) ++ omap accepted_batch (drop (S i) l)) as E by (intros q; simpl; by destruct (accepted_batch q)).
  rewrite !E. solve_Permutation.
Qed.

Lemma inv_mono a sys' pipe' : agent_inv a -> (forall x, x ∈ enqueued (a_pipe a) -> x ∈ enqueued pipe') ->
  clock (a_pipe a) <= clock pipe' -> in_i64 (version (mgr sys')) -> Forall fetched (refreshers sys') ->
  Forall carries (runners sys') -> omap accepted_batch (runners sys') ⊆+ omap accepted_batch (runners (a_system a)) ->
  agent_inv (mkAgent sys' pipe' (a_completed a)).
Proof.
  intros [_ _ _ H4] Hl Ht H1 H2 H3 Hsub. split; try done. eapply accepted_mono; [done|done| |exact H4].
  by apply submseteq_app.
Qed.

Lemma inv_restart a requests n pipe' : agent_inv a -> (forall x, x ∈ enqueued (a_pipe a) -> x ∈ enqueued pipe') ->
  clock (a_pipe a) <= clock pipe' -> agent_inv (mkAgent (initial_system requests n) pipe' (a_completed a)).
Proof.
  intros Hinv Hl Ht. eapply inv_mono; [done|done|done|by vm_compute| | |]; simpl.
  - apply Forall_forall. intros pc Hin. apply list_elem_of_fmap in Hin as (q & -> & _). done.
  - apply Forall_forall. intros pc Hin. apply elem_of_replicate in Hin as [-> _]. done.
  - assert (omap accepted_batch (replicate n PCall) = []) as -> by (by induction n). apply submseteq_nil_l.
Qed.

Lemma install_version_i64 m ts v m' : in_i64 v -> update m ts v = Ok m' -> in_i64 (version m').
Proof. intros Hv H. destruct (update_cases m ts v) as (Hu & Hver & _). apply Hu in H as [_ ->]. by rewrite Hver. Qed.

Lemma due_batch m now : in_i64 (version m) -> batch_valid_targets (due m now).
Proof.
  intros Hv. unfold due. destruct (targets m); split; try done. apply limit_idempotent.
Qed.

Lemma with_version_rounds v rounds : in_i64 v -> Forall round_wf rounds ->
  Forall round_wf (map (with_ConfigVersion v) rounds) /\ map TargetID (map (with_ConfigVersion v) rounds) = map TargetID rounds /\
  Forall (fun r => ConfigVersion r = v) (map (with_ConfigVersion v) rounds).
Proof.
  intros Hv. induction 1 as [|r rounds [_ Hr] _ (IH1 & IH2 & IH3)]; [done|]. cbn [map].
  rewrite !Forall_cons, IH2. done.
Qed.

(** ** Every step keeps it *)
Lemma inv_refresh_step sys pipe done_ i pc e m' pc' : agent_inv (mkAgent sys pipe done_) ->
  refreshers sys !! i = Some pc -> refresh_event_ok e -> refresh_next (mgr sys) pc e = Some (m', pc') ->
  agent_inv (mkAgent (mkSystem m' (<[i := pc']> (refreshers sys)) (runners sys) (spooled sys)) pipe done_).
Proof.
  intros [H1 H2 H3 H4] Hi He Hnext. cbn [a_system a_pipe a_completed] in *.
  assert (fetched pc) as Hpc by (by eapply Forall_lookup_1).
  assert (in_i64 (version m') /\ fetched pc') as [Hv Hf].
  { assert (forall g q, Some (with_refreshGate g (mgr sys), RHold q) = Some (m', pc') -> in_i64 (version m') /\ fetched pc')
      as Hgate by (by intros g q [= <- <-]).
    destruct pc as [q|q|q|q|q response|q r|q r], e as [| |[response'|]]; simpl in Hnext; try done;
      try (by apply bind_Some in Hnext as (? & (g & -> & _)%beginRefresh_Some & Hg); eapply Hgate);
      repeat (case_match; try done); injection Hnext as <- <-; (split; [|done]); try done.
    eapply install_version_i64; [exact Hpc|eassumption]. }
  split; cbn [a_system a_pipe a_completed mgr refreshers runners]; try done. by apply Forall_insert.
Qed.

Lemma marked_app m pc e l : marked m pc e l = marked m pc e [] ++ l.
Proof. by destruct pc, e; simpl; try destruct (snd _). Qed.

Lemma marked_accepted m pc e : marked m pc e [] ⊆+ option_list (accepted_batch pc).
Proof. destruct pc, e; simpl; try destruct (snd _); try done; apply submseteq_nil_l. Qed.

Lemma inv_run_step sys pipe done_ i pc e m' sp' pc' : agent_inv (mkAgent sys pipe done_) ->
  runners sys !! i = Some pc -> run_event_ok pc e -> run_next (mgr sys) (spooled sys) pc e = Some (m', sp', pc') ->
  agent_inv (mkAgent (mkSystem m' (refreshers sys) (<[i := pc']> (runners sys)) sp') pipe (marked (mgr sys) pc e done_)).
Proof.
  intros [H1 H2 H3 H4] Hi He Hnext. cbn [a_system a_pipe a_completed] in *.
  assert (carries pc) as Hpc by (by eapply Forall_lookup_1).
  assert (in_i64 (version m') /\ carries pc' /\ accepted_batch pc' = None) as (Hv & Hc & Hnone).
  { destruct pc as [| |batch now|batch rounds|batch rounds|batch|r|r], e as [| |now'|rounds'|[id|msg]]; simpl in Hnext; try done.
    - by apply bind_Some in Hnext as (? & (g & -> & _)%beginRun_Some & [= <- <- <-]).
    - by simplify_eq.
    - pose proof (due_batch (mgr sys) now' H1) as Hd. destruct (b_targets (due (mgr sys) now')) eqn:Et; by simplify_eq.
    - simplify_eq. split; [done|]. split; [|done]. simpl in He, Hpc |- *. destruct Hpc as [Hver Hlim].
      destruct (with_version_rounds (b_version batch) rounds' Hver) as (Hw1 & Hw2 & Hw3).
      { by eapply ProbeTargets_wf. }
      split; [done|]. split; [|done]. rewrite Hw2. pose proof (probe_outcome_targets _ _ _ He) as Ht. by rewrite Ht, Hlim.
    - case_match; by simplify_eq.
    - unfold markCompleted in *. destruct (_ || _); by simplify_eq.
    - by simplify_eq. }
  split; cbn [a_system a_pipe a_completed mgr refreshers runners]; [done|done|by apply Forall_insert|].
  eapply accepted_mono; [done|done| |exact H4].
  pose proof (omap_insert (runners sys) i pc pc' Hi) as Hp. rewrite Hnone in Hp. cbn [option_list app] in Hp.
  rewrite <- Hp, marked_app, <- (app_assoc _ done_), (Permutation_app_comm _ (done_ ++ _)), <- app_assoc.
  apply submseteq_app; [done|]. rewrite Permutation_app_comm. apply submseteq_app; [apply marked_accepted|done].
Qed.

Lemma accept_batch_grows rounds now o l x : x ∈ l -> x ∈ accept_batch rounds now o l.
Proof. intros Hx. unfold accept_batch. destruct o; try done. destruct (marshalProbeResults rounds); [by right|done]. Qed.

(** An accepted batch gets results of its own: its identifier is new. *)
Lemma accepted_new l l' t batch bs id e : all_accepted l t bs -> (forall x, x ∈ l -> x ∈ l') -> id ∉ l.*1 ->
  results_accepted l' t (batch, (id, e)) -> all_accepted l' t (batch :: bs).
Proof.
  intros (asg & Hsub & Hnd & Hall) Hl Hid Hres. exists ((batch, (id, e)) :: asg). split; [by apply submseteq_skip|].
  split.
  - cbn [fmap list_fmap fst snd]. constructor; [|done]. intros Hin.
    apply list_elem_of_fmap in Hin as ([id' e'] & -> & Hin). apply list_elem_of_fmap in Hin as ([b y] & E & Hin).
    cbn [snd] in E. subst y. apply Hid. rewrite Forall_forall in Hall. destruct (Hall _ Hin) as [Hin' _].
    apply list_elem_of_fmap. by exists (id', e').
  - constructor; [done|]. eapply Forall_impl; [exact Hall|]. intros a. by apply results_mono.
Qed.

Lemma inv_enqueue_step sys pipe done_ i batch rounds now o fs' sys' : agent_inv (mkAgent sys pipe done_) ->
  runners sys !! i = Some (PCurrent batch rounds) -> persisted i o sys sys' -> 0 < now <= clock pipe ->
  (forall id, o = Done id -> id ∉ (enqueued pipe).*1 /\ exists body, marshalProbeResults rounds = Ok body) ->
  agent_inv (mkAgent sys' (after_enqueue pipe rounds now o fs') done_).
Proof.
  intros Hinv Hi Hp Hnow Hbody. pose proof Hinv as [H1 H2 H3 H4]. cbn [a_system a_pipe a_completed] in *.
  assert (rounds_of batch rounds) as (Hw & Hids & Hver) by (exact (Forall_lookup_1 _ _ _ _ H3 Hi)).
  assert (forall x, x ∈ enqueued pipe -> x ∈ enqueued (after_enqueue pipe rounds now o fs')) as Hgrow
    by (intros x; apply accept_batch_grows).
  destruct Hp as [id sys pc m' sp' pc' Hi' Hn|e msg sys pc m' sp' pc' Hi' Hn|sys requests n];
    [| |by apply (inv_restart (mkAgent sys pipe done_))].
  - rewrite Hi in Hi'. injection Hi' as <-. simpl in Hn. simplify_eq.
    split; cbn [a_system a_pipe a_completed mgr refreshers runners]; [done|done|by apply Forall_insert|].
    destruct (Hbody id eq_refl) as [Hid [body Hm]].
    eapply (accepted_mono (enqueued (after_enqueue pipe rounds now (Done id) fs')) _ (clock pipe) _ (batch :: done_ ++ omap accepted_batch (runners sys))); [done|done| |].
    + pose proof (omap_insert (runners sys) i _ (PStored batch) Hi) as Hp. cbn [option_list app accepted_batch] in Hp.
      by rewrite Hp, Permutation_middle.
    + eapply (accepted_new _ _ _ _ _ id (enqueue_envelope now body)); [exact H4|done|done|].
      split; cbn [fst snd].
      * unfold after_enqueue, accept_batch. cbn [enqueued]. rewrite Hm. constructor.
      * by exists rounds, now.
  - rewrite Hi in Hi'. injection Hi' as <-. simpl in Hn. simplify_eq.
    apply (inv_mono (mkAgent sys pipe done_)); cbn [a_system a_pipe mgr refreshers runners]; try done.
    + by apply Forall_insert.
    + pose proof (omap_insert (runners sys) i _ (PRelease (Err (ErrEnqueue msg))) Hi) as Hp.
      cbn [option_list app accepted_batch] in Hp. by rewrite Hp.
Qed.

Lemma upload_step_history F pipe pipe' died : upload_step F pipe pipe' died ->
  enqueued pipe' = enqueued pipe /\ clock pipe <= clock pipe'.
Proof. destruct 1; split; simpl; try done; lia. Qed.

(** [Enqueue] returns an identifier for a batch that could be encoded only, and it is the one it drew. *)
Lemma returns_Enqueue rounds now free random : returns
  (fun id => (exists body, marshalProbeResults rounds = Ok body) /\ exists bytes, random = Some bytes /\ id = newID now bytes)
  (Enqueue s rounds now free random).
Proof.
  unfold Enqueue. destruct (marshalProbeResults rounds) as [body|e]; [|by intros w].
  eapply returns_bind; [apply returns_any|]. intros _ _. case_match; [by intros w|].
  eapply returns_bind; [apply returns_any|]. intros [count total] _. case_match; [by intros w|].
  destruct free as [free|e]; [|by intros w]. case_match; [by intros w|].
  apply (returns_bind (fun id => exists bytes, random = Some bytes /\ id = newID now bytes)).
  - intros w. unfold newIDLocked. destruct random as [bytes|]; simpl; [by exists bytes|done].
  - intros id Hid. eapply returns_bind; [apply returns_any|]. intros _ _.
    eapply returns_bind; [apply returns_any|]. intros _ _. apply returns_ret. split; [by eexists|done].
Qed.

Lemma enqueue_draws F pipe rounds now free random fs o fs' : yields F (Enqueue s rounds now free random) fs o fs' ->
  (forall bytes, random = Some bytes -> never_drawn pipe (newID now bytes)) ->
  forall id, o = Done id -> id ∉ (enqueued pipe).*1 /\ exists body, marshalProbeResults rounds = Ok body.
Proof.
  intros (w & _ & _ & Ho & _) Hfresh id ->. pose proof (returns_Enqueue rounds now free random w) as H.
  rewrite Ho in H. destruct H as [Hbody (bytes & Hr & ->)]. split; [|done]. by destruct (Hfresh bytes Hr).
Qed.

Lemma agent_inv_reachable F a : agent_reachable F a -> agent_inv a.
Proof.
  induction 1 as [requests n pipe Hp|a a' _ IH Hstep].
  - split; cbn [a_system a_pipe a_completed]; [by vm_compute| | |].
    + apply Forall_forall. intros pc Hin. apply list_elem_of_fmap in Hin as (q & -> & _). done.
    + apply Forall_forall. intros pc Hin. apply elem_of_replicate in Hin as [-> _]. done.
    + assert (omap accepted_batch (replicate n PCall) = []) as E by (by induction n). exists []. simpl. rewrite E.
      split; [done|]. split; constructor.
  - destruct Hstep as [sys pipe done_ i pc e m' pc' Hi He Hn|sys pipe done_ i pc e m' sp' pc' Hi He Hn
      |sys pipe done_ i batch rounds now free random o fs' sys' Hi Hnow Hfresh Hrun Hp|sys pipe done_ pipe' Hu
      |sys pipe done_ pipe' requests n Hu].
    + by eapply inv_refresh_step.
    + by eapply inv_run_step.
    + eapply inv_enqueue_step; try done. by eapply enqueue_draws.
    + pose proof (upload_step_history _ _ _ _ Hu) as [E Hc]. destruct IH as [H1 H2 H3 H4].
      apply (inv_mono (mkAgent sys pipe done_)); try done; cbn [a_pipe]; rewrite E; done.
    + pose proof (upload_step_history _ _ _ _ Hu) as [E Hc]. apply (inv_restart (mkAgent sys pipe done_)); [done| |done].
      cbn [a_pipe]. by rewrite E.
Qed.

(** The completed batches with their results, one by one. *)
Lemma all_accepted_each l t bs bs' : all_accepted l t (bs ++ bs') ->
  exists ds : list (string * probeSpoolEnvelope), NoDup ds.*1 /\ Forall2 (fun batch d => results_accepted l t (batch, d)) bs ds.
Proof.
  intros (asg & [k Hk]%submseteq_Permutation & Hnd & Hall). rewrite <- app_assoc in Hk. symmetry in Hk.
  apply Permutation_map_inv in Hk as (asg' & E & Hp). rewrite Hp in Hnd, Hall. symmetry in E.
  apply fmap_app_inv in E as (asg1 & asg2 & -> & _ & ->). apply Forall_app in Hall as [Hall _].
  rewrite !fmap_app in Hnd. apply NoDup_app in Hnd as (Hnd & _). exists asg1.*2. split; [done|].
  clear -Hall. induction Hall as [|[b d] asg Hd _ IH]; by constructor.
Qed.

(** The spool's side of a step is a step of the pipeline. *)
Lemma agent_pipe_reachable F a : agent_reachable F a -> pipe_reachable F (a_pipe a).
Proof.
  induction 1 as [requests n pipe Hp|a a' Hreach IH Hstep]; [by apply reach_initial|].
  pose proof (agent_inv_reachable _ _ Hreach) as [_ _ H3 _].
  destruct Hstep as [sys pipe done_ i pc e m' pc' Hi He Hn|sys pipe done_ i pc e m' sp' pc' Hi He Hn
    |sys pipe done_ i batch rounds now free random o fs' sys' Hi Hnow Hfresh Hrun Hp|sys pipe done_ pipe' Hu
    |sys pipe done_ pipe' requests n Hu]; cbn [a_pipe] in *; try done.
  - eapply reach_step; [exact IH|]. eapply step_enqueue; try done.
    exact (proj1 (Forall_lookup_1 _ _ _ _ H3 Hi)).
  - eapply reach_step; [exact IH|]. by eapply step_upload.
  - eapply reach_step; [exact IH|]. by eapply step_upload.
Qed.
End Agent.

(** ** Properties *)

(** C1. A completed probe run is delivered.  In every state of the whole agent, over all interleavings of configuration
    refreshes, probe runs, uploads, crashes and restarts, with any errors of the operations that write (only operations
    that read must not fail): each time targets were marked completed, an [Enqueue] had accepted their results under an
    identifier of their own, one round for each target, in their order and under the version of their configuration, in
    a batch that was created then; and as long as that batch has not expired, it is still queued under that identifier,
    or its bytes were sent with the node's credentials to an accepted controller and answered with a 2xx or a terminal
    status.  Assumed, as for the pipeline: an identifier drawn by [Enqueue] was not in use before, the queue holds only
    the agent's own files at the first start, and the limits leave room, as the defaults do. *)
Theorem completed_runs_are_delivered (s : ProbeSpool) ParseTime jitter Parse c transport a :
  spool_wf s -> 2 * MaxPendingBytes (limits s) + retry_growth * MaxPendingItems (limits s) <= maxInt64 ->
  MaxItemBytes (limits s) <= MaxQuarantineBytes (limits s) ->
  agent_reachable s ParseTime jitter Parse c transport reads_work a ->
  exists deliveries : list (string * probeSpoolEnvelope), NoDup deliveries.*1 /\
    Forall2 (fun batch '(id, e) =>
      (id, e) ∈ enqueued (a_pipe a) /\
      (exists rounds now, marshalProbeResults rounds = Ok (Batch e) /\ e = enqueue_envelope now (Batch e) /\
        0 < now <= clock (a_pipe a) /\ map TargetID rounds = map ID (b_targets batch) /\
        Forall (fun r => ConfigVersion r = b_version batch) rounds) /\
      (expired s (clock (a_pipe a)) e = false -> queued s id e (disk (a_pipe a)) \/
        exists x, x ∈ exchanges (a_pipe a) /\ ex_id x = id /\
          own_request Parse c "POST" probeResultsPath (Some (Some (Batch e))) (ex_request x) /\
          req_Body (ex_request x) = Some (Batch e) /\
          (accepted (postBody (ex_answer x)) \/ exists status code, terminal (postBody (ex_answer x)) status code)))
      (a_completed a) deliveries.
Proof.
  intros Hwf Hroom Hev Hreach.
  pose proof (agent_inv_reachable s ParseTime jitter Parse c transport reads_work a Hreach) as [_ _ _ Hc].
  apply all_accepted_each in Hc as (ds & Hnd & Hds). exists ds. split; [done|].
  apply agent_pipe_reachable in Hreach.
  destruct (traced_reachable s ParseTime jitter Parse c transport Hwf Hroom Hev _ Hreach) as [Hids _].
  eapply Forall2_impl; [exact Hds|]. intros batch [id e] [Hl Hr]. cbn [fst snd] in *. split; [done|]. split; [done|].
  intros Hexp. destruct (Hids id e Hl) as [_ [H|[(x & Hx & (? & ? & ?) & Hdec)|(e1 & Hst & Hbe & Hce & _)]]].
  - by rewrite Hexp in H.
  - right. by exists x.
  - left. by exists e1.
Qed.

(** ** Witnesses *)
Section Moves.
Context (s : ProbeSpool) (ParseTime : string -> option Z) (jitter : Z -> Z)
  (Parse : string -> result go_error url) (c : Client) (transport : bool) (F : fault -> Prop).
Notation agent_reachable := (agent_reachable s ParseTime jitter Parse c transport F).

Lemma move_refresh sys pipe done_ i e sys' : agent_reachable (mkAgent sys pipe done_) -> refresh_event_ok e ->
  exec_move sys (MoveRefresh i e) = Some sys' -> agent_reachable (mkAgent sys' pipe done_).
Proof.
  intros Hreach He Hm. cbn [exec_move] in Hm. apply bind_Some in Hm as (pc & Hi & H).
  apply bind_Some in H as ([m' pc'] & Hn & [= <-]). eapply agent_steps; [exact Hreach|]. by eapply agent_refresh.
Qed.

Lemma move_run sys pipe done_ i pc e sys' : agent_reachable (mkAgent sys pipe done_) -> runners sys !! i = Some pc ->
  run_event_ok pc e -> exec_move sys (MoveRun i e) = Some sys' ->
  agent_reachable (mkAgent sys' pipe (marked (mgr sys) pc e done_)).
Proof.
  intros Hreach Hi He Hm. cbn [exec_move] in Hm. rewrite Hi in Hm. cbn [mbind option_bind] in Hm.
  apply bind_Some in Hm as ([[m' sp'] pc'] & Hn & [= <-]). eapply agent_steps; [exact Hreach|]. by eapply agent_run.
Qed.
End Moves.

(** A refresh installs one target, a run probes it, stores the result and marks it. *)
Definition demo_moves : list move :=
  [MoveRefresh 0 RStep; MoveRefresh 0 RStep; MoveRefresh 0 RStep; MoveRefresh 0 (RAnswer (Ok (TargetManager.mkResponse [demo_target] 4)));
   MoveRefresh 0 RStep; MoveRun 0 PStep; MoveRun 0 (PClock 0); MoveRun 0 (PRounds [ProbeRun.demo_round]); MoveRun 0 PStep;
   MoveRun 0 (PEnqueue (Ok demo_id)); MoveRun 0 (PClock 5)].
Definition demo_sys (k : nat) : system :=
  default (initial_system [] 0) (TargetManager.exec (initial_system [0] 1) (take k demo_moves)).
Definition demo_results : list ProbeRound := [with_ConfigVersion 4 ProbeRun.demo_round].
Definition demo_stored : world * outcome spool_error string :=
  Enqueue demo_spool demo_results demo_now (Ok 1000000000) (Some demo_random) (demo_world ∅).
Definition demo_pipe : pipeline := after_enqueue demo_st0 demo_results demo_now (Done demo_id) (files demo_stored.1).
Definition demo_batch : probeTargetBatch := mkBatch [demo_target] 4 1.

Lemma demo_stored_ok : demo_stored.2 = Done demo_id.
Proof. by vm_compute. Qed.

Lemma demo_probed : ProbeTargets [demo_target] 0 [ProbeRun.demo_round].
Proof.
  exists demo_out, "linux", (fun _ => Err errInvalidProbeTarget), (fun _ => ""), (mkRun [WFinished] [ProbeRun.demo_round] 7).
  split; [exact demo_run_reachable|]. split; [by repeat constructor|reflexivity].
Qed.

Section DemoAgent.
Context (F : fault -> Prop).
Notation reach := (agent_reachable demo_spool no_dates full_jitter demo_parse demo_client true F).

Lemma demo_refresh k e : reach (mkAgent (demo_sys k) demo_st0 []) -> refresh_event_ok e ->
  exec_move (demo_sys k) (MoveRefresh 0 e) = Some (demo_sys (S k)) -> reach (mkAgent (demo_sys (S k)) demo_st0 []).
Proof. intros H He Hm. exact (move_refresh _ _ _ _ _ _ _ _ _ _ 0 e _ H He Hm). Qed.

Lemma demo_run_move k pc e : reach (mkAgent (demo_sys k) demo_st0 []) -> runners (demo_sys k) !! 0%nat = Some pc ->
  run_event_ok pc e -> exec_move (demo_sys k) (MoveRun 0 e) = Some (demo_sys (S k)) ->
  marked (mgr (demo_sys k)) pc e [] = [] -> reach (mkAgent (demo_sys (S k)) demo_st0 []).
Proof. intros H Hi He Hm Hl. pose proof (move_run _ _ _ _ _ _ _ _ _ _ 0 pc e _ H Hi He Hm) as H'. by rewrite Hl in H'. Qed.

Lemma demo_agent_probed : reach (mkAgent (demo_sys 9) demo_st0 []).
Proof.
  assert (reach (mkAgent (demo_sys 0) demo_st0 [])) as H0 by apply agent_starts, demo_initial.
  do 3 (apply (demo_refresh _ RStep) in H0; [|exact I|by vm_compute]).
  apply (demo_refresh _ (RAnswer (Ok (TargetManager.mkResponse [demo_target] 4)))) in H0; [|by vm_compute|by vm_compute].
  apply (demo_refresh _ RStep) in H0; [|exact I|by vm_compute].
  apply (demo_run_move 5 PCall PStep) in H0; [|by vm_compute|exact I|by vm_compute|done].
  apply (demo_run_move 6 PHold (PClock 0)) in H0; [|by vm_compute|exact I|by vm_compute|done].
  apply (demo_run_move 7 (PProbing demo_batch 0) (PRounds [ProbeRun.demo_round])) in H0;
    [|by vm_compute|exact demo_probed|by vm_compute|done].
  by apply (demo_run_move 8 (PProbed demo_batch demo_results) PStep) in H0; [|by vm_compute|exact I|by vm_compute|done].
Qed.

Lemma demo_agent : reach (mkAgent (demo_sys 11) demo_pipe [demo_batch]).
Proof.
  assert (persisted 0 (Done demo_id) (demo_sys 9) (demo_sys 10)) as Hp.
  { apply (persisted_ok 0 demo_id (demo_sys 9) (PCurrent demo_batch demo_results) (mgr (demo_sys 9))
      (spooled (demo_sys 9) ++ [demo_results]) (PStored demo_batch)); by vm_compute. }
  assert (reach (mkAgent (demo_sys 10) demo_pipe [])) as H.
  { eapply agent_steps; [exact demo_agent_probed|].
    apply (agent_enqueue _ _ _ _ _ _ _ _ _ _ 0 demo_batch demo_results demo_now (Ok 1000000000) (Some demo_random)
      (Done demo_id)); [by vm_compute|by vm_compute|intros bytes _; apply demo_fresh| |exact Hp].
    rewrite <- demo_stored_ok. change (disk demo_st0) with (files (demo_world ∅)). unfold demo_stored.
    apply (yields_intro F (Enqueue demo_spool demo_results demo_now (Ok 1000000000) (Some demo_random)) (demo_world ∅)).
    constructor. }
  assert (runners (demo_sys 10) !! 0%nat = Some (PStored demo_batch)) as Hi by (by vm_compute).
  assert (exec_move (demo_sys 10) (MoveRun 0 (PClock 5)) = Some (demo_sys 11)) as Hm by (by vm_compute).
  pose proof (move_run _ _ _ _ _ _ _ _ _ _ 0 _ (PClock 5) _ H Hi I Hm) as H'.
  assert (marked (mgr (demo_sys 10)) (PStored demo_batch) (PClock 5) [] = [demo_batch]) as Hl by (by vm_compute).
  by rewrite Hl in H'.
Qed.
End DemoAgent.

Lemma completed_runs_are_delivered_witness :
  exists deliveries : list (string * probeSpoolEnvelope), NoDup deliveries.*1 /\
    Forall2 (fun batch '(id, e) =>
      (id, e) ∈ enqueued demo_pipe /\
      (exists rounds now, marshalProbeResults rounds = Ok (Batch e) /\ e = enqueue_envelope now (Batch e) /\
        0 < now <= clock demo_pipe /\ map TargetID rounds = map ID (b_targets batch) /\
        Forall (fun r => ConfigVersion r = b_version batch) rounds) /\
      (expired demo_spool (clock demo_pipe) e = false -> queued demo_spool id e (disk demo_pipe) \/
        exists x, x ∈ exchanges demo_pipe /\ ex_id x = id /\
          own_request demo_parse demo_client "POST" probeResultsPath (Some (Some (Batch e))) (ex_request x) /\
          req_Body (ex_request x) = Some (Batch e) /\
          (accepted (postBody (ex_answer x)) \/ exists status code, terminal (postBody (ex_answer x)) status code)))
      [demo_batch] deliveries.
Proof.
  apply (completed_runs_are_delivered demo_spool no_dates full_jitter demo_parse demo_client true
    (mkAgent (demo_sys 11) demo_pipe [demo_batch]));
    [apply demo_wf|by vm_compute|by vm_compute|apply demo_agent].
Defined.
