(* ===== verification/AgentMain.v ===== *)
(** * The agent program (cmd/zeno-agent/main.go)

    From the flags to the running workers: which configurations start, what the
    reports send and remember, and how the workers call them.  Signals, clocks,
    the platform's readings and the Controller are what the steps read. *)

From S2P Require Export Client NetworkIdentity MetricsFacts InstallReceipt ProbeUploader ProbeBudget.

(** ** Configuration *)
Definition defaultStateInterval : Z := 3 * Second.
Definition defaultHeartbeatInterval : Z := 15 * Second.
Definition defaultHostInterval : Z := 30 * Minute.
Definition defaultIdentityRefreshInterval : Z := 12 * Hour.
Definition probeConfigPollInterval : Z := Minute.
Definition probeConfigRefreshTimeout : Z := 20 * Second.
Definition probeRunLoopInterval : Z := Second.

Record config : Type := mkConfig {
  ControllerURL : string; NodeID : string; Token : string; TokenFile : string;
  StateInterval : Z; HeartbeatInterval : Z; HostInterval : Z; Once : bool; ConfigVersionText : string;
  IdentityRefreshInterval : Z; NetworkInterfaces : string; DiskMounts : string; DataDir : string;
  AllowInsecureHTTP : bool; InstallCheck : bool; InstallReceiptFile : string; InstallReceiptNonce : string;
  LogFile : string
}.

Definition with_intervals (state heartbeat host identity : Z) (c : config) : config :=
  mkConfig (ControllerURL c) (NodeID c) (Token c) (TokenFile c) state heartbeat host (Once c) (ConfigVersionText c)
    identity (NetworkInterfaces c) (DiskMounts c) (DataDir c) (AllowInsecureHTTP c) (InstallCheck c)
    (InstallReceiptFile c) (InstallReceiptNonce c) (LogFile c).
Definition with_Token (t : string) (c : config) : config :=
  mkConfig (ControllerURL c) (NodeID c) t (TokenFile c) (StateInterval c) (HeartbeatInterval c) (HostInterval c) (Once c)
    (ConfigVersionText c) (IdentityRefreshInterval c) (NetworkInterfaces c) (DiskMounts c) (DataDir c)
    (AllowInsecureHTTP c) (InstallCheck c) (InstallReceiptFile c) (InstallReceiptNonce c) (LogFile c).

Definition readToken (read : string -> result os_error string) (token tokenFile : string) : result os_error string :=
  if negb (bool_decide (tokenFile = "")) then
    match read tokenFile with Err e => Err e | Ok content => Ok (TrimSpace content) end
  else Ok (TrimSpace token).

(** [main] after [flag.Parse], up to the log file. *)
Definition parsed_config (read : string -> result os_error string) (c : config) (legacyInterval : Z)
  : result os_error config :=
  let c := if 0 <? legacyInterval
           then with_intervals legacyInterval (HeartbeatInterval c) (HostInterval c) (IdentityRefreshInterval c) c else c in
  match readToken read (Token c) (TokenFile c) with
  | Err e => Err e
  | Ok token => Ok (with_Token token c)
  end.

Definition positive_or (value default_ : Z) : Z := if value <=? 0 then default_ else value.
Definition normalizeConfigIntervals (c : config) : config :=
  with_intervals (positive_or (StateInterval c) defaultStateInterval)
    (positive_or (HeartbeatInterval c) defaultHeartbeatInterval) (positive_or (HostInterval c) defaultHostInterval)
    (positive_or (IdentityRefreshInterval c) defaultIdentityRefreshInterval) c.

(** [filepath.IsAbs] on Unix. *)
Definition IsAbs (p : string) : bool := HasPrefix p "/".
Definition hex_digit (c : ascii) : bool := byte_in "0123456789abcdef" c.

Definition validateInstallReceiptConfig (p nonce : string) : bool :=
  if bool_decide (p = "") && bool_decide (nonce = "") then true
  else if bool_decide (p = "") || bool_decide (nonce = "") || negb (IsAbs p) || negb (str_len nonce =? 64) then false
  else str_forall hex_digit nonce.

Definition splitCommaList (value : string) : list string :=
  if bool_decide (TrimSpace value = "") then []
  else List.filter (fun part => negb (bool_decide (part = ""))) (map TrimSpace (Split value ",")).

(** ** Starting *)
Inductive config_error : Type := BadController (e : url_error) | EmptyIdentity | BadReceipt.

Inductive start : Type :=
| Refused (e : config_error)
| Checked
| Started (c : config) (client : Client) (collector : MetricsCollector) (identity : CachedNetworkIdentityDiscoverer).

(** [run] up to the call of [runAgent]. *)
Definition run (Parse : string -> result go_error url) (c : config) : start :=
  let c := normalizeConfigIntervals c in
  match ValidateControllerURLWithOptions Parse (ControllerURL c) (AllowInsecureHTTP c) with
  | Err e => Refused (BadController e)
  | Ok _ =>
      if bool_decide (TrimSpace (NodeID c) = "") || bool_decide (TrimSpace (Token c) = "") then Refused EmptyIdentity
      else if negb (validateInstallReceiptConfig (InstallReceiptFile c) (InstallReceiptNonce c)) then Refused BadReceipt
      else if InstallCheck c then Checked
      else
        Started c (NewClientWithOptions (ControllerURL c) (NodeID c) (Token c) (AllowInsecureHTTP c))
          (NewMetricsCollector (splitCommaList (NetworkInterfaces c)) (splitCommaList (DiskMounts c)))
          (NewCachedNetworkIdentityDiscoverer (IdentityRefreshInterval c))
  end.

(** [runConsole]: a shutdown is not an error. *)
Inductive run_error : Type := RunCanceled | RunFailed (message : string).
Definition runConsole (ctxErr : option ctx_error) (err : option run_error) : option run_error :=
  match ctxErr, err with
  | Some _, Some RunCanceled => None
  | _, _ => err
  end.

(** ** Time limits *)
Definition perCallTimeout (interval : Z) : Z :=
  if interval <=? 0 then 20 * Second
  else if interval <? 10 * Second then 10 * Second
  else if interval <? 30 * Second then interval
  else 30 * Second.
Definition maxProbeRunLoopTimeout : Z := i64 (120000 * Millisecond) + 5 * Second.

(** ** The workers *)
Inductive worker : Type :=
| PresenceWorker
| ConfigPoller (timeout interval : Z)
| UploaderWorker
| StateReports (interval timeout : Z)
| HeartbeatReports (interval timeout : Z)
| HostReports (interval timeout : Z)
| ProbeLoop (interval timeout : Z).

Definition workers (c : config) : list worker :=
  [PresenceWorker; ConfigPoller probeConfigRefreshTimeout probeConfigPollInterval; UploaderWorker;
   StateReports (StateInterval c) (perCallTimeout (StateInterval c));
   HeartbeatReports (HeartbeatInterval c) (perCallTimeout (HeartbeatInterval c));
   HostReports (HostInterval c) (perCallTimeout (HostInterval c));
   ProbeLoop probeRunLoopInterval maxProbeRunLoopTimeout].

(** What the [select] of [runPeriodicWithTimeout] receives, one by one.  [fn]
    is what a call under a context with the given time limit does to the state;
    an error it returns is logged. *)
Inductive loop_event : Type := CtxDone | Tick.
Section Periodic.
Context {S : Type}.
Fixpoint runPeriodicWithTimeout (timeout : Z) (fn : Z -> S -> S) (events : list loop_event) (s : S) : S :=
  match events with
  | [] | CtxDone :: _ => s
  | Tick :: events => runPeriodicWithTimeout timeout fn events (fn timeout s)
  end.
Definition runPeriodic (interval : Z) (fn : Z -> S -> S) (events : list loop_event) (s : S) : S :=
  runPeriodicWithTimeout (perCallTimeout interval) fn events s.

(** The two workers that make a call before the first tick; [cancelled] is what
    [ctx.Err] says after it. *)
Definition runProbeConfigPoller (refreshProbeConfig : Z -> S -> S) (cancelled : bool) (events : list loop_event) (s : S) : S :=
  let s := refreshProbeConfig probeConfigRefreshTimeout s in
  if cancelled then s else runPeriodic probeConfigPollInterval refreshProbeConfig events s.
Definition runProbeLoop (runDueProbes : Z -> S -> S) (cancelled : bool) (events : list loop_event) (s : S) : S :=
  let s := runDueProbes maxProbeRunLoopTimeout s in
  if cancelled then s else runPeriodicWithTimeout maxProbeRunLoopTimeout runDueProbes events s.
End Periodic.

(** [runProbeUploader]: how [Run] ended and what came next. *)
Inductive uploader_event : Type :=
| RunEnded (ctxErr : option ctx_error) (stopped : bool).  (* [stopped]: the context ends during the wait *)
Fixpoint runProbeUploader (ctxErr : option ctx_error) (events : list uploader_event) : nat :=
  match ctxErr, events with
  | Some _, _ | None, [] => O
  | None, RunEnded (Some _) _ :: _ => 1%nat
  | None, RunEnded None true :: _ => 1%nat
  | None, RunEnded None false :: events => Datatypes.S (runProbeUploader None events)
  end.

(** [OnRejected]: what is done about a quarantined batch.  [Run] also calls it for a
    retry with a status, which is logged as a rejected and quarantined batch. *)
Inductive rejected_action : Type := RefreshAfterStale (timeout : Z) | LogRoundConflict | LogRejected.
Definition OnRejected (uploadErr : upload_error) : rejected_action :=
  match uploadErr with
  | ProbeUploadStaleError _ => RefreshAfterStale probeConfigRefreshTimeout
  | ProbeUploadRoundConflictError => LogRoundConflict
  | _ => LogRejected
  end.

(** ** Reports *)

(** What a report reads while it runs. *)
Record report_env : Type := mkEnv {
  e_now : Z;
  e_readings : readings;
  e_random : option string;
  e_discover : option (unit -> list url * NetworkIdentity);
  e_send : api_request -> api_answer
}.

(** What the reports share: each part is guarded by its own lock. *)
Record reporter : Type := mkReporter {
  rp_collector : MetricsCollector;
  rp_identity : CachedNetworkIdentityDiscoverer;
  rp_sequence : Z
}.

Section Reports.
Context (Parse : string -> result go_error url) (plus_v : StateSample -> string) (goos goarch : string).
Context (client : Client) (version_text : string).

Definition reportHeartbeat (e : report_env) : list api_request * result api_error (option unit) :=
  PostHeartbeat Parse client (e_send e) "online" version_text (e_now e).

Definition with_identity (host : HostInfo) (identity : NetworkIdentity) : HostInfo :=
  mkHost (Hostname host) (OSName host) (OSVersion host) (Kernel host) (Arch host) (Virtualization host) (CPUModel host)
    (CPUCores host) (HostMemoryTotalBytes host) (HostDiskTotalBytes host) (BootTime host) (AgentVersion host)
    (id_PublicIPv4 identity) (id_PublicIPv6 identity) (id_CountryCode identity).

Definition reportHost (e : report_env) (s : reporter) : reporter * (list api_request * result api_error (option unit)) :=
  let host := CollectHost (rp_collector s) (e_readings e) goarch version_text in
  let '(d, (_, identity)) := cached_Discover (rp_identity s) (e_now e) (e_discover e) in
  (mkReporter (rp_collector s) d (rp_sequence s), PostHost Parse client (e_send e) (with_identity host identity)).

Definition reportState (e : report_env) (s : reporter) : reporter * (list api_request * result api_error (option unit)) :=
  let '(sample, c, sequence) := CollectState goos (rp_collector s) (e_readings e) (e_now e) (e_random e) (rp_sequence s) in
  (mkReporter c (rp_identity s) sequence, PostState Parse client (e_send e) plus_v sample).

Inductive report : Type := RHeartbeat | RHost | RState.

Definition do_report (r : report) (e : report_env) (s : reporter)
  : reporter * (list api_request * result api_error (option unit)) :=
  match r with
  | RHeartbeat => (s, reportHeartbeat e)
  | RHost => reportHost e s
  | RState => reportState e s
  end.

(** One iteration of a reporting worker: the report, and the receipt's mark
    when it succeeded. *)
Definition report_step (r : report) (e : report_env) (s : reporter) (t : installReceiptTracker)
  : M os_error (reporter * installReceiptTracker * list api_request) :=
  let '(s, (sent, res)) := do_report r e s in
  match r, res with
  | RHeartbeat, Ok _ => t ← markHeartbeat t; mret (s, t, sent)
  | RState, Ok _ => t ← markState t; mret (s, t, sent)
  | _, _ => mret (s, t, sent)
  end.

Fixpoint run_reports (reports : list (report * report_env)) (s : reporter) (t : installReceiptTracker)
  : M os_error (reporter * installReceiptTracker * list api_request) :=
  match reports with
  | [] => mret (s, t, [])
  | (r, e) :: reports =>
      '(s, t, sent) ← report_step r e s t;
      '(s, t, rest) ← run_reports reports s t;
      mret (s, t, sent ++ rest)
  end.

(** *** [runAgent] *)
Inductive once_step : Type := RefreshOnce (timeout : Z) | RunProbesOnce | UploadOnce (timeout : Z).
Inductive next_phase : Type := OneShot (steps : list once_step) | RunWorkers (ws : list worker).

Definition after_reports (c : config) : next_phase :=
  if Once c then OneShot [RefreshOnce probeConfigRefreshTimeout; RunProbesOnce; UploadOnce probeUploadTimeout]
  else RunWorkers (workers c).

Definition initial_reports (heartbeat host state : report_env) : list (report * report_env) :=
  [(RHeartbeat, heartbeat); (RHost, host); (RState, state)].

(** From the opened spool on: the initial reports, the errors of which are
    logged, and what is started next. *)
Definition runAgent (c : config) (heartbeat host state : report_env) (s : reporter) (t : installReceiptTracker)
  : M os_error (reporter * installReceiptTracker * list api_request * next_phase) :=
  '(s, t, sent) ← run_reports (initial_reports heartbeat host state) s t;
  mret (s, t, sent, after_reports (normalizeConfigIntervals c)).
End Reports.

Definition agent_data_dir (defaultAgentDataDir : string) (c : config) : string :=
  if bool_decide (TrimSpace (DataDir c) = "") then defaultAgentDataDir else DataDir c.

(** The text of a path split into directory and base name. *)
Definition receipt_path (p : string) : option path :=
  if bool_decide (p = "") then None
  else match last_cut (chr 47) p with Some (dir, base) => Some (dir, base) | None => Some (".", p) end.

(** ** Lemmas: configuration *)
Definition interval_ok (c : config) : Prop :=
  0 < StateInterval c /\ 0 < HeartbeatInterval c /\ 0 < HostInterval c /\ 0 < IdentityRefreshInterval c.

Lemma positive_or_pos v d : 0 < d -> 0 < positive_or v d.
Proof. intros Hd. unfold positive_or. destruct (Z.leb_spec v 0); lia. Qed.

Lemma normalize_ok c : interval_ok (normalizeConfigIntervals c).
Proof. repeat split; by apply positive_or_pos. Qed.

Lemma splitCommaList_items value : Forall trimmed_item (splitCommaList value).
Proof.
  unfold splitCommaList. case_bool_decide; [constructor|]. apply Forall_forall. intros x Hx.
  apply list_elem_of_In, filter_In in Hx as [Hx Hne]. apply in_map_iff in Hx as (y & <- & _).
  split; [|apply TrimSpace_idem]. intros E. rewrite E in Hne. done.
Qed.

(** A receipt is asked for with both values or neither, at an absolute path, with a nonce of 64 hexadecimal digits. *)
Definition receipt_config_ok (p nonce : string) : Prop :=
  p = "" /\ nonce = "" \/
  p <> "" /\ IsAbs p = true /\ str_len nonce = 64 /\ str_forall hex_digit nonce = true.

Lemma validateInstallReceiptConfig_spec p nonce : validateInstallReceiptConfig p nonce = true <-> receipt_config_ok p nonce.
Proof.
  unfold validateInstallReceiptConfig, receipt_config_ok.
  destruct (bool_decide_reflect (p = "")) as [->|Hp], (bool_decide_reflect (nonce = "")) as [->|Hn]; cbn [andb orb].
  - split; [by left|done].
  - split; [done|]. intros [[_ ?]|[? _]]; done.
  - split; [done|]. intros [[? _]|(_ & _ & H & _)]; done.
  - destruct (IsAbs p); cbn [negb orb]; [|split; [done|intros [[? _]|(_ & ? & _)]; done]].
    destruct (Z.eqb_spec (str_len nonce) 64) as [Hl|Hl]; cbn [negb];
      [|split; [done|intros [[? _]|(_ & _ & ? & _)]; done]].
    split; [intros H; right; done|]. intros [[? _]|(_ & _ & _ & ?)]; done.
Qed.

Definition configuration_ok (Parse : string -> result go_error url) (c : config) : Prop :=
  (exists u, Parse (TrimSpace (ControllerURL c)) = Ok u /\ controller_ok u (AllowInsecureHTTP c)) /\
  TrimSpace (NodeID c) <> "" /\ TrimSpace (Token c) <> "" /\
  receipt_config_ok (InstallReceiptFile c) (InstallReceiptNonce c).

(** C38. The agent starts exactly on valid configurations: an accepted controller, a node identity and token that are not
    blank, and a complete receipt request or none.  An install check of a valid configuration ends there; otherwise
    the client carries the trimmed identity, every interval is positive and the interface allowlist has no blank
    entries.  Anything else is refused before a client exists. *)
Theorem agent_starts_on_valid_configurations Parse c :
  match run Parse c with
  | Refused _ => ~ configuration_ok Parse c
  | Checked => configuration_ok Parse c /\ InstallCheck c = true
  | Started c' client collector identity =>
      configuration_ok Parse c /\ InstallCheck c = false /\ interval_ok c' /\
      nodeID client = TrimSpace (NodeID c) /\ nodeID client <> "" /\ token client = TrimSpace (Token c) /\
      token client <> "" /\ allowInsecureHTTP client = AllowInsecureHTTP c /\
      (forall name, name ∈ networkAllowlist collector -> trimmed_item name) /\
      Forall trimmed_item (diskAllowlist collector) /\ 0 < NetworkIdentity.TTL identity
  end.
Proof.
  unfold run. set (n := normalizeConfigIntervals c). pose proof (normalize_ok c) as Hn. fold n in Hn.
  change (ControllerURL n) with (ControllerURL c). change (AllowInsecureHTTP n) with (AllowInsecureHTTP c).
  change (NodeID n) with (NodeID c). change (Token n) with (Token c).
  change (InstallReceiptFile n) with (InstallReceiptFile c). change (InstallReceiptNonce n) with (InstallReceiptNonce c).
  change (InstallCheck n) with (InstallCheck c).
  destruct (ValidateControllerURLWithOptions Parse (ControllerURL c) (AllowInsecureHTTP c)) as [[]|e] eqn:Ev.
  2: { intros (Hu & _). apply validate_controller_spec in Hu. congruence. }
  apply validate_controller_spec in Ev.
  destruct (bool_decide_reflect (TrimSpace (NodeID c) = "")) as [|Hid]; [by intros (_ & ? & _)|].
  destruct (bool_decide_reflect (TrimSpace (Token c) = "")) as [|Htok]; [by intros (_ & _ & ? & _)|]. cbn [orb].
  destruct (validateInstallReceiptConfig _ _) eqn:Er; cbn [negb].
  2: { intros (_ & _ & _ & Hr). apply validateInstallReceiptConfig_spec in Hr. congruence. }
  apply validateInstallReceiptConfig_spec in Er.
  assert (configuration_ok Parse c) as Hok by done.
  destruct (InstallCheck c); [done|].
  split; [done|]. split; [done|]. split; [done|]. do 5 (split; [done|]).
  split; [|split].
  - intros name Hname. cbn [networkAllowlist NewMetricsCollector] in Hname. unfold allowlistSet in Hname.
    rewrite elem_of_list_to_set in Hname. pose proof (normalizeAllowlist_items (splitCommaList (NetworkInterfaces n))) as Hi.
    rewrite Forall_forall in Hi. by apply Hi.
  - apply normalizeAllowlist_items.
  - destruct Hn as (_ & _ & _ & Hi). cbn [NetworkIdentity.TTL NewCachedNetworkIdentityDiscoverer].
    destruct (Z.leb_spec (IdentityRefreshInterval n) 0); [done|lia].
Qed.

(** ** Lemmas: time limits *)

(** No report runs without a limit of 10 to 30 seconds, never below its own interval when that is at most 30
    seconds; a probe run is given more time than the longest batch it can be handed needs, and the whole cycle of
    intervals and limits is free of overflow. *)
Theorem worker_time_limits interval targets :
  0 < interval -> 10 * Second <= perCallTimeout interval <= 30 * Second /\
  (interval <= 30 * Second -> interval <= perCallTimeout interval) /\
  ProbeRunTimeout targets + 4 * Second <= maxProbeRunLoopTimeout.
Proof.
  intros Hi. destruct (ProbeRunTimeout_range targets) as [_ Hp].
  change maxProbeRunLoopTimeout with (125 * Second). assert (0 < Second) as Hs by done.
  revert Hp Hs. unfold perCallTimeout. generalize (ProbeRunTimeout targets), Second. intros p s Hp Hs.
  destruct (Z.leb_spec interval 0); [lia|]. destruct (Z.ltb_spec interval (10 * s)); [lia|].
  destruct (Z.ltb_spec interval (30 * s)); lia.
Qed.
Lemma worker_time_limits_witness :
  10 * Second <= perCallTimeout defaultStateInterval <= 30 * Second /\
  (defaultStateInterval <= 30 * Second -> defaultStateInterval <= perCallTimeout defaultStateInterval) /\
  ProbeRunTimeout [] + 4 * Second <= maxProbeRunLoopTimeout.
Proof. apply (worker_time_limits defaultStateInterval []). done. Defined.

(** The calls of a worker, recorded by their time limits. *)
Definition record_limit (timeout : Z) (l : list Z) : list Z := l ++ [timeout].
Fixpoint ticks (events : list loop_event) : nat :=
  match events with Tick :: events => S (ticks events) | _ => O end.

Lemma periodic_calls timeout events : forall l,
  runPeriodicWithTimeout timeout record_limit events l = l ++ replicate (ticks events) timeout.
Proof.
  induction events as [|[] events IH]; intros l; cbn [runPeriodicWithTimeout ticks replicate]; [by rewrite app_nil_r..|].
  rewrite IH. unfold record_limit. by rewrite <- app_assoc.
Qed.

(** Every worker calls once for each tick before its context ends and never after it; the configuration poller and the
    probe loop call once more, before the first tick, and stop there when the context ended during that call. *)
Theorem workers_stop_with_their_context interval events cancelled :
  runPeriodic interval record_limit events [] = replicate (ticks events) (perCallTimeout interval) /\
  runProbeConfigPoller record_limit cancelled events [] =
    20 * Second :: replicate (if cancelled then O else ticks events) (30 * Second) /\
  runProbeLoop record_limit cancelled events [] =
    125 * Second :: replicate (if cancelled then O else ticks events) (125 * Second).
Proof.
  unfold runPeriodic, runProbeConfigPoller, runProbeLoop, runPeriodic. split; [by rewrite periodic_calls|].
  split; (destruct cancelled; [done|]; by rewrite periodic_calls).
Qed.

(** ** Lemmas: the receipt and the reports *)
Section Receipt.
Context (Parse : string -> result go_error url) (plus_v : StateSample -> string) (goos goarch : string).
Context (client : Client) (version_text : string).

Notation do_report := (do_report Parse plus_v goos goarch client version_text).
Notation run_reports := (run_reports Parse plus_v goos goarch client version_text).

Definition report_marks (r : report) (res : result api_error (option unit)) : list bool :=
  match r, res with RHeartbeat, Ok _ => [true] | RState, Ok _ => [false] | _, _ => [] end.

(** The marks, the final reporter and the requests of a run: none of them depend on the files. *)
Fixpoint report_trace (reports : list (report * report_env)) (s : reporter) : list bool * reporter * list api_request :=
  match reports with
  | [] => ([], s, [])
  | (r, e) :: reports =>
      let '(s, (sent, res)) := do_report r e s in
      let '(marks, s, rest) := report_trace reports s in
      (report_marks r res ++ marks, s, sent ++ rest)
  end.

Lemma run_reports_marks reports : forall s t w,
  let '(marks, s', sent) := report_trace reports s in
  run_reports reports s t w = (t' ← run_marks marks t; mret (s', t', sent)) w.
Proof.
  induction reports as [|[r e] reports IH]; intros s t w; cbn [report_trace AgentMain.run_reports]; [done|].
  unfold report_step. destruct (do_report r e s) as [s1 [sent res]]. specialize (IH s1).
  destruct (report_trace reports s1) as [[marks s2] rest].
  assert (forall t1 w1, (run_reports reports s1 t1 ≫= (fun '(s, t, rest) => mret (s, t, sent ++ rest))) w1 =
    (t' ← run_marks marks t1; mret (s2, t', sent ++ rest)) w1) as Hrest.
  { intros t1 w1. specialize (IH t1 w1). unfold mbind, M_bind in IH |- *. rewrite IH.
    destruct (run_marks marks t1 w1) as [w2 [t2|err|]]; done. }
  unfold report_marks, markHeartbeat, markState.
  destruct r, res; cbn [app run_marks]; try apply Hrest;
    unfold mbind, M_bind in Hrest |- *; cbn; (destruct (mark _ t w) as [w1 [t1|err|]]; [apply Hrest|done..]).
Qed.

(** A report the Controller accepted: the client's own request, answered 2xx. *)
Definition accepted (route : string) (e : report_env) : Prop := exists q status body request,
  own_request Parse client "POST" route request q /\ e_send e q = ApiAnswer status body /\ 200 <= status < 300.

Lemma doJSON_accepted {A} send method route request (response : option (string -> option A)) sent a :
  doJSON Parse client send method route request response = (sent, Ok a) ->
  exists q status body, own_request Parse client method route request q /\ send q = ApiAnswer status body /\
    200 <= status < 300.
Proof.
  intros H. pose proof (doJSON_safe Parse client send method route request response) as Hs. rewrite H in Hs.
  apply doJSON_ok in H as (q & status & body & -> & Hsend & Hr). destruct Hs as (_ & _ & Hq).
  inversion Hq as [|? ? Hq' _]; subst. by exists q, status, body.
Qed.

Lemma marks_accepted reports : forall s, let '(marks, _, _) := report_trace reports s in
  (In true marks -> exists e, In (RHeartbeat, e) reports /\ accepted "/api/agent/v1/heartbeat" e) /\
  (In false marks -> exists e, In (RState, e) reports /\ accepted "/api/agent/v1/state" e).
Proof.
  induction reports as [|[r e] reports IH]; intros s; cbn [report_trace]; [done|].
  destruct (do_report r e s) as [s1 [sent res]] eqn:Ed. specialize (IH s1).
  destruct (report_trace reports s1) as [[marks s2] rest]. destruct IH as [IH1 IH2].
  assert (In true marks -> exists e0, In (RHeartbeat, e0) ((r, e) :: reports) /\ accepted "/api/agent/v1/heartbeat" e0) as H1.
  { intros H. destruct (IH1 H) as (e0 & Hin & Ha). exists e0. split; [by right|done]. }
  assert (In false marks -> exists e0, In (RState, e0) ((r, e) :: reports) /\ accepted "/api/agent/v1/state" e0) as H2.
  { intros H. destruct (IH2 H) as (e0 & Hin & Ha). exists e0. split; [by right|done]. }
  unfold report_marks. destruct r, res as [a|err]; cbn [app]; try (by split).
  - split; [|by intros [?|?]; [|apply H2]]. intros _. exists e. split; [by left|].
    cbn [AgentMain.do_report] in Ed. injection Ed as _ Ed. unfold reportHeartbeat, PostHeartbeat in Ed.
    apply doJSON_accepted in Ed as (q & status & body & Hq & Hs & Hr). exists q, status, body; eexists; by split.
  - split; [by intros [?|?]; [|apply H1]|]. intros _. exists e. split; [by left|].
    cbn [AgentMain.do_report] in Ed. unfold reportState in Ed.
    destruct (CollectState goos (rp_collector s) (e_readings e) (e_now e) (e_random e) (rp_sequence s)) as [[sample c] sq].
    injection Ed as _ Ed. unfold PostState in Ed. apply doJSON_accepted in Ed as (q & status & body & Hq & Hs & Hr).
    exists q, status, body; eexists; by split.
Qed.
End Receipt.

(** C16. The install receipt certifies what it says about the whole program: over any run of reports, in any order and
    under any I/O errors and crashes, the receipt's file is the old one or the complete receipt, and it changes only
    if one of the run's heartbeats and one of its state reports were requests of this client, to an accepted
    controller, that were answered with a 2xx status. *)
Theorem receipt_certifies_accepted_reports Parse plus_v goos goarch client version_text reports s p nonce fs :
  ~ receipt_temp p p ->
  wp any_fault (run_reports Parse plus_v goos goarch client version_text reports s (newInstallReceiptTracker (Some p) nonce))
    (fun _ fs' =>
      (fs' !! p = fs !! p \/ fs' !! p = Some (NFile (receipt_text nonce) 384)) /\
      (fs' !! p <> fs !! p ->
        (exists e, In (RHeartbeat, e) reports /\ accepted Parse client "/api/agent/v1/heartbeat" e) /\
        (exists e, In (RState, e) reports /\ accepted Parse client "/api/agent/v1/state" e))) fs.
Proof.
  intros Hp. pose proof (run_reports_marks Parse plus_v goos goarch client version_text reports s) as Hrun.
  pose proof (marks_accepted Parse plus_v goos goarch client version_text reports s) as Hmarks.
  destruct (report_trace Parse plus_v goos goarch client version_text reports s) as [[marks s'] sent].
  eapply wp_ext; [apply Hrun|]. apply wp_bind.
  eapply wp_conseq; [apply (run_marks_spec p nonce marks fs Hp)|].
  intros o fs' (H1 & H2 & _). destruct Hmarks as [Ht Hf].
  assert ((fs' !! p = fs !! p \/ fs' !! p = Some (NFile (receipt_text nonce) 384)) /\
    (fs' !! p <> fs !! p ->
      (exists e, In (RHeartbeat, e) reports /\ accepted Parse client "/api/agent/v1/heartbeat" e) /\
      (exists e, In (RState, e) reports /\ accepted Parse client "/api/agent/v1/state" e))) as Hpost.
  { split; [done|]. intros Hne. destruct (H2 Hne). by split; [apply Ht|apply Hf]. }
  destruct o; [by apply wp_ret|done|done].
Qed.
Lemma receipt_certifies_accepted_reports_witness :
  let client := NewClient "https://c.test" "n" "t" in
  let s := mkReporter (NewMetricsCollector [] []) (NewCachedNetworkIdentityDiscoverer Hour) 0 in
  let e := mkEnv 0 (linux_readings (fun _ => 0) (fun _ => Err ErrNotExist) (Err ErrNotExist) (fun _ => (0, 0)) "h" 1)
    None None (fun _ => ApiAnswer 204 None) in
  wp any_fault (run_reports demo_parse (fun _ => "") "linux" "amd64" client "v" (initial_reports e e e) s
      (newInstallReceiptTracker (Some demo_receipt) "n1"))
    (fun _ fs' => fs' !! demo_receipt = None \/ fs' !! demo_receipt = Some (NFile (receipt_text "n1") 384)) ∅.
Proof.
  cbv zeta. eapply wp_conseq.
  - apply (receipt_certifies_accepted_reports demo_parse (fun _ => "") "linux" "amd64" _ "v" _ _ demo_receipt "n1" ∅).
    intros [d E]. discriminate E.
  - intros o fs' [[H|H] _]; [left; by rewrite H|by right].
Defined.
