(* ===== verification/CommandLine.v ===== *)
(** * The command line (cmd/zeno-agent/main.go, main, and data_dir_*.go)

    The flags of the agent as package [flag] parses them, the durations as
    [time.ParseDuration] reads them, the defaults and what [main] makes of the
    result: the legacy interval, the token, the log file, the platform.  The
    file system answers [os.ReadFile] through an argument; the environment and
    [filepath.Join] of the platforms that need them are arguments too. *)

From S2P Require Export AgentMain LogFile.

(** ** Durations (time.ParseDuration) *)
Definition two63_10 : Z := 922337203685477580.  (* 1<<63 / 10 *)
Definition max_10 : Z := 922337203685477580.  (* (1<<63 - 1) / 10 *)

(** [leadingInt]: the digits in front and what follows; [None] when they overflow. *)
Fixpoint leadingInt (s : string) (x : Z) : option (Z * string) :=
  match s with
  | String c r =>
      if is_digit c then
        if two63_10 <? x then None
        else
          let x := u64 (x * 10 + digit_val c) in
          if two63 <? x then None else leadingInt r x
      else Some (x, s)
  | EmptyString => Some (x, "")
  end.

(** [leadingFraction]: digits that would overflow are read and dropped. *)
Fixpoint leadingFraction (s : string) (x : Z) (scale : spec_float) (overflow : bool) : Z * spec_float * string :=
  match s with
  | String c r =>
      if is_digit c then
        if overflow then leadingFraction r x scale true
        else if max_10 <? x then leadingFraction r x scale true
        else
          let y := u64 (x * 10 + digit_val c) in
          if two63 <? y then leadingFraction r x scale true
          else leadingFraction r y (f64_mul scale (f64_of_Z 10)) false
      else (x, scale, s)
  | EmptyString => (x, scale, "")
  end.

(** The unit: everything up to the next digit or point. *)
Fixpoint span_unit (s : string) : string * string :=
  match s with
  | String c r =>
      if is_digit c || bool_decide (c = dot_byte) then ("", s)
      else let '(u, rest) := span_unit r in (String c u, rest)
  | EmptyString => ("", "")
  end.

Definition unit_value (u : string) : option Z :=
  if bool_decide (u = "ns") then Some 1
  else if bool_decide (u = "us") || bool_decide (u = String (chr 194) (String (chr 181) "s")) ||
          bool_decide (u = String (chr 206) (String (chr 188) "s")) then Some Microsecond
  else if bool_decide (u = "ms") then Some Millisecond
  else if bool_decide (u = "s") then Some Second
  else if bool_decide (u = "m") then Some Minute
  else if bool_decide (u = "h") then Some Hour
  else None.

Definition starts_number (s : string) : bool :=
  match s with String c _ => is_digit c || bool_decide (c = dot_byte) | EmptyString => false end.

(** One number with its unit: its value and what follows. *)
Definition duration_part (s : string) : option (Z * string) :=
  if negb (starts_number s) then None
  else
    '(v, s1) ← leadingInt s 0;
    let pre := negb (String.length s =? String.length s1)%nat in
    let '(f, scale, s2, post) :=
      match s1 with
      | String c r =>
          if bool_decide (c = dot_byte) then
            let '(f, scale, s2) := leadingFraction r 0 (f64_of_Z 1) false in
            (f, scale, s2, negb (String.length r =? String.length s2)%nat)
          else (0, f64_of_Z 1, s1, false)
      | EmptyString => (0, f64_of_Z 1, s1, false)
      end in
    if negb pre && negb post then None
    else
      let '(u, rest) := span_unit s2 in
      if bool_decide (u = "") then None
      else
        unit ← unit_value u;
        if two63 / unit <? v then None
        else
          let v := v * unit in
          if 0 <? f then
            let v := u64 (v + default 0 (f64_trunc (f64_mul (f64_of_Z f) (f64_div (f64_of_Z unit) scale)))) in
            if two63 <? v then None else Some (v, rest)
          else Some (v, rest).

(** The loop; each round reads at least the unit. *)
Fixpoint duration_loop (fuel : nat) (s : string) (d : Z) : option Z :=
  match s with
  | EmptyString => Some d
  | _ =>
      match fuel with
      | O => None
      | S fuel =>
          '(v, rest) ← duration_part s;
          let d := u64 (d + v) in
          if two63 <? d then None else duration_loop fuel rest d
      end
  end.

Definition ParseDuration (s : string) : option Z :=
  let '(neg, s) :=
    match s with
    | String c r =>
        if bool_decide (c = "-"%char) then (true, r) else if bool_decide (c = "+"%char) then (false, r) else (false, s)
    | EmptyString => (false, s)
    end in
  if bool_decide (s = "0") then Some 0
  else if bool_decide (s = "") then None
  else
    d ← duration_loop (String.length s) s 0;
    if neg then Some (i64 (- d)) else if maxInt64 <? d then None else Some d.

Example parse_duration_1 :
  map ParseDuration ["3s"; "1h30m"; "1.5s"; "-250ms"; "+.5h"; "0"; "5"; "1d"; "9223372036854775807ns"; "2562047h48m"; "."; ".s"; "-9223372036854775808ns"]
  = [Some (3 * Second); Some (90 * Minute); Some (1500 * Millisecond); Some (- 250 * Millisecond); Some (30 * Minute);
     Some 0; None; None; Some maxInt64; None; None; None; Some minInt64].
Proof. vm_compute. reflexivity. Qed.

(** ** Flags (package flag) *)
Inductive string_flag : Type :=
| FControllerURL | FNodeID | FToken | FTokenFile | FVersion | FNetworkInterfaces | FDiskMounts | FDataDir
| FInstallReceiptFile | FInstallReceiptNonce | FLogFile.
Inductive duration_flag : Type := FInterval | FStateInterval | FHeartbeatInterval | FHostInterval | FIdentityRefreshInterval.
Inductive bool_flag : Type := FOnce | FAllowInsecureHTTP | FInstallCheck.
Inductive flag_value : Type := StringFlag (k : string_flag) | DurationFlag (k : duration_flag) | BoolFlag (k : bool_flag).

#[export] Instance string_flag_eq_dec : EqDecision string_flag.
Proof. solve_decision. Defined.
#[export] Instance duration_flag_eq_dec : EqDecision duration_flag.
Proof. solve_decision. Defined.
#[export] Instance bool_flag_eq_dec : EqDecision bool_flag.
Proof. solve_decision. Defined.

(** The flags [main] declares, by name. *)
Definition formal : list (string * flag_value) :=
  [("controller-url", StringFlag FControllerURL); ("node-id", StringFlag FNodeID); ("token", StringFlag FToken);
   ("token-file", StringFlag FTokenFile); ("interval", DurationFlag FInterval);
   ("state-interval", DurationFlag FStateInterval); ("heartbeat-interval", DurationFlag FHeartbeatInterval);
   ("host-interval", DurationFlag FHostInterval); ("once", BoolFlag FOnce); ("version", StringFlag FVersion);
   ("identity-refresh-interval", DurationFlag FIdentityRefreshInterval);
   ("network-interfaces", StringFlag FNetworkInterfaces); ("disk-mounts", StringFlag FDiskMounts);
   ("data-dir", StringFlag FDataDir); ("allow-insecure-http", BoolFlag FAllowInsecureHTTP);
   ("install-check", BoolFlag FInstallCheck); ("install-receipt-file", StringFlag FInstallReceiptFile);
   ("install-receipt-nonce", StringFlag FInstallReceiptNonce); ("log-file", StringFlag FLogFile)].

Fixpoint lookup_flag (l : list (string * flag_value)) (name : string) : option flag_value :=
  match l with
  | [] => None
  | (n, f) :: l => if bool_decide (n = name) then Some f else lookup_flag l name
  end.

(** What the flags point to: the configuration and [legacyInterval]. *)
Record flag_vars : Type := mkVars { v_cfg : config; v_legacyInterval : Z }.

Definition upd {K A : Type} `{EqDecision K} (k k' : K) (v old : A) : A := if bool_decide (k = k') then v else old.

Definition set_string (k : string_flag) (v : string) (f : flag_vars) : flag_vars :=
  let c := v_cfg f in
  mkVars (mkConfig (upd k FControllerURL v (ControllerURL c)) (upd k FNodeID v (NodeID c)) (upd k FToken v (Token c))
    (upd k FTokenFile v (TokenFile c)) (StateInterval c) (HeartbeatInterval c) (HostInterval c) (Once c)
    (upd k FVersion v (ConfigVersionText c)) (IdentityRefreshInterval c) (upd k FNetworkInterfaces v (NetworkInterfaces c))
    (upd k FDiskMounts v (DiskMounts c)) (upd k FDataDir v (DataDir c)) (AllowInsecureHTTP c) (InstallCheck c)
    (upd k FInstallReceiptFile v (InstallReceiptFile c)) (upd k FInstallReceiptNonce v (InstallReceiptNonce c))
    (upd k FLogFile v (LogFile c))) (v_legacyInterval f).
Definition set_duration (k : duration_flag) (v : Z) (f : flag_vars) : flag_vars :=
  let c := v_cfg f in
  mkVars (with_intervals (upd k FStateInterval v (StateInterval c)) (upd k FHeartbeatInterval v (HeartbeatInterval c))
    (upd k FHostInterval v (HostInterval c)) (upd k FIdentityRefreshInterval v (IdentityRefreshInterval c)) c)
    (upd k FInterval v (v_legacyInterval f)).
Definition set_bool (k : bool_flag) (v : bool) (f : flag_vars) : flag_vars :=
  let c := v_cfg f in
  mkVars (mkConfig (ControllerURL c) (NodeID c) (Token c) (TokenFile c) (StateInterval c) (HeartbeatInterval c)
    (HostInterval c) (upd k FOnce v (Once c)) (ConfigVersionText c) (IdentityRefreshInterval c) (NetworkInterfaces c)
    (DiskMounts c) (DataDir c) (upd k FAllowInsecureHTTP v (AllowInsecureHTTP c)) (upd k FInstallCheck v (InstallCheck c))
    (InstallReceiptFile c) (InstallReceiptNonce c) (LogFile c)) (v_legacyInterval f).

(** [strconv.ParseBool]. *)
Definition ParseBool (s : string) : option bool :=
  if existsb (fun t => bool_decide (t = s)) ["1"; "t"; "T"; "true"; "TRUE"; "True"] then Some true
  else if existsb (fun t => bool_decide (t = s)) ["0"; "f"; "F"; "false"; "FALSE"; "False"] then Some false
  else None.

Definition flag_Set (f : flag_value) (value : string) (vars : flag_vars) : option flag_vars :=
  match f with
  | StringFlag k => Some (set_string k value vars)
  | DurationFlag k => (fun d => set_duration k d vars) <$> ParseDuration value
  | BoolFlag k => (fun b => set_bool k b vars) <$> ParseBool value
  end.
Definition is_bool_flag (f : flag_value) : bool := match f with BoolFlag _ => true | _ => false end.

Inductive flag_error : Type :=
| BadFlagSyntax (arg : string)
| FlagNotDefined (name : string)
| ErrHelp
| FlagNeedsArgument (name : string)
| InvalidFlagValue (name value : string).

(** [parseOne]: no more flags, with the arguments left; or one flag; or an error. *)
Inductive parse_one : Type :=
| NoMoreFlags (args : list string)
| FlagSet (vars : flag_vars) (args : list string)
| FlagFailed (e : flag_error).

(** The flag's name, once the dashes are gone; [None] when there is none. *)
Definition flag_name (s : string) : option (bool * string) :=
  match s with
  | String a (String b r) =>
      if negb (bool_decide (a = "-"%char)) then None
      else if bool_decide (b = "-"%char) then Some (true, r) else Some (false, String b r)
  | _ => None
  end.

Definition parseOne (args : list string) (vars : flag_vars) : parse_one :=
  match args with
  | [] => NoMoreFlags []
  | s :: args' =>
      match flag_name s with
      | None => NoMoreFlags args
      | Some (true, EmptyString) => NoMoreFlags args'
      | Some (_, name) =>
          if bool_decide (name = "") || HasPrefix name "-" || HasPrefix name "=" then FlagFailed (BadFlagSyntax s)
          else
            let '(name, value) := match Cut name "=" with Some (n, v) => (n, Some v) | None => (name, None) end in
            match lookup_flag formal name with
            | None =>
                if bool_decide (name = "help") || bool_decide (name = "h") then FlagFailed ErrHelp
                else FlagFailed (FlagNotDefined name)
            | Some f =>
                let set value args :=
                  match flag_Set f value vars with
                  | Some vars => FlagSet vars args
                  | None => FlagFailed (InvalidFlagValue name value)
                  end in
                match value, is_bool_flag f, args' with
                | Some value, _, _ => set value args'
                | None, true, _ => set "true" args'
                | None, false, value :: args'' => set value args''
                | None, false, [] => FlagFailed (FlagNeedsArgument name)
                end
            end
      end
  end.

(** [Parse]: until there is no flag in front; the other arguments are not looked at. *)
Fixpoint parse_loop (fuel : nat) (args : list string) (vars : flag_vars) : option (result flag_error (flag_vars * list string)) :=
  match fuel with
  | O => None
  | S fuel =>
      match parseOne args vars with
      | NoMoreFlags rest => Some (Ok (vars, rest))
      | FlagSet vars rest => parse_loop fuel rest vars
      | FlagFailed e => Some (Err e)
      end
  end.
Definition flag_Parse (args : list string) (vars : flag_vars) : option (result flag_error (flag_vars * list string)) :=
  parse_loop (S (length args)) args vars.

(** ** Defaults *)

(** [defaultAgentDataDir]; [ConfigDir] is [os.UserConfigDir], [None] if it fails. *)
Inductive platform : Type := Linux | Darwin | Windows | Other.
Definition linux_data_dir : string := "/var/lib/zeno-agent".
Definition darwin_data_dir : string := "/Library/Application Support/Zeno Agent/data".
Definition windows_data_dir (Getenv : string -> string) (FilepathJoin : list string -> string) : string :=
  let programData := Getenv "ProgramData" in
  if negb (bool_decide (programData = "")) then FilepathJoin [programData; "Zeno"; "agent-data"]
  else "C:\ProgramData\Zeno\agent-data".
Definition other_data_dir (ConfigDir : option string) (TempDir : string) (FilepathJoin : list string -> string) : string :=
  match ConfigDir with
  | Some directory =>
      if negb (bool_decide (directory = "")) then FilepathJoin [directory; "zeno-agent"]
      else FilepathJoin [TempDir; "zeno-agent"]
  | None => FilepathJoin [TempDir; "zeno-agent"]
  end.
Definition defaultAgentDataDir (p : platform) (Getenv : string -> string) (ConfigDir : option string) (TempDir : string)
  (FilepathJoin : list string -> string) : string :=
  match p with
  | Linux => linux_data_dir
  | Darwin => darwin_data_dir
  | Windows => windows_data_dir Getenv FilepathJoin
  | Other => other_data_dir ConfigDir TempDir FilepathJoin
  end.

(** The variables as the flag definitions leave them. *)
Definition default_vars (defaultVersion dataDir : string) : flag_vars :=
  mkVars (mkConfig "http://127.0.0.1:18980" "example-node" "" "" defaultStateInterval defaultHeartbeatInterval
    defaultHostInterval false defaultVersion defaultIdentityRefreshInterval "" "" dataDir false false "" "" "") 0.

(** ** main *)
Inductive fatal_error : Type := TokenError (e : os_error) | LogError (e : log_error).
Inductive main_outcome : Type :=
| Exited (code : Z)  (* by package flag *)
| Fatal (e : fatal_error)  (* [log.Fatal] before the platform runs *)
| RunPlatform (c : config) (log : option path).

(** [main] up to the call of [runPlatform]. *)
Definition main (read : string -> result os_error string) (vars : flag_vars) (args : list string)
  : M log_error (option main_outcome) :=
  match flag_Parse args vars with
  | None => mret None
  | Some (Err ErrHelp) => mret (Some (Exited 0))
  | Some (Err _) => mret (Some (Exited 2))
  | Some (Ok (vars, _)) =>
      match parsed_config read (v_cfg vars) (v_legacyInterval vars) with
      | Err e => mret (Some (Fatal (TokenError e)))
      | Ok c =>
          r ← attempt (configureLogFile (LogFile c));
          match r with
          | Err e => mret (Some (Fatal (LogError e)))
          | Ok log => mret (Some (RunPlatform c log))
          end
      end
  end.

Definition demo_vars : flag_vars := default_vars "zeno-agent-dev" "/var/lib/zeno-agent".
Definition parsed (args : list string) : option (result flag_error (Z * bool * string * list string)) :=
  (fun r => '(f, rest) ← r; Ok (StateInterval (v_cfg f), Once (v_cfg f), NodeID (v_cfg f), rest)) <$> flag_Parse args demo_vars.

(** Dashes, values in the next argument, the end of the flags: a boolean flag takes
    no next argument, so that its "true" ends the flags and what follows is not read. *)
Example flag_parse_1 :
  map parsed [["-once"; "--state-interval=5s"; "-node-id"; "-x=1"; "rest"]; ["-once"; "true"; "-node-id"; "n"];
              ["--"; "-once"]; ["-"]; ["-state-interval"]; ["--once=maybe"]; ["-h"]; ["---once"]; ["-=x"]; ["-nope"]]
  = [Some (Ok (5 * Second, true, "-x=1", ["rest"])); Some (Ok (3 * Second, true, "example-node", ["true"; "-node-id"; "n"]));
     Some (Ok (3 * Second, false, "example-node", ["-once"])); Some (Ok (3 * Second, false, "example-node", ["-"]));
     Some (Err (FlagNeedsArgument "state-interval")); Some (Err (InvalidFlagValue "once" "maybe")); Some (Err ErrHelp);
     Some (Err (BadFlagSyntax "---once")); Some (Err (BadFlagSyntax "-=x")); Some (Err (FlagNotDefined "nope"))].
Proof. vm_compute. reflexivity. Qed.

(** ** Lemmas: durations *)
Lemma digits_value_ge p : forall x, str_forall is_digit p = true -> 0 <= x -> x <= digits_value p x.
Proof.
  induction p as [|c p IH]; intros x Hp Hx; [simpl; lia|]. simpl in Hp |- *. apply andb_true_iff in Hp as [Hc Hp].
  assert (0 <= digit_val c) by (unfold is_digit in Hc; unfold digit_val; zcase; simpl in Hc; lia || done).
  specialize (IH (x * 10 + digit_val c) Hp ltac:(lia)). lia.
Qed.

Lemma leadingInt_digits p rest : str_forall is_digit p = true -> (match rest with String c _ => is_digit c = false | EmptyString => True end) ->
  forall x, 0 <= x <= two63 -> leadingInt (p +:+ rest) x = if digits_value p x <=? two63 then Some (digits_value p x, rest) else None.
Proof.
  intros Hp Hrest. induction p as [|c p IH]; intros x Hx; cbn [digits_value].
  { rewrite (proj2 (Z.leb_le _ _)) by lia. destruct rest as [|c rest]; [done|]. simpl. by rewrite Hrest. }
  simpl in Hp. apply andb_true_iff in Hp as [Hc Hp]. rewrite app_cons_str. cbn [leadingInt]. rewrite Hc.
  assert (0 <= digit_val c <= 9) as Hd by (unfold is_digit in Hc; unfold digit_val; zcase; simpl in Hc; lia || done).
  pose proof (digits_value_ge p (x * 10 + digit_val c) Hp ltac:(lia)) as Hge.
  assert (two63 = 10 * two63_10 + 8 /\ two63 + two63 = two64) as [H10 H64] by (by vm_compute).
  destruct (Z.ltb_spec two63_10 x) as [Hbig|Hsmall]; [rewrite (proj2 (Z.leb_gt _ _)) by lia; done|].
  cbv zeta. rewrite u64_id by (unfold two63_10 in *; lia).
  destruct (Z.ltb_spec two63 (x * 10 + digit_val c)); [rewrite (proj2 (Z.leb_gt _ _)) by lia; done|].
  apply IH; [done|lia].
Qed.

(** The units by their names. *)
Definition units : list (string * Z) :=
  [("ns", 1); ("us", Microsecond); ("ms", Millisecond); ("s", Second); ("m", Minute); ("h", Hour)].

Lemma units_facts u k : (u, k) ∈ units -> 0 < k /\ u <> "" /\ unit_value u = Some k /\ span_unit u = (u, "") /\
  exists c r, u = String c r /\ is_digit c = false /\ c <> dot_byte.
Proof.
  unfold units. rewrite !elem_of_cons, elem_of_nil. intros H.
  repeat (destruct H as [H|H]; [injection H as -> ->;
    split; [by vm_compute|]; split; [done|]; split; [by vm_compute|]; split; [by vm_compute|];
    eexists _, _; split; [reflexivity|]; split; [by vm_compute|by vm_compute]|]). done.
Qed.

Lemma all_digits_length p r : all_digits p = true -> (String.length (p +:+ r) =? String.length r)%nat = false.
Proof.
  intros (c & q & -> & _)%all_digits_head. apply Nat.eqb_neq. rewrite length_app_str. cbn [String.length]. lia.
Qed.

Lemma part_int p u k : all_digits p = true -> (u, k) ∈ units ->
  duration_part (p +:+ u) = if digits_value p 0 * k <=? two63 then Some (digits_value p 0 * k, "") else None.
Proof.
  intros Hp Hu. destruct (units_facts u k Hu) as (Hk & Hne & Hval & Hspan & c & r & -> & Hc & Hdot).
  unfold duration_part. destruct (all_digits_head p Hp) as (d & q & -> & Hd & Hq).
  assert (starts_number (String d q +:+ String c r) = true) as -> by (rewrite app_cons_str; simpl; by rewrite Hd).
  cbn [negb]. assert (0 <= two63) by (by vm_compute).
  assert (str_forall is_digit (String d q) = true) as Hdq by (simpl; by rewrite Hd).
  rewrite leadingInt_digits by (done || lia).
  set (v := digits_value (String d q) 0). assert (0 <= v) as Hv by (by apply digits_value_ge).
  assert (v <= v * k) by nia.
  destruct (Z.leb_spec v two63) as [Hle|Hgt]; cbn [mbind option_bind]; [|by rewrite (proj2 (Z.leb_gt _ _)) by lia].
  cbv zeta. rewrite all_digits_length by done. rewrite bool_decide_false by done. cbn [negb andb].
  rewrite Hspan, (bool_decide_false (String c r = "")), Hval by done. cbn [mbind option_bind].
  destruct (Z.ltb_spec (two63 / k) v) as [Hlt|Hge].
  - rewrite (proj2 (Z.leb_gt _ _)); [done|]. pose proof (Z.mul_succ_div_gt two63 k Hk). nia.
  - change (0 <? 0) with false. cbv iota. rewrite (proj2 (Z.leb_le _ _)); [done|].
    pose proof (Z.mul_div_le two63 k Hk). nia.
Qed.

Lemma loop_int p u k n : all_digits p = true -> (u, k) ∈ units ->
  duration_loop (S n) (p +:+ u) 0 = if digits_value p 0 * k <=? two63 then Some (digits_value p 0 * k) else None.
Proof.
  intros Hp Hu. destruct (units_facts u k Hu) as (Hk & _). destruct (all_digits_head p Hp) as (d & q & -> & Hd & Hq).
  rewrite app_cons_str. cbn [duration_loop]. rewrite <- app_cons_str, (part_int _ _ _ Hp Hu).
  set (v := digits_value (String d q) 0 * k).
  assert (0 <= v) as Hv.
  { unfold v. assert (0 <= digits_value (String d q) 0); [|nia]. apply digits_value_ge; [simpl; by rewrite Hd|lia]. }
  destruct (Z.leb_spec v two63); cbn [mbind option_bind]; [|done].
  assert (two63 < two64) by (by vm_compute). rewrite Z.add_0_l, u64_id by lia. cbv zeta.
  destruct (Z.ltb_spec two63 v); [lia|]. by destruct n.
Qed.

Lemma parse_unsigned p u k : all_digits p = true -> (u, k) ∈ units ->
  ParseDuration (p +:+ u) = if digits_value p 0 * k <=? maxInt64 then Some (digits_value p 0 * k) else None.
Proof.
  intros Hp Hu. destruct (units_facts u k Hu) as (_ & Hne & _). pose proof (all_digits_head p Hp) as (d & q & E & Hd & Hq).
  unfold ParseDuration. assert (forall c, is_digit c = true -> c <> "-"%char /\ c <> "+"%char) as Hsign by (by intros c Hc; split; intros ->).
  rewrite E, app_cons_str. destruct (Hsign d Hd) as [H1 H2]. rewrite !bool_decide_false by done. cbv beta iota.
  rewrite <- app_cons_str, <- E. rewrite bool_decide_false, bool_decide_false.
  - rewrite length_app_str. rewrite E at 1. cbn [String.length Nat.add]. rewrite (loop_int p u k _ Hp Hu).
    assert (two63 = maxInt64 + 1) by (by vm_compute).
    set (v := digits_value p 0 * k). destruct (Z.leb_spec v two63), (Z.leb_spec v maxInt64); cbn [mbind option_bind]; try lia; try done.
    + destruct (Z.ltb_spec maxInt64 v); [lia|done].
    + destruct (Z.ltb_spec maxInt64 v); [done|lia].
  - rewrite E, app_cons_str. done.
  - rewrite E, app_cons_str. intros [= -> Er]. apply Hne. by destruct q.
Qed.

Lemma parse_negative p u k : all_digits p = true -> (u, k) ∈ units ->
  ParseDuration ("-" +:+ p +:+ u) = if digits_value p 0 * k <=? two63 then Some (- (digits_value p 0 * k)) else None.
Proof.
  intros Hp Hu. destruct (units_facts u k Hu) as (Hk & Hne & _). pose proof (all_digits_head p Hp) as (d & q & E & Hd & Hq).
  change ("-" +:+ p +:+ u) with (String "-" (p +:+ u)). unfold ParseDuration. rewrite bool_decide_true by done. cbv beta iota.
  rewrite bool_decide_false, bool_decide_false.
  - rewrite length_app_str. rewrite E at 1. cbn [String.length Nat.add]. rewrite (loop_int p u k _ Hp Hu).
    assert (0 <= digits_value p 0) by (apply digits_value_ge; [rewrite E; simpl; by rewrite Hd|lia]).
    assert (minInt64 = - two63 /\ 0 < maxInt64) as [? ?] by (by vm_compute).
    destruct (Z.leb_spec (digits_value p 0 * k) two63); cbn [mbind option_bind]; [|done].
    rewrite i64_id; [done|]. unfold in_i64. nia.
  - rewrite E, app_cons_str. done.
  - rewrite E, app_cons_str. intros [= -> Er]. apply Hne. by destruct q.
Qed.

(** A duration as a number of nanoseconds. *)
Definition duration_text (d : Z) : string := Itoa d +:+ "ns".

Lemma ns_unit : ("ns", 1) ∈ units.
Proof. constructor. Qed.

Lemma parse_duration_text d : in_i64 d -> ParseDuration (duration_text d) = Some d.
Proof.
  unfold in_i64, duration_text, Itoa. intros Hd. assert (minInt64 = - two63) by (by vm_compute).
  destruct (Z.ltb_spec d 0).
  - destruct (utoa_spec (- d) ltac:(lia)) as (Hall & Hval & _).
    rewrite app_assoc_str, (parse_negative _ _ 1 Hall ns_unit), Hval, Z.mul_1_r.
    rewrite (proj2 (Z.leb_le _ _)) by lia. f_equal. lia.
  - destruct (utoa_spec d ltac:(lia)) as (Hall & Hval & _). rewrite (parse_unsigned _ _ 1 Hall ns_unit), Hval, Z.mul_1_r.
    by rewrite (proj2 (Z.leb_le _ _)) by lia.
Qed.

(** ** Lemmas: flags *)

(** An assignment of the command line, as it is written there. *)
Inductive written : Type :=
| Joined (dashes : bool) (name value : string)  (* -name=value, --name=value *)
| Separate (dashes : bool) (name value : string)  (* -name value *)
| Bare (dashes : bool) (name : string).  (* -name *)

Definition dash (dashes : bool) : string := if dashes then "--" else "-".
Definition write (a : written) : list string :=
  match a with
  | Joined d name value => [dash d +:+ name +:+ "=" +:+ value]
  | Separate d name value => [dash d +:+ name; value]
  | Bare d name => [dash d +:+ name]
  end.

(** What it means: a flag and its value. *)
Definition meaning (a : written) : option (flag_value * string) :=
  match a with
  | Joined _ name value => (fun f => (f, value)) <$> lookup_flag formal name
  | Separate _ name value => f ← lookup_flag formal name; if is_bool_flag f then None else Some (f, value)
  | Bare _ name => f ← lookup_flag formal name; if is_bool_flag f then Some (f, "true") else None
  end.

Fixpoint assign (l : list written) (vars : flag_vars) : option flag_vars :=
  match l with
  | [] => Some vars
  | a :: l => '(f, value) ← meaning a; vars ← flag_Set f value vars; assign l vars
  end.

(** Arguments at which the flags end. *)
Definition no_flag (rest : list string) : Prop :=
  match rest with [] => True | s :: _ => flag_name s = None end.

Lemma formal_name name f : lookup_flag formal name = Some f ->
  exists c r, name = String c r /\ c <> "-"%char /\ c <> "="%char /\ str_exists (Ascii.eqb "=") name = false.
Proof.
  assert (Forall (fun p : string * flag_value => exists c r, p.1 = String c r /\ c <> "-"%char /\ c <> "="%char /\
    str_exists (Ascii.eqb "=") p.1 = false) formal) as Hall.
  { unfold formal. repeat (apply Forall_cons_2; [cbn [fst]; eexists _, _; (split; [reflexivity|]);
      (split; [discriminate|]); (split; [discriminate|]); vm_compute; reflexivity|]). apply Forall_nil_2. }
  revert Hall. generalize formal. induction l as [|[n g] l IH]; [done|]. intros Hall Hl.
  apply Forall_cons in Hall as [Hn Hall]. simpl in Hl. case_bool_decide as E; [by subst|by apply IH].
Qed.

Lemma flag_name_dash d c r : c <> "-"%char -> flag_name (dash d +:+ String c r) = Some (d, String c r).
Proof. intros Hc. destruct d; simpl; [done|]. by rewrite bool_decide_false. Qed.

Lemma name_prefix c r p q : c <> p -> HasPrefix (String c r) (String p q) = false.
Proof. intros H. unfold HasPrefix. simpl. by rewrite decide_False by congruence. Qed.

(** One assignment of the command line. *)
Lemma parseOne_written a f value rest vars : meaning a = Some (f, value) ->
  parseOne (write a ++ rest) vars =
    match flag_Set f value vars with
    | Some vars => FlagSet vars rest
    | None => FlagFailed (InvalidFlagValue (match a with Joined _ n _ | Separate _ n _ | Bare _ n => n end) value)
    end.
Proof.
  destruct a as [d name v|d name v|d name]; cbn [meaning write app parseOne].
  - destruct (lookup_flag formal name) as [g|] eqn:El; [|done]. intros [= <- <-].
    destruct (formal_name name g El) as (c & r & -> & Hc & He & Hno).
    rewrite app_cons_str, flag_name_dash by done. cbn [andb]. rewrite !name_prefix, bool_decide_false by done. cbn [orb].
    rewrite <- app_cons_str. change ("=" +:+ v) with (String "=" v). rewrite (Cut_byte "="), El by done. cbn [is_bool_flag]. by destruct d.
  - destruct (lookup_flag formal name) as [g|] eqn:El; [|done]. cbn [mbind option_bind].
    destruct (is_bool_flag g) eqn:Eb; [done|]. intros [= <- <-].
    destruct (formal_name name g El) as (c & r & -> & Hc & He & Hno).
    rewrite flag_name_dash by done. rewrite !name_prefix, bool_decide_false by done. cbn [orb].
    rewrite (Cut_byte_none "="), El, Eb by done. by destruct d.
  - destruct (lookup_flag formal name) as [g|] eqn:El; [|done]. cbn [mbind option_bind].
    destruct (is_bool_flag g) eqn:Eb; [|done]. intros [= <- <-].
    destruct (formal_name name g El) as (c & r & -> & Hc & He & Hno).
    rewrite flag_name_dash by done. rewrite !name_prefix, bool_decide_false by done. cbn [orb].
    rewrite (Cut_byte_none "="), El, Eb by done. by destruct d.
Qed.

Lemma parse_assigns l : forall vars vars' rest fuel, assign l vars = Some vars' -> no_flag rest ->
  (length l < fuel)%nat -> parse_loop fuel (concat (map write l) ++ rest) vars = Some (Ok (vars', rest)).
Proof.
  induction l as [|a l IH]; intros vars vars' rest fuel Ha Hrest Hf; (destruct fuel as [|fuel]; [simpl in Hf; lia|]).
  { injection Ha as <-. cbn [map concat app parse_loop]. destruct rest as [|s rest]; [done|]. simpl in Hrest |- *.
    by rewrite Hrest. }
  cbn [assign] in Ha. destruct (meaning a) as [[f value]|] eqn:Em; [|done]. cbn [mbind option_bind] in Ha.
  cbn [map concat parse_loop]. rewrite <- app_assoc, (parseOne_written a f value) by done.
  destruct (flag_Set f value vars) as [vars1|]; [|done]. apply IH; [done|done|]. simpl in Hf. lia.
Qed.

Lemma write_length l : (length l <= length (concat (map write l)))%nat.
Proof.
  induction l as [|a l IH]; [done|]. cbn [map concat length]. rewrite length_app.
  assert (1 <= length (write a))%nat by (destruct a; simpl; lia). lia.
Qed.

(** Each flag consumes an argument, so [parse_loop] has fuel to spare. *)
Lemma parseOne_shrinks args vars vars' rest : parseOne args vars = FlagSet vars' rest -> (length rest < length args)%nat.
Proof.
  destruct args as [|s args]; [done|]. cbn [parseOne]. destruct (flag_name s) as [[d n]|]; [|done].
  intros H. cbn [length]. enough (length rest <= length args)%nat by lia. revert H.
  repeat case_match; intros H'; simplify_eq; simpl; lia.
Qed.

Lemma parse_loop_total fuel : forall args vars, (length args < fuel)%nat -> parse_loop fuel args vars <> None.
Proof.
  induction fuel as [|fuel IH]; intros args vars Hf; [lia|]. cbn [parse_loop].
  destruct (parseOne args vars) as [rest|vars1 rest|e] eqn:E; [done| |done].
  apply IH. apply parseOne_shrinks in E. lia.
Qed.

(** The assignments that make up a configuration. *)
Definition bool_text (b : bool) : string := if b then "true" else "false".
Definition config_assignments (c : config) : list written :=
  map (fun '(name, value) => Joined false name value)
    [("controller-url", ControllerURL c); ("node-id", NodeID c); ("token", Token c); ("token-file", TokenFile c);
     ("state-interval", duration_text (StateInterval c)); ("heartbeat-interval", duration_text (HeartbeatInterval c));
     ("host-interval", duration_text (HostInterval c)); ("once", bool_text (Once c)); ("version", ConfigVersionText c);
     ("identity-refresh-interval", duration_text (IdentityRefreshInterval c));
     ("network-interfaces", NetworkInterfaces c); ("disk-mounts", DiskMounts c); ("data-dir", DataDir c);
     ("allow-insecure-http", bool_text (AllowInsecureHTTP c)); ("install-check", bool_text (InstallCheck c));
     ("install-receipt-file", InstallReceiptFile c); ("install-receipt-nonce", InstallReceiptNonce c);
     ("log-file", LogFile c)].

(** The intervals are values of [time.Duration]. *)
Definition durations_ok (c : config) : Prop :=
  in_i64 (StateInterval c) /\ in_i64 (HeartbeatInterval c) /\ in_i64 (HostInterval c) /\ in_i64 (IdentityRefreshInterval c).

Lemma set_bool_text k b vars : flag_Set (BoolFlag k) (bool_text b) vars = Some (set_bool k b vars).
Proof. unfold flag_Set. destruct b; [change (ParseBool (bool_text true)) with (Some true)|change (ParseBool (bool_text false)) with (Some false)]; done. Qed.

Lemma set_duration_text k d vars : in_i64 d -> flag_Set (DurationFlag k) (duration_text d) vars = Some (set_duration k d vars).
Proof. intros Hd. unfold flag_Set. by rewrite parse_duration_text. Qed.

Lemma assign_joined name f value vars vars' l : lookup_flag formal name = Some f ->
  flag_Set f value vars = Some vars' -> assign (Joined false name value :: l) vars = assign l vars'.
Proof. intros Hn Hs. cbn [assign meaning]. rewrite Hn. cbn [fmap option_fmap option_map mbind option_bind]. by rewrite Hs. Qed.

Lemma assign_config c vars : durations_ok c ->
  assign (config_assignments c) vars = Some (mkVars c (v_legacyInterval vars)).
Proof.
  intros (H1 & H2 & H3 & H4). unfold config_assignments. cbn [map].
  repeat (erewrite assign_joined; [|reflexivity|first [reflexivity|apply set_bool_text|by apply set_duration_text]]).
  cbn [assign]. f_equal. destruct c, vars. reflexivity.
Qed.

(** ** Properties *)

(** C24. Every configuration can be given on the command line and arrives as it is.  For any configuration whose
    intervals are int64 durations, whatever its strings contain and whatever the defaults were (with the deprecated
    interval at its default 0), the arguments that spell it out are parsed to exactly that configuration: [main] stops
    with the error of [readToken] if it has one, then with the error of opening the configured log file if it has one,
    whatever fails there, and else runs the platform with that configuration, the token that was read and that log; a
    blank log file name opens none and changes nothing. *)
Theorem command_line_round_trip read vars c w :
  durations_ok c -> v_legacyInterval vars = 0 ->
  main read vars (concat (map write (config_assignments c))) w =
    match readToken read (Token c) (TokenFile c) with
    | Err e => (w, Done (Some (Fatal (TokenError e))))
    | Ok token =>
        match configureLogFile (LogFile c) w with
        | (w', Done log) => (w', Done (Some (RunPlatform (with_Token token c) log)))
        | (w', Fail e) => (w', Done (Some (Fatal (LogError e))))
        | (w', Crashed) => (w', Crashed)
        end
    end /\
  (TrimSpace (LogFile c) = "" -> configureLogFile (LogFile c) w = (w, Done None)).
Proof.
  intros Hd Hlegacy. split.
  2: { intros Hlog. unfold configureLogFile. rewrite Hlog. cbv zeta. by rewrite bool_decide_true. }
  unfold main, flag_Parse.
  pose proof (write_length (config_assignments c)) as Hlen.
  rewrite <- (app_nil_r (concat (map write (config_assignments c)))).
  rewrite (parse_assigns _ vars (mkVars c (v_legacyInterval vars)) []); [|by apply assign_config|done|].
  - cbn [v_cfg v_legacyInterval]. rewrite Hlegacy. unfold parsed_config. change (0 <? 0) with false. cbv iota.
    destruct (readToken read (Token c) (TokenFile c)) as [token|e]; [|done].
    change (LogFile (with_Token token c)) with (LogFile c). unfold mbind, M_bind, attempt.
    by destruct (configureLogFile (LogFile c) w) as [w' [log|e|]].
  - rewrite app_nil_r. lia.
Qed.

(** The command line is a sequence of assignments, and the last one wins.  Arguments written as -name=value,
    --name=value, -name value or, for a boolean, -name set exactly the flags they name, in order, up to the first
    argument that is no flag; what follows it is not looked at. *)
Theorem flags_are_assignments l rest vars vars' :
  assign l vars = Some vars' -> no_flag rest ->
  flag_Parse (concat (map write l) ++ rest) vars = Some (Ok (vars', rest)).
Proof.
  intros Ha Hrest. unfold flag_Parse. apply parse_assigns; [done|done|].
  pose proof (write_length l). rewrite length_app. lia.
Qed.

(** Parsing the command line ends for all arguments: each flag consumes at least one. *)
Theorem flag_parse_terminates args vars : flag_Parse args vars <> None.
Proof. apply parse_loop_total. lia. Qed.

(** Durations are read exactly or refused.  A whole number with a unit is its value in nanoseconds when that
    fits a [time.Duration], the smallest one included, and an error when it does not; nothing wraps around. *)
Theorem durations_exact p u k : all_digits p = true -> (u, k) ∈ units ->
  ParseDuration (p +:+ u) = (if digits_value p 0 * k <=? maxInt64 then Some (digits_value p 0 * k) else None) /\
  ParseDuration ("-" +:+ p +:+ u) = (if - (digits_value p 0 * k) <? minInt64 then None else Some (- (digits_value p 0 * k))).
Proof.
  intros Hp Hu. split; [by apply parse_unsigned|]. rewrite (parse_negative p u k) by done.
  assert (minInt64 = - two63) by (by vm_compute).
  destruct (Z.leb_spec (digits_value p 0 * k) two63), (Z.ltb_spec (- (digits_value p 0 * k)) minInt64); lia || done.
Qed.

(** The deprecated interval replaces the state interval, wherever it stands. *)
Theorem legacy_interval_replaces read c legacy c' : parsed_config read c legacy = Ok c' ->
  StateInterval c' = (if 0 <? legacy then legacy else StateInterval c) /\
  HeartbeatInterval c' = HeartbeatInterval c /\ HostInterval c' = HostInterval c.
Proof.
  unfold parsed_config. intros H. destruct (0 <? legacy); revert H; (destruct (readToken _ _ _); [|done]);
    by intros [= <-].
Qed.

(** ** Witnesses *)
Definition demo_config : config :=
  mkConfig "https://c.test" "-n=1" " t " "" (5 * Second) (7 * Second) (-1) true "" Hour "eth0" "/" "/data" false false
    "" "" "/var/log/zeno.log".

Lemma demo_durations : durations_ok demo_config.
Proof. by vm_compute. Qed.

Lemma command_line_round_trip_witness :
  let r := main (fun _ => Err ErrNotExist) demo_vars (concat (map write (config_assignments demo_config)))
    (mkWorld ∅ [] [] false) in
  snd r = Done (Some (RunPlatform (with_Token "t" demo_config) (Some ("/var/log", "zeno.log")))) /\
  files (fst r) !! ("/var/log", "zeno.log") = Some (NFile "" 384).
Proof.
  destruct (command_line_round_trip (fun _ => Err ErrNotExist) demo_vars demo_config (mkWorld ∅ [] [] false)
    demo_durations eq_refl) as [H _].
  cbv zeta. rewrite H. clear H. split; vm_compute; reflexivity.
Defined.

Lemma flags_are_assignments_witness :
  flag_Parse (["-once"] ++ ["--node-id"; "a"] ++ ["-node-id=b"] ++ ["x"; "-node-id=c"]) demo_vars =
    Some (Ok (set_string FNodeID "b" (set_bool FOnce true demo_vars), ["x"; "-node-id=c"])).
Proof.
  apply (flags_are_assignments [Bare false "once"; Separate true "node-id" "a"; Joined false "node-id" "b"]
    ["x"; "-node-id=c"]); by vm_compute.
Defined.

Lemma hour_unit : ("h", Hour) ∈ units.
Proof. do 5 right. left. Qed.

Lemma durations_exact_witness :
  ParseDuration "2562047h" = Some (2562047 * Hour) /\ ParseDuration "2562048h" = None /\
  ParseDuration "-2562048h" = None.
Proof.
  destruct (durations_exact "2562047" "h" Hour) as [H1 _]; [by vm_compute|apply hour_unit|].
  split; [exact H1|]. destruct (durations_exact "2562048" "h" Hour) as [H2 H3]; [by vm_compute|apply hour_unit|].
  split; [exact H2|exact H3].
Defined.

(** The deprecated interval on a command line. *)
Example legacy_interval_1 :
  (fun r => '(f, _) ← r; Ok (StateInterval <$> match parsed_config (fun _ => Err ErrNotExist) (v_cfg f) (v_legacyInterval f) with
    Ok c => Some c | Err _ => None end)) <$> flag_Parse ["-interval=10s"; "-state-interval=5s"] demo_vars
  = Some (Ok (Some (10 * Second))).
Proof. vm_compute. reflexivity. Qed.
