(* ===== verification/Service.v ===== *)
(** * The platform service (cmd/zeno-agent/service_windows.go, service_other.go)

    The handler the Windows service manager talks to, as a step relation: the
    agent's end, the requests of the manager and the wait for the end are the
    events, the statuses sent to the manager the output. *)

From S2P Require Export AgentMain.

Inductive service_cmd : Type := Interrogate | StopCmd | ShutdownCmd | OtherCmd (code : Z).
Inductive service_status : Type := StartPending | Running | StopPending | Stopped | CurrentStatus.
Definition service_stop_wait : Z := 20 * Second.

(** Where [Execute] waits: for the agent or a request, for the agent after a
    stop request, or it has returned its exit code. *)
Inductive service_state : Type := Serving | Stopping | Ended (code : Z).
Inductive service_event : Type :=
| AgentReturned (err : option run_error)
| ServiceRequest (cmd : service_cmd)
| WaitElapsed.

(** The exit code of an agent that ended: cancellation is not an error. *)
Definition exit_code (err : option run_error) : Z :=
  match err with Some (RunFailed _) => 1 | _ => 0 end.

(** The statuses sent, and whether the agent's context is cancelled. *)
Inductive execute_step : service_state -> service_event -> service_state -> list service_status -> bool -> Prop :=
| step_returned err : execute_step Serving (AgentReturned err) (Ended (exit_code err)) [Stopped] false
| step_interrogate : execute_step Serving (ServiceRequest Interrogate) Serving [CurrentStatus] false
| step_stop cmd : cmd = StopCmd \/ cmd = ShutdownCmd ->
    execute_step Serving (ServiceRequest cmd) Stopping [StopPending] true
| step_unexpected code : execute_step Serving (ServiceRequest (OtherCmd code)) Serving [] false
| step_stopped err : execute_step Stopping (AgentReturned err) (Ended (exit_code err)) [Stopped] false
| step_timed_out : execute_step Stopping WaitElapsed (Ended 1) [Stopped] false.

(** A run of [Execute]: its events, all it sent, and whether it has cancelled the agent. *)
Inductive execute : list service_event -> service_state -> list service_status -> bool -> Prop :=
| execute_start : execute [] Serving [StartPending; Running] false
| execute_next events st sent cancelled event st' more cancels :
    execute events st sent cancelled -> execute_step st event st' more cancels ->
    execute (events ++ [event]) st' (sent ++ more) (cancelled || cancels).

(** [runPlatform] on Windows: [svc.IsWindowsService] decides. *)
Inductive platform_run (E : Type) : Type := PlatformError (e : E) | RunService (name : string) | RunOnConsole.
Arguments PlatformError {E}. Arguments RunService {E}. Arguments RunOnConsole {E}.
Definition runPlatform {E} (IsWindowsService : result E bool) : platform_run E :=
  match IsWindowsService with
  | Err e => PlatformError e
  | Ok true => RunService "zeno-agent"
  | Ok false => RunOnConsole
  end.

(** [runPlatform]: as a service, or on the console with its shutdown signals. *)
Inductive shutdown_signal : Type := Interrupt | SIGTERM.
Definition runPlatform_signals (windows : bool) : list shutdown_signal := if windows then [Interrupt] else [Interrupt; SIGTERM].

(** What the manager has been told in each state: [n] answers to interrogations. *)
Definition told (st : service_state) (sent : list service_status) (cancelled : bool) : Prop :=
  exists n, let head := StartPending :: Running :: repeat CurrentStatus n in
  match st with
  | Serving => sent = head /\ cancelled = false
  | Stopping => sent = head ++ [StopPending] /\ cancelled = true
  | Ended code =>
      (code = 0 \/ code = 1) /\
      (sent = head ++ [Stopped] /\ cancelled = false \/ sent = head ++ [StopPending; Stopped] /\ cancelled = true)
  end.

Lemma exit_code_range err : exit_code err = 0 \/ exit_code err = 1.
Proof. destruct err as [[|m]|]; cbn; auto. Qed.

Lemma execute_told events st sent cancelled : execute events st sent cancelled -> told st sent cancelled.
Proof.
  induction 1 as [|events st sent cancelled event st' more cancels _ [n IH] Hs]; [by exists 0%nat|].
  inversion Hs; subst; cbn in IH; [| | | | |].
  all: try (destruct IH as [-> ->]).
  - exists n. split; [apply exit_code_range|by left].
  - exists (S n). cbn. split; [|done]. rewrite <- repeat_cons. done.
  - exists n. done.
  - exists n. cbn. by rewrite app_nil_r.
  - exists n. split; [apply exit_code_range|right]. cbn. by rewrite <- app_assoc.
  - exists n. split; [by right|right]. cbn. by rewrite <- app_assoc.
Qed.

(** The service speaks the manager's protocol.  In every reachable state it has
    reported StartPending and Running once, then only answers; it reports
    StopPending exactly when it cancels the agent, and Stopped once, last, when
    it returns with code 0 or 1; after that no event has any effect. *)
Theorem service_protocol events st sent cancelled : execute events st sent cancelled ->
  told st sent cancelled /\
  (forall code, st = Ended code -> forall event st' more cancels, ~ execute_step st event st' more cancels) /\
  (st = Stopping -> forall event, (exists st' more cancels, execute_step st event st' more cancels) ->
     exists code, execute (events ++ [event]) (Ended code) (sent ++ [Stopped]) true).
Proof.
  intros He. split; [by eapply execute_told|]. split.
  - intros code -> event st' more cancels Hs. inversion Hs.
  - intros -> event (st' & more & cancels & Hs). destruct (execute_told _ _ _ _ He) as (n & Hsent & Hc).
    pose proof (execute_next _ _ _ _ _ _ _ _ He Hs) as Hn. inversion Hs; subst; eauto.
Qed.
